(* ===== verification/_CoqProject ===== *)
-Q . S2P
Prelude.v
SystemError.v
Bytes.v
Socket.v
ReadBuffer.v
HTTPFragment.v
HTTPMessage.v
HTTPRequest.v
HTTPResponse.v
URI.v
Cache.v
Stomp.v
Util.v
DataCrypt.v
TCPServer.v
TCPListener.v
TCPSystem.v
TCPProgress.v
SQLite.v
KVStore.v
KVEngine.v
KVRefinement.v
Address.v
X509.v
SocketSetup.v
TLSContext.v
TLSSocket.v
Calendar.v
Config.v
Logger.v
Application.v
Double.v
Puts.v
Threads.v
Measure.v
Ping.v
EchoServer.v
CryptStr.v
Guarded.v
Statistics.v
