(* ===== verification/Prelude.v ===== *)
(** * dodo: verification development (root file)

    dodo is a C++ library for network services: sockets, addresses and TLS, a multi-threaded
    TCP listener, HTTP and STOMP, URIs, a key-value store on SQLite, an application frame
    with configuration and logging, threads, and common utilities (octet arrays, a cache,
    encrypted strings, text helpers).  This development models its
    core in Rocq, operation by operation, and proves the theorems that make it correct, or
    that state precisely where the code departs from its documentation.

    ** The program and how its parts interact

    A [network::Socket] sends and receives octets; [network::BaseSocket] adds typed
    messages on top of its virtual [send] and [receive], and the options and set-up of the
    descriptor, with [network::Address] as the address of either end.  [TLSSocket] is a
    socket over an OpenSSL session whose peer it verifies with [X509Certificate], under the
    settings of a [TLSContext], whose passphrases [DataCrypt] decrypts.  A
    [SocketReadBuffer] draws chunks from a socket and offers them one character at a time
    ([get], [next]); files and strings offer the same interface.  The HTTP classes parse
    from any such buffer and print to a socket: [HTTPVersion], then [HTTPMessage] (headers
    and bodies), then [HTTPRequest] and [HTTPResponse].

    A [TCPListener] thread accepts connections, registers them with epoll and queues work;
    a pool of [TCPServer] threads takes the work, runs the protocol of the derived class on
    it and releases it, which registers or closes the connection.  Queue, clients and
    counters are shared under mutexes.

    [persist::KVStore] keeps typed values under keys in an SQLite database, through the
    wrapper classes [Database], [Statement], [DML] and [Query].  [common::Bytes] holds
    bodies, frames, blobs and key material; [common::SystemError] carries the error of every
    system call.  [URI], [Cache] and the text helpers stand beside this stack.

    An [Application] is one process: it reads its [Config] (YAML), starts the [Logger] the
    configuration describes, announces itself and turns signals into a request to stop.
    The logger writes time stamped entries to the console, to a file it rotates and to the
    system log.  Guarded calls of all these hold a [Mutex] by a [Mutexer]; long-running
    parts derive from [Thread].

    ** Files

    - [Prelude]: characters and their classes, machine-width wrap-around, the
      [outcome] type (a value, an exception or access outside an object, out of fuel),
      the state monad [M] over it with its notation, loops with fuel, the weakest-precondition
      calculus [wp] with its rules and tactics, the monad [X] of computations whose
      exceptions are caught, numerals, the order of strings, the hint databases.
    - [SystemError] (systemerror.hpp): error codes with their Linux values and texts.
    - [Bytes] (bytes.hpp, bytes.cpp): an object is its pointer, size and allocated
      size; memory is a list of cells that may be indeterminate; [malloc] and
      [realloc] may fail.  Abstract specification: [rep], a sequence of octets.
    - [Socket] (socket.cpp, basesocket.cpp): [send], [receive] and the typed messages.
    - [ReadBuffer] (socketreadbuffer.hpp, socketreadbuffer.cpp): the interface as the
      class [ReadBuffer], what parsers rely on as [ReadBufferLaws], and the string,
      file and socket buffers as instances.
    - [HTTPFragment] (httpfragment.hpp, httpversion.hpp, .cpp): parse results, the
      version automaton, and [tame], the notion of a parser that ends.
    - [HTTPMessage] (httpmessage.hpp, .cpp): the header map, the lexical parsers,
      folded field values, chunked bodies.
    - [HTTPRequest], [HTTPResponse] (httprequest.cpp, httpresponse.cpp): first lines,
      bodies, whole messages, their text, sending.
    - [URI] (uri.hpp, uri.cpp): the parsing automaton, one definition per state, as a
      step function [uri_step] and a step relation, and printing.
    - [Cache] (cache.hpp): entries in a [gmap], the LRU multimap as a list ordered by
      hit time; [get], [erase], [clear] and sequences of calls.
    - [Stomp] (stomp.hpp, stomp.cpp): frame generation and matching.
    - [Util] (util.hpp, util.cpp): splitting, JSON escaping, ASCII names, dumps, reading
      lines and numbers from files.
    - [DataCrypt] (datacrypt.hpp, datacrypt.cpp): tables, key padding, the ENC[..]
      text, [encrypt], [decrypt], [decode].
    - [TCPServer] (tcpserver.hpp, tcpserver.cpp, and TCPConnectionData of tcplistener.cpp):
      what a server does with one work item; the derived class is the class [Protocol].
    - [TCPListener] (tcplistener.hpp, tcplistener.cpp): parameters, statistics, the shared
      queue, the client table, epoll registrations, pool maintenance, one definition per
      method on the record [Shared].
    - [TCPSystem]: listener, servers and timer as a labelled step relation [exec] over the
      shared state; a step is what runs between two points where threads may interleave
      (a critical section, a system call); invariants by induction on executions.
    - [TCPProgress]: where an open connection can be, pool maintenance.
    - [SQLite] (sqlite.hpp, sqlite.cpp): the wrapper over the C interface of SQLite as a
      class of calls on an abstract connection; destructors that throw.
    - [KVStore] (kvstore.hpp, kvstore.cpp): every operation, over [SQLite].
    - [KVEngine]: what SQLite documents of prepared statements and of the store's SQL, as
      the class [SQLiteLaws] over an abstract view, rules for the calls, and a concrete
      library [Toy] that satisfies the laws.
    - [KVRefinement]: the documented contract ([Contract], [doc_op]), the machine of what the
      code does on every call ([Store], [spec_op]) with the simulation between it and
      [KVStore], and their agreement on proper calls.
    - [Address] (socketparams.hpp, address.hpp, address.cpp): socket parameters, the
      address storage with its overlapping layouts, name resolution.
    - [X509] (x509cert.hpp, x509cert.cpp): PEM detection, identities, alternative names,
      fingerprints, verification of names.
    - [SocketSetup] (basesocket.cpp, socket.cpp, constructors of tcplistener.cpp): creation,
      options, connection set-up, [sendTo], the listening socket.
    - [TLSContext], [TLSSocket] (tlscontext.cpp, tlssocket.cpp): settings, identities,
      PKCS12 files, the YAML constructor; connecting, accepting, sending, receiving.
    - [Calendar] (util.cpp): the date of a time, time stamps and their order.
    - [Config] (config.hpp, config.cpp): key paths, lookup, what a configuration must have,
      reading it, the singleton, encrypted values.
    - [Logger] (logger.hpp, logger.cpp, file tests of util.cpp): levels and destinations,
      starting from a configuration, entries, rotation on the files of a directory.
    - [Application] (application.hpp, application.cpp): host detection, start, signals, end,
      over [Config] and [Logger].
    - [Double]: IEEE double precision by the integer arithmetic of [SpecFloat], and its text.
    - [Puts] (puts.hpp, exception.hpp, exception.cpp): insertion with format flags, texts of
      exceptions.
    - [Threads] (mutex.hpp, thread.hpp, thread.cpp): mutexes with owners, guarded scopes as
      interleaved statements, the life of a thread, resource usage rates.
    - [Measure] (StopWatch of util.hpp; unittest.hpp, unittest.cpp).
    - [Ping] (examples/ping/ping.cpp): checksum, packets, statistics, options, loops.
    - [EchoServer] (examples/service/service_tcpserver.hpp): an instance of [Protocol], and
      sessions of work items over [TCPServer].
    - [CryptStr] (examples/cryptstr/cryptstr.cpp): key sources, the command line, [main]
      with its exit code, over [DataCrypt].
    - [Guarded]: the bodies of [Logger::log] and of the calls of [Cache], statement by
      statement, as guarded scopes of [Threads] that several threads run.
    - [Statistics] ([TCPListener::logStats]): the text of the listener's report and what its
      rates measure, over [Double], [Puts], [Threads] and [TCPSystem].

    A member function becomes a definition of the same name (with a prefix where two
    classes use the same name: [request_parse], [response_parse], [uri_parse]); [this]
    and reference parameters are threaded as state; loops keep the source's bodies as
    separate definitions ([.._body], [.._step]).  Local variables of a loop are the
    loop's state.

    ** What the theorems show

    - Round trips: requests and responses with headers, HTTP versions, typed socket values,
      JSON escapes, stored values, addresses and blocking modes come back unchanged; a
      well-formed URI is read back, cut or rejected as [read_back] tells; [decrypt] and
      [cryptstr] hand the library back exactly what it sealed, and pass on its answer.
    - Functional behaviour: header lists with folding and repeated names, chunked and
      counted bodies, strings and lines reassembled from segments, the text put on the
      wire by [send], requests served, keys filtered in order, the listening socket;
      messages delivered by level to each destination, the newest logs kept by rotation,
      an application started from its configuration, signals, packets with the checksum of
      RFC 1071.
    - Refinement and equivalence: [Bytes] implements sequences, each read buffer delivers
      its source, [Cache::get] implements least-recently-used eviction with expiry,
      [KVStore] answers every sequence of proper calls as the map with transactions that its
      header documents, [verifyName] decides the rule of RFC 6125 for lower-case names with
      a star as a whole label at most, [checkConfig] accepts exactly the
      complete configurations, dates follow the Gregorian rule, and scopes guarded by a
      [Mutexer] are atomic whatever the interleaving of their statements, which is how the
      other files treat guarded calls: threads that log, or share a cache, leave what their
      calls leave one at a time, in an order that keeps each thread's.  The echo server over
      [TCPServer] sends back exactly what it received, up to the last complete line.
    - Invariants of the threaded system, over all interleavings: a connection is in at most
      one place (queue, a server, the listener before queueing it, epoll), the work counter is exact, limits
      are respected, no connection is forgotten while epoll accepts registrations.
    - Safety: servers touch live objects only; a verified TLS connection has a certificate
      with a text that covers the name; [loadPKCS12] closes only what it opened.
    - Other invariants: the cache never holds more than its maximum; its map and LRU list
      agree; [Bytes] objects stay well formed.
    - Termination and bounds: every HTTP parser and the URI parser end on every input
      and never move backwards; the URI parser stays within its string; guarded scopes end
      without deadlock; the log file exceeds its limit by one entry at most; the text of a
      double is within half a unit of its last digit; packet sizes stay in range.
    - Departures: theorems that state, for every input of a class, a behaviour that a
      comment or the purpose of the code contradicts (end of stream read as data, a
      value received in two segments, a URI port at the end of the text, a CONNECT
      frame that never matches, a request that fills its blocks, a socket used after its
      deletion, a store disabled by a duplicate key, a name cut at a zero octet, an accepted
      TLS socket without a session, a facility read before it was set, a signal lost in the
      logger, a packet larger than its structure, rates divided by the wrong interval, an
      echo lost when the kernel would block, a failed decryption that exits with 0, and
      others).

    ** Fuel

    Every loop that is not structural takes fuel; running out of it is the outcome
    [OutOfFuel], distinct from every result of the code, and the termination theorems
    show that a stated amount suffices.  With n characters left in the buffer:
    n + 12 for a version (each turn of its automaton moves on or advances the state),
    2n + 6 for the parsers of [HTTPMessage] (a field value takes at most one turn
    between two characters), 2n + 12 for whole requests and responses; 16n + 16 for a
    URI of n characters (each state is entered at most once between two characters);
    33 for [paddedKey] (the longest key is 32 octets and each turn adds one);
    n + 2 for the line reader with n characters left; for socket loops more than the
    octets or segments expected, as each theorem states; for [readBuffer] more than the
    blocks the peer sent; for [filterKeys] more than the rows that match; for the loop of
    [Ping] one more than the requests.  The [send] of [EchoServer] computes its own fuel: every
    round but the last two uses up an answer of the kernel.  The threaded systems need no fuel: an execution is a finite sequence of steps of any length.

    ** Environment

    What is not in the sources is an argument: the results of the kernel's [recv],
    [send], [fcntl] and [getsockopt] calls are part of the socket's state in [Socket], and
    calls of the class [Kernel] in [SocketSetup]; in the threaded system the answers of
    accept, epoll and receive are the labels of the steps; [Protocol] is the derived server
    class; [Allocator] says which allocations succeed; [Libc] gives the texts of [strerror]
    and [gai_strerror]; [OpenSSL], [GCM], [LibCTX] and [LibSSL] give the results of OpenSSL's
    calls; [Inet] and [Resolver] those of the address functions; [Doubles] the arithmetic of
    time-outs; [YamlNode] the contents of a YAML node; SQLite is the class of its C calls;
    [Cache] takes the successive clock readings and the derived class's [load]; [Yaml] is
    yaml-cpp for the configuration; [LogEnv] and [Host] give the clock, the file system and
    the names the logger and the application meet; [ThreadEnv] the clock and the resource
    usage of a thread; [Wire] what a ping's sockets deliver; the [Host] of [CryptStr] its
    environment and files.  Documented
    behaviour of these is a class of laws or a hypothesis of the theorems that need it, and
    every such class has a concrete instance for which it is proved.

    Machine model: x86-64 Linux, [char] signed, [size_t] and [unsigned long] 64 bits,
    [int] 32 bits, the "C" locale; a build with NDEBUG, in which the debug and
    trace logging of the sources expands to nothing.

    ** Not modelled

    The FIFO queue, of which the sources have an interface only; the example programs other
    than ping, cryptstr and the echo server, which call the library once and print, and of
    ping the printed lines; the identifier of a std::thread; the sleep of the listener's
    timer, whose assignments are the steps [Tick] of [TCPSystem], at any time.  Exceptions
    are values of [outcome]; their texts are kept short where the source builds them from
    [errno] or from the text of an address.  The logger's files are those of one directory,
    and regular expressions other than a plain path are a parameter.  In [Guarded] a
    statement that the sources write as one, such as a rotation of the log, is one step. *)

From Stdlib Require Export ZArith Lia Ascii String.
From stdpp Require Export base list strings gmap.

(** ** Characters

    A C++ [char], a [uint8_t] and an element of a [std::string] are the eight
    bits of an [ascii]; [octet] is the unsigned reading, [schar] the signed one
    (x86-64: [char] is signed).  A [std::string] is the list of its chars. *)

Declare Scope cpp_scope.
Delimit Scope cpp_scope with cpp.

Abbreviation str := (list ascii).

(** A C++ string literal. *)
Notation "'lit' s" := (list_ascii_of_string s) (at level 9, only parsing) : cpp_scope.
Notation "c =c d" := (Ascii.eqb c d) (at level 70, no associativity) : cpp_scope.
Open Scope cpp_scope.

Definition octet (c : ascii) : Z := Z.of_N (N_of_ascii c).
Definition chr (z : Z) : ascii := ascii_of_N (Z.to_N z).
Definition schar (c : ascii) : Z :=
  if (octet c <? 128)%Z then octet c else (octet c - 256)%Z.

Definition all_ascii : list ascii := map (fun n => chr (Z.of_nat n)) (seq 0 256).

Section Ctype.
Local Open Scope Z_scope.

Definition in_range (lo hi : Z) (c : ascii) : bool := (lo <=? octet c) && (octet c <=? hi).

(** The <cctype> classes in the "C" locale. *)
Definition isdigit (c : ascii) : bool := in_range 48 57 c.
Definition isupper (c : ascii) : bool := in_range 65 90 c.
Definition islower (c : ascii) : bool := in_range 97 122 c.
Definition isalpha (c : ascii) : bool := isupper c || islower c.
Definition isxdigit (c : ascii) : bool := isdigit c || in_range 65 70 c || in_range 97 102 c.
Definition isspace (c : ascii) : bool := in_range 9 13 c || (octet c =? 32).
Definition tolower (c : ascii) : ascii := if isupper c then chr (octet c + 32) else c.
End Ctype.

(** ** Machine integers *)

Section Machine.
Local Open Scope Z_scope.

(** Reduction of a mathematical integer to a [w]-bit unsigned value. *)
Definition wrap (w z : Z) : Z := z mod 2 ^ w.
(** [size_t], [unsigned long], [uint64_t] arithmetic. *)
Definition u64 (z : Z) : Z := wrap 64 z.
(** Two's complement reading of a [w]-bit value. *)
Definition sext (w z : Z) : Z := if wrap w z <? 2 ^ (w - 1) then wrap w z else wrap w z - 2 ^ w.
(** [(int)z] *)
Definition int_of (z : Z) : Z := sext 32 z.

Definition UINT_MAX : Z := 2 ^ 32 - 1.
Definition ULONG_MAX : Z := 2 ^ 64 - 1.
End Machine.

(** The size of a container, as a [size_t] value. *)
Definition zlen {A} (l : list A) : Z := Z.of_nat (length l).

(** ** Numbers as text: [stream << n] and [stream >> n] *)

Section Numerals.
Local Open Scope Z_scope.

Definition digit_char (d : Z) : ascii := if d <? 10 then chr (48 + d) else chr (87 + d).
Definition digit_val (c : ascii) : Z :=
  if isdigit c then octet c - 48
  else if islower c then octet c - 87
  else octet c - 55.

Fixpoint print_aux (fuel : nat) (base n : Z) (acc : str) : str :=
  match fuel with
  | O => acc
  | S f =>
      let acc' := digit_char (n mod base) :: acc in
      if n <? base then acc' else print_aux f base (n / base) acc'
  end.
(** The digits of [n >= 0], most significant first, no leading zeros. *)
Definition print_base (base n : Z) : str := print_aux (S (Z.to_nat (Z.log2 n))) base n [].
Definition print_dec (n : Z) : str := print_base 10 n.
Definition print_hex (n : Z) : str := print_base 16 n.

Definition read_base (base : Z) (s : str) : Z :=
  fold_left (fun acc c => acc * base + digit_val c) s 0.

(** What a C string holds: it ends at its first zero. *)
Fixpoint c_string (s : str) : str :=
  match s with
  | [] => []
  | c :: r => if (octet c =? 0)%Z then [] else c :: c_string r
  end.

(** [stream << n] for a signed integer *)
Definition print_int (n : Z) : str := if (n <? 0)%Z then lit "-" ++ print_dec (- n) else print_dec n.

(** [std::setw(w)] with [std::setfill(fill)], right aligned. *)
Definition setw (w : nat) (fill : ascii) (s : str) : str := replicate (w - length s) fill ++ s.

(** [stream >> value] on a stream that holds exactly the digits [s]: an empty
    stream leaves the target alone, a value above [mx] saturates. *)
Definition extract_unsigned (base mx : Z) (s : str) (old : Z) : Z :=
  match s with
  | [] => old
  | _ => Z.min mx (read_base base s)
  end.
End Numerals.

(** ** Outcomes: C++ exceptions as values

    [UndefinedBehaviour] is not an exception of the language: it marks an access
    outside a live object, which the safety theorems exclude. *)

Inductive exn : Type :=
| DodoException (what : str)
| SystemException (what : str) (errno : Z)
| std_out_of_range
| std_invalid_argument
| UndefinedBehaviour (what : str).

Inductive outcome (A : Type) : Type :=
| Ok (a : A)
| Throw (e : exn)
| OutOfFuel.
Arguments Ok {A} a.
Arguments Throw {A} e.
Arguments OutOfFuel {A}.

Definition obind {A B} (m : outcome A) (k : A -> outcome B) : outcome B :=
  match m with
  | Ok a => k a
  | Throw e => Throw e
  | OutOfFuel => OutOfFuel
  end.

Notation "'let!' x ':=' m 'in' k" := (obind m (fun x => k))
  (at level 10, x pattern, m at level 100, k at level 200) : cpp_scope.

(** ** Computations over a mutable object [B]

    [M B A]: code that may mutate an object of type [B], returns an [A], throws,
    or exceeds its loop fuel. *)

Definition M (B A : Type) : Type := B -> outcome (A * B).
Definition ret {B A} (a : A) : M B A := fun b => Ok (a, b).
Definition bind {B A C} (m : M B A) (k : A -> M B C) : M B C :=
  fun b => match m b with
           | Ok (a, b') => k a b'
           | Throw e => Throw e
           | OutOfFuel => OutOfFuel
           end.
Definition throw {B A} (e : exn) : M B A := fun _ => Throw e.
Definition lift {B A} (o : outcome A) : M B A :=
  fun b => match o with Ok a => Ok (a, b) | Throw e => Throw e | OutOfFuel => OutOfFuel end.

Notation "'let*' x ':=' m 'in' k" := (bind m (fun x => k))
  (at level 10, x pattern, m at level 100, k at level 200) : cpp_scope.

(** One iteration of a C++ loop either continues with new loop variables
    ([inl]) or leaves the loop with a result ([inr]). *)
Fixpoint loop {B S A} (fuel : nat) (body : S -> M B (S + A)) (s : S) : M B A :=
  match fuel with
  | O => fun _ => OutOfFuel
  | Datatypes.S f =>
      let* r := body s in
      match r with
      | inl s' => loop f body s'
      | inr a => ret a
      end
  end.

Definition Continue {B S A} (s : S) : M B (S + A) := ret (inl s).
Definition Break {B S A} (a : A) : M B (S + A) := ret (inr a).

(** ** Automation shared by the components *)

Create HintDb dodo.
Create Rewrite HintDb dodo_rw.

(** Case analysis over a boolean condition of the goal or of a hypothesis. *)
Ltac case_bool :=
  match goal with
  | |- context [if ?b then _ else _] => destruct b eqn:?
  | H : context [if ?b then _ else _] |- _ => destruct b eqn:?
  end.

(** Turn boolean comparisons in hypotheses into propositions. *)
Ltac breflect :=
  repeat match goal with
  | H : (_ && _) = true |- _ => apply andb_true_iff in H; destruct H
  | H : (_ || _) = false |- _ => apply orb_false_iff in H; destruct H
  | H : negb _ = true |- _ => apply negb_true_iff in H
  | H : negb _ = false |- _ => apply negb_false_iff in H
  | H : (_ <? _)%Z = true |- _ => apply Z.ltb_lt in H
  | H : (_ <? _)%Z = false |- _ => apply Z.ltb_ge in H
  | H : (_ <=? _)%Z = true |- _ => apply Z.leb_le in H
  | H : (_ <=? _)%Z = false |- _ => apply Z.leb_gt in H
  | H : (_ =? _)%Z = true |- _ => apply Z.eqb_eq in H
  | H : (_ =? _)%Z = false |- _ => apply Z.eqb_neq in H
  | H : (_ =? _)%nat = true |- _ => apply Nat.eqb_eq in H
  | H : (_ =? _)%nat = false |- _ => apply Nat.eqb_neq in H
  | H : (_ =c _) = true |- _ => apply Ascii.eqb_eq in H
  | H : (_ =c _) = false |- _ => apply Ascii.eqb_neq in H
  end.

(** ** Lemmas on characters *)

Lemma octet_range c : (0 <= octet c < 256)%Z.
Proof. unfold octet. pose proof (N_ascii_bounded c). lia. Qed.

Lemma chr_octet c : chr (octet c) = c.
Proof. unfold chr, octet. rewrite N2Z.id. apply ascii_N_embedding. Qed.

Lemma octet_chr z : (0 <= z < 256)%Z -> octet (chr z) = z.
Proof. intros H. unfold chr, octet. rewrite N_ascii_embedding; lia. Qed.

Lemma octet_inj c d : octet c = octet d -> c = d.
Proof. intros H. rewrite <- (chr_octet c), <- (chr_octet d). congruence. Qed.

Lemma elem_of_all_ascii c : In c all_ascii.
Proof.
  unfold all_ascii. apply in_map_iff. exists (Z.to_nat (octet c)).
  pose proof (octet_range c). rewrite Z2Nat.id by lia. split; [apply chr_octet|].
  apply in_seq. lia.
Qed.

(** A boolean property of all 256 characters is decided by evaluation. *)
Lemma ascii_forall (P : ascii -> bool) :
  forallb P all_ascii = true -> forall c, P c = true.
Proof. intros H c. rewrite forallb_forall in H. apply H, elem_of_all_ascii. Qed.

(** A class inclusion between characters is decided by evaluation. *)
Lemma ascii_implies (P Q : ascii -> bool) :
  forallb (fun c => implb (P c) (Q c)) all_ascii = true ->
  forall c, P c = true -> Q c = true.
Proof.
  intros H c HP. pose proof (ascii_forall _ H c) as Hc. simpl in Hc. by rewrite HP in Hc.
Qed.

Lemma ascii_eqb_true c : (c =c c) = true.
Proof. apply Ascii.eqb_refl. Qed.

Lemma ascii_class_ne (P : ascii -> bool) c d : P c = true -> P d = false -> (c =c d) = false.
Proof. intros Hc Hd. apply Ascii.eqb_neq. congruence. Qed.

Lemma ascii_class_ne' (P : ascii -> bool) c d : P c = false -> P d = true -> (c =c d) = false.
Proof. intros Hc Hd. apply Ascii.eqb_neq. congruence. Qed.

#[export] Hint Rewrite ascii_eqb_true : dodo_rw.

(** ** Lemmas on lists *)

Lemma zlen_nonneg {A} (l : list A) : (0 <= zlen l)%Z.
Proof. unfold zlen. lia. Qed.

Lemma zlen_app {A} (l k : list A) : zlen (l ++ k) = (zlen l + zlen k)%Z.
Proof. unfold zlen. rewrite length_app. lia. Qed.

Lemma zlen_cons {A} (x : A) l : zlen (x :: l) = (zlen l + 1)%Z.
Proof. unfold zlen. simpl length. lia. Qed.

Lemma zlen_nil {A} (l : list A) : zlen l = 0%Z <-> l = [].
Proof. unfold zlen. destruct l; split; try done; simpl; lia. Qed.

#[export] Hint Rewrite @zlen_app @zlen_cons : dodo_rw.
#[export] Hint Resolve zlen_nonneg octet_range : dodo.

Lemma forallb_app_iff {A} (P : A -> bool) l k :
  forallb P (l ++ k) = true <-> forallb P l = true /\ forallb P k = true.
Proof. rewrite forallb_app. apply andb_true_iff. Qed.

(** ** Lemmas on machine integers *)

Lemma u64_small z : (0 <= z < 2 ^ 64)%Z -> u64 z = z.
Proof. intros. unfold u64, wrap. by apply Z.mod_small. Qed.

Lemma u64_range z : (0 <= u64 z < 2 ^ 64)%Z.
Proof. unfold u64, wrap. apply Z.mod_pos_bound. lia. Qed.

Lemma sext_id w z : (0 < w)%Z -> (- 2 ^ (w - 1) <= z < 2 ^ (w - 1))%Z -> sext w z = z.
Proof.
  intros Hw Hz. assert (2 ^ w = 2 * 2 ^ (w - 1))%Z as E.
  { rewrite <- Z.pow_succ_r by lia. f_equal. lia. }
  unfold sext, wrap. destruct (Z.neg_nonneg_cases z).
  - rewrite <- (Z.mod_unique z (2 ^ w) (-1) (z + 2 ^ w)) by lia.
    destruct (Z.ltb_spec (z + 2 ^ w) (2 ^ (w - 1))); lia.
  - rewrite Z.mod_small by lia. destruct (Z.ltb_spec z (2 ^ (w - 1))); lia.
Qed.

Lemma int_of_small z : (0 <= z < 2 ^ 31)%Z -> int_of z = z.
Proof. intros. apply sext_id; simpl; lia. Qed.

(** ** Lemmas on numerals *)

Definition numeral_base (base : Z) : Prop := base = 10%Z \/ base = 16%Z \/ base = 8%Z.

(** The digits of a base: decimal digits, or lower-case hexadecimal digits. *)
Definition is_digit_of (base : Z) (c : ascii) : bool :=
  if (base =? 10)%Z then isdigit c else isdigit c || in_range 97 102 c.

Section NumeralLemmas.
Local Open Scope Z_scope.

Lemma digit_val_char d : 0 <= d < 16 -> digit_val (digit_char d) = d.
Proof.
  intros H. assert (In d (map Z.of_nat (seq 0 16))) as Hin.
  { apply in_map_iff. exists (Z.to_nat d). rewrite in_seq. lia. }
  clear H. revert d Hin. apply List.Forall_forall. repeat constructor.
Qed.

Lemma digit_char_class base d :
  numeral_base base -> 0 <= d < base -> is_digit_of base (digit_char d) = true.
Proof.
  intros Hb H. assert (In d (map Z.of_nat (seq 0 16))) as Hin.
  { apply in_map_iff. exists (Z.to_nat d). rewrite in_seq. destruct Hb; lia. }
  assert (implb (d <? base) (is_digit_of base (digit_char d)) = true) as E.
  { clear H. revert d Hin. apply List.Forall_forall. destruct Hb as [ -> | [ -> | -> ] ]; repeat constructor. }
  destruct (Z.ltb_spec d base); [exact E | lia].
Qed.

Lemma read_base_app base s c : read_base base (s ++ [c]) = read_base base s * base + digit_val c.
Proof. unfold read_base. by rewrite fold_left_app. Qed.

(** The accumulating printer, restated without its accumulator. *)
Lemma print_aux_acc fuel base n acc : print_aux fuel base n acc = print_aux fuel base n [] ++ acc.
Proof.
  revert n acc. induction fuel as [|f IH]; intros n acc; simpl; [done|].
  case_bool; [done|]. rewrite IH. rewrite (IH _ [_]). by rewrite <- app_assoc.
Qed.

Lemma print_aux_spec fuel base n :
  numeral_base base -> 0 <= n < 2 ^ Z.of_nat fuel -> (0 < fuel)%nat ->
  read_base base (print_aux fuel base n []) = n /\
  forallb (is_digit_of base) (print_aux fuel base n []) = true /\
  print_aux fuel base n [] <> [].
Proof.
  intros Hb. revert n. induction fuel as [|f IH]; intros n Hn Hf; [lia|].
  assert (2 <= base <= 16) as Hb2 by (destruct Hb; lia).
  pose proof (Z.mod_pos_bound n base ltac:(lia)) as Hm.
  simpl print_aux. case_bool; breflect.
  - rewrite Z.mod_small by lia. repeat split; [| |done].
    + unfold read_base. simpl. rewrite digit_val_char; lia.
    + simpl. rewrite digit_char_class by (done || lia). done.
  - rewrite print_aux_acc.
    assert (0 <= n / base < 2 ^ Z.of_nat f) as Hd.
    { rewrite Nat2Z.inj_succ, Z.pow_succ_r in Hn by lia.
      split; [apply Z.div_pos; lia | apply Z.div_lt_upper_bound; nia]. }
    assert (0 < f)%nat as Hf'.
    { destruct f; [|lia]. simpl in Hn. lia. }
    destruct (IH (n / base) Hd Hf') as (IH1 & IH2 & IH3). repeat split.
    + rewrite read_base_app, IH1, digit_val_char by lia.
      pose proof (Z.div_mod n base). lia.
    + apply forallb_app_iff. split; [done|]. simpl. rewrite digit_char_class by done. done.
    + intros Hnil. apply app_eq_nil in Hnil. by destruct Hnil.
Qed.

Lemma print_base_fuel n : 0 <= n -> 0 <= n < 2 ^ Z.of_nat (S (Z.to_nat (Z.log2 n))).
Proof.
  intros H. rewrite Nat2Z.inj_succ, Z2Nat.id by apply Z.log2_nonneg.
  destruct (Z.eq_dec n 0) as [->|]; [done|].
  pose proof (Z.log2_spec n ltac:(lia)). lia.
Qed.

(** Printing a number and reading the digits back is the identity. *)
Lemma read_print_base base n :
  numeral_base base -> 0 <= n -> read_base base (print_base base n) = n.
Proof. intros Hb Hn. apply print_aux_spec; [done | by apply print_base_fuel | lia]. Qed.

Lemma print_base_digits base n :
  numeral_base base -> 0 <= n -> forallb (is_digit_of base) (print_base base n) = true.
Proof. intros Hb Hn. apply print_aux_spec; [done | by apply print_base_fuel | lia]. Qed.

Lemma print_base_nonempty base n :
  numeral_base base -> 0 <= n -> print_base base n <> [].
Proof. intros Hb Hn. apply print_aux_spec; [done | by apply print_base_fuel | lia]. Qed.

Lemma print_dec_digits n : 0 <= n -> forallb isdigit (print_dec n) = true.
Proof. intros H. apply (print_base_digits 10); [by left | done]. Qed.

(** Extraction of a printed value that fits the target. *)
Lemma extract_print_dec mx n old :
  0 <= n <= mx -> extract_unsigned 10 mx (print_dec n) old = n.
Proof.
  intros H. unfold extract_unsigned, print_dec.
  pose proof (print_base_nonempty 10 n ltac:(by left) ltac:(lia)).
  destruct (print_base 10 n) eqn:E; [done|].
  rewrite <- E, read_print_base; [lia | by left | lia].
Qed.
End NumeralLemmas.

(** ** A total-correctness calculus for [M]

    [wp m E Q b]: run from [b], [m] terminates within its fuel; a normal result
    satisfies [Q], and an exception satisfies [E]. *)

Definition wp {B A} (m : M B A) (E : exn -> Prop) (Q : A -> B -> Prop) (b : B) : Prop :=
  match m b with
  | Ok (a, b') => Q a b'
  | Throw e => E e
  | OutOfFuel => False
  end.

Definition nothrow : exn -> Prop := fun _ => False.
Definition anythrow : exn -> Prop := fun _ => True.

Section WP.
Context {B : Type}.
Implicit Types (E : exn -> Prop) (b : B).

Lemma wp_ret {A} (a : A) E (Q : A -> B -> Prop) b : Q a b -> wp (ret a) E Q b.
Proof. done. Qed.

Lemma wp_throw {A} e E (Q : A -> B -> Prop) b : E e -> wp (throw e) E Q b.
Proof. done. Qed.

Lemma wp_bind {A C} (m : M B A) (k : A -> M B C) E (Q : C -> B -> Prop) b :
  wp m E (fun a b' => wp (k a) E Q b') b -> wp (bind m k) E Q b.
Proof. unfold wp, bind. by destruct (m b) as [[a b']| |]. Qed.

Lemma wp_mono {A} (m : M B A) E (Q Q' : A -> B -> Prop) b :
  wp m E Q b -> (forall a b', Q a b' -> Q' a b') -> wp m E Q' b.
Proof. unfold wp. destruct (m b) as [[a b']| |]; auto. Qed.

Lemma wp_weaken {A} (m : M B A) E E' (Q Q' : A -> B -> Prop) b :
  wp m E Q b -> (forall e, E e -> E' e) -> (forall a b', Q a b' -> Q' a b') -> wp m E' Q' b.
Proof. unfold wp. destruct (m b) as [[a b']| |]; auto. Qed.

Lemma wp_lift {A} (o : outcome A) E (Q : A -> B -> Prop) b :
  (match o with Ok a => Q a b | Throw e => E e | OutOfFuel => False end) -> wp (lift o) E Q b.
Proof. unfold wp, lift. by destruct o. Qed.

(** What [wp] says when nothing may be thrown. *)
Lemma wp_nothrow {A} (m : M B A) Q b :
  wp m nothrow Q b -> exists a b', m b = Ok (a, b') /\ Q a b'.
Proof. unfold wp. destruct (m b) as [[a b']| |]; intros H; [by exists a, b' | done | done]. Qed.

Lemma wp_terminates {A} (m : M B A) E Q b : wp m E Q b -> m b <> OutOfFuel.
Proof. unfold wp. by destruct (m b). Qed.

(** The loop rule: an invariant and a measure that every continuing
    iteration decreases; the fuel must exceed the initial measure. *)
Lemma wp_loop {S A} (body : S -> M B (S + A)) (I : S -> B -> Prop) (mu : S -> B -> nat)
    E (Q : A -> B -> Prop) :
  (forall s b, I s b ->
     wp (body s) E (fun r b' => match r with
                                | inl s' => I s' b' /\ (mu s' b' < mu s b)%nat
                                | inr a => Q a b'
                                end) b) ->
  forall fuel s b, I s b -> (mu s b < fuel)%nat -> wp (loop fuel body s) E Q b.
Proof.
  intros Hbody fuel. induction fuel as [|f IH]; intros s b HI Hmu; [lia|].
  simpl. apply wp_bind. eapply wp_mono; [apply (Hbody s b HI)|].
  intros [s'|a] b'; [intros [HI' Hlt]; apply IH; [done|lia] | by intros; apply wp_ret].
Qed.

(** One iteration of a loop that has fuel left. *)
Lemma wp_loop_step {S A} (body : S -> M B (S + A)) E (Q : A -> B -> Prop) fuel s b :
  (0 < fuel)%nat ->
  wp (body s) E (fun r b' => match r with
                             | inl s' => wp (loop (pred fuel) body s') E Q b'
                             | inr a => Q a b'
                             end) b ->
  wp (loop fuel body s) E Q b.
Proof.
  intros Hf Hb. destruct fuel as [|f]; [lia|]. simpl. apply wp_bind. eapply wp_mono; [exact Hb|].
  intros [s'|a] b' HQ; [done | by apply wp_ret].
Qed.
End WP.

(** One step of symbolic execution through [ret], [bind], [Continue], [Break]. *)
Ltac wp_step :=
  match goal with
  | |- wp (bind _ _) _ _ _ => apply wp_bind
  | |- wp (ret _) _ _ _ => apply wp_ret
  | |- wp (Continue _) _ _ _ => apply wp_ret
  | |- wp (Break _) _ _ _ => apply wp_ret
  | |- wp (if ?c then _ else _) _ _ _ => destruct c eqn:?
  end.

(** ** The order of [std::string]: octet by octet *)

Section StringOrder.
Local Open Scope Z_scope.

Fixpoint str_leb (a b : str) : bool :=
  match a, b with
  | [], _ => true
  | _ :: _, [] => false
  | x :: a', y :: b' => (octet x <? octet y) || ((octet x =? octet y) && str_leb a' b')
  end.
Definition str_le (a b : str) : Prop := str_leb a b = true.
#[export] Instance str_le_dec a b : Decision (str_le a b).
Proof. unfold str_le. apply _. Defined.
#[export] Instance str_le_total : Total str_le.
Proof.
  unfold Total, str_le. induction x as [ | x a IH ]; intros [ | y b ]; cbn; auto.
  destruct (Z.lt_trichotomy (octet x) (octet y)) as [ Hl | [ Heq | Hl ] ].
  - left. apply orb_true_iff. left. by apply Z.ltb_lt.
  - rewrite Heq, Z.ltb_irrefl, Z.eqb_refl. cbn. apply IH.
  - right. apply orb_true_iff. left. by apply Z.ltb_lt.
Qed.

Lemma str_le_cons x a y b : str_le (x :: a) (y :: b) <-> octet x < octet y \/ (x = y /\ str_le a b).
Proof.
  unfold str_le. cbn. rewrite orb_true_iff, andb_true_iff, Z.ltb_lt, Z.eqb_eq.
  split; intros [ | [ He ? ] ]; auto; right; split; auto; [ by apply octet_inj | by subst ].
Qed.
#[export] Instance str_le_trans : Transitive str_le.
Proof.
  intros x. induction x as [ | c x IH ]; intros [ | d y ] [ | e z ]; try done. rewrite !str_le_cons.
  intros [ ? | [ -> ? ] ] [ ? | [ -> ? ] ]; [ left; lia | by left | by left | right; split; [ done | by eapply IH ] ].
Qed.
#[export] Instance str_le_antisymm : AntiSymm (=) str_le.
Proof.
  intros x. induction x as [ | c x IH ]; intros [ | d y ]; try done. rewrite !str_le_cons.
  intros [ ? | [ -> ? ] ] [ ? | [ ? ? ] ]; try lia; subst; try lia. f_equal. by apply IH.
Qed.
End StringOrder.

(** ** Computations whose exceptions are caught *)

Definition X (S A : Type) : Type := S -> outcome A * S.
Definition xret {S A} (a : A) : X S A := fun s => (Ok a, s).
Definition xbind {S A B} (m : X S A) (k : A -> X S B) : X S B := fun s =>
  match m s with
  | (Ok a, s') => k a s'
  | (Throw e, s') => (Throw e, s')
  | (OutOfFuel, s') => (OutOfFuel, s')
  end.
Notation "'let^' x ':=' m 'in' k" := (xbind m (fun x => k))
  (at level 10, x pattern, m at level 100, k at level 200) : cpp_scope.

Fixpoint xloop {S L A} (fuel : nat) (body : L -> X S (L + A)) (l : L) : X S A :=
  match fuel with
  | O => fun s => (OutOfFuel, s)
  | Datatypes.S f =>
      let^ r := body l in
      match r with inl l' => xloop f body l' | inr a => xret a end
  end.

(** [try { m } catch ( ... ) {}]: the value if the body completed. *)
Definition xtry {S A} (m : X S A) : X S (option A) := fun s =>
  match m s with
  | (Ok a, s') => (Ok (Some a), s')
  | (Throw _, s') => (Ok None, s')
  | (OutOfFuel, s') => (OutOfFuel, s')
  end.

Definition xthrow {S A} (e : exn) : X S A := fun s => (Throw e, s).
Definition xmodify {S} (f : S -> S) : X S unit := fun s => (Ok tt, f s).

Lemma xbind_ok {S A B} (m : X S A) (k : A -> X S B) s a s' :
  m s = (Ok a, s') -> xbind m k s = k a s'.
Proof. intros E. unfold xbind. by rewrite E. Qed.

Lemma xtry_ok {S A} (m : X S A) s a s' : m s = (Ok a, s') -> xtry m s = (Ok (Some a), s').
Proof. intros E. unfold xtry. by rewrite E. Qed.

Lemma xbind_inv {S A B} (m : X S A) (k : A -> X S B) s b s' :
  xbind m k s = (Ok b, s') -> exists a s1, m s = (Ok a, s1) /\ k a s1 = (Ok b, s').
Proof. unfold xbind. destruct (m s) as [ [ a | e | ] s1 ]; [ eauto | done | done ]. Qed.

Ltac xinv H := let a := fresh "r" in let k := fresh "k" in let E := fresh "E" in apply xbind_inv in H as (a & k & E & H).
