(* ===== verification/SystemError.v ===== *)
(** * SystemError: operating-system and library error codes

    Models [common::SystemError] (src/src/include/common/systemerror.hpp): the
    enumeration [ErrorCode] with its numeric values on Linux (errno.h, netdb.h),
    the [SystemError] object, which holds any [int], and its text. *)

From S2P Require Import Prelude.

Local Open Scope Z_scope.

Inductive ErrorCode : Type :=
| ecOK | ecEPERM | ecENOENT | ecESRCH | ecEINTR | ecEIO | ecENXIO | ecE2BIG | ecENOEXEC | ecEBADF
| ecECHILD | ecEAGAIN | ecENOMEM | ecEACCES | ecEFAULT | ecENOTBLK | ecEBUSY | ecEEXIST | ecEXDEV
| ecENODEV | ecENOTDIR | ecEISDIR | ecEINVAL | ecENFILE | ecEMFILE | ecENOTTY | ecETXTBSY | ecEFBIG
| ecENOSPC | ecESPIPE | ecEROFS | ecEMLINK | ecEPIPE | ecEDOM | ecERANGE | ecEDEADLK
| ecENAMETOOLONG | ecENOLCK | ecENOSYS | ecENOTEMPTY | ecELOOP | ecEWOULDBLOCK | ecENOMSG | ecEIDRM
| ecECHRNG | ecEL2NSYNC | ecEL3HLT | ecEL3RST | ecELNRNG | ecEUNATCH | ecENOCSI | ecEL2HLT
| ecEBADE | ecEBADR | ecEXFULL | ecENOANO | ecEBADRQC | ecEBADSLT | ecEDEADLOCK | ecEBFONT
| ecENOSTR | ecENODATA | ecETIME | ecENOSR | ecENONET | ecENOPKG | ecEREMOTE | ecENOLINK | ecEADV
| ecESRMNT | ecECOMM | ecEPROTO | ecEMULTIHOP | ecEDOTDOT | ecEBADMSG | ecEOVERFLOW | ecENOTUNIQ
| ecEBADFD | ecEREMCHG | ecELIBACC | ecELIBBAD | ecELIBSCN | ecELIBMAX | ecELIBEXEC | ecEILSEQ
| ecERESTART | ecESTRPIPE | ecEUSERS | ecENOTSOCK | ecEDESTADDRREQ | ecEMSGSIZE | ecEPROTOTYPE
| ecENOPROTOOPT | ecEPROTONOSUPPORT | ecESOCKTNOSUPPORT | ecEOPNOTSUPP | ecEPFNOSUPPORT
| ecEAFNOSUPPORT | ecEADDRINUSE | ecEADDRNOTAVAIL | ecENETDOWN | ecENETUNREACH | ecENETRESET
| ecECONNABORTED | ecECONNRESET | ecENOBUFS | ecEISCONN | ecENOTCONN | ecESHUTDOWN | ecETOOMANYREFS
| ecETIMEDOUT | ecECONNREFUSED | ecEHOSTDOWN | ecEHOSTUNREACH | ecEALREADY | ecEINPROGRESS
| ecESTALE | ecEUCLEAN | ecENOTNAM | ecENAVAIL | ecEISNAM | ecEREMOTEIO | ecEDQUOT | ecENOMEDIUM
| ecEMEDIUMTYPE | ecECANCELED | ecENOKEY | ecEKEYEXPIRED | ecEKEYREVOKED | ecEKEYREJECTED
| ecEOWNERDEAD | ecENOTRECOVERABLE | ecERFKILL | ecEHWPOISON | ecEAI_BADFLAGS | ecEAI_NONAME
| ecEAI_AGAIN | ecEAI_FAIL | ecEAI_NODATA | ecEAI_FAMILY | ecEAI_SOCKTYPE | ecEAI_SERVICE
| ecEAI_ADDRFAMILY | ecEAI_MEMORY | ecEAI_SYSTEM | ecEAI_OVERFLOW | ecEAI_INPROGRESS
| ecEAI_CANCELED | ecEAI_NOTCANCELED | ecEAI_ALLDONE | ecEAI_INTR | ecEAI_IDN_ENCODE
| ecLIBRARY_FIRST | ecSSL | ecSSL_ERROR_NONE | ecSSL_ERROR_ZERO_RETURN | ecSSL_ERROR_WANT_READ
| ecSSL_ERROR_WANT_WRITE | ecSSL_ERROR_WANT_CONNECT | ecSSL_ERROR_WANT_ACCEPT
| ecSSL_ERROR_WANT_X509_LOOKUP | ecSSL_ERROR_WANT_ASYNC | ecSSL_ERROR_WANT_ASYNC_JOB
| ecSSL_ERROR_WANT_CLIENT_HELLO_CB | ecSSL_ERROR_SYSCALL | ecSSL_ERROR_PEERVERIFICATION.

(** The value of each enumerator. *)
Definition ec_value (e : ErrorCode) : Z :=
  match e with
  | ecOK => 0
  | ecEPERM => 1
  | ecENOENT => 2
  | ecESRCH => 3
  | ecEINTR => 4
  | ecEIO => 5
  | ecENXIO => 6
  | ecE2BIG => 7
  | ecENOEXEC => 8
  | ecEBADF => 9
  | ecECHILD => 10
  | ecEAGAIN => 11
  | ecENOMEM => 12
  | ecEACCES => 13
  | ecEFAULT => 14
  | ecENOTBLK => 15
  | ecEBUSY => 16
  | ecEEXIST => 17
  | ecEXDEV => 18
  | ecENODEV => 19
  | ecENOTDIR => 20
  | ecEISDIR => 21
  | ecEINVAL => 22
  | ecENFILE => 23
  | ecEMFILE => 24
  | ecENOTTY => 25
  | ecETXTBSY => 26
  | ecEFBIG => 27
  | ecENOSPC => 28
  | ecESPIPE => 29
  | ecEROFS => 30
  | ecEMLINK => 31
  | ecEPIPE => 32
  | ecEDOM => 33
  | ecERANGE => 34
  | ecEDEADLK => 35
  | ecENAMETOOLONG => 36
  | ecENOLCK => 37
  | ecENOSYS => 38
  | ecENOTEMPTY => 39
  | ecELOOP => 40
  | ecEWOULDBLOCK => 11
  | ecENOMSG => 42
  | ecEIDRM => 43
  | ecECHRNG => 44
  | ecEL2NSYNC => 45
  | ecEL3HLT => 46
  | ecEL3RST => 47
  | ecELNRNG => 48
  | ecEUNATCH => 49
  | ecENOCSI => 50
  | ecEL2HLT => 51
  | ecEBADE => 52
  | ecEBADR => 53
  | ecEXFULL => 54
  | ecENOANO => 55
  | ecEBADRQC => 56
  | ecEBADSLT => 57
  | ecEDEADLOCK => 35
  | ecEBFONT => 59
  | ecENOSTR => 60
  | ecENODATA => 61
  | ecETIME => 62
  | ecENOSR => 63
  | ecENONET => 64
  | ecENOPKG => 65
  | ecEREMOTE => 66
  | ecENOLINK => 67
  | ecEADV => 68
  | ecESRMNT => 69
  | ecECOMM => 70
  | ecEPROTO => 71
  | ecEMULTIHOP => 72
  | ecEDOTDOT => 73
  | ecEBADMSG => 74
  | ecEOVERFLOW => 75
  | ecENOTUNIQ => 76
  | ecEBADFD => 77
  | ecEREMCHG => 78
  | ecELIBACC => 79
  | ecELIBBAD => 80
  | ecELIBSCN => 81
  | ecELIBMAX => 82
  | ecELIBEXEC => 83
  | ecEILSEQ => 84
  | ecERESTART => 85
  | ecESTRPIPE => 86
  | ecEUSERS => 87
  | ecENOTSOCK => 88
  | ecEDESTADDRREQ => 89
  | ecEMSGSIZE => 90
  | ecEPROTOTYPE => 91
  | ecENOPROTOOPT => 92
  | ecEPROTONOSUPPORT => 93
  | ecESOCKTNOSUPPORT => 94
  | ecEOPNOTSUPP => 95
  | ecEPFNOSUPPORT => 96
  | ecEAFNOSUPPORT => 97
  | ecEADDRINUSE => 98
  | ecEADDRNOTAVAIL => 99
  | ecENETDOWN => 100
  | ecENETUNREACH => 101
  | ecENETRESET => 102
  | ecECONNABORTED => 103
  | ecECONNRESET => 104
  | ecENOBUFS => 105
  | ecEISCONN => 106
  | ecENOTCONN => 107
  | ecESHUTDOWN => 108
  | ecETOOMANYREFS => 109
  | ecETIMEDOUT => 110
  | ecECONNREFUSED => 111
  | ecEHOSTDOWN => 112
  | ecEHOSTUNREACH => 113
  | ecEALREADY => 114
  | ecEINPROGRESS => 115
  | ecESTALE => 116
  | ecEUCLEAN => 117
  | ecENOTNAM => 118
  | ecENAVAIL => 119
  | ecEISNAM => 120
  | ecEREMOTEIO => 121
  | ecEDQUOT => 122
  | ecENOMEDIUM => 123
  | ecEMEDIUMTYPE => 124
  | ecECANCELED => 125
  | ecENOKEY => 126
  | ecEKEYEXPIRED => 127
  | ecEKEYREVOKED => 128
  | ecEKEYREJECTED => 129
  | ecEOWNERDEAD => 130
  | ecENOTRECOVERABLE => 131
  | ecERFKILL => 132
  | ecEHWPOISON => 133
  | ecEAI_BADFLAGS => -1
  | ecEAI_NONAME => -2
  | ecEAI_AGAIN => -3
  | ecEAI_FAIL => -4
  | ecEAI_NODATA => -5
  | ecEAI_FAMILY => -6
  | ecEAI_SOCKTYPE => -7
  | ecEAI_SERVICE => -8
  | ecEAI_ADDRFAMILY => -9
  | ecEAI_MEMORY => -10
  | ecEAI_SYSTEM => -11
  | ecEAI_OVERFLOW => -12
  | ecEAI_INPROGRESS => -100
  | ecEAI_CANCELED => -101
  | ecEAI_NOTCANCELED => -102
  | ecEAI_ALLDONE => -103
  | ecEAI_INTR => -104
  | ecEAI_IDN_ENCODE => -105
  | ecLIBRARY_FIRST => 10000
  | ecSSL => 10002
  | ecSSL_ERROR_NONE => 10003
  | ecSSL_ERROR_ZERO_RETURN => 10003
  | ecSSL_ERROR_WANT_READ => 10004
  | ecSSL_ERROR_WANT_WRITE => 10005
  | ecSSL_ERROR_WANT_CONNECT => 10006
  | ecSSL_ERROR_WANT_ACCEPT => 10007
  | ecSSL_ERROR_WANT_X509_LOOKUP => 10008
  | ecSSL_ERROR_WANT_ASYNC => 10009
  | ecSSL_ERROR_WANT_ASYNC_JOB => 10010
  | ecSSL_ERROR_WANT_CLIENT_HELLO_CB => 10011
  | ecSSL_ERROR_SYSCALL => 10012
  | ecSSL_ERROR_PEERVERIFICATION => 10013
  end.
Coercion ec_value : ErrorCode >-> Z.

Definition ErrorCodes : list ErrorCode :=
  [ecOK; ecEPERM; ecENOENT; ecESRCH; ecEINTR; ecEIO; ecENXIO; ecE2BIG; ecENOEXEC; ecEBADF;
   ecECHILD; ecEAGAIN; ecENOMEM; ecEACCES; ecEFAULT; ecENOTBLK; ecEBUSY; ecEEXIST; ecEXDEV;
   ecENODEV; ecENOTDIR; ecEISDIR; ecEINVAL; ecENFILE; ecEMFILE; ecENOTTY; ecETXTBSY; ecEFBIG;
   ecENOSPC; ecESPIPE; ecEROFS; ecEMLINK; ecEPIPE; ecEDOM; ecERANGE; ecEDEADLK; ecENAMETOOLONG;
   ecENOLCK; ecENOSYS; ecENOTEMPTY; ecELOOP; ecEWOULDBLOCK; ecENOMSG; ecEIDRM; ecECHRNG;
   ecEL2NSYNC; ecEL3HLT; ecEL3RST; ecELNRNG; ecEUNATCH; ecENOCSI; ecEL2HLT; ecEBADE; ecEBADR;
   ecEXFULL; ecENOANO; ecEBADRQC; ecEBADSLT; ecEDEADLOCK; ecEBFONT; ecENOSTR; ecENODATA; ecETIME;
   ecENOSR; ecENONET; ecENOPKG; ecEREMOTE; ecENOLINK; ecEADV; ecESRMNT; ecECOMM; ecEPROTO;
   ecEMULTIHOP; ecEDOTDOT; ecEBADMSG; ecEOVERFLOW; ecENOTUNIQ; ecEBADFD; ecEREMCHG; ecELIBACC;
   ecELIBBAD; ecELIBSCN; ecELIBMAX; ecELIBEXEC; ecEILSEQ; ecERESTART; ecESTRPIPE; ecEUSERS;
   ecENOTSOCK; ecEDESTADDRREQ; ecEMSGSIZE; ecEPROTOTYPE; ecENOPROTOOPT; ecEPROTONOSUPPORT;
   ecESOCKTNOSUPPORT; ecEOPNOTSUPP; ecEPFNOSUPPORT; ecEAFNOSUPPORT; ecEADDRINUSE; ecEADDRNOTAVAIL;
   ecENETDOWN; ecENETUNREACH; ecENETRESET; ecECONNABORTED; ecECONNRESET; ecENOBUFS; ecEISCONN;
   ecENOTCONN; ecESHUTDOWN; ecETOOMANYREFS; ecETIMEDOUT; ecECONNREFUSED; ecEHOSTDOWN;
   ecEHOSTUNREACH; ecEALREADY; ecEINPROGRESS; ecESTALE; ecEUCLEAN; ecENOTNAM; ecENAVAIL; ecEISNAM;
   ecEREMOTEIO; ecEDQUOT; ecENOMEDIUM; ecEMEDIUMTYPE; ecECANCELED; ecENOKEY; ecEKEYEXPIRED;
   ecEKEYREVOKED; ecEKEYREJECTED; ecEOWNERDEAD; ecENOTRECOVERABLE; ecERFKILL; ecEHWPOISON;
   ecEAI_BADFLAGS; ecEAI_NONAME; ecEAI_AGAIN; ecEAI_FAIL; ecEAI_NODATA; ecEAI_FAMILY;
   ecEAI_SOCKTYPE; ecEAI_SERVICE; ecEAI_ADDRFAMILY; ecEAI_MEMORY; ecEAI_SYSTEM; ecEAI_OVERFLOW;
   ecEAI_INPROGRESS; ecEAI_CANCELED; ecEAI_NOTCANCELED; ecEAI_ALLDONE; ecEAI_INTR;
   ecEAI_IDN_ENCODE; ecLIBRARY_FIRST; ecSSL; ecSSL_ERROR_NONE; ecSSL_ERROR_ZERO_RETURN;
   ecSSL_ERROR_WANT_READ; ecSSL_ERROR_WANT_WRITE; ecSSL_ERROR_WANT_CONNECT;
   ecSSL_ERROR_WANT_ACCEPT; ecSSL_ERROR_WANT_X509_LOOKUP; ecSSL_ERROR_WANT_ASYNC;
   ecSSL_ERROR_WANT_ASYNC_JOB; ecSSL_ERROR_WANT_CLIENT_HELLO_CB; ecSSL_ERROR_SYSCALL;
   ecSSL_ERROR_PEERVERIFICATION].

(** A [SystemError] stores [ErrorCode(e)] for any [int] [e]: an errno value, a
    getaddrinfo code or a library code. *)
Abbreviation SystemError := Z (only parsing).

Definition SystemError_default : SystemError := ecOK.
Definition SystemError_of_int (e : Z) : SystemError := e.
Definition ok (e : SystemError) : bool := e =? ecOK.

(** [strerror] and [gai_strerror] are libc's. *)
Class Libc := { strerror : Z -> str; gai_strerror : Z -> str }.

Definition int_to_string (z : Z) : str :=
  if z <? 0 then "-"%char :: print_dec (- z) else print_dec z.

Definition libstrerror (error : SystemError) : str :=
  if error =? ecSSL_ERROR_PEERVERIFICATION then
    lit "The peer certificate CN or SubjectAltNames do not match"
  else if error =? ecSSL_ERROR_SYSCALL then
    lit "A SSL function encountered a failed syscall"
  else if error =? ecSSL then lit "SSL exception thrown"
  else lit "unknown error" ++ int_to_string error.

Definition asString `{Libc} (e : SystemError) : str :=
  (if 0 <? e then
     if (ecLIBRARY_FIRST : Z) <=? e then libstrerror e else strerror e
   else if e =? 0 then lit "Succes"
   else gai_strerror e)
  ++ lit " (" ++ int_to_string e ++ lit ")".

(** ** Properties *)

(** A number per enumerator that separates the aliases. *)
Definition ec_uid (e : ErrorCode) : Z :=
  match e with
  | ecEWOULDBLOCK => 9001
  | ecEDEADLOCK => 9002
  | ecSSL_ERROR_ZERO_RETURN => 9003
  | e => ec_value e
  end.

Lemma ec_uid_find e : find (fun x => ec_uid x =? ec_uid e) ErrorCodes = Some e.
Proof. destruct e; vm_compute; reflexivity. Qed.

#[export] Instance ErrorCode_eq_dec : EqDecision ErrorCode.
Proof.
  intros a b. destruct (decide (ec_uid a = ec_uid b)) as [E|N]; [left | right; congruence].
  pose proof (ec_uid_find a) as Ha. rewrite E, ec_uid_find in Ha. congruence.
Defined.

Lemma ErrorCodes_complete (e : ErrorCode) : In e ErrorCodes.
Proof. apply (find_some _ _ (ec_uid_find e)). Qed.

(** The enumerators the source gives the same number. *)
Definition same_number (a b : ErrorCode) : bool :=
  let pair x y := (bool_decide (a = x) && bool_decide (b = y)) ||
                  (bool_decide (a = y) && bool_decide (b = x)) in
  bool_decide (a = b) || pair ecEAGAIN ecEWOULDBLOCK || pair ecEDEADLK ecEDEADLOCK
  || pair ecSSL_ERROR_NONE ecSSL_ERROR_ZERO_RETURN.

Lemma ec_value_table a b : Bool.eqb (ec_value a =? ec_value b) (same_number a b) = true.
Proof.
  assert (forallb (fun x => forallb (fun y => Bool.eqb (ec_value x =? ec_value y) (same_number x y))
            ErrorCodes) ErrorCodes = true) as H by (vm_compute; reflexivity).
  rewrite forallb_forall in H. specialize (H a (ErrorCodes_complete a)).
  rewrite forallb_forall in H. apply (H b (ErrorCodes_complete b)).
Qed.

Lemma ec_value_alias (a b : ErrorCode) : ec_value a = ec_value b <-> same_number a b = true.
Proof.
  pose proof (ec_value_table a b) as H. apply Bool.eqb_prop in H. rewrite <- H.
  symmetry. apply Z.eqb_eq.
Qed.

Lemma ok_spec (e : SystemError) : ok e = true <-> e = ecOK.
Proof. apply Z.eqb_eq. Qed.
