(* ===== verification/Bytes.v ===== *)
(** * Bytes: the growable octet array

    Models [common::Bytes] (src/src/include/common/bytes.hpp,
    src/src/lib/common/bytes.cpp) at the level of its memory block: [array_] is
    null or a block of [allocated_size] cells of which [size_] are in use; a cell
    that was never written is indeterminate.  [malloc] and [realloc] may fail.
    Operations return the object as they leave it, also when they throw.

    The abstraction [rep b l] relates an object to the octets it holds; the
    operations are shown to implement the corresponding list operations. *)

From S2P Require Import Prelude.
From S2P Require Import SystemError.

Local Open Scope Z_scope.

(** ** State *)

(** A memory cell: [None] is an indeterminate octet. *)
Abbreviation cell := (option ascii).

Record Bytes : Type := mkBytes {
  array_ : option (list cell);
  size_ : Z;
  allocated_size : Z;
}.

Definition alloc_block : Z := 32.

(** Whether the C library satisfies a request of [n] bytes. *)
Class Allocator := { alloc_ok : Z -> bool }.

Inductive MatchType := Mismatch | Contained | Contains | Full.

(** The result of a member function that mutates the object: its outcome and
    the object afterwards. *)
Abbreviation result A := (outcome A * Bytes)%type.

Definition andThen {A C} (r : result A) (k : A -> Bytes -> result C) : result C :=
  match r with
  | (Ok a, b) => k a b
  | (Throw e, b) => (Throw e, b)
  | (OutOfFuel, b) => (OutOfFuel, b)
  end.

(** The object of a completed call. *)
Definition completed (r : result unit) : outcome Bytes :=
  match r with
  | (Ok _, b) => Ok b
  | (Throw e, _) => Throw e
  | (OutOfFuel, _) => OutOfFuel
  end.

Definition fault {A} (b : Bytes) : result A :=
  (Throw (UndefinedBehaviour (lit "access outside the block")), b).

Definition cells (b : Bytes) : list cell := default [] (array_ b).

(** [memcpy( array_ + off, vals, |vals| )]; copying nothing touches nothing. *)
Definition write_cells (b : Bytes) (off : Z) (vals : list cell) : result unit :=
  match vals with
  | [] => (Ok tt, b)
  | _ =>
      if (0 <=? off) && (off + zlen vals <=? zlen (cells b)) then
        (Ok tt,
         mkBytes (Some (take (Z.to_nat off) (cells b) ++ vals ++
                        drop (Z.to_nat off + length vals) (cells b)))
                 (size_ b) (allocated_size b))
      else fault b
  end.

(** ** Operations *)

Definition Bytes_new : Bytes := mkBytes None 0 0.

(** [Bytes( Octet* data, size_t size )] assigns its parameter [size] to itself: the
    members [size_] and [allocated_size] keep the values [size0] and [allocated0] the
    memory of the object happens to have. *)
Definition Bytes_adopt (size0 allocated0 : Z) (data : list cell) (size : Z) : Bytes :=
  mkBytes (Some data) size0 allocated0.

Section Operations.
Context `{Allocator}.

Definition chunked (sz : Z) : Z := u64 (u64 (sz / alloc_block + 1) * alloc_block).

(** [realloc] keeps the old content and leaves the rest indeterminate. *)
Definition resize_block (mem : list cell) (n : Z) : list cell :=
  take (Z.to_nat n) (mem ++ replicate (Z.to_nat n - length mem) None).

Definition reserve (sz : Z) (b : Bytes) : result unit :=
  if sz =? size_ b then (Ok tt, b)
  else
    match array_ b with
    | Some mem =>
        if allocated_size b <? sz then
          if alloc_ok (chunked sz) then
            (Ok tt, mkBytes (Some (resize_block mem (chunked sz))) sz (chunked sz))
          else if sz =? 0 then (Ok tt, mkBytes None sz (chunked sz))
          else (Throw (SystemException (lit "realloc of " ++ print_dec sz ++ lit " bytes failed") ecENOMEM),
                mkBytes None (size_ b) (allocated_size b))
        else (Ok tt, mkBytes (array_ b) sz (allocated_size b))
    | None =>
        if alloc_ok (chunked sz) then
          (Ok tt, mkBytes (Some (replicate (Z.to_nat (chunked sz)) None)) sz (chunked sz))
        else (Throw (SystemException (lit "malloc of " ++ print_dec sz ++ lit " bytes failed") ecENOMEM), b)
    end.

(** The allocator keeps no state in this model, so releasing a block is
    forgetting it. *)
Definition free (b : Bytes) : Bytes := mkBytes None 0 0.

(** [append( const Octet* src, size_t n )]: [src] is the memory at the pointer. *)
Definition append_mem (src : list cell) (n : Z) (b : Bytes) : result unit :=
  let osize := size_ b in
  andThen (reserve (u64 (size_ b + n)) b) (fun _ b1 =>
    if n <=? zlen src then write_cells b1 osize (take (Z.to_nat n) src) else fault b1).

(** [append( const Bytes& src )], [src] another object than this one. *)
Definition append (src : Bytes) (b : Bytes) : result unit :=
  let osize := size_ b in
  andThen (reserve (u64 (size_ b + size_ src)) b) (fun _ b1 =>
    if size_ src <=? zlen (cells src)
    then write_cells b1 osize (take (Z.to_nat (size_ src)) (cells src)) else fault b1).

(** [append( const Bytes& src )] called as [b.append( b )]: [src.array_] and
    [src.size_] are read after [reserve] changed them. *)
Definition append_self (b : Bytes) : result unit :=
  let osize := size_ b in
  andThen (reserve (u64 (size_ b + size_ b)) b) (fun _ b1 =>
    if size_ b1 <=? zlen (cells b1)
    then write_cells b1 osize (take (Z.to_nat (size_ b1)) (cells b1)) else fault b1).

(** [append( const Bytes& src, size_t n )]. *)
Definition append_n (src : Bytes) (n : Z) (b : Bytes) : result unit :=
  if size_ src <? n then (Throw (DodoException (lit "cannot append more than available in src")), b)
  else append_mem (cells src) n b.

(** [append( Octet src )]. *)
Definition append_octet (src : ascii) (b : Bytes) : result unit :=
  andThen (reserve (u64 (size_ b + 1)) b) (fun _ b1 =>
    write_cells b1 (u64 (size_ b1 - 1)) [Some src]).

(** [operator=( const std::string &s )] *)
Definition assign (s : str) (b : Bytes) : result unit :=
  andThen (reserve (zlen s) b) (fun _ b1 => write_cells b1 0 (map Some s)).

(** [Bytes( const std::string &s )] *)
Definition of_string (s : str) : result unit := assign s Bytes_new.

(** The loop of [asString] over the cells in use: a zero is accepted only in
    the cell at [size_ - 1]. *)
Fixpoint asString_aux (l : list cell) : outcome str :=
  match l with
  | [] => Ok []
  | None :: _ => Throw (UndefinedBehaviour (lit "read of an indeterminate octet"))
  | Some c :: t =>
      if negb (octet c =? 0) then let! s := asString_aux t in Ok (c :: s)
      else match t with
           | [] => Ok []
           | _ => Throw (DodoException
                    (lit "Bytes contain an intermediate zero - string convesrion failed"))
           end
  end.

Definition asString (b : Bytes) : outcome str :=
  if size_ b <=? zlen (cells b) then asString_aux (take (Z.to_nat (size_ b)) (cells b))
  else Throw (UndefinedBehaviour (lit "read outside the block")).

Definition getSize (b : Bytes) : Z := size_ b.

Definition getOctet (index : Z) (b : Bytes) : outcome ascii :=
  match cells b !! Z.to_nat index with
  | Some (Some c) => Ok c
  | _ => Throw (UndefinedBehaviour (lit "read outside the block"))
  end.

(** [match( other, index, octets )]: the comparison starts at [array_], whatever
    [index] is. *)
Definition match_ (other : Bytes) (index : Z) (b : Bytes) : MatchType * Z :=
  let local_size := u64 (size_ b - index) in
  let match_size := Z.min local_size (size_ other) in
  let cmp := bool_decide (take (Z.to_nat match_size) (cells b) =
                          take (Z.to_nat match_size) (cells other)) in
  if cmp then
    if local_size <? size_ other then (Contained, local_size)
    else if size_ other <? local_size then (Contains, size_ other)
    else (Full, local_size)
  else (Mismatch, 0).

(** [hexDump( n )]: two hex digits per octet, separated by colons. *)
Fixpoint hex_octets (l : list cell) : outcome (list str) :=
  match l with
  | [] => Ok []
  | None :: _ => Throw (UndefinedBehaviour (lit "read of an indeterminate octet"))
  | Some c :: t => let! r := hex_octets t in Ok (setw 2 "0"%char (print_hex (octet c)) :: r)
  end.

Fixpoint join_colon (l : list str) : str :=
  match l with
  | [] => []
  | [x] => x
  | x :: t => x ++ ":"%char :: join_colon t
  end.

Definition hexDump (n : Z) (b : Bytes) : outcome str :=
  let! parts := hex_octets (take (Z.to_nat (Z.min n (size_ b))) (cells b)) in
  Ok (join_colon parts).

(** *** OpenSSL's generator and base64 codec

    [RAND_bytes n] is the octets it stores, or [None] when it fails (its return
    code is not tested).  The EVP functions take the octets at the pointer and the
    length, an [int], and return their code and the octets they write; the context
    between an Update and its Final is determined by the input. *)
Class OpenSSL := {
  RAND_bytes : Z -> option (list ascii);
  EVP_ENCODE_CTX_new : bool;
  EVP_EncodeUpdate : list ascii -> Z -> Z * str;
  EVP_EncodeFinal : list ascii -> str;
  EVP_DecodeUpdate : str -> Z -> Z * list ascii;
  EVP_DecodeFinal : str -> Z * list ascii;
}.
Context `{OpenSSL}.

(** The octets that can be written through an unchecked [malloc( n )]. *)
Definition unchecked_block (n : Z) : Z := if alloc_ok n then n else 0.

Definition random (octets : Z) (b : Bytes) : result unit :=
  andThen (if negb (octets =? size_ b) then reserve octets b else (Ok tt, b)) (fun _ b1 =>
    match RAND_bytes (int_of (size_ b1)) with
    | Some r => write_cells b1 0 (map Some r)
    | None => (Ok tt, b1)
    end).

(** The decoder writes into a block of [src.length()] octets. *)
Definition decodeBase64 (src : str) (b : Bytes) : result unit :=
  let temp := unchecked_block (zlen src) in
  if negb EVP_ENCODE_CTX_new then (Throw (DodoException (lit "EVP_ENCODE_CTX_new failed")), b)
  else
  let '(rc, out) := EVP_DecodeUpdate src (int_of (zlen src)) in
  if temp <? zlen out then fault b
  else if rc =? -1 then (Throw (DodoException (lit "EVP_DecodeUpdate failed")), b)
  else
    let '(rc, fin) := EVP_DecodeFinal src in
    if temp <? zlen out + zlen fin then fault b
    else if negb (rc =? 1) then (Throw (DodoException (lit "EVP_DecodeFinal failed")), b)
    else andThen (reserve (zlen out + zlen fin) b) (fun _ b1 =>
           write_cells b1 0 (map Some (out ++ fin))).

(** The size of the block [encodeBase64] allocates for its target. *)
Definition base64sz (n : Z) : Z := u64 (u64 ((n / 48 + 1) * 65) + 1).

(** Reading the array as octets: every cell in use must have been written. *)
Fixpoint determinate (l : list cell) : option (list ascii) :=
  match l with
  | [] => Some []
  | None :: _ => None
  | Some c :: t => match determinate t with Some r => Some (c :: r) | None => None end
  end.

Definition encodeBase64 (b : Bytes) : outcome str :=
  let target := unchecked_block (base64sz (size_ b)) in
  if negb EVP_ENCODE_CTX_new then Throw (DodoException (lit "EVP_ENCODE_CTX_new failed"))
  else
  match determinate (take (Z.to_nat (size_ b)) (cells b)) with
  | None => Throw (UndefinedBehaviour (lit "read of an indeterminate octet"))
  | Some data =>
      let '(rc, out) := EVP_EncodeUpdate data (int_of (size_ b)) in
      if target <? zlen out then Throw (UndefinedBehaviour (lit "write outside the block"))
      else if negb (rc =? 1) then Throw (DodoException (lit "EVP_EncodeUpdate failed"))
      else
        let fin := EVP_EncodeFinal data in
        if target <? zlen out + zlen fin then Throw (UndefinedBehaviour (lit "write outside the block"))
        else Ok (List.filter (fun c => negb (octet c =? 0) && negb (octet c =? 10)) (out ++ fin))
  end.
End Operations.

(** ** The abstraction: the octets an object holds *)

(** [allocated_size] is the size of the block and bounds [size_]. *)
Definition wf (b : Bytes) : Prop :=
  match array_ b with
  | None => size_ b = 0 /\ allocated_size b = 0
  | Some mem => zlen mem = allocated_size b /\ 0 <= size_ b <= allocated_size b
  end.

Definition rep (b : Bytes) (l : list ascii) : Prop :=
  wf b /\ size_ b = zlen l /\ take (length l) (cells b) = map Some l.

(** Sizes that leave room for rounding up without wrapping. *)
Definition size_limit : Z := 2 ^ 63.

(** ** Lemmas *)

Lemma chunked_bounds sz : 0 <= sz < size_limit -> sz < chunked sz <= sz + 32.
Proof.
  unfold size_limit, chunked, alloc_block. intros H.
  pose proof (Z.div_mod sz 32). pose proof (Z.mod_pos_bound sz 32).
  rewrite (u64_small (sz / 32 + 1)) by lia. rewrite u64_small by lia. lia.
Qed.

Lemma length_resize_block mem n :
  0 <= n -> zlen (resize_block mem n) = n.
Proof.
  intros Hn. unfold resize_block, zlen.
  rewrite length_take, length_app, length_replicate. lia.
Qed.

Lemma take_resize_block mem n k :
  Z.of_nat k <= n -> (k <= length mem)%nat -> take k (resize_block mem n) = take k mem.
Proof.
  intros Hk Hm. unfold resize_block. rewrite take_take, Nat.min_l by lia.
  by rewrite take_app_le.
Qed.

Lemma rep_wf b l : rep b l -> wf b.
Proof. by intros []. Qed.

Lemma rep_size b l : rep b l -> size_ b = zlen l.
Proof. by intros (_ & ? & _). Qed.

Lemma rep_take b l : rep b l -> take (Z.to_nat (size_ b)) (cells b) = map Some l.
Proof. intros (_ & -> & Hc). unfold zlen. by rewrite Nat2Z.id. Qed.

Lemma wf_cells b : wf b -> zlen (cells b) = allocated_size b /\ 0 <= size_ b <= allocated_size b.
Proof.
  unfold wf, cells. destruct (array_ b); simpl; [done|]. intros [-> ->]. done.
Qed.

Lemma rep_length_le b l : rep b l -> (length l <= length (cells b))%nat.
Proof.
  intros (Hwf & Hs & _). pose proof (wf_cells b Hwf). unfold zlen in *. lia.
Qed.

Lemma rep_new : rep Bytes_new [].
Proof. done. Qed.

#[export] Hint Resolve rep_wf rep_new : dodo.

Section Lemmas.
Context `{Allocator}.

(** [reserve] with a successful allocator: the object is well formed, has the
    requested size, and keeps the octets that fit. *)
Lemma reserve_grow b l sz :
  rep b l -> zlen l <= sz < size_limit -> alloc_ok (chunked sz) = true ->
  exists b', reserve sz b = (Ok tt, b') /\ wf b' /\ size_ b' = sz /\
             take (length l) (cells b') = map Some l.
Proof.
  intros Hrep Hsz Hok. pose proof (rep_length_le _ _ Hrep) as Hle.
  destruct Hrep as (Hwf & Hs & Hc). pose proof (zlen_nonneg l).
  pose proof (chunked_bounds sz ltac:(lia)) as Hch. pose proof (wf_cells b Hwf) as [Hlen Hb].
  unfold reserve. case_bool; breflect; [by exists b; subst sz|].
  destruct (array_ b) as [mem|] eqn:Ha.
  - assert (cells b = mem) as Hm by (unfold cells; by rewrite Ha).
    case_bool; breflect.
    + rewrite Hok. eexists. split; [done|]. repeat split; simpl; try lia.
      * apply length_resize_block. lia.
      * unfold cells. simpl. rewrite take_resize_block; [by rewrite <- Hm | unfold zlen in *; lia | by rewrite <- Hm].
    + eexists. split; [done|]. unfold wf, cells. simpl. rewrite Hm in *.
      repeat split; lia || done.
  - rewrite Hok. eexists. split; [done|].
    assert (l = []) as -> by (apply zlen_nil; unfold wf in Hwf; rewrite Ha in Hwf; lia).
    unfold wf, cells, zlen. simpl. rewrite length_replicate. repeat split; lia.
Qed.

(** Shrinking never allocates and keeps a prefix. *)
Lemma reserve_shrink b l sz :
  rep b l -> 0 <= sz <= zlen l ->
  exists b', reserve sz b = (Ok tt, b') /\ rep b' (take (Z.to_nat sz) l).
Proof.
  intros (Hwf & Hs & Hc) Hsz. pose proof (wf_cells b Hwf) as [Hlen Hb]. unfold reserve.
  case_bool; breflect.
  - exists b. rewrite take_ge by (unfold zlen in *; lia). done.
  - destruct (array_ b) as [mem|] eqn:Ha; [|unfold wf in Hwf; rewrite Ha in Hwf; lia].
    destruct (Z.ltb_spec (allocated_size b) sz); [lia|].
    eexists. split; [done|]. unfold rep, wf, cells in *. simpl in *. rewrite Ha in Hc. simpl in Hc.
    assert (length (take (Z.to_nat sz) l) = Z.to_nat sz) as El.
    { rewrite length_take. unfold zlen in *. lia. }
    unfold zlen in *. rewrite El. repeat split; try lia.
    + rewrite Ha in Hlen. simpl in Hlen. done.
    + apply (f_equal (take (Z.to_nat sz))) in Hc. rewrite take_take, Nat.min_l in Hc by lia.
      rewrite Hc. by rewrite firstn_map.
Qed.

(** Writing into the part beyond the old content. *)
Lemma write_cells_rep b l k :
  wf b -> size_ b = zlen l + zlen k -> take (length l) (cells b) = map Some l ->
  exists b', write_cells b (zlen l) (map Some k) = (Ok tt, b') /\ rep b' (l ++ k).
Proof.
  intros Hwf Hs Hc. pose proof (wf_cells b Hwf) as [Hlen Hb].
  unfold write_cells. destruct k as [|c k].
  - exists b. simpl. rewrite app_nil_r. split; [done|].
    split; [done|]. split; [|done]. rewrite Hs. unfold zlen. simpl. lia.
  - assert (zlen (map Some (c :: k)) = zlen (c :: k)) as El by (unfold zlen; by rewrite length_map).
    simpl map in *. rewrite El. pose proof (zlen_nonneg l).
    destruct ((0 <=? zlen l) && _) eqn:E; [|apply andb_false_iff in E as [E|E]; breflect; lia].
    eexists. split; [done|]. unfold rep, wf, cells. simpl.
    unfold zlen in *. rewrite Nat2Z.id.
    replace (length (Some c :: map Some k)) with (length (c :: k)) by (simpl; by rewrite length_map).
    assert (length l + length (c :: k) <= length (cells b))%nat as Hle by lia.
    unfold cells in *. rewrite Hc. repeat split; try lia.
    + rewrite <- Hlen. repeat (rewrite length_app || rewrite length_drop || rewrite length_map || cbn [length]).
      cbn [length] in *. lia.
    + rewrite length_app. lia.
    + rewrite length_app, take_app_add' by (by rewrite length_map).
      rewrite map_app. f_equal. cbn [length map app take]. f_equal.
      rewrite take_app_length'; [done | by rewrite length_map].
Qed.

Lemma append_mem_rep b l k rest' :
  rep b l -> zlen l + zlen k < size_limit -> alloc_ok (chunked (zlen l + zlen k)) = true ->
  exists b', append_mem (map Some k ++ rest') (zlen k) b = (Ok tt, b') /\ rep b' (l ++ k).
Proof.
  intros Hrep Hsz Hok. pose proof (zlen_nonneg l). pose proof (zlen_nonneg k).
  unfold append_mem. rewrite (rep_size _ _ Hrep), u64_small by (unfold size_limit in *; lia).
  destruct (reserve_grow b l (zlen l + zlen k) Hrep ltac:(lia) Hok) as (b1 & -> & Hwf & Hs & Hc).
  cbn [andThen]. assert ((zlen k <=? zlen (map Some k ++ rest')) = true) as ->.
  { apply Z.leb_le. unfold zlen. rewrite length_app, length_map. lia. }
  rewrite take_app_length' by (rewrite length_map; unfold zlen; lia).
  by apply write_cells_rep.
Qed.

Lemma append_octet_rep b l c :
  rep b l -> zlen l + 1 < size_limit -> alloc_ok (chunked (zlen l + 1)) = true ->
  exists b', append_octet c b = (Ok tt, b') /\ rep b' (l ++ [c]).
Proof.
  intros Hrep Hsz Hok. pose proof (zlen_nonneg l). unfold append_octet, size_limit in *.
  rewrite (rep_size _ _ Hrep), u64_small by lia.
  destruct (reserve_grow b l (zlen l + 1) Hrep ltac:(unfold size_limit; lia) Hok)
    as (b1 & -> & Hwf & Hs & Hc).
  cbn [andThen]. rewrite Hs. replace (zlen l + 1 - 1) with (zlen l) by lia. rewrite u64_small by lia.
  by apply (write_cells_rep b1 l [c]).
Qed.

Lemma assign_rep b l s :
  rep b l -> zlen s < size_limit -> alloc_ok (chunked (zlen s)) = true ->
  exists b', assign s b = (Ok tt, b') /\ rep b' s.
Proof.
  intros Hrep Hsz Hok. pose proof (zlen_nonneg s). unfold assign.
  assert (exists b1, reserve (zlen s) b = (Ok tt, b1) /\ wf b1 /\ size_ b1 = zlen s) as (b1 & -> & Hwf & Hs).
  { destruct (Z.le_ge_cases (zlen s) (zlen l)) as [Hle|Hge].
    - destruct (reserve_shrink b l (zlen s) Hrep ltac:(lia)) as (b1 & E & Hr).
      exists b1. split; [done|]. split; [by eapply rep_wf|]. rewrite (rep_size _ _ Hr).
      unfold zlen in *. rewrite length_take. lia.
    - destruct (reserve_grow b l (zlen s) Hrep ltac:(lia) Hok) as (b1 & E & ? & ? & _). eauto. }
  cbn [andThen]. by apply (write_cells_rep b1 [] s).
Qed.

Lemma of_string_rep s :
  zlen s < size_limit -> alloc_ok (chunked (zlen s)) = true ->
  exists b, of_string s = (Ok tt, b) /\ rep b s.
Proof. intros. by apply (assign_rep _ [] s rep_new). Qed.

Lemma rep_split b l : rep b l -> cells b = map Some l ++ drop (length l) (cells b).
Proof. intros (_ & _ & Hc). rewrite <- Hc. symmetry. apply take_drop. Qed.

Lemma getOctet_rep b l i c : rep b l -> l !! i = Some c -> getOctet (Z.of_nat i) b = Ok c.
Proof.
  intros Hr Hl. unfold getOctet. rewrite (rep_split b l Hr), Nat2Z.id, lookup_app_l by (rewrite length_map; by eapply lookup_lt_Some).
  by rewrite list_lookup_fmap, Hl.
Qed.

Lemma append_rep b l src k :
  rep b l -> rep src k -> zlen l + zlen k < size_limit ->
  alloc_ok (chunked (zlen l + zlen k)) = true ->
  exists b', append src b = (Ok tt, b') /\ rep b' (l ++ k).
Proof.
  intros Hb Hsrc Hsz Hok.
  destruct (append_mem_rep b l k (drop (length k) (cells src)) Hb Hsz Hok) as (b' & E & Hr).
  exists b'. split; [|done]. rewrite <- E. unfold append, append_mem.
  rewrite <- (rep_split _ _ Hsrc). by rewrite (rep_size _ _ Hsrc).
Qed.

Lemma append_n_rep b l src k n :
  rep b l -> rep src k -> 0 <= n <= zlen k -> zlen l + n < size_limit ->
  alloc_ok (chunked (zlen l + n)) = true ->
  exists b', append_n src n b = (Ok tt, b') /\ rep b' (l ++ take (Z.to_nat n) k).
Proof.
  intros Hb Hsrc Hn Hsz Hok. unfold append_n. rewrite (rep_size _ _ Hsrc).
  destruct (Z.ltb_spec (zlen k) n); [lia|].
  assert (zlen (take (Z.to_nat n) k) = n) as En.
  { unfold zlen in *. rewrite length_take. lia. }
  assert (cells src = map Some (take (Z.to_nat n) k) ++
            (map Some (drop (Z.to_nat n) k) ++ drop (length k) (cells src))) as ->.
  { rewrite app_assoc, <- map_app, take_drop. by apply rep_split. }
  pose proof (append_mem_rep b l (take (Z.to_nat n) k)
                (map Some (drop (Z.to_nat n) k) ++ drop (length k) (cells src)) Hb) as P.
  rewrite En in P. auto.
Qed.

Lemma asString_aux_ok l :
  forallb (fun c => negb (octet c =? 0)) l = true -> asString_aux (map Some l) = Ok l.
Proof.
  induction l as [|c l IH]; simpl; [done|]. intros Hc. apply andb_true_iff in Hc as [-> Hl].
  by rewrite (IH Hl).
Qed.

(** A zero-free content is its own string. *)
Lemma asString_rep b l :
  rep b l -> forallb (fun c => negb (octet c =? 0)) l = true -> asString b = Ok l.
Proof.
  intros Hrep Hz. unfold asString. rewrite (rep_take _ _ Hrep).
  pose proof (wf_cells b (rep_wf _ _ Hrep)). destruct (Z.leb_spec (size_ b) (zlen (cells b))); [|lia].
  by apply asString_aux_ok.
Qed.
End Lemmas.

(** ** Abstract specification and refinement

    The contract of the class: a sequence of octets with appending, assignment,
    clearing and truncation. *)

Inductive op : Type :=
| Append (src : Bytes)
| AppendN (src : Bytes) (n : Z)
| AppendOctet (c : ascii)
| Assign (s : str)
| Free
| Truncate (n : Z).

Definition exec `{Allocator} (o : op) (b : Bytes) : result unit :=
  match o with
  | Append src => append src b
  | AppendN src n => append_n src n b
  | AppendOctet c => append_octet c b
  | Assign s => assign s b
  | Free => (Ok tt, free b)
  | Truncate n => reserve n b
  end.

(** The octets of a source object. *)
Definition contents (b : Bytes) : list ascii :=
  default [] (determinate (take (Z.to_nat (size_ b)) (cells b))).

(** [None]: the call throws and leaves the sequence alone. *)
Definition abs_step (o : op) (l : list ascii) : option (list ascii) :=
  match o with
  | Append src => Some (l ++ contents src)
  | AppendN src n => if zlen (contents src) <? n then None else Some (l ++ take (Z.to_nat n) (contents src))
  | AppendOctet c => Some (l ++ [c])
  | Assign s => Some s
  | Free => Some []
  | Truncate n => Some (take (Z.to_nat n) l)
  end.

(** The arguments are valid objects and sizes, and the result stays below the limit. *)
Definition op_ok (o : op) (l : list ascii) : Prop :=
  match o with
  | Append src => (exists k, rep src k) /\ zlen l + zlen (contents src) < size_limit
  | AppendN src n => (exists k, rep src k) /\ 0 <= n /\ zlen l + n < size_limit
  | AppendOctet _ => zlen l + 1 < size_limit
  | Assign s => zlen s < size_limit
  | Free => True
  | Truncate n => 0 <= n <= zlen l
  end.

(** The outcome of every call, and the object behind them. *)
Fixpoint run `{Allocator} (ops : list op) (b : Bytes) : list (outcome unit) * Bytes :=
  match ops with
  | [] => ([], b)
  | o :: t => let (r, b1) := exec o b in let (rs, b2) := run t b1 in (r :: rs, b2)
  end.

(** A call returns or throws the library's exception; [None] is any other outcome. *)
Inductive reply : Type := Returned | Refused.
Definition reply_of (r : outcome unit) : option reply :=
  match r with Ok _ => Some Returned | Throw (DodoException _) => Some Refused | _ => None end.

Fixpoint abs_run (ops : list op) (l : list ascii) : list reply * list ascii :=
  match ops with
  | [] => ([], l)
  | o :: t =>
      let (r, l1) := match abs_step o l with Some l' => (Returned, l') | None => (Refused, l) end in
      let (rs, l2) := abs_run t l1 in (r :: rs, l2)
  end.

Fixpoint ops_ok (ops : list op) (l : list ascii) : Prop :=
  match ops with
  | [] => True
  | o :: t => op_ok o l /\ ops_ok t (default l (abs_step o l))
  end.

Lemma determinate_map l : determinate (map Some l) = Some l.
Proof. induction l as [|c l IH]; simpl; [done|]. by rewrite IH. Qed.

Lemma rep_contents b l : rep b l -> contents b = l.
Proof. intros Hrep. unfold contents. by rewrite (rep_take _ _ Hrep), determinate_map. Qed.

(** One operation: the object simulates the sequence, on success and on error. *)
Lemma exec_refines `{Allocator} o b l :
  (forall n, alloc_ok n = true) -> rep b l -> op_ok o l ->
  match abs_step o l with
  | Some l' => exists b', exec o b = (Ok tt, b') /\ rep b' l'
  | None => exists e, exec o b = (Throw (DodoException e), b)
  end.
Proof.
  intros Hal Hrep Hok. destruct o as [src|src n|c|s| |n]; simpl in *.
  - destruct Hok as [[k Hk] Hsz]. rewrite (rep_contents _ _ Hk) in *. by apply append_rep.
  - destruct Hok as ([k Hk] & Hn & Hsz). rewrite (rep_contents _ _ Hk).
    destruct (Z.ltb_spec (zlen k) n).
    + unfold append_n. rewrite (rep_size _ _ Hk). destruct (Z.ltb_spec (zlen k) n); [eauto|lia].
    + apply append_n_rep; auto.
  - by apply append_octet_rep.
  - by apply (assign_rep b l).
  - by eexists.
  - destruct (reserve_shrink b l n Hrep Hok) as (b' & E & Hr). eauto.
Qed.

Lemma run_refines `{Allocator} ops b l :
  (forall n, alloc_ok n = true) -> rep b l -> ops_ok ops l ->
  map reply_of (fst (run ops b)) = map Some (fst (abs_run ops l)) /\ rep (snd (run ops b)) (snd (abs_run ops l)).
Proof.
  intros Hal. revert b l. induction ops as [|o ops IH]; intros b l Hrep Hops; [done|].
  destruct Hops as [Ho Hops]. simpl. pose proof (exec_refines o b l Hal Hrep Ho) as Hx.
  assert (Hstep : exists r b1, exec o b = (r, b1) /\ reply_of r = Some (if abs_step o l is Some _ then Returned else Refused) /\
                    rep b1 (default l (abs_step o l))).
  { destruct (abs_step o l) as [l'|]; [destruct Hx as (b' & -> & Hr); by eexists _, _ | destruct Hx as (e & ->); by eexists _, _]. }
  destruct Hstep as (r & b1 & -> & Hr & Hrep1). destruct (IH b1 _ Hrep1 Hops) as [IHr IHb].
  destruct (run ops b1) as [rs b2]. destruct (abs_step o l) as [l'|]; cbn [default from_option id] in *;
    (match goal with |- context [abs_run ops ?k] => destruct (abs_run ops k) as [rs' l2] end); cbn in *; by rewrite Hr, IHr.
Qed.

Lemma take_map_some_prefix (l k : list ascii) n :
  take n (map (@Some ascii) l) = take n (map Some k) <-> take n l = take n k.
Proof.
  rewrite !firstn_map. split; [|by intros ->].
  intros E. by apply (inj (fmap (@Some ascii))) in E.
Qed.

(** ** Properties *)

(** An allocator that always succeeds, for the concrete runs. *)
Definition always_alloc : Allocator := {| alloc_ok := fun _ => true |}.
Definition no_alloc : Allocator := {| alloc_ok := fun _ => false |}.

(** The object built from a string by the constructor. *)
Definition bytes_of (s : str) : Bytes := snd (@of_string always_alloc s).

(** C7 [Bytes] implements an octet sequence, given an allocator that does not fail: along
    any sequence of appends (of other objects, of prefixes of them, of single octets),
    assignments, [free] and shrinking [reserve] calls, with results below the size limit,
    every call returns, except that an [append] of more octets than its source has throws
    the library's exception and leaves the sequence as it was; and the object holds exactly
    the octets the sequence operations prescribe.  No object is appended to itself. *)
Theorem Bytes_implements_sequence `{Allocator} ops b l :
  (forall n, alloc_ok n = true) -> rep b l -> ops_ok ops l ->
  map reply_of (fst (run ops b)) = map Some (fst (abs_run ops l)) /\ rep (snd (run ops b)) (snd (abs_run ops l)).
Proof. apply run_refines. Qed.

Definition demo_ops : list op :=
  [Append (bytes_of (lit "STOMP")); AppendOctet "010"%char; AppendN (bytes_of (lit "ab")) 3; AppendN (bytes_of (lit "ab")) 1; Truncate 3].

Lemma Bytes_implements_sequence_witness :
  map reply_of (fst (@run always_alloc demo_ops Bytes_new)) = map Some [Returned; Returned; Refused; Returned; Returned] /\
  rep (snd (@run always_alloc demo_ops Bytes_new)) (lit "STO").
Proof.
  apply (@Bytes_implements_sequence always_alloc demo_ops Bytes_new []).
  - reflexivity.
  - repeat split.
  - repeat split; try (vm_compute; congruence); [exists (lit "STOMP") | exists (lit "ab") ..]; repeat split; vm_compute; congruence.
Defined.

(** [match] from index 0 classifies the two octet sequences: [Full] exactly
    when they are equal, [Contained] and [Contains] when one is a proper prefix of
    the other, [Mismatch] otherwise; the count is the length of the common part. *)
Theorem match_classifies b l other k :
  rep b l -> rep other k -> zlen l < 2 ^ 64 ->
  match match_ other 0 b with
  | (Full, n) => l = k /\ n = zlen l
  | (Contained, n) => (exists t, t <> [] /\ k = l ++ t) /\ n = zlen l
  | (Contains, n) => (exists t, t <> [] /\ l = k ++ t) /\ n = zlen k
  | (Mismatch, n) => ~ l `prefix_of` k /\ ~ k `prefix_of` l /\ n = 0
  end.
Proof.
  intros Hb Ho Hl. unfold match_. rewrite (rep_split _ _ Hb), (rep_split _ _ Ho).
  rewrite (rep_size _ _ Hb), (rep_size _ _ Ho), Z.sub_0_r, u64_small by (pose proof (zlen_nonneg l); lia).
  set (n := Z.to_nat (Z.min (zlen l) (zlen k))).
  assert (n <= length l /\ n <= length k)%nat as [Hnl Hnk] by (unfold n, zlen; lia).
  rewrite !take_app_le by (rewrite length_map; lia).
  case_bool_decide as E; [apply take_map_some_prefix in E | rewrite take_map_some_prefix in E].
  - destruct (Z.ltb_spec (zlen l) (zlen k)); [|destruct (Z.ltb_spec (zlen k) (zlen l))].
    + split; [|done]. rewrite take_ge in E by (unfold n, zlen in *; lia).
      exists (drop n k). split; [|by rewrite E, take_drop].
      intros Hd. apply (f_equal length) in Hd. rewrite length_drop in Hd. unfold n, zlen in *. simpl in Hd. lia.
    + split; [|done]. rewrite (take_ge k) in E by (unfold n, zlen in *; lia).
      exists (drop n l). split; [|by rewrite <- E, take_drop].
      intros Hd. apply (f_equal length) in Hd. rewrite length_drop in Hd. unfold n, zlen in *. simpl in Hd. lia.
    + split; [|done]. rewrite !take_ge in E by (unfold n, zlen in *; lia). done.
  - repeat split; intros [t ->]; apply E; unfold n.
    + rewrite take_app_le; [done|]. unfold zlen. lia.
    + rewrite take_app_le; [done|]. unfold zlen. lia.
Qed.

Lemma match_classifies_witness :
  (exists t, t <> [] /\ lit "CONNECTED" = lit "CONN" ++ t) /\ 4 = 4.
Proof.
  apply (match_classifies (bytes_of (lit "CONN")) (lit "CONN") (bytes_of (lit "CONNECTED")) (lit "CONNECTED"));
    repeat split; vm_compute; congruence.
Defined.

(** [match] does not look at the position [index] says: on "ab" from index 1
    against "b" the remaining octets are equal, and the answer is [Mismatch]. *)
Theorem match_ignores_index :
  exists b l other k index,
    rep b l /\ rep other k /\ drop (Z.to_nat index) l = k /\ match_ other index b = (Mismatch, 0).
Proof.
  exists (bytes_of (lit "ab")), (lit "ab"), (bytes_of (lit "b")), (lit "b"), 1.
  repeat split; vm_compute; congruence.
Qed.

(** Exception safety: when [realloc] fails, [reserve] throws a
    [SystemException] and leaves a null [array_] beside the old non-zero [size_],
    an object that breaks the class invariant. *)
Theorem reserve_failure_breaks_invariant `{Allocator} b sz :
  wf b -> array_ b <> None -> size_ b <> 0 -> allocated_size b < sz ->
  alloc_ok (chunked sz) = false ->
  exists what b', reserve sz b = (Throw (SystemException what ecENOMEM), b') /\ ~ wf b'.
Proof.
  intros Hwf Ha Hs Hsz Hfail. pose proof (wf_cells b Hwf). unfold reserve.
  destruct (Z.eqb_spec sz (size_ b)); [lia|]. destruct (array_ b) as [mem|] eqn:E; [|done].
  destruct (Z.ltb_spec (allocated_size b) sz); [|lia]. rewrite Hfail.
  destruct (Z.eqb_spec sz 0); [lia|]. eexists _, _. split; [done|]. unfold wf. simpl. tauto.
Qed.

Lemma reserve_failure_breaks_invariant_witness :
  exists what b', @reserve no_alloc 100 (bytes_of (lit "x")) = (Throw (SystemException what ecENOMEM), b')
                  /\ ~ wf b'.
Proof.
  apply (@reserve_failure_breaks_invariant no_alloc (bytes_of (lit "x")) 100);
    repeat split; vm_compute; congruence.
Defined.

(** The block a string constructor allocates. *)
Lemma bytes_of_allocated s :
  s <> [] -> allocated_size (bytes_of s) = chunked (zlen s).
Proof.
  intros Hs. assert (zlen s <> 0) by (by rewrite zlen_nil). unfold bytes_of, of_string, assign, reserve.
  cbn [size_ array_ Bytes_new]. destruct (Z.eqb_spec (zlen s) 0); [done|].
  cbn [alloc_ok always_alloc andThen]. unfold write_cells.
  destruct (map Some s); [done|]. by case_bool.
Qed.

(** Appending an object to itself copies [size_] octets as read after the
    reallocation doubled it: for any string longer than one allocation block the
    copy runs past the end of the new block. *)
Theorem append_self_overruns s :
  32 < zlen s < 2 ^ 60 ->
  exists b', @append_self always_alloc (bytes_of s)
             = (Throw (UndefinedBehaviour (lit "access outside the block")), b').
Proof.
  intros Hs. destruct (@of_string_rep always_alloc s ltac:(unfold size_limit; lia) eq_refl) as (b & E & Hrep).
  assert (allocated_size b = chunked (zlen s)) as Hal.
  { rewrite <- bytes_of_allocated; [unfold bytes_of; by rewrite E |].
    intros ->. unfold zlen in Hs. simpl in Hs. lia. }
  pose proof (chunked_bounds (zlen s) ltac:(unfold size_limit; lia)) as Hch.
  pose proof (chunked_bounds (zlen s + zlen s) ltac:(unfold size_limit; lia)) as Hch2.
  pose proof (wf_cells b (rep_wf _ _ Hrep)) as [Hlen _].
  unfold bytes_of. rewrite E. cbn [snd]. unfold append_self, reserve.
  rewrite (rep_size _ _ Hrep), u64_small by lia.
  destruct (Z.eqb_spec (zlen s + zlen s) (zlen s)); [lia|].
  destruct (array_ b) as [mem|] eqn:Ha; [|unfold cells in Hlen; rewrite Ha in Hlen; unfold zlen in Hlen; simpl in Hlen; lia].
  destruct (Z.ltb_spec (allocated_size b) (zlen s + zlen s)); [|lia].
  cbn [alloc_ok always_alloc andThen size_]. unfold write_cells, cells.
  cbn [array_ default from_option id].
  rewrite length_resize_block by lia.
  destruct (Z.leb_spec (zlen s + zlen s) (chunked (zlen s + zlen s))); [|lia].
  assert (zlen (take (Z.to_nat (zlen s + zlen s)) (resize_block mem (chunked (zlen s + zlen s))))
          = zlen s + zlen s) as Ht.
  { pose proof (length_resize_block mem (chunked (zlen s + zlen s)) ltac:(lia)).
    unfold zlen in *. rewrite length_take. lia. }
  destruct (take _ _) as [|x t] eqn:Et; [unfold zlen in *; simpl in Ht; lia|].
  rewrite Ht. case_bool; [breflect; lia|]. eauto.
Qed.

Lemma append_self_overruns_witness :
  exists b', @append_self always_alloc (bytes_of (repeat "x"%char 40))
             = (Throw (UndefinedBehaviour (lit "access outside the block")), b').
Proof. apply append_self_overruns. vm_compute. split; congruence. Defined.
