(* ===== verification/Socket.v ===== *)
(** * Socket: byte transport and the typed messages on top of it

    Models [network::Socket] (send, receive) and the value protocol of
    [network::BaseSocket] (sendUInt8 .. receiveLine): src/src/lib/network/socket.cpp
    and src/src/lib/network/basesocket.cpp.

    The kernel is the environment: [inbox] scripts the results of successive
    [recv] calls, [outbox] those of [send] calls, [wire] records what each [send]
    accepted and with which MSG_MORE flag. *)

From S2P Require Import Prelude.
From S2P Require Import SystemError.

Local Open Scope Z_scope.

(** ** Environment and state *)

Inductive RecvEvent : Type :=
| RecvData (s : str)      (** a segment arrives; a shorter request leaves the rest *)
| RecvEOF                 (** the peer has closed: every further [recv] returns 0 *)
| RecvError (errno : Z).

Inductive SendEvent : Type :=
| SendAccept (n : Z)      (** the kernel takes at most [n] bytes *)
| SendError (errno : Z).

Record Socket : Type := mkSocket {
  socket_ : Z;
  blocking_ : bool + Z;            (** O_NONBLOCK is clear; or the errno of [fcntl] *)
  rcvbuf : Z + Z;                  (** SO_RCVBUF; or the errno of [getsockopt] *)
  inbox : list RecvEvent;
  outbox : list SendEvent;
  wire : list (str * bool);
}.

Definition set_inbox (i : list RecvEvent) (k : Socket) : Socket :=
  mkSocket (socket_ k) (blocking_ k) (rcvbuf k) i (outbox k) (wire k).

Definition set_out (o : list SendEvent) (w : list (str * bool)) (k : Socket) : Socket :=
  mkSocket (socket_ k) (blocking_ k) (rcvbuf k) (inbox k) o w.

(** [::recv( fd, buf, request, 0 )]: the bytes read, or errno.  With nothing left
    in the script the receive timeout expires (EAGAIN). *)
Definition sys_recv (request : Z) (k : Socket) : (str + Z) * Socket :=
  match inbox k with
  | [] => (inr (ec_value ecEAGAIN), k)
  | RecvEOF :: _ => (inl [], k)
  | RecvError e :: t => (inr e, set_inbox t k)
  | RecvData s :: t =>
      let n := Z.to_nat request in
      (inl (take n s),
       set_inbox (match drop n s with [] => t | r => RecvData r :: t end) k)
  end.

(** [::send( fd, cp, left, flags )]: the number of bytes taken, or errno. *)
Definition sys_send (buf : str) (more : bool) (k : Socket) : (Z + Z) * Socket :=
  match outbox k with
  | [] => (inl (zlen buf), set_out [] (wire k ++ [(buf, more)]) k)
  | SendAccept n :: t =>
      let taken := take (Z.to_nat n) buf in
      (inl (zlen taken), set_out t (wire k ++ [(taken, more)]) k)
  | SendError e :: t => (inr e, set_out t (wire k) k)
  end.

(** ** Socket::receive and Socket::send *)

Definition receive (request : Z) : M Socket (SystemError * str) := fun k =>
  match sys_recv request k with
  | (inl data, k') => Ok ((ec_value ecOK, data), k')
  | (inr errno, k') =>
      if (errno =? ecEAGAIN) || (errno =? ecECONNREFUSED) || (errno =? ecENOTCONN)
      then Ok ((errno, []), k')
      else Throw (SystemException (lit "Socket::receive failed") errno)
  end.

Definition send_error (errno : Z) : M Socket SystemError :=
  if (errno =? ecEAGAIN) || (errno =? ecECONNRESET) then ret errno
  else throw (SystemException (lit "Socket::send failed") errno).

(** The loop over the unsent suffix [cp]; it leaves when all is sent or on an error. *)
Definition send (fuel : nat) (buf : str) (more : bool) : M Socket SystemError :=
  loop fuel (fun cp =>
    match cp with
    | [] => Break (ec_value ecOK)
    | _ => fun k =>
        match sys_send cp more k with
        | (inl rc, k') => Continue (drop (Z.to_nat rc) cp) k'
        | (inr errno, k') => (let* e := send_error errno in Break e) k'
        end
    end) buf.

(** The result of a system call that has no effect, or the exception for its errno. *)
Definition sys_query {A} (what : str) (r : A + Z) : M Socket A :=
  match r with inl v => ret v | inr errno => throw (SystemException what errno) end.

Definition getBlocking : M Socket bool := fun k => sys_query (lit "fcntl failed") (blocking_ k) k.
Definition getReceiveBufSize : M Socket Z := fun k => sys_query (lit "getReceiveBufSize failed") (rcvbuf k) k.

(** ** Network byte order *)

(** The [n] bytes of [htons]/[htonl]/[htobe64] of a value, as stored in memory. *)
Fixpoint be_split (n : nat) (v : Z) : str :=
  match n with
  | O => []
  | S m => be_split m (v / 256) ++ [chr (v mod 256)]
  end.

(** The value [ntohs]/[ntohl]/[be64toh] reads from memory. *)
Definition be_combine (s : str) : Z := fold_left (fun acc c => acc * 256 + octet c) s 0.

(** ** BaseSocket: typed values *)

(** One round of [do { error = receive( &t, request, received ); total += received; }
    while ( ok && total < request )]: every receive writes at the start of [t]. *)
Definition receive_body (n : nat) (st : str * Z) : M Socket ((str * Z) + (SystemError * str)) :=
  let (t, total) := st in
  let* (error, data) := receive (Z.of_nat n) in
  let t' := data ++ drop (length data) t in
  let total' := total + zlen data in
  if (error =? ecOK) && (total' <? Z.of_nat n) then Continue (t', total')
  else Break (error, t').

Definition receive_into (fuel : nat) (n : nat) : M Socket (SystemError * str) :=
  loop fuel (receive_body n) (replicate n (chr 0), 0).

Definition receive_value {A} (fuel : nat) (n : nat) (conv : str -> A) (zero : A) : M Socket (SystemError * A) :=
  let* (error, t) := receive_into fuel n in
  ret (error, if error =? ecOK then conv t else zero).

Section Typed.
Context (fuel : nat).

Definition sendUInt8 (value : Z) (more : bool) := send fuel (be_split 1 value) false.
Definition sendUInt16 (value : Z) (more : bool) := send fuel (be_split 2 value) false.
Definition sendInt8 (value : Z) (more : bool) := send fuel (be_split 1 value) more.
Definition sendInt16 (value : Z) (more : bool) := send fuel (be_split 2 value) more.
Definition sendUInt32 (value : Z) (more : bool) := send fuel (be_split 4 value) more.
Definition sendInt32 (value : Z) (more : bool) := send fuel (be_split 4 value) more.
Definition sendUInt64 (value : Z) (more : bool) := send fuel (be_split 8 value) more.
Definition sendInt64 (value : Z) (more : bool) := send fuel (be_split 8 value) more.

Definition receiveUInt8 := receive_value fuel 1 be_combine 0.
Definition receiveUInt16 := receive_value fuel 2 be_combine 0.
Definition receiveInt8 := receive_value fuel 1 (fun t => sext 8 (be_combine t)) 0.
Definition receiveInt16 := receive_value fuel 2 (fun t => sext 16 (be_combine t)) 0.
Definition receiveUInt32 := receive_value fuel 4 be_combine 0.
Definition receiveInt32 := receive_value fuel 4 (fun t => sext 32 (be_combine t)) 0.
Definition receiveUInt64 := receive_value fuel 8 be_combine 0.
Definition receiveInt64 := receive_value fuel 8 (fun t => sext 64 (be_combine t)) 0.

Definition sendString (s : str) (more : bool) : M Socket SystemError :=
  let* blocking := getBlocking in
  if blocking then
    let* error := sendUInt64 (zlen s) true in
    if negb (error =? ecOK) then ret error else send fuel s more
  else throw (DodoException (lit "sendString used on a non-blocking socket")).

(** The C string in [buf] after [buf[received] = 0]. *)
Fixpoint c_str (s : str) : str :=
  match s with
  | [] => []
  | c :: t => if octet c =? 0 then [] else c :: c_str t
  end.

Definition receiveString : M Socket (SystemError * str) :=
  let* blocking := getBlocking in
  if blocking then
    let* (error, stringsize) := receiveUInt64 in
    if error =? ecOK then
      let* bufsize := getReceiveBufSize in
      loop fuel (fun '(s, total) =>
        let* (error, data) := receive stringsize in
        if bufsize <? zlen data
        then throw (UndefinedBehaviour (lit "receiveString: buf overrun"))
        else
          let s' := s ++ c_str data in
          let total' := u64 (total + zlen data) in
          if (error =? ecOK) && (total' <? stringsize) then Continue (s', total')
          else Break (error, s'))
      ([], 0)
    else ret (error, [])
  else throw (DodoException (lit "receiveString used on a non-blocking socket")).

Definition charLF : ascii := "010".
Definition charCR : ascii := "013".

Definition sendLine (s : str) (more : bool) : M Socket SystemError :=
  send fuel (s ++ [charLF]) more.

(** The variables of the loop are the text so far and the last [receive]. *)
Definition receiveLine : M Socket (SystemError * str) :=
  let* first := receive 1 in
  loop fuel (fun '(ss, (error, data)) =>
    match data with
    | [c] =>
        if (error =? ecOK) && negb (c =c charLF) then
          let* n := receive 1 in
          Continue (if c =c charCR then ss else ss ++ [c], n)
        else Break (error, if error =? ecOK then ss else [])
    | _ => Break (error, if error =? ecOK then ss else [])
    end) ([], first).
End Typed.

(** ** Lemmas *)

Definition wire_bytes (k : Socket) : str := concat (map fst (wire k)).

(** The kernel accepts at least one byte per [send] call. *)
Definition progress (ev : SendEvent) : Prop :=
  match ev with SendAccept n => 0 < n | SendError _ => False end.

Lemma length_be_split n v : length (be_split n v) = n.
Proof. revert v. induction n as [|n IH]; intros v; simpl; [done|]. rewrite length_app, IH. simpl. lia. Qed.

Lemma be_combine_app s c : be_combine (s ++ [c]) = be_combine s * 256 + octet c.
Proof. unfold be_combine. by rewrite fold_left_app. Qed.

Lemma be_combine_split n v : be_combine (be_split n v) = v mod 2 ^ (8 * Z.of_nat n).
Proof.
  revert v. induction n as [|n IH]; intros v; [simpl; by rewrite Z.mod_1_r|].
  cbn [be_split]. rewrite be_combine_app, IH, octet_chr by (apply Z.mod_pos_bound; lia).
  replace (8 * Z.of_nat (S n)) with (8 + 8 * Z.of_nat n) by lia.
  rewrite Z.pow_add_r by lia. change (2 ^ 8) with 256.
  rewrite Z.rem_mul_r by lia. lia.
Qed.

Lemma be_combine_split_small n v :
  0 <= v < 2 ^ (8 * Z.of_nat n) -> be_combine (be_split n v) = v.
Proof. intros H. rewrite be_combine_split. by apply Z.mod_small. Qed.

(** A signed value survives its unsigned wire form. *)
Lemma sext_be_combine_split n v :
  (0 < n)%nat -> - 2 ^ (8 * Z.of_nat n - 1) <= v < 2 ^ (8 * Z.of_nat n - 1) ->
  sext (8 * Z.of_nat n) (be_combine (be_split n v)) = v.
Proof.
  intros Hn Hv. rewrite be_combine_split.
  rewrite <- (sext_id (8 * Z.of_nat n) v) at 2 by lia.
  unfold sext, wrap. by rewrite Z.mod_mod by (pose proof (Z.pow_pos_nonneg 2 (8 * Z.of_nat n)); lia).
Qed.

Lemma wp_receive_data request s t k E Q :
  inbox k = RecvData s :: t ->
  Q (ec_value ecOK, take (Z.to_nat request) s)
    (set_inbox (match drop (Z.to_nat request) s with [] => t | r => RecvData r :: t end) k) ->
  wp (receive request) E Q k.
Proof. intros Hi HQ. unfold wp, receive, sys_recv. by rewrite Hi. Qed.

(** A segment no longer than the request is consumed whole. *)
Lemma wp_receive_segment request s t k E Q :
  inbox k = RecvData s :: t -> zlen s <= request ->
  Q (ec_value ecOK, s) (set_inbox t k) -> wp (receive request) E Q k.
Proof.
  intros Hi Hs HQ. eapply wp_receive_data; [done|].
  rewrite take_ge, drop_ge by (unfold zlen in Hs; lia). done.
Qed.

(** [send] writes the whole buffer, in order, whatever the kernel accepts per call. *)
Lemma send_all fuel buf more k :
  Forall progress (outbox k) -> (length buf < fuel)%nat ->
  wp (send fuel buf more) nothrow
     (fun e k' => e = ecOK /\ wire_bytes k' = wire_bytes k ++ buf /\ Forall progress (outbox k')
                  /\ inbox k' = inbox k /\ blocking_ k' = blocking_ k) k.
Proof.
  intros Hprog Hfuel. unfold send.
  eapply (wp_loop _ (fun cp k' => wire_bytes k' ++ cp = wire_bytes k ++ buf /\
            Forall progress (outbox k') /\ inbox k' = inbox k /\ blocking_ k' = blocking_ k)
            (fun cp _ => length cp)); [|done|done].
  intros cp k1 (Hw & Hp & Hin & Hbl). destruct cp as [|c cp].
  - apply wp_ret. rewrite app_nil_r in Hw. done.
  - unfold wp, sys_send. destruct (outbox k1) as [|[n|e] t] eqn:Ho.
    + unfold Continue, ret, wire_bytes in *. cbn [wire set_out outbox inbox blocking_].
      rewrite map_app, concat_app. cbn [map fst concat].
      rewrite drop_ge by (unfold zlen; lia). rewrite !app_nil_r. split; [done|]. cbn [length]. lia.
    + inversion_clear Hp as [|? ? Hn Hp']. simpl in Hn.
      unfold Continue, ret, wire_bytes in *. cbn [wire set_out outbox inbox blocking_].
      rewrite map_app, concat_app. cbn [map fst concat]. rewrite app_nil_r, <- app_assoc.
      assert (drop (Z.to_nat (zlen (take (Z.to_nat n) (c :: cp)))) (c :: cp) =
              drop (Z.to_nat n) (c :: cp)) as ->.
      { unfold zlen. rewrite Nat2Z.id, length_take.
        destruct (Nat.min_spec (Z.to_nat n) (length (c :: cp))) as [[_ ->]|[? ->]]; [done|].
        by rewrite !drop_ge by lia. }
      rewrite take_drop. split; [done|]. rewrite length_drop. cbn [length]. lia.
    + inversion Hp as [|? ? Hn]. done.
Qed.

Lemma receive_segment request s t k :
  inbox k = RecvData s :: t -> zlen s <= request ->
  receive request k = Ok ((ec_value ecOK, s), set_inbox t k).
Proof.
  intros Hi Hs. unfold receive, sys_recv. rewrite Hi, take_ge, drop_ge by (unfold zlen in Hs; lia). done.
Qed.

(** One round on a segment that fits. *)
Lemma receive_body_segment n s r t total k :
  inbox k = RecvData s :: r -> zlen s <= Z.of_nat n ->
  receive_body n (t, total) k =
    (if total + zlen s <? Z.of_nat n then Continue (s ++ drop (length s) t, total + zlen s)
     else Break (ec_value ecOK, s ++ drop (length s) t)) (set_inbox r k).
Proof. intros Hi Hs. unfold receive_body, bind. by rewrite (receive_segment _ _ _ _ Hi Hs). Qed.

(** One segment that holds the whole value. *)
Lemma receive_into_segment fuel n s t k :
  inbox k = RecvData s :: t -> length s = n -> (0 < fuel)%nat -> (0 < n)%nat ->
  receive_into fuel n k = Ok ((ec_value ecOK, s), set_inbox t k).
Proof.
  intros Hi Hs Hf Hn. destruct fuel as [|f]; [lia|]. unfold receive_into. cbn [loop].
  unfold bind. rewrite (receive_body_segment _ _ _ _ _ _ Hi) by (unfold zlen; lia).
  rewrite Z.add_0_l. unfold zlen. rewrite Hs, Z.ltb_irrefl. cbn.
  rewrite drop_ge by (rewrite length_replicate; lia). by rewrite app_nil_r.
Qed.

Lemma receive_value_segment {A} fuel n (conv : str -> A) zero s t k :
  inbox k = RecvData s :: t -> length s = n -> (0 < fuel)%nat -> (0 < n)%nat ->
  receive_value fuel n conv zero k = Ok ((ec_value ecOK, conv s), set_inbox t k).
Proof.
  intros. unfold receive_value, bind. by erewrite receive_into_segment by done.
Qed.

(** *** Streams of segments *)

Definition nonempty {A} (l : list A) : Prop := l <> [].
Definition seg_bytes (e : RecvEvent) : str := match e with RecvData s => s | _ => [] end.
(** The bytes still to be delivered by the script. *)
Definition pending (k : Socket) : str := concat (map seg_bytes (inbox k)).
(** The script holds data only, in segments of at least one byte. *)
Definition data_only (k : Socket) : Prop :=
  Forall (fun e => match e with RecvData s => nonempty s | _ => False end) (inbox k).

(** Reading one byte of such a stream. *)
Lemma wp_receive_one k c r E Q :
  data_only k -> pending k = c :: r ->
  (forall k', data_only k' -> pending k' = r -> blocking_ k' = blocking_ k ->
     Q (ec_value ecOK, [c]) k') ->
  wp (receive 1) E Q k.
Proof.
  unfold data_only, pending. intros Hd Hp HQ. destruct (inbox k) as [|[s| |e] t] eqn:Hi; try done.
  - inversion_clear Hd as [|? ? Hs Ht]. destruct s as [|d s]; [done|]. simpl in Hp.
    injection Hp as -> Hr. eapply wp_receive_data; [done|]. change (Z.to_nat 1) with 1%nat.
    cbn [take drop]. apply HQ; [| |done]; destruct s as [|x s]; simpl; done || by constructor.
  - by inversion Hd.
  - by inversion Hd.
Qed.

(** The first occurrence of [d] splits a list in one way. *)
Lemma split_at_first {A} (d c : A) ss r s e :
  ss ++ c :: r = s ++ d :: e -> d ∉ ss -> d ∉ s ->
  (c = d /\ ss = s /\ r = e) \/ (c <> d /\ exists s', s = ss ++ c :: s' /\ r = s' ++ d :: e).
Proof.
  revert s. induction ss as [|x ss IH]; intros [|y s] Heq Hss Hs; simplify_list_eq.
  - by left.
  - right. split; [set_solver|]. by exists s.
  - set_solver.
  - destruct (IH s) as [(-> & -> & ->)|(Hc & s' & -> & ->)]; [done|set_solver|set_solver|by left|].
    right. split; [done|]. by exists s'.
Qed.

Lemma receiveLine_stream fuel s extra k :
  data_only k -> pending k = s ++ charLF :: extra -> charLF ∉ s -> charCR ∉ s ->
  (length (pending k) < fuel)%nat ->
  wp (receiveLine fuel) nothrow
     (fun '(e, line) k' => e = ecOK /\ line = s /\ pending k' = extra) k.
Proof.
  intros Hd Hp HLF HCR Hf. unfold receiveLine. apply wp_bind.
  assert (exists c r, pending k = c :: r) as (c0 & r0 & Hc0) by (rewrite Hp; destruct s; eauto).
  eapply wp_receive_one; [done | done |]. intros k0 Hd0 Hp0 _.
  eapply (wp_loop _ (fun st k1 =>
            exists c, snd st = (ec_value ecOK, [c]) /\ data_only k1 /\
                      fst st ++ c :: pending k1 = s ++ charLF :: extra /\ charLF ∉ fst st)
            (fun _ k1 => length (pending k1))).
  - intros [ss [err data]] k1 (c & Hst & Hd1 & Hs1 & Hn). simpl in Hst, Hs1, Hn. simplify_eq Hst.
    intros -> ->. destruct (split_at_first _ _ _ _ _ _ Hs1 Hn HLF) as [(-> & -> & He)|(Hc & s' & Hs' & Hp1)].
    + apply wp_ret. cbn. done.
    + destruct (Ascii.eqb_spec c charLF) as [|_]; [done|]. cbn [negb andb Z.eqb].
      assert (exists d r, pending k1 = d :: r) as (d & r & Hdr) by (rewrite Hp1; destruct s'; eauto).
      apply wp_bind. eapply wp_receive_one; [done | done |]. intros k2 Hd2 Hp2 _. apply wp_ret.
      destruct (Ascii.eqb_spec c charCR) as [->|_]; [set_solver|].
      rewrite Hp2, Hdr. split; [|simpl; lia]. exists d. cbn [fst snd]. rewrite <- app_assoc. simpl.
      rewrite <- Hdr. set_solver.
  - exists c0. cbn [fst snd app]. rewrite Hp0, <- Hc0. set_solver.
  - rewrite Hp0. rewrite Hc0 in Hf. simpl in Hf. lia.
Qed.

Lemma c_str_id s : forallb (fun c => negb (octet c =? 0)) s = true -> c_str s = s.
Proof.
  induction s as [|c s IH]; simpl; [done|]. intros H. apply andb_true_iff in H as [H1 H2].
  apply negb_true_iff in H1. by rewrite H1, IH.
Qed.

(** A script of string segments. *)
Definition segments (segs : list str) : list RecvEvent := map RecvData segs.

Lemma receiveString_segments fuel s seg segs k bufsize :
  blocking_ k = inl true -> rcvbuf k = inl bufsize ->
  inbox k = RecvData (be_split 8 (zlen s)) :: segments (seg :: segs) ->
  concat (seg :: segs) = s -> Forall nonempty (seg :: segs) ->
  Forall (fun x => zlen x <= bufsize) (seg :: segs) ->
  forallb (fun c => negb (octet c =? 0)) s = true -> zlen s < 2 ^ 64 ->
  (S (length (seg :: segs)) < fuel)%nat ->
  wp (receiveString fuel) nothrow (fun '(e, r) k' => e = ecOK /\ r = s /\ inbox k' = []) k.
Proof.
  intros Hbl Hrb Hin Hcat Hne Hfit Hz Hsz Hf. pose proof (zlen_nonneg s) as Hs0.
  unfold receiveString. apply wp_bind. unfold getBlocking at 1, wp at 1. rewrite Hbl.
  apply wp_bind. unfold receiveUInt64, wp at 1.
  erewrite receive_value_segment; [|exact Hin|apply length_be_split|lia|lia].
  rewrite be_combine_split_small by (change (8 * Z.of_nat 8) with 64; lia).
  cbn [Z.eqb ec_value]. apply wp_bind. unfold getReceiveBufSize at 1, wp at 1.
  cbn [rcvbuf set_inbox]. rewrite Hrb.
  eapply (wp_loop _ (fun st k1 => exists more, more <> [] /\ inbox k1 = segments more /\
             Forall nonempty more /\ Forall (fun x => zlen x <= bufsize) more /\
             fst st ++ concat more = s /\ snd st = zlen (fst st))
             (fun _ k1 => length (inbox k1))).
  - intros [acc total] k1 (more & Hm & Hi1 & Hn1 & Hf1 & Hs1 & Ht1). simpl in Hs1, Ht1. subst total.
    destruct more as [|x more]; [done|]. inversion_clear Hn1 as [|? ? Hx Hn2].
    inversion_clear Hf1 as [|? ? Hxf Hf2]. simpl in Hs1.
    assert (zlen s = zlen acc + zlen x + zlen (concat more)) as Hlen by (rewrite <- Hs1, !zlen_app; lia).
    pose proof (zlen_nonneg acc). pose proof (zlen_nonneg x). pose proof (zlen_nonneg (concat more)).
    apply wp_bind. apply (wp_receive_segment _ x (segments more)); [exact Hi1 | lia |].
    destruct (Z.ltb_spec bufsize (zlen x)); [lia|].
    rewrite c_str_id by (rewrite <- Hs1, !forallb_app in Hz; by breflect).
    rewrite u64_small by lia. cbn [Z.eqb ec_value andb].
    destruct (Z.ltb_spec (zlen acc + zlen x) (zlen s)).
    + apply wp_ret. split; [|rewrite Hi1; unfold segments; simpl; rewrite !length_map; lia]. exists more. cbn [fst snd].
      rewrite zlen_app, <- app_assoc. repeat split; try done.
      intros ->. unfold zlen in *. simpl in *. lia.
    + apply wp_ret. assert (concat more = []) as Hnil by (apply zlen_nil; lia).
      rewrite Hnil, app_nil_r in Hs1. repeat split; [done|].
      destruct more as [|y more]; [done|]. inversion_clear Hn2. destruct y; done.
  - exists (seg :: segs). by rewrite <- Hcat.
  - unfold segments. cbn [inbox set_inbox]. rewrite length_map. lia.
Qed.

Lemma receive_into_eof fuel n t total k r :
  inbox k = RecvEOF :: r -> total < Z.of_nat n ->
  loop fuel (receive_body n) (t, total) k = OutOfFuel.
Proof.
  intros Hi Ht. revert t. induction fuel as [|f IH]; intros t; [done|]. cbn [loop].
  unfold bind, receive_body at 1, bind, receive, sys_recv. rewrite Hi.
  change (zlen (@nil ascii)) with 0. rewrite Z.add_0_r.
  assert ((total <? Z.of_nat n) = true) as -> by lia. cbn. apply IH.
Qed.

(** ** Properties *)

(** A socket in blocking mode with a given receive script. *)
Definition test_socket (i : list RecvEvent) : Socket := mkSocket 3 (inl true) (inl 8192) i [] [].

(** [Socket::send] puts the whole buffer on the wire, in order, and returns
    success, however few bytes the kernel accepts per call, as long as it accepts
    at least one. *)
Theorem send_delivers_all fuel buf more k :
  Forall progress (outbox k) -> (length buf < fuel)%nat ->
  exists k', send fuel buf more k = Ok (ec_value ecOK, k') /\ wire_bytes k' = wire_bytes k ++ buf.
Proof.
  intros Hp Hf. destruct (wp_nothrow _ _ _ (send_all fuel buf more k Hp Hf)) as (e & k' & -> & -> & Hw & _).
  eauto.
Qed.

Lemma send_delivers_all_witness :
  exists k', send 10 (lit "hello") false (mkSocket 3 (inl true) (inl 8192) [] [SendAccept 2; SendAccept 1] []) = Ok (ec_value ecOK, k')
             /\ wire_bytes k' = lit "hello".
Proof. apply (send_delivers_all 10 (lit "hello") false); [repeat constructor | simpl; lia]. Defined.

(** What it means that [sender] and [receiver] agree on the values [lo <= v < hi]: the
    bytes written by [sender], arriving as one segment, make [receiver] return the value
    and consume exactly these bytes. *)
Definition round_trips (sender : nat -> Z -> bool -> M Socket SystemError)
    (receiver : nat -> M Socket (SystemError * Z)) (lo hi : Z) : Prop :=
  forall fuel v more ks kr rest,
    (8 < fuel)%nat -> lo <= v < hi -> Forall progress (outbox ks) ->
    exists msg ks',
      sender fuel v more ks = Ok (ec_value ecOK, ks') /\ wire_bytes ks' = wire_bytes ks ++ msg /\
      receiver fuel (set_inbox (RecvData msg :: rest) kr) = Ok ((ec_value ecOK, v), set_inbox rest kr).

Lemma round_trips_conv n flag (conv : str -> Z) lo hi :
  (0 < n <= 8)%nat -> (forall v, lo <= v < hi -> conv (be_split n v) = v) ->
  round_trips (fun fuel v more => send fuel (be_split n v) (flag more))
              (fun fuel => receive_value fuel n conv 0) lo hi.
Proof.
  intros Hn Hconv fuel v more ks kr rest Hf Hv Hp. exists (be_split n v).
  assert (length (be_split n v) < fuel)%nat as Hl by (rewrite length_be_split; lia).
  destruct (wp_nothrow _ _ _ (send_all fuel (be_split n v) (flag more) ks Hp Hl))
    as (e & ks' & Hs & -> & Hw & _).
  exists ks'. repeat split; [done | done |].
  erewrite receive_value_segment; [|reflexivity | apply length_be_split | lia | lia].
  by rewrite Hconv.
Qed.

(** C25 Integer messages round trip: what each of the eight send operations
    writes is read back as the same value by the matching receive operation, over
    the full range of the type. *)
Theorem typed_values_round_trip :
  round_trips sendUInt8 receiveUInt8 0 (2 ^ 8) /\ round_trips sendUInt16 receiveUInt16 0 (2 ^ 16) /\
  round_trips sendUInt32 receiveUInt32 0 (2 ^ 32) /\ round_trips sendUInt64 receiveUInt64 0 (2 ^ 64) /\
  round_trips sendInt8 receiveInt8 (- 2 ^ 7) (2 ^ 7) /\ round_trips sendInt16 receiveInt16 (- 2 ^ 15) (2 ^ 15) /\
  round_trips sendInt32 receiveInt32 (- 2 ^ 31) (2 ^ 31) /\ round_trips sendInt64 receiveInt64 (- 2 ^ 63) (2 ^ 63).
Proof.
  split_and!;
    first [ apply (round_trips_conv _ (fun _ => false)) | apply (round_trips_conv _ (fun m => m)) ];
    try lia; intros v Hv.
  1-4: by apply be_combine_split_small.
  - apply (sext_be_combine_split 1); [lia | exact Hv].
  - apply (sext_be_combine_split 2); [lia | exact Hv].
  - apply (sext_be_combine_split 4); [lia | exact Hv].
  - apply (sext_be_combine_split 8); [lia | exact Hv].
Qed.

(** A two-byte value that arrives in two segments is misread: the second
    [receive] overwrites the first byte, so the result is the low byte in the
    high position. *)
Theorem fragmented_value_misread fuel v rest k :
  0 <= v < 2 ^ 16 -> (1 < fuel)%nat ->
  exists k', receiveUInt16 fuel (set_inbox (RecvData [chr (v / 256)] :: RecvData [chr (v mod 256)] :: rest) k)
             = Ok ((ec_value ecOK, (v mod 256) * 256), k').
Proof.
  intros Hv Hf. destruct fuel as [|[|f]]; try lia. eexists.
  unfold receiveUInt16, receive_value, receive_into, bind. cbn [loop]. unfold bind.
  rewrite (receive_body_segment _ [chr (v / 256)] (RecvData [chr (v mod 256)] :: rest)) by done.
  change (0 + zlen [chr (v / 256)] <? Z.of_nat 2) with true. unfold Continue at 1, ret at 1.
  rewrite (receive_body_segment _ [chr (v mod 256)] rest) by done.
  change (0 + zlen [chr (v / 256)] + zlen [chr (v mod 256)] <? Z.of_nat 2) with false.
  cbn -[chr octet Z.modulo Z.div be_combine].
  unfold be_combine. cbn [fold_left]. rewrite octet_chr by (apply Z.mod_pos_bound; lia).
  change (octet (chr 0)) with 0. rewrite Z.mul_0_l, Z.add_0_l, Z.add_0_r. reflexivity.
Qed.

Lemma fragmented_value_misread_witness :
  exists k', receiveUInt16 5 (test_socket [RecvData [chr 1]; RecvData [chr 2]]) = Ok ((ec_value ecOK, 512), k').
Proof. apply (fragmented_value_misread 5 258 [] (test_socket [])); lia. Defined.

(** When the peer closes the connection before a value is complete, the
    receive loop never ends: every further [receive] reports success with zero
    bytes, whatever the number of iterations. *)
Theorem receive_never_ends_after_close fuel n r k :
  (0 < n)%nat -> receive_into fuel n (set_inbox (RecvEOF :: r) k) = OutOfFuel.
Proof. intros Hn. eapply receive_into_eof; [reflexivity | lia]. Qed.

Lemma receive_never_ends_after_close_witness :
  receive_into 1000 8 (test_socket [RecvEOF]) = OutOfFuel.
Proof. apply (receive_never_ends_after_close 1000 8 [] (test_socket [])). lia. Defined.

(** Strings round trip under fragmentation: a NUL-free string whose 8-byte
    length arrives in one segment, followed by its bytes cut into any non-empty
    segments that fit the receive buffer, is received whole. *)
Theorem string_survives_fragmentation fuel s seg segs k bufsize :
  blocking_ k = inl true -> rcvbuf k = inl bufsize ->
  inbox k = RecvData (be_split 8 (zlen s)) :: segments (seg :: segs) ->
  concat (seg :: segs) = s -> Forall nonempty (seg :: segs) ->
  Forall (fun x => zlen x <= bufsize) (seg :: segs) ->
  forallb (fun c => negb (octet c =? 0)) s = true -> zlen s < 2 ^ 64 ->
  (S (length (seg :: segs)) < fuel)%nat ->
  exists k', receiveString fuel k = Ok ((ec_value ecOK, s), k') /\ inbox k' = [].
Proof.
  intros H1 H1' H2 H3 H4 H5 H6 H7 H8.
  destruct (wp_nothrow _ _ _ (receiveString_segments fuel s seg segs k bufsize H1 H1' H2 H3 H4 H5 H6 H7 H8))
    as ([e r] & k' & -> & -> & -> & Hi). eauto.
Qed.

Lemma string_survives_fragmentation_witness :
  exists k', receiveString 9 (test_socket (RecvData (be_split 8 5) :: segments [lit "he"; lit "llo"]))
             = Ok ((ec_value ecOK, lit "hello"), k') /\ inbox k' = [].
Proof.
  apply (string_survives_fragmentation 9 (lit "hello") (lit "he") [lit "llo"] _ 8192);
    first [reflexivity | repeat constructor; vm_compute; congruence | simpl; lia].
Defined.

(** Line framing: from a stream that holds a line free of CR and LF, a LF and
    more bytes, cut into segments anywhere, [receiveLine] returns the line and
    leaves exactly the bytes after the LF. *)
Theorem line_framing fuel s extra k :
  data_only k -> pending k = s ++ charLF :: extra -> charLF ∉ s -> charCR ∉ s ->
  (length (pending k) < fuel)%nat ->
  exists k', receiveLine fuel k = Ok ((ec_value ecOK, s), k') /\ pending k' = extra.
Proof.
  intros H1 H2 H3 H4 H5.
  destruct (wp_nothrow _ _ _ (receiveLine_stream fuel s extra k H1 H2 H3 H4 H5))
    as ([e r] & k' & -> & -> & -> & Hi). eauto.
Qed.

Lemma line_framing_witness :
  exists k', receiveLine 20 (test_socket (segments [lit "ab"; lit "c" ++ charLF :: lit "d"]))
             = Ok ((ec_value ecOK, lit "abc"), k') /\ pending k' = lit "d".
Proof.
  apply (line_framing 20 (lit "abc") (lit "d"));
    [repeat constructor; done | reflexivity | by apply (bool_decide_unpack _) | by apply (bool_decide_unpack _) | simpl; lia].
Defined.
