(* ===== verification/ReadBuffer.v ===== *)
(** * ReadBuffer: reading single characters from a chunked source

    Models [VirtualReadBuffer] and its three implementations
    (src/src/include/network/socketreadbuffer.hpp,
    src/src/lib/network/socketreadbuffer.cpp).  [ReadBuffer] is the interface of
    virtual functions; [ReadBufferLaws] is what the HTTP parsers rely on: the
    buffer presents a sequence [rest] of characters, [get] is its head, [next]
    moves on and reports EAGAIN at the end (what [get] does past the end is left
    open).  The parsers are verified against the
    laws; this file proves them for the string, file and socket buffers. *)

From S2P Require Import Prelude.
From S2P Require Import SystemError.
From S2P Require Import Socket.

Local Open Scope Z_scope.

(** ** The interface *)

Class ReadBuffer (B : Type) := {
  get : B -> outcome ascii;      (** [char get() const] *)
  next : M B SystemError;        (** [SystemError next()] *)
}.

Class ReadBufferLaws (B : Type) `{ReadBuffer B} := {
  rb_ok : B -> Prop;
  rest : B -> str;
  get_fuel b : get b <> OutOfFuel;
  get_head b c t : rb_ok b -> rest b = c :: t -> get b = Ok c;
  next_more b c d t : rb_ok b -> rest b = c :: d :: t ->
    exists b', next b = Ok (ec_value ecOK, b') /\ rb_ok b' /\ rest b' = d :: t;
  next_last b : rb_ok b -> (length (rest b) <= 1)%nat ->
    exists b', next b = Ok (ec_value ecEAGAIN, b') /\ rb_ok b' /\ (length (rest b') <= 1)%nat;
}.

(** [data.get()] in a parser. *)
Definition peek {B} `{ReadBuffer B} : M B ascii := fun b =>
  match get b with
  | Ok c => Ok (c, b)
  | Throw e => Throw e
  | OutOfFuel => OutOfFuel
  end.

Section Client.
Context {B : Type} `{ReadBufferLaws B}.

Lemma wp_peek b c t E Q : rb_ok b -> rest b = c :: t -> Q c b -> wp peek E Q b.
Proof. intros Hok Hr HQ. unfold wp, peek. by rewrite (get_head _ _ _ Hok Hr). Qed.

(** Past the end [get] may fail; a parser still does not diverge. *)
Lemma wp_peek_any b E Q :
  (forall e, E e) -> (forall c, (forall d t, rb_ok b -> rest b = d :: t -> c = d) -> Q c b) -> wp peek E Q b.
Proof.
  intros HE HQ. unfold wp, peek. pose proof (get_fuel b) as Hg.
  destruct (get b) as [c|e|] eqn:Eg; [apply HQ | apply HE | done].
  intros d t Hok Hr. rewrite (get_head _ _ _ Hok Hr) in Eg. congruence.
Qed.

Lemma wp_next b c d t E Q :
  rb_ok b -> rest b = c :: d :: t ->
  (forall b', rb_ok b' -> rest b' = d :: t -> Q (ec_value ecOK) b') -> wp next E Q b.
Proof.
  intros Hok Hr HQ. unfold wp. destruct (next_more _ _ _ _ Hok Hr) as (b' & -> & ? & ?). by apply HQ.
Qed.

(** The same for a remainder that is known not to be empty. *)
Lemma wp_next_to b c k E Q :
  rb_ok b -> rest b = c :: k -> k <> [] ->
  (forall b', rb_ok b' -> rest b' = k -> Q (ec_value ecOK) b') -> wp next E Q b.
Proof. intros Hok Hr Hk HQ. destruct k as [|d k]; [done|]. by eapply wp_next. Qed.

Lemma wp_next_last b E Q :
  rb_ok b -> (length (rest b) <= 1)%nat ->
  (forall b', rb_ok b' -> (length (rest b') <= 1)%nat -> Q (ec_value ecEAGAIN) b') -> wp next E Q b.
Proof.
  intros Hok Hr HQ. unfold wp. destruct (next_last _ Hok Hr) as (b' & -> & ? & ?). by apply HQ.
Qed.

(** Either there was more, or the end was reached and stays reached. *)
Lemma wp_next_any b E Q :
  rb_ok b ->
  (forall e b', rb_ok b' ->
     (e = ec_value ecOK /\ (S (length (rest b')) = length (rest b))%nat) \/
     (e = ec_value ecEAGAIN /\ (length (rest b') <= 1)%nat /\ (length (rest b) <= 1)%nat) -> Q e b') ->
  wp next E Q b.
Proof.
  intros Hok HQ. destruct (rest b) as [|c [|d t]] eqn:Hr.
  - apply wp_next_last; [done | rewrite Hr; simpl; lia |]. intros b' Hok' Hl. apply HQ; [done|].
    right. rewrite ?Hr. simpl. auto with lia.
  - apply wp_next_last; [done | rewrite Hr; simpl; lia |]. intros b' Hok' Hl. apply HQ; [done|].
    right. rewrite ?Hr. simpl. auto with lia.
  - eapply wp_next; [done | exact Hr |]. intros b' Hok' Hr'. apply HQ; [done|]. left.
    rewrite ?Hr, Hr'. simpl. auto.
Qed.

(** A loop that consumes the characters of [w] one by one. *)
Lemma wp_scan {S A} (body : S -> M B (S + A)) (I : S -> Prop) (P : ascii -> bool) (upd : S -> ascii -> S)
    E (Q : A -> B -> Prop) c t w :
  (forall s b x k R, I s -> rb_ok b -> rest b = x :: k -> k <> [] -> P x = true ->
     (forall b', rb_ok b' -> rest b' = k -> R (inl (upd s x)) b') -> wp (body s) E R b) ->
  (forall s x, I s -> P x = true -> I (upd s x)) ->
  forall fuel s b, I s -> rb_ok b -> rest b = w ++ c :: t -> forallb P w = true -> (length w <= fuel)%nat ->
  (forall b', I (fold_left upd w s) -> rb_ok b' -> rest b' = c :: t ->
     wp (loop (fuel - length w) body (fold_left upd w s)) E Q b') ->
  wp (loop fuel body s) E Q b.
Proof.
  intros Hstep HI. induction w as [|x w IH]; intros fuel s b Hs Hok Hr Hw Hf HQ; cbn [length forallb fold_left] in *.
  - specialize (HQ b Hs Hok Hr). by rewrite Nat.sub_0_r in HQ.
  - apply andb_true_iff in Hw as [Hx Hw]. rewrite <- app_comm_cons in Hr. destruct fuel as [|f]; [lia|].
    apply wp_loop_step; [lia|]. eapply Hstep; [done | done | exact Hr | by destruct w | done |].
    intros b' Hok' Hr'. cbn [pred]. apply (IH f); [by apply HI | done | done | done | lia | done].
Qed.
End Client.

(** ** StringReadBuffer *)

Record StringReadBuffer : Type := mkStringReadBuffer { data_ : str; sidx_ : Z }.

Definition StringReadBuffer_new (data : str) : StringReadBuffer := mkStringReadBuffer data 0.

Definition string_get (b : StringReadBuffer) : outcome ascii :=
  match data_ b !! Z.to_nat (sidx_ b) with
  | Some c => Ok c
  | None => Throw std_out_of_range
  end.

Definition string_next : M StringReadBuffer SystemError := fun b =>
  if u64 (zlen (data_ b) - 1) <=? sidx_ b then Ok (ec_value ecEAGAIN, b)
  else Ok (ec_value ecOK, mkStringReadBuffer (data_ b) (sidx_ b + 1)).

#[export] Instance StringReadBuffer_ReadBuffer : ReadBuffer StringReadBuffer :=
  {| get := string_get; next := string_next |}.

(** ** FileReadBuffer *)

(** [file_] is the part of the file not yet read; [fbuffer_] the chunk buffer,
    [None] cells were never written. *)
Record FileReadBuffer : Type := mkFileReadBuffer {
  file_ : str; fbuffer_ : list (option ascii); fbufsize_ : Z; fidx_ : Z; read_ : Z; funderflows_ : Z
}.

(** [read_ = fread( buffer_, 1, bufsize_, file_ )] *)
Definition file_underflow : M FileReadBuffer SystemError := fun b =>
  if read_ b <=? fidx_ b then
    let chunk := take (Z.to_nat (fbufsize_ b)) (file_ b) in
    let b' := mkFileReadBuffer (drop (Z.to_nat (fbufsize_ b)) (file_ b))
                (map Some chunk ++ drop (length chunk) (fbuffer_ b))
                (fbufsize_ b) 0 (zlen chunk) (funderflows_ b + 1) in
    Ok (if zlen chunk =? 0 then ec_value ecEAGAIN else ec_value ecOK, b')
  else Ok (ec_value ecOK, b).

Definition file_get (b : FileReadBuffer) : outcome ascii :=
  match fbuffer_ b !! Z.to_nat (fidx_ b) with
  | Some (Some c) => Ok c
  | _ => Throw (UndefinedBehaviour (lit "read of an unwritten buffer position"))
  end.

Definition file_next : M FileReadBuffer SystemError := fun b =>
  file_underflow (mkFileReadBuffer (file_ b) (fbuffer_ b) (fbufsize_ b) (fidx_ b + 1) (read_ b) (funderflows_ b)).

(** The constructor: [content] is what [fopen] gives access to, or its errno;
    [errno] is the variable as the first [fread] leaves it. *)
Definition FileReadBuffer_new (filename : str) (content : str + Z) (errno bufsize : Z) : outcome FileReadBuffer :=
  match content with
  | inr e => Throw (SystemException (lit "file '" ++ filename ++ lit "' cannot be opened (") e)
  | inl s =>
      match file_underflow (mkFileReadBuffer s (replicate (Z.to_nat bufsize) None) bufsize 0 0 0) with
      | Ok (error, b') =>
          if negb (error =? ecOK) then Throw (SystemException (lit "file '" ++ filename ++ lit "' cannot be opened") errno)
          else Ok b'
      | Throw e => Throw e
      | OutOfFuel => OutOfFuel
      end
  end.

#[export] Instance FileReadBuffer_ReadBuffer : ReadBuffer FileReadBuffer :=
  {| get := file_get; next := file_next |}.

(** ** SocketReadBuffer *)

Record SocketReadBuffer : Type := mkSocketReadBuffer {
  sock : Socket; kbuffer_ : list (option ascii); kbufsize_ : Z; kidx_ : Z; received_ : Z; kunderflows_ : Z
}.

Definition SocketReadBuffer_new (k : Socket) (bufsize : Z) : outcome SocketReadBuffer :=
  let! (blocking, _) := getBlocking k in
  if negb blocking then Throw (DodoException (lit "SocketReadBuffer requires a blocking socket"))
  else Ok (mkSocketReadBuffer k (replicate (Z.to_nat bufsize) None) bufsize 0 0 0).

Definition socket_underflow : M SocketReadBuffer SystemError := fun b =>
  if received_ b <=? kidx_ b then
    match receive (kbufsize_ b) (sock b) with
    | Ok ((error, data), k') =>
        Ok (error, mkSocketReadBuffer k' (map Some data ++ drop (length data) (kbuffer_ b)) (kbufsize_ b)
                     (if error =? ecOK then 0 else kidx_ b) (zlen data) (kunderflows_ b + 1))
    | Throw e => Throw e
    | OutOfFuel => OutOfFuel
    end
  else Ok (ec_value ecOK, b).

Definition socket_get (b : SocketReadBuffer) : outcome ascii :=
  match kbuffer_ b !! Z.to_nat (kidx_ b) with
  | Some (Some c) => Ok c
  | _ => Throw (UndefinedBehaviour (lit "read of an unwritten buffer position"))
  end.

Definition socket_next : M SocketReadBuffer SystemError := fun b =>
  socket_underflow (mkSocketReadBuffer (sock b) (kbuffer_ b) (kbufsize_ b) (kidx_ b + 1) (received_ b) (kunderflows_ b)).

#[export] Instance SocketReadBuffer_ReadBuffer : ReadBuffer SocketReadBuffer :=
  {| get := socket_get; next := socket_next |}.

(** ** The laws hold *)

Lemma drop_S_tail {A} (l : list A) i c t : drop i l = c :: t -> drop (S i) l = t.
Proof.
  intros E. replace (S i) with (i + 1)%nat by lia. by rewrite <- drop_drop, E.
Qed.

Lemma drop_head_lookup {A} (l : list A) i c t : drop i l = c :: t -> l !! i = Some c.
Proof. intros E. replace i with (i + 0)%nat by lia. by rewrite <- lookup_drop, E. Qed.

Definition string_ok (b : StringReadBuffer) : Prop := 0 <= sidx_ b < zlen (data_ b) /\ zlen (data_ b) < 2 ^ 64.
Definition string_rest (b : StringReadBuffer) : str := drop (Z.to_nat (sidx_ b)) (data_ b).

#[export] Program Instance StringReadBuffer_Laws : ReadBufferLaws StringReadBuffer :=
  {| rb_ok := string_ok; rest := string_rest |}.
Next Obligation. intros b. simpl. unfold string_get. by case_match. Qed.
Next Obligation.
  intros b c t _ Hr. simpl. unfold string_get. by rewrite (drop_head_lookup _ _ _ _ Hr).
Qed.
Next Obligation.
  intros b c d t [Hi Hl] Hr. simpl. unfold string_next, string_rest in *.
  pose proof (f_equal length Hr) as Hlen. rewrite length_drop in Hlen. simpl in Hlen. unfold zlen in *.
  rewrite u64_small by lia. destruct (Z.leb_spec (Z.of_nat (length (data_ b)) - 1) (sidx_ b)); [lia|].
  eexists. split; [done|]. unfold string_ok, string_rest, zlen. simpl.
  rewrite Z2Nat.inj_add, Nat.add_1_r by lia. split; [lia|]. by apply (drop_S_tail _ _ c).
Qed.
Next Obligation.
  intros b [Hi Hl] Hr. simpl. unfold string_next, string_rest in *. rewrite length_drop in Hr. unfold zlen in *.
  rewrite u64_small by lia. destruct (Z.leb_spec (Z.of_nat (length (data_ b)) - 1) (sidx_ b)); [|lia].
  exists b. rewrite length_drop. done.
Qed.

(** The filled part of a chunk buffer, from the read index on. *)
Definition window (buf : list (option ascii)) (idx n : Z) : str :=
  omap id (take (Z.to_nat n - Z.to_nat idx) (drop (Z.to_nat idx) buf)).

(** The first [n] cells hold characters. *)
Definition filled (buf : list (option ascii)) (n : Z) : Prop :=
  exists chunk junk, buf = map Some chunk ++ junk /\ n = zlen chunk.

Lemma omap_some (l : str) : omap id (map Some l) = l.
Proof. induction l as [|c l IH]; [done|]. simpl. by f_equal. Qed.

Lemma window_filled chunk junk idx :
  window (map Some chunk ++ junk) idx (zlen chunk) = drop (Z.to_nat idx) chunk.
Proof.
  unfold window, zlen. rewrite Nat2Z.id.
  destruct (Nat.le_gt_cases (Z.to_nat idx) (length chunk)).
  - rewrite drop_app_le by (rewrite length_map; lia).
    rewrite skipn_map, take_app_length' by (rewrite length_map, length_drop; lia). apply omap_some.
  - replace (length chunk - Z.to_nat idx)%nat with 0%nat by lia. by rewrite (drop_ge chunk) by lia.
Qed.

Lemma filled_lookup (chunk : str) (junk : list (option ascii)) (i : nat) (c : ascii) (t : str) :
  drop i chunk = c :: t -> (map Some chunk ++ junk) !! i = Some (Some c).
Proof.
  intros E. apply drop_head_lookup in E. apply lookup_app_l_Some.
  change (map (@Some ascii) chunk) with (Some <$> chunk). by rewrite list_lookup_fmap, E.
Qed.

Definition file_ok (b : FileReadBuffer) : Prop :=
  filled (fbuffer_ b) (read_ b) /\ 0 < fbufsize_ b /\ 0 <= fidx_ b /\ (fidx_ b < read_ b \/ file_ b = []).
Definition file_rest (b : FileReadBuffer) : str := window (fbuffer_ b) (fidx_ b) (read_ b) ++ file_ b.

(** Refilling: the unread part of the file becomes chunk and remainder. *)
Lemma file_refill b :
  read_ b <= fidx_ b -> 0 < fbufsize_ b -> filled (fbuffer_ b) (read_ b) ->
  exists b', file_underflow b = Ok (match file_ b with [] => ec_value ecEAGAIN | _ => ec_value ecOK end, b')
             /\ file_ok b' /\ file_rest b' = file_ b.
Proof.
  intros Hi Hb _. unfold file_underflow. destruct (Z.leb_spec (read_ b) (fidx_ b)); [|lia].
  set (chunk := take _ (file_ b)).
  assert ((if zlen chunk =? 0 then ec_value ecEAGAIN else ec_value ecOK) =
          match file_ b with [] => ec_value ecEAGAIN | _ => ec_value ecOK end) as ->.
  { subst chunk. destruct (file_ b) as [|c f]; [by rewrite take_nil|].
    destruct (Z.to_nat (fbufsize_ b)) eqn:En; [lia|]. cbn [take]. rewrite zlen_cons.
    pose proof (zlen_nonneg (take n f)). destruct (Z.eqb_spec (zlen (take n f) + 1) 0); [lia|done]. }
  eexists. split; [done|].
  unfold file_ok, file_rest. cbn [fbuffer_ read_ fbufsize_ fidx_ file_].
  split; [split; [by eexists _, _|]; split; [done|]; split; [done|]|].
  - destruct (file_ b) as [|c f] eqn:Ef; [by right; rewrite drop_nil|]. left.
      subst chunk. unfold zlen. rewrite length_take. simpl. lia.
  - rewrite window_filled. apply take_drop.
Qed.

#[export] Program Instance FileReadBuffer_Laws : ReadBufferLaws FileReadBuffer :=
  {| rb_ok := file_ok; rest := file_rest |}.
Next Obligation. intros b. simpl. unfold file_get. repeat case_match; done. Qed.
Next Obligation.
  intros b c t ((chunk & junk & Hbuf & Hrd) & Hb & Hi & Hcase) Hr. simpl. unfold file_get, file_rest in *.
  rewrite Hbuf, Hrd, window_filled in *. destruct Hcase as [Hlt|Hf].
  - destruct (drop (Z.to_nat (fidx_ b)) chunk) as [|x y] eqn:Ed.
    + apply (f_equal length) in Ed. rewrite length_drop in Ed. unfold zlen in Hlt. simpl in Ed. lia.
    + simpl in Hr. simplify_eq. by rewrite (filled_lookup _ _ _ _ _ Ed).
  - rewrite Hf, app_nil_r in Hr. by rewrite (filled_lookup _ _ _ _ _ Hr).
Qed.
Next Obligation.
  intros b c d t ((chunk & junk & Hbuf & Hrd) & Hb & Hi & Hcase) Hr. simpl. unfold file_rest in Hr.
  rewrite Hbuf, Hrd, window_filled in Hr. unfold file_next.
  set (b1 := mkFileReadBuffer _ _ _ _ _ _).
  assert (filled (fbuffer_ b1) (read_ b1)) as Hfill by (by eexists _, _).
  destruct (Z.le_gt_cases (read_ b1) (fidx_ b1)) as [Hle|Hgt]; cbn [read_ fidx_ b1] in *.
  - destruct (file_refill b1 ltac:(done) ltac:(done) Hfill) as (b' & -> & Hok & Hrest).
    assert (file_ b1 = d :: t) as Hf.
    { cbn [file_ b1]. destruct Hcase as [Hlt|Hf].
      - assert (length (drop (Z.to_nat (fidx_ b)) chunk) = 1%nat) as Hl.
        { rewrite length_drop. unfold zlen in *. lia. }
        destruct (drop _ chunk) as [|x [|y z]]; simpl in Hl; try lia. simpl in Hr. by simplify_eq.
      - rewrite Hf, app_nil_r in Hr. apply (f_equal length) in Hr. rewrite length_drop in Hr.
        unfold zlen in *. simpl in Hr. lia. }
    rewrite Hf in *. by eexists.
  - unfold file_underflow. cbn [read_ fidx_ b1]. destruct (Z.leb_spec (read_ b) (fidx_ b + 1)); [lia|].
    eexists. split; [done|]. unfold file_ok, file_rest. cbn [fbuffer_ read_ fbufsize_ fidx_ file_ b1].
    split; [split; [done|]; split; [done|]; split; [lia | by left]|].
    rewrite Hbuf, Hrd, window_filled, Z2Nat.inj_add, Nat.add_1_r by lia.
    destruct (drop (Z.to_nat (fidx_ b)) chunk) as [|x y] eqn:Ed.
    + apply (f_equal length) in Ed. rewrite length_drop in Ed. unfold zlen in *. simpl in Ed. lia.
    + rewrite (drop_S_tail _ _ _ _ Ed). simpl in Hr. by simplify_eq.
Qed.
Next Obligation.
  intros b ((chunk & junk & Hbuf & Hrd) & Hb & Hi & Hcase) Hr. simpl. unfold file_rest in Hr.
  rewrite Hbuf, Hrd, window_filled, length_app, length_drop in Hr. unfold file_next.
  set (b1 := mkFileReadBuffer _ _ _ _ _ _).
  assert (file_ b = []) as Hf.
  { destruct Hcase as [Hlt|Hf]; [|done]. destruct (file_ b); [done|]. simpl in Hr. unfold zlen in *. lia. }
  rewrite Hf in Hr. simpl in Hr.
  destruct (file_refill b1) as (b' & -> & Hok & Hrest).
  - cbn [read_ fidx_ b1]. unfold zlen in *. lia.
  - done.
  - by eexists _, _.
  - cbn [file_ b1] in *. rewrite Hf in *. exists b'. rewrite Hrest. simpl. auto with lia.
Qed.

Definition socket_ok (b : SocketReadBuffer) : Prop :=
  filled (kbuffer_ b) (received_ b) /\ 0 < kbufsize_ b /\ 0 <= kidx_ b /\ data_only (sock b) /\
  (kidx_ b < received_ b \/ pending (sock b) = []).
Definition socket_rest (b : SocketReadBuffer) : str :=
  window (kbuffer_ b) (kidx_ b) (received_ b) ++ pending (sock b).

(** A receive on a stream of data segments. *)
Lemma receive_stream n k :
  0 < n -> data_only k ->
  (pending k = [] /\ receive n k = Ok ((ec_value ecEAGAIN, []), k)) \/
  (exists d k', receive n k = Ok ((ec_value ecOK, d), k') /\ d <> [] /\ data_only k' /\ d ++ pending k' = pending k).
Proof.
  intros Hn Hd. unfold data_only, pending, receive, sys_recv in *.
  destruct (inbox k) as [|[s| |e] t] eqn:Hi; [by left | | by inversion Hd | by inversion Hd].
  inversion_clear Hd as [|? ? Hs Ht]. right. eexists _, _. split; [done|].
  assert (take (Z.to_nat n) s <> []) as Hne.
  { destruct s; [done|]. destruct (Z.to_nat n) eqn:En; [lia | done]. }
  split; [done|]. cbn [inbox set_inbox]. destruct (drop (Z.to_nat n) s) as [|x y] eqn:Ed.
  - split; [done|]. simpl. rewrite <- (take_drop (Z.to_nat n) s) at 2. by rewrite Ed, app_nil_r.
  - split; [by constructor|]. simpl. rewrite <- (take_drop (Z.to_nat n) s) at 2. by rewrite Ed, <- app_assoc.
Qed.

Lemma socket_refill b :
  received_ b <= kidx_ b -> 0 < kbufsize_ b -> 0 <= kidx_ b -> data_only (sock b) ->
  exists b', socket_underflow b = Ok (match pending (sock b) with [] => ec_value ecEAGAIN | _ => ec_value ecOK end, b')
             /\ socket_ok b' /\ socket_rest b' = pending (sock b).
Proof.
  intros Hi Hb H0 Hd. unfold socket_underflow. destruct (Z.leb_spec (received_ b) (kidx_ b)); [|lia].
  destruct (receive_stream (kbufsize_ b) (sock b) Hb Hd) as [[Hp ->]|(d & k' & -> & Hne & Hd' & Hcat)].
  - rewrite Hp. eexists. split; [done|]. unfold socket_ok, socket_rest.
    cbn [sock kbuffer_ kbufsize_ kidx_ received_ map app length drop].
    split; [split; [by exists [], (kbuffer_ b)|]; by auto|].
    by rewrite Hp, app_nil_r.
  - assert (pending (sock b) <> []) as Hpn by (rewrite <- Hcat; destruct d; done).
    destruct (pending (sock b)) as [|c p] eqn:Ep; [done|]. eexists. split; [done|].
    unfold socket_ok, socket_rest. cbn [sock kbuffer_ kbufsize_ kidx_ received_ ec_value Z.eqb].
    rewrite window_filled. split; [|done]. split; [by eexists _, _|]. repeat split; try done.
    left. destruct d; [done|]. rewrite zlen_cons. pose proof (zlen_nonneg d). lia.
Qed.

#[export] Program Instance SocketReadBuffer_Laws : ReadBufferLaws SocketReadBuffer :=
  {| rb_ok := socket_ok; rest := socket_rest |}.
Next Obligation. intros b. simpl. unfold socket_get. repeat case_match; done. Qed.
Next Obligation.
  intros b c t ((chunk & junk & Hbuf & Hrd) & Hb & Hi & Hd & Hcase) Hr. simpl.
  unfold socket_get, socket_rest in *.
  rewrite Hbuf, Hrd, window_filled in *. destruct Hcase as [Hlt|Hf].
  - destruct (drop (Z.to_nat (kidx_ b)) chunk) as [|x y] eqn:Ed.
    + apply (f_equal length) in Ed. rewrite length_drop in Ed. unfold zlen in Hlt. simpl in Ed. lia.
    + simpl in Hr. simplify_eq. by rewrite (filled_lookup _ _ _ _ _ Ed).
  - rewrite Hf, app_nil_r in Hr. by rewrite (filled_lookup _ _ _ _ _ Hr).
Qed.
Next Obligation.
  intros b c d t ((chunk & junk & Hbuf & Hrd) & Hb & Hi & Hd & Hcase) Hr. simpl. unfold socket_rest in Hr.
  rewrite Hbuf, Hrd, window_filled in Hr. unfold socket_next.
  set (b1 := mkSocketReadBuffer _ _ _ _ _ _).
  destruct (Z.le_gt_cases (received_ b) (kidx_ b + 1)) as [Hle|Hgt].
  - destruct (socket_refill b1 Hle Hb ltac:(cbn; lia) Hd) as (b' & -> & Hok & Hrest).
    assert (pending (sock b1) = d :: t) as Hf.
    { cbn [sock b1]. destruct Hcase as [Hlt|Hf].
      - assert (length (drop (Z.to_nat (kidx_ b)) chunk) = 1%nat) as Hl.
        { rewrite length_drop. unfold zlen in *. lia. }
        destruct (drop _ chunk) as [|x [|y z]]; simpl in Hl; try lia. simpl in Hr. by simplify_eq.
      - rewrite Hf, app_nil_r in Hr. apply (f_equal length) in Hr. rewrite length_drop in Hr.
        unfold zlen in *. simpl in Hr. lia. }
    rewrite Hf in *. by eexists.
  - unfold socket_underflow. cbn [received_ kidx_ b1]. destruct (Z.leb_spec (received_ b) (kidx_ b + 1)); [lia|].
    eexists. split; [done|]. unfold socket_ok, socket_rest. cbn [kbuffer_ received_ kbufsize_ kidx_ sock b1].
    split; [split; [by eexists _, _|]; split; [done|]; split; [lia|]; split; [done | by left]|].
    rewrite Hbuf, Hrd, window_filled, Z2Nat.inj_add, Nat.add_1_r by lia.
    destruct (drop (Z.to_nat (kidx_ b)) chunk) as [|x y] eqn:Ed.
    + apply (f_equal length) in Ed. rewrite length_drop in Ed. unfold zlen in *. simpl in Ed. lia.
    + rewrite (drop_S_tail _ _ _ _ Ed). simpl in Hr. by simplify_eq.
Qed.
Next Obligation.
  intros b ((chunk & junk & Hbuf & Hrd) & Hb & Hi & Hd & Hcase) Hr. simpl. unfold socket_rest in Hr.
  rewrite Hbuf, Hrd, window_filled, length_app, length_drop in Hr. unfold socket_next.
  set (b1 := mkSocketReadBuffer _ _ _ _ _ _).
  assert (pending (sock b) = []) as Hf.
  { destruct Hcase as [Hlt|Hf]; [|done]. destruct (pending (sock b)); [done|]. simpl in Hr. unfold zlen in *. lia. }
  rewrite Hf in Hr. simpl in Hr.
  destruct (socket_refill b1) as (b' & -> & Hok & Hrest).
  - cbn [received_ kidx_ b1]. unfold zlen in *. lia.
  - done.
  - cbn. lia.
  - done.
  - cbn [sock b1] in *. rewrite Hf in *. exists b'. rewrite Hrest. simpl. auto with lia.
Qed.

(** ** What a reader sees *)

(** The reading loop of a client: take the current character, advance, stop when
    [next] does not report ecOK. *)
Definition drain {B} `{ReadBuffer B} (fuel : nat) : M B str :=
  loop fuel (fun acc =>
    let* c := peek in
    let* error := next in
    if error =? ecOK then Continue (acc ++ [c]) else Break (acc ++ [c])) [].

Lemma wp_drain {B} `{ReadBufferLaws B} fuel b :
  rb_ok b -> rest b <> [] -> (length (rest b) < fuel)%nat -> wp (drain fuel) nothrow (fun s _ => s = rest b) b.
Proof.
  intros Hok Hne Hf. unfold drain.
  apply wp_loop with (I := fun acc b' => rb_ok b' /\ rest b' <> [] /\ acc ++ rest b' = rest b)
                     (mu := fun _ b' => length (rest b')); [|done|done].
  intros acc b' (Hok' & Hne' & Hacc). destruct (rest b') as [|c t] eqn:Hr; [done|].
  apply wp_bind. eapply wp_peek; [done..|]. apply wp_bind. destruct t as [|d t].
  - apply wp_next_last; [done | rewrite Hr; simpl; lia |]. intros b2 _ _. by apply wp_ret.
  - eapply wp_next; [done..|]. intros b2 Hok2 Hr2. apply wp_ret. rewrite Hr2, <- app_assoc. simpl. auto with lia.
Qed.

(** A buffer whose reading head is primed delivers exactly its source. *)
Definition delivers {B} `{ReadBuffer B} (b : B) (s : str) : Prop :=
  exists b', drain (S (length s)) b = Ok (s, b').

Lemma lawful_delivers {B} `{ReadBufferLaws B} b s : rb_ok b -> rest b = s -> s <> [] -> delivers b s.
Proof.
  intros Hok <- Hne. destruct (wp_nothrow _ _ _ (wp_drain (S (length (rest b))) b Hok Hne ltac:(lia)))
    as (s & b' & Hrun & ->). by exists b'.
Qed.

(** C19 Whatever the chunk size and however the bytes are segmented, the reader of each of the
    three buffers gets exactly the bytes of its source, which is not empty, in order, and
    then a non-ok code: the string; the file's content; the data a blocking socket receives
    as long as the peer neither closes it nor an error occurs (the end of a stream is read
    as data, [socket_end_of_stream_reads_as_data]). *)
Theorem buffers_deliver_their_source (s : str) (bufsize : Z) (name : str) (errno : Z) (k : Socket) :
  s <> [] -> zlen s < 2 ^ 64 -> 0 < bufsize ->
  blocking_ k = inl true -> data_only k -> pending k = s ->
  delivers (StringReadBuffer_new s) s /\
  (exists b, FileReadBuffer_new name (inl s) errno bufsize = Ok b /\ delivers b s) /\
  (exists b0 b, SocketReadBuffer_new k bufsize = Ok b0 /\ socket_underflow b0 = Ok (ec_value ecOK, b) /\ delivers b s).
Proof.
  intros Hs Hl Hb Hblk Hd Hp. split; [|split].
  - apply lawful_delivers; [|done|done]. split; simpl; [|done].
    destruct s; [done|]. rewrite zlen_cons. pose proof (zlen_nonneg s). lia.
  - unfold FileReadBuffer_new.
    destruct (file_refill (mkFileReadBuffer s (replicate (Z.to_nat bufsize) None) bufsize 0 0 0))
      as (b & -> & Hok & Hr); [done | done | by eexists [], _ |]. simpl in *.
    exists b. split; [by destruct s|]. by apply lawful_delivers.
  - unfold SocketReadBuffer_new, getBlocking. rewrite Hblk. simpl.
    destruct (socket_refill (mkSocketReadBuffer k (replicate (Z.to_nat bufsize) None) bufsize 0 0 0))
      as (b & Hu & Hok & Hr); [done..|]. simpl in *. rewrite Hp in *. destruct s as [|c s]; [done|].
    eexists _, b. split; [done|]. split; [done|]. by apply lawful_delivers.
Qed.

Definition segmented : Socket :=
  mkSocket 3 (inl true) (inl 8192) [RecvData (lit "GE"); RecvData (lit "T / HT"); RecvData (lit "TP")] [] [].

Lemma buffers_deliver_their_source_witness :
  delivers (StringReadBuffer_new (lit "GET / HTTP")) (lit "GET / HTTP") /\
  (exists b, FileReadBuffer_new (lit "f") (inl (lit "GET / HTTP")) 0 4 = Ok b /\ delivers b (lit "GET / HTTP")) /\
  (exists b0 b, SocketReadBuffer_new segmented 4 = Ok b0 /\ socket_underflow b0 = Ok (ec_value ecOK, b) /\
                delivers b (lit "GET / HTTP")).
Proof.
  apply (buffers_deliver_their_source (lit "GET / HTTP") 4 (lit "f") 0 segmented);
    [done | reflexivity | reflexivity | reflexivity | by repeat constructor | reflexivity].
Defined.

(** When the peer has closed the connection, [next] keeps reporting ecOK and the
    reader keeps seeing the first character of the last chunk: end of stream is
    indistinguishable from data. *)
Theorem socket_end_of_stream_reads_as_data (b : SocketReadBuffer) (c : ascii) (junk : list (option ascii)) :
  inbox (sock b) = [RecvEOF] -> kbuffer_ b = Some c :: junk -> 0 <= kidx_ b -> received_ b <= kidx_ b + 1 ->
  exists b', socket_next b = Ok (ec_value ecOK, b') /\ socket_get b' = Ok c /\
             inbox (sock b') = [RecvEOF] /\ kbuffer_ b' = Some c :: junk /\ kidx_ b' = 0 /\ received_ b' = 0.
Proof.
  intros Hi Hbuf H0 Hr. unfold socket_next, socket_underflow. cbn [received_ kidx_ sock kbufsize_ kbuffer_].
  destruct (Z.leb_spec (received_ b) (kidx_ b + 1)); [|lia].
  unfold receive, sys_recv. rewrite Hi. eexists. split; [done|]. cbn. rewrite Hbuf. unfold socket_get. simpl. auto.
Qed.

Definition at_end : SocketReadBuffer :=
  mkSocketReadBuffer (mkSocket 3 (inl true) (inl 8192) [RecvEOF] [] []) [Some "a"; Some "b"; None; None]%char 4 1 2 1.

Lemma socket_end_of_stream_reads_as_data_witness :
  exists b', socket_next at_end = Ok (ec_value ecOK, b') /\ socket_get b' = Ok "a"%char /\
             inbox (sock b') = [RecvEOF] /\ kbuffer_ b' = [Some "a"; Some "b"; None; None]%char /\
             kidx_ b' = 0 /\ received_ b' = 0.
Proof.
  apply (socket_end_of_stream_reads_as_data at_end "a"%char [Some "b"; None; None]%char);
    [reflexivity | reflexivity | discriminate | discriminate].
Defined.

(** A receive timeout after the last character of a full buffer leaves the read
    index one past the buffer: a [get] there reads outside the array. *)
Theorem get_after_timeout_out_of_bounds (b : SocketReadBuffer) :
  inbox (sock b) = [] -> zlen (kbuffer_ b) = kbufsize_ b -> received_ b = kbufsize_ b ->
  0 <= kidx_ b -> kidx_ b + 1 = received_ b ->
  exists b', socket_next b = Ok (ec_value ecEAGAIN, b') /\
             socket_get b' = Throw (UndefinedBehaviour (lit "read of an unwritten buffer position")).
Proof.
  intros Hi Hl Hr H0 Hk. unfold socket_next, socket_underflow. cbn [received_ kidx_ sock kbufsize_ kbuffer_].
  destruct (Z.leb_spec (received_ b) (kidx_ b + 1)); [|lia].
  unfold receive, sys_recv. rewrite Hi. eexists. split; [done|]. unfold socket_get.
  cbn [kbuffer_ kidx_ map app length drop]. change (ec_value ecEAGAIN =? ec_value ecOK) with false. cbv iota.
  rewrite drop_0, lookup_ge_None_2; [done|]. unfold zlen in *. lia.
Qed.

Definition full_buffer : SocketReadBuffer :=
  mkSocketReadBuffer (mkSocket 3 (inl true) (inl 8192) [] [] []) [Some "a"; Some "b"]%char 2 1 2 1.

Lemma get_after_timeout_out_of_bounds_witness :
  exists b', socket_next full_buffer = Ok (ec_value ecEAGAIN, b') /\
             socket_get b' = Throw (UndefinedBehaviour (lit "read of an unwritten buffer position")).
Proof.
  apply (get_after_timeout_out_of_bounds full_buffer); [reflexivity | reflexivity | reflexivity | discriminate | reflexivity].
Defined.
