(* ===== verification/HTTPFragment.v ===== *)
(** * HTTPFragment: parse results and the HTTP version

    Models [http::HTTPFragment] (parse errors and results) and
    [http::HTTPVersion] (src/src/include/network/protocol/http/httpfragment.hpp,
    httpversion.hpp and src/src/lib/network/protocol/http/httpversion.cpp).  The
    parsers run over any [ReadBuffer]; the theorems hold for every buffer with
    [ReadBufferLaws]. *)

From S2P Require Import Prelude.
From S2P Require Import SystemError.
From S2P Require Import ReadBuffer.

Local Open Scope Z_scope.

(** ** Parse results *)

Inductive ParseError : Type :=
| peOk | peIncomplete | peSystemError | peExpectCRLF | peUnFinishedToken | peExpectingHeaderColon
| peInvalidHeaderFieldValue | peInvalidHeaderListEnd | peInvalidMethod | peInvalidHTTPVersion
| peInvalidRequestLine | peInvalidContentLength | peUnexpectedBody | peInvalidTransferEncoding
| peInvalidChunkHex | peInvalidLastChunk | peExpectingUnsignedInt.

#[export] Instance ParseError_eq_dec : EqDecision ParseError.
Proof. solve_decision. Defined.

Record ParseResult : Type := mkParseResult { parseError : ParseError; systemError : SystemError }.

(** [ParseResult()] *)
Definition parse_ok : ParseResult := mkParseResult peOk ecOK.
(** [{ error, common::SystemError::ecOK }] *)
Definition failed (error : ParseError) : ParseResult := mkParseResult error ecOK.

Definition pr_ok (r : ParseResult) : bool := bool_decide (parseError r = peOk) && (systemError r =? ecOK).
Definition pr_eof (r : ParseResult) : bool := systemError r =? ecEAGAIN.
Definition setSystemError (r : ParseResult) (se : SystemError) : ParseResult :=
  mkParseResult (if negb (se =? ecOK) then peSystemError else peOk) se.

Definition getParseResultAsString (error : ParseError) : str :=
  match error with
  | peOk => lit "Ok"
  | peIncomplete => lit "incomplete fragment"
  | peSystemError => lit "system error"
  | peExpectCRLF => lit "malformed CRLF sequence"
  | peUnFinishedToken => lit "malformed token"
  | peExpectingHeaderColon => lit "expecting a ':'"
  | peInvalidHeaderFieldValue => lit "malformed header field"
  | peInvalidHeaderListEnd => lit "invalid header list"
  | peInvalidMethod => lit "invalid request method"
  | peInvalidHTTPVersion => lit "invalid HTTP version"
  | peInvalidRequestLine => lit "invalid request line"
  | peInvalidContentLength => lit "content-length mismatch"
  | peUnexpectedBody => lit "body was given but not allowed"
  | peInvalidTransferEncoding => lit "invalid transfer-encoding header"
  | peInvalidChunkHex => lit "invalid hex chunk length"
  | peInvalidLastChunk => lit "last chunk must have size 0"
  | peExpectingUnsignedInt => lit "expecting an unsigned int"
  end.

Lemma setSystemError_ok r : setSystemError r (ec_value ecOK) = parse_ok.
Proof. done. Qed.

Lemma pr_ok_EAGAIN r : pr_ok (setSystemError r (ec_value ecEAGAIN)) = false.
Proof. done. Qed.

Lemma pr_ok_spec r : pr_ok r = true <-> r = parse_ok.
Proof.
  unfold pr_ok. rewrite andb_true_iff, bool_decide_eq_true, Z.eqb_eq. destruct r as [p s]. simpl.
  split; [intros [-> ->] | intros [= -> ->]]; done.
Qed.

Lemma failed_not_ok e : e <> peOk -> pr_ok (failed e) = false.
Proof. intros H. unfold pr_ok, failed. simpl. by rewrite bool_decide_eq_false_2. Qed.

(** ** HTTPVersion *)

Record HTTPVersion : Type := mkHTTPVersion { major_ : Z; minor_ : Z }.

Definition HTTPVersion_default : HTTPVersion := mkHTTPVersion 1 0.

Definition version_asString (v : HTTPVersion) : str :=
  lit "HTTP/" ++ print_dec (major_ v) ++ lit "." ++ print_dec (minor_ v).

Definition version_eqb (v w : HTTPVersion) : bool := (major_ v =? major_ w) && (minor_ v =? minor_ w).
Definition version_ltb (v w : HTTPVersion) : bool :=
  (major_ v <? major_ w) || ((major_ v =? major_ w) && (minor_ v <? minor_ w)).
Definition version_gtb (v w : HTTPVersion) : bool :=
  (major_ w <? major_ v) || ((major_ v =? major_ w) && (minor_ w <? minor_ v)).

(** Both components are [unsigned int] values. *)
Definition version_ok (v : HTTPVersion) : Prop := 0 <= major_ v <= UINT_MAX /\ 0 <= minor_ v <= UINT_MAX.

Inductive VersionState : Type :=
| ssStart | ssHttp | sshTtp1 | sshTtp2 | sshttP | ssSlash | ssMajor | ssDot | ssMinor | ssDone.

Section VersionParser.
Context {B : Type} `{ReadBuffer B}.

(** Loop variables of [HTTPVersion::parse]: parseResult, state and the two streams. *)
Definition version_vars : Type := (ParseResult * VersionState * str * str)%type.

(** [if ( buffer.get() == c ) { setSystemError( next() ); state = st; } else return peInvalidHTTPVersion] *)
Definition version_expect (c : ascii) (st : VersionState) (pr : ParseResult) (major minor : str)
    : M B (version_vars + (ParseResult + ParseResult * str * str)) :=
  let* x := peek in
  if x =c c then
    let* e := next in
    Continue (setSystemError pr e, st, major, minor)
  else Break (inl (failed peInvalidHTTPVersion)).

(** One iteration; [Break (inl r)] is a return from inside the loop. *)
Definition version_body (s : version_vars) : M B (version_vars + (ParseResult + ParseResult * str * str)) :=
  let '(pr, state, major, minor) := s in
  if negb (pr_ok pr) then Break (inr (pr, major, minor)) else
  match state with
  | ssDone => Break (inr (pr, major, minor))
  | ssStart =>
      let* x := peek in
      if negb (isspace x) then Continue (pr, ssHttp, major, minor)
      else let* e := next in Continue (setSystemError pr e, ssStart, major, minor)
  | ssHttp => version_expect "H"%char sshTtp1 pr major minor
  | sshTtp1 => version_expect "T"%char sshTtp2 pr major minor
  | sshTtp2 => version_expect "T"%char sshttP pr major minor
  | sshttP => version_expect "P"%char ssSlash pr major minor
  | ssSlash => version_expect "/"%char ssMajor pr major minor
  | ssMajor =>
      let* x := peek in
      if negb (isdigit x) then Continue (pr, ssDot, major, minor)
      else let* e := next in Continue (setSystemError pr e, ssMajor, major ++ [x], minor)
  | ssDot => version_expect "."%char ssMinor pr major minor
  | ssMinor =>
      let* x := peek in
      if negb (isdigit x) then Continue (pr, ssDone, major, minor)
      else let* e := next in Continue (setSystemError pr e, ssMinor, major, minor ++ [x])
  end.

Definition version_parse (fuel : nat) (v : HTTPVersion) : M B (ParseResult * HTTPVersion) :=
  let* r := loop fuel version_body (parse_ok, ssStart, [], []) in
  match r with
  | inl pr => ret (pr, v)
  | inr (pr, major, minor) =>
      if systemError pr =? ecOK then
        ret (pr, mkHTTPVersion (extract_unsigned 10 UINT_MAX major (major_ v))
                               (extract_unsigned 10 UINT_MAX minor (minor_ v)))
      else ret (pr, v)
  end.
End VersionParser.

(** ** Reading as progress

    [weight] bounds the number of characters a parser can still consume. *)
Section Progress.
Context {B : Type} `{ReadBufferLaws B}.

Definition weight (b : B) : nat := Nat.max 1 (length (rest b)).

Lemma weight_pos b : (1 <= weight b)%nat.
Proof. unfold weight. lia. Qed.

(** [next] either consumes a character or reports EAGAIN. *)
Lemma wp_next_weight b E Q :
  rb_ok b ->
  (forall e b', rb_ok b' ->
     (e = ec_value ecOK /\ (weight b' < weight b)%nat) \/ (e = ec_value ecEAGAIN /\ (weight b' <= weight b)%nat) ->
     Q e b') ->
  wp next E Q b.
Proof.
  intros Hok HQ. destruct (rest b) as [|c [|d t]] eqn:Hr.
  1,2: apply wp_next_last; [done | rewrite Hr; simpl; lia |]; intros b' Hok' Hl;
       apply HQ; [done|]; right; unfold weight; split; [done | lia].
  eapply wp_next; [done | exact Hr |]. intros b' Hok' Hr'. apply HQ; [done|]. left.
  split; [done|]. unfold weight. rewrite Hr, Hr'. simpl. lia.
Qed.

(** A parser that terminates, keeps the buffer well formed and never moves back. *)
Definition tame {A} (m : M B A) (n : nat) : Prop :=
  forall b, rb_ok b -> (weight b <= n)%nat ->
    wp m anythrow (fun _ b' => rb_ok b' /\ (weight b' <= weight b)%nat) b.

Lemma tame_ret {A} (a : A) n : tame (ret a) n.
Proof. intros b Hok _. by apply wp_ret. Qed.

Lemma tame_bind {A C} (m : M B A) (k : A -> M B C) n :
  tame m n -> (forall a, tame (k a) n) -> tame (let* x := m in k x) n.
Proof.
  intros Hm Hk b Hok Hw. apply wp_bind. eapply wp_mono; [by apply Hm|]. intros a b' [Hok' Hw'].
  eapply wp_mono; [apply Hk; [done | lia]|]. intros c b2 [Hok2 Hw2]. split; [done | lia].
Qed.

Lemma tame_peek n : tame peek n.
Proof. intros b Hok _. by apply wp_peek_any. Qed.

Lemma tame_next n : tame next n.
Proof.
  intros b Hok _. apply wp_next_weight; [done|]. intros e b' Hok' [[_ Hlt]|[_ Hle]]; split; [done | lia | done | lia].
Qed.

Lemma tame_throw {A} e n : tame (@throw B A e) n.
Proof. intros b Hok _. by apply wp_throw. Qed.

Lemma tame_lift {A} (o : outcome A) n : o <> OutOfFuel -> tame (lift o) n.
Proof. intros Ho b Hok _. apply wp_lift. by destruct o. Qed.

Lemma tame_if {A} (c : bool) (m m' : M B A) n : tame m n -> tame m' n -> tame (if c then m else m') n.
Proof. by destruct c. Qed.

Lemma tame_fuel {A} (m : M B A) n b : tame m n -> rb_ok b -> (weight b <= n)%nat -> m b <> OutOfFuel.
Proof. intros Hm Hok Hw. eapply wp_terminates. by apply Hm. Qed.

(** A loop is tame when every continuing iteration lowers the measure
    [k * weight + rank] of its variables. *)
Lemma tame_loop {S A} (body : S -> M B (S + A)) (rank : S -> nat) (alive : S -> bool) (k : nat) n fuel s :
  (forall s b, rb_ok b -> (weight b <= n)%nat ->
     wp (body s) anythrow (fun r b' => rb_ok b' /\ (weight b' <= weight b)%nat /\
       match r with
       | inl s' => alive s = true /\
           (if alive s' then k * weight b' + rank s' < k * weight b + rank s else True)%nat
       | inr _ => True
       end) b) ->
  (k * n + rank s + 1 < fuel)%nat ->
  tame (loop fuel body s) n.
Proof.
  intros Hbody Hf b Hok Hw.
  apply wp_loop with (I := fun _ b' => rb_ok b' /\ (weight b' <= weight b)%nat)
    (mu := fun s b' => if alive s then (k * weight b' + rank s + 1)%nat else 0%nat).
  - intros s1 b1 [Hok1 Hw1]. eapply wp_mono; [apply Hbody; [done | lia]|]. intros [s'|a] b2 (Hok2 & Hw2 & Hr).
    + destruct Hr as [-> Hr]. split; [split; [done|lia]|]. destruct (alive s'); lia.
    + split; [done | lia].
  - split; [done | lia].
  - case_bool; nia.
Qed.

#[export] Instance weight_params : Params (@weight) 4 := {}.
End Progress.

#[export] Hint Resolve tame_ret tame_peek tame_next tame_throw : dodo.

(** Steps through the straight-line part of a loop body under [tame_loop]. *)
Ltac tame_step :=
  match goal with
  | |- wp (bind _ _) _ _ _ => apply wp_bind
  | |- wp peek _ _ _ => apply wp_peek_any; [done | intros ? _]
  | |- wp next _ _ _ => apply wp_next_weight; [done | intros ? ? ? [[-> ?]|[-> ?]]]
  | |- wp (ret _) _ _ _ => apply wp_ret
  | |- wp (Continue _) _ _ _ => apply wp_ret
  | |- wp (Break _) _ _ _ => apply wp_ret
  | |- wp (if ?c then _ else _) _ _ _ => destruct c eqn:?
  | |- wp (match ?c with _ => _ end) _ _ _ => destruct c eqn:?
  end.
Ltac tame_steps := repeat tame_step; try (split_and!; [done | lia | first [done | reflexivity | lia | simpl; lia] ..]).

(** ** HTTPVersion::parse: termination and round trip *)

Section VersionTheorems.
Context {B : Type} `{ReadBufferLaws B}.

Definition version_rank (st : VersionState) : nat :=
  match st with
  | ssStart => 9 | ssHttp => 8 | sshTtp1 => 7 | sshTtp2 => 6 | sshttP => 5
  | ssSlash => 4 | ssMajor => 3 | ssDot => 2 | ssMinor => 1 | ssDone => 0
  end.

Lemma tame_version_parse fuel n v : (n + 12 <= fuel)%nat -> tame (version_parse (B:=B) fuel v) n.
Proof.
  intros Hf. apply tame_bind.
  - apply (tame_loop _ (fun s => version_rank s.1.1.2) (fun s => pr_ok s.1.1.1) 1); [|simpl; lia].
    intros [[[pr st] major] minor] b Hok _. unfold version_body. destruct (pr_ok pr) eqn:Hpr; [|by tame_steps].
    cbn [negb fst snd]. destruct st; unfold version_expect; tame_steps;
      (split_and!; [done | lia | done | cbn [fst snd]; rewrite ?Hpr; simpl; lia]).
  - intros [pr|[[pr major] minor]]; [apply tame_ret | apply tame_if; apply tame_ret].
Qed.

(** What is still to be read in each state, on the text of [v] followed by [t]. *)
Definition version_todo (v : HTTPVersion) (t : str) (s : version_vars) (r : str) : Prop :=
  let '(pr, st, major, minor) := s in
  let mj := print_dec (major_ v) in
  let mn := print_dec (minor_ v) in
  pr = parse_ok /\
  match st with
  | ssStart => exists sp, forallb isspace sp = true /\ r = sp ++ version_asString v ++ t /\ major = [] /\ minor = []
  | ssHttp => r = version_asString v ++ t /\ major = [] /\ minor = []
  | sshTtp1 => r = lit "TTP/" ++ mj ++ lit "." ++ mn ++ t /\ major = [] /\ minor = []
  | sshTtp2 => r = lit "TP/" ++ mj ++ lit "." ++ mn ++ t /\ major = [] /\ minor = []
  | sshttP => r = lit "P/" ++ mj ++ lit "." ++ mn ++ t /\ major = [] /\ minor = []
  | ssSlash => r = lit "/" ++ mj ++ lit "." ++ mn ++ t /\ major = [] /\ minor = []
  | ssMajor => exists ds, forallb isdigit ds = true /\ major ++ ds = mj /\ r = ds ++ lit "." ++ mn ++ t /\ minor = []
  | ssDot => major = mj /\ r = lit "." ++ mn ++ t /\ minor = []
  | ssMinor => exists ds, forallb isdigit ds = true /\ major = mj /\ minor ++ ds = mn /\ r = ds ++ t
  | ssDone => major = mj /\ minor = mn /\ r = t
  end.

Definition version_post (v : HTTPVersion) (t : str) (st : VersionState) (n : nat)
    (r : version_vars + (ParseResult + ParseResult * str * str)) (b : B) : Prop :=
  match r with
  | inl s => (rb_ok b /\ version_todo v t s (rest b)) /\ (length (rest b) + version_rank s.1.1.2 < n + version_rank st)%nat
  | inr a => a = inr (parse_ok, print_dec (major_ v), print_dec (minor_ v)) /\ rb_ok b /\ rest b = t
  end.

Lemma wp_version_expect v t st b c k st' major minor :
  rb_ok b -> rest b = c :: k -> k <> [] -> (version_rank st' <= version_rank st)%nat ->
  version_todo v t (parse_ok, st', major, minor) k ->
  wp (version_expect c st' parse_ok major minor) nothrow (version_post v t st (length (rest b))) b.
Proof.
  intros Hok Hr Hk Hrank Htodo. unfold version_expect. apply wp_bind. eapply wp_peek; [done..|].
  rewrite ascii_eqb_true. apply wp_bind. destruct k as [|d k]; [done|].
  eapply wp_next; [done..|]. intros b' Hok' Hr'. apply wp_ret. simpl. rewrite Hr, Hr'.
  split; [done|]. simpl. lia.
Qed.

Lemma isdigit_not_space c : isdigit c = true -> isspace c = false.
Proof. intros H1. apply negb_true_iff. revert c H1. by apply ascii_implies. Qed.

(** One iteration on the text of a version keeps to the text. *)
Lemma wp_version_body v c t s b :
  version_ok v -> isdigit c = false -> rb_ok b -> version_todo v (c :: t) s (rest b) ->
  wp (version_body s) nothrow (version_post v (c :: t) s.1.1.2 (length (rest b))) b.
Proof.
  intros [Hmj Hmn] Hc Hok Htodo. destruct s as [[[pr st] major] minor]. destruct Htodo as [-> Hst]. unfold version_body.
  change (negb (pr_ok parse_ok)) with false. cbv iota. cbn [fst snd]. destruct st.
  - destruct Hst as (sp & Hsp & Hr & -> & ->). destruct sp as [|x sp].
    + apply wp_bind. eapply wp_peek; [done | exact Hr|]. apply wp_ret. simpl. rewrite Hr. split; [done | lia].
    + simpl in Hsp. apply andb_true_iff in Hsp as [Hx Hsp]. apply wp_bind.
      eapply wp_peek; [done | exact Hr|]. rewrite Hx. cbn [negb]. apply wp_bind.
      rewrite <- app_comm_cons in Hr. eapply wp_next_to; [done | exact Hr | by destruct sp |]. intros b' Hok' Hr'. apply wp_ret.
      unfold version_post. rewrite Hr, Hr'. split; [|cbn [length app fst snd]; lia]. split; [done|]. split; [done|]. by exists sp.
  - destruct Hst as (Hr & -> & ->). unfold version_asString in Hr. rewrite <- !app_assoc in Hr.
    eapply wp_version_expect; [done | exact Hr | done | simpl; lia | done].
  - destruct Hst as (Hr & -> & ->). eapply wp_version_expect; [done | exact Hr | done | simpl; lia | done].
  - destruct Hst as (Hr & -> & ->). eapply wp_version_expect; [done | exact Hr | done | simpl; lia | done].
  - destruct Hst as (Hr & -> & ->). eapply wp_version_expect; [done | exact Hr | done | simpl; lia | done].
  - destruct Hst as (Hr & -> & ->). eapply wp_version_expect; [done | exact Hr | | simpl; lia |].
    + by destruct (print_dec (major_ v)).
    + split; [done|]. exists (print_dec (major_ v)). rewrite print_dec_digits by lia. done.
  - destruct Hst as (ds & Hds & Hacc & Hr & ->). apply wp_bind. destruct ds as [|x ds].
    + eapply wp_peek; [done | exact Hr|]. apply wp_ret. simpl. rewrite app_nil_r in Hacc. rewrite Hr. split; [done | lia].
    + simpl in Hds. apply andb_true_iff in Hds as [Hx Hds].
      eapply wp_peek; [done | exact Hr|]. rewrite Hx. cbn [negb]. apply wp_bind.
      rewrite <- app_comm_cons in Hr. eapply wp_next_to; [done | exact Hr | by destruct ds |]. intros b' Hok' Hr'. apply wp_ret.
      unfold version_post. rewrite Hr, Hr'. split; [|cbn [length app fst snd]; lia].
      split; [done|]. split; [done|]. exists ds. by rewrite <- app_assoc.
  - destruct Hst as (-> & Hr & ->). eapply wp_version_expect; [done | exact Hr | | simpl; lia |].
    + by destruct (print_dec (minor_ v)).
    + split; [done|]. exists (print_dec (minor_ v)). rewrite print_dec_digits by lia. done.
  - destruct Hst as (ds & Hds & -> & Hacc & Hr). apply wp_bind. destruct ds as [|x ds].
    + eapply wp_peek; [done | exact Hr|]. rewrite Hc. apply wp_ret. simpl. rewrite app_nil_r in Hacc. rewrite Hr.
      split; [done | lia].
    + simpl in Hds. apply andb_true_iff in Hds as [Hx Hds].
      eapply wp_peek; [done | exact Hr|]. rewrite Hx. cbn [negb]. apply wp_bind.
      rewrite <- app_comm_cons in Hr. eapply wp_next_to; [done | exact Hr | by destruct ds |]. intros b' Hok' Hr'. apply wp_ret.
      unfold version_post. rewrite Hr, Hr'. split; [|cbn [length app fst snd]; lia].
      split; [done|]. split; [done|]. exists ds. by rewrite <- app_assoc.
  - destruct Hst as (-> & -> & Hr). by apply wp_ret.
Qed.

(** The parser reads the text of a version, leading white space included, and
    stops at the first character behind it. *)
Lemma wp_version_parse fuel v v0 sp c t b :
  version_ok v -> rb_ok b -> forallb isspace sp = true -> isdigit c = false ->
  rest b = sp ++ version_asString v ++ c :: t -> (length (rest b) + 10 <= fuel)%nat ->
  wp (version_parse fuel v0) nothrow (fun '(r, w) b' => r = parse_ok /\ w = v /\ rb_ok b' /\ rest b' = c :: t) b.
Proof.
  intros Hv Hok Hsp Hc Hr Hf. unfold version_parse. apply wp_bind.
  apply wp_mono with (Q := fun r b' => r = inr (parse_ok, print_dec (major_ v), print_dec (minor_ v)) /\
                                        rb_ok b' /\ rest b' = c :: t).
  - apply wp_loop with (I := fun s b' => rb_ok b' /\ version_todo v (c :: t) s (rest b'))
                       (mu := fun s b' => (length (rest b') + version_rank s.1.1.2)%nat).
    + intros s b1 [Hok1 Htodo]. eapply wp_mono; [by apply wp_version_body|]. by intros [s'|a] b'.
    + split; [done|]. split; [done|]. by exists sp.
    + simpl. lia.
  - intros r b' (-> & Hok' & Hr'). destruct Hv. apply wp_ret. rewrite !extract_print_dec by done. by destruct v.
Qed.

(** A printed HTTP version parses back to itself from any buffer, whatever white
    space stands before it and whatever follows, and the parser stops right behind
    it. *)
Theorem version_round_trip fuel v v0 sp c t b :
  version_ok v -> rb_ok b -> forallb isspace sp = true -> isdigit c = false ->
  rest b = sp ++ version_asString v ++ c :: t -> (length (rest b) + 10 <= fuel)%nat ->
  exists b', version_parse fuel v0 b = Ok ((parse_ok, v), b') /\ rb_ok b' /\ rest b' = c :: t.
Proof.
  intros Hv Hok Hsp Hc Hr Hf.
  destruct (wp_nothrow _ _ _ (wp_version_parse fuel v v0 sp c t b Hv Hok Hsp Hc Hr Hf)) as ([r w] & b' & Hrun & Hq).
  destruct Hq as (-> & -> & Hok' & Hr'). by exists b'.
Qed.
End VersionTheorems.

Lemma version_round_trip_witness :
  exists b', version_parse 40 HTTPVersion_default (StringReadBuffer_new (lit "  HTTP/2.14 x"))
             = Ok ((parse_ok, mkHTTPVersion 2 14), b') /\ rb_ok b' /\ rest b' = lit " x".
Proof.
  apply (version_round_trip 40 (mkHTTPVersion 2 14) HTTPVersion_default (lit "  ") " "%char (lit "x")
           (StringReadBuffer_new (lit "  HTTP/2.14 x")));
    [by vm_compute | by vm_compute | reflexivity | reflexivity | reflexivity | by vm_compute; lia].
Defined.

(** HTTPVersion's comparison operators are a strict total order with [>] the
    converse of [<], on the numeric value of the components. *)
Theorem version_order_total (u v w : HTTPVersion) :
  version_ltb v v = false /\
  (version_ltb u v = true -> version_ltb v w = true -> version_ltb u w = true) /\
  version_gtb u v = version_ltb v u /\
  (version_eqb u v = true <-> u = v) /\
  (version_ltb u v = true \/ version_eqb u v = true \/ version_gtb u v = true).
Proof.
  destruct u as [a b], v as [c d], w as [e f]. unfold version_ltb, version_gtb, version_eqb. simpl. split_and!.
  - lia.
  - lia.
  - lia.
  - split; [intros Hb; f_equal; lia | intros [= -> ->]; lia].
  - lia.
Qed.
