(* ===== verification/HTTPMessage.v ===== *)
(** * HTTPMessage: headers, bodies and their parsers

    Models [http::HTTPMessage] (src/src/include/network/protocol/http/httpmessage.hpp,
    src/src/lib/network/protocol/http/httpmessage.cpp): the header map, the
    lexical parsers over a read buffer and the chunked transfer coding. *)

From S2P Require Import Prelude.
From S2P Require Import SystemError.
From S2P Require Import Bytes.
From S2P Require Import Socket.
From S2P Require Import ReadBuffer.
From S2P Require Import HTTPFragment.

Local Open Scope Z_scope.

(** ** std::map<std::string,std::string>

    An association list in the order of the keys, the order of iteration. *)

Abbreviation strmap := (list (str * str)).

(** [std::string::compare]: lexicographic on the unsigned octets. *)
Fixpoint str_ltb (s t : str) : bool :=
  match s, t with
  | [], [] => false
  | [], _ :: _ => true
  | _ :: _, [] => false
  | c :: s', d :: t' => (octet c <? octet d) || ((octet c =? octet d) && str_ltb s' t')
  end.

Fixpoint str_eqb (s t : str) : bool :=
  match s, t with
  | [], [] => true
  | c :: s', d :: t' => (c =c d) && str_eqb s' t'
  | _, _ => false
  end.

Fixpoint map_find (k : str) (m : strmap) : option str :=
  match m with
  | [] => None
  | (k', v) :: m' => if str_eqb k k' then Some v else map_find k m'
  end.

(** [m[k] = v] *)
Fixpoint map_set (k v : str) (m : strmap) : strmap :=
  match m with
  | [] => [(k, v)]
  | (k', v') :: m' =>
      if str_eqb k k' then (k, v) :: m'
      else if str_ltb k k' then (k, v) :: m
      else (k', v') :: map_set k v m'
  end.

(** ** [std::stoul( s, &pos )], base 10: value and position, or the exception *)

Fixpoint span (P : ascii -> bool) (s : str) : str * str :=
  match s with
  | c :: s' => if P c then let (a, r) := span P s' in (c :: a, r) else ([], s)
  | [] => ([], [])
  end.

Definition stoul (s : str) : outcome (Z * Z) :=
  let (sp, s1) := span isspace s in
  let '(neg, sign, s2) :=
    match s1 with
    | c :: t => if c =c "-"%char then (true, 1, t) else if c =c "+"%char then (false, 1, t) else (false, 0, s1)
    | [] => (false, 0, s1)
    end in
  let (ds, _) := span isdigit s2 in
  match ds with
  | [] => Throw std_invalid_argument
  | _ =>
      let v := read_base 10 ds in
      if ULONG_MAX <? v then Throw std_out_of_range
      else Ok (if neg : bool then u64 (- v) else v, zlen sp + sign + zlen ds)
  end.

(** ** The message *)

Record HTTPMessage : Type := mkHTTPMessage { headers_ : strmap; body_ : Bytes }.

Definition charSP : ascii := chr 32.
Definition charHT : ascii := chr 9.

(** [HTTPMessage() : body_("")] *)
Definition HTTPMessage_new `{Allocator} : outcome HTTPMessage :=
  let! b := completed (of_string []) in Ok (mkHTTPMessage [] b).

Definition addHeader (key value : str) (m : HTTPMessage) : HTTPMessage :=
  match map_find key (headers_ m) with
  | None => mkHTTPMessage (map_set key value (headers_ m)) (body_ m)
  | Some old => mkHTTPMessage (map_set key (old ++ lit "," ++ value) (headers_ m)) (body_ m)
  end.

Definition replaceHeader (key value : str) (m : HTTPMessage) : HTTPMessage :=
  mkHTTPMessage (map_set key value (headers_ m)) (body_ m).

Definition hasHeader (key : str) (m : HTTPMessage) : bool :=
  match map_find key (headers_ m) with Some _ => true | None => false end.

Definition clearHeaders (m : HTTPMessage) : HTTPMessage := mkHTTPMessage [] (body_ m).

(** [getHeaderValue( key, unsigned long& )]: the result and the value. *)
Definition getHeaderValue_ulong (key : str) (m : HTTPMessage) : outcome (bool * Z) :=
  match map_find key (headers_ m) with
  | Some s => let! (value, pos) := stoul s in Ok (pos =? zlen s, value)
  | None => Ok (false, 0)
  end.

Definition getHeaderValue (key : str) (m : HTTPMessage) : bool * str :=
  match map_find key (headers_ m) with Some s => (true, s) | None => (false, []) end.

Definition setBody `{Allocator} (body : str) (m : HTTPMessage) : outcome HTTPMessage :=
  let! b := completed (assign body (body_ m)) in
  Ok (replaceHeader (lit "content-length") (print_dec (getSize b)) (mkHTTPMessage (headers_ m) b)).

Definition appendBody `{Allocator} (c : ascii) (m : HTTPMessage) : outcome HTTPMessage :=
  let! b := completed (append_octet c (body_ m)) in Ok (mkHTTPMessage (headers_ m) b).

Definition isCTL (c : ascii) : bool := (schar c <=? 31) || (schar c =? 127).

Definition isSeparator (c : ascii) : bool :=
  (c =c "("%char) || (c =c ")"%char) || (c =c "<"%char) || (c =c ">"%char) || (c =c "@"%char) ||
  (c =c ","%char) || (c =c ";"%char) || (c =c ":"%char) || (c =c "\"%char) || (c =c chr 34) ||
  (c =c "/"%char) || (c =c "["%char) || (c =c "]"%char) || (c =c "?"%char) || (c =c "="%char) ||
  (c =c "{"%char) || (c =c "}"%char) || (c =c charSP) || (c =c charHT).

Definition isSP (c : ascii) : bool := (c =c charSP) || (c =c charHT).

(** ** The parsers *)

Section Parsers.
Context {B : Type} `{ReadBuffer B} `{Allocator}.

Definition eatCRLF : M B ParseResult :=
  let* c := peek in
  if negb (c =c charCR) then ret parse_ok else
  let* e := next in
  let pr := setSystemError parse_ok e in
  if negb (pr_ok pr) then ret pr else
  let* d := peek in
  if negb (d =c charLF) then ret (failed peExpectCRLF) else
  let* e2 := next in
  ret (setSystemError pr e2).

Definition eatSpace_body (error : SystemError) : M B (SystemError + SystemError) :=
  let* c := peek in
  if isSP c && (error =? ecOK) then let* e := next in Continue e else Break error.

Definition eatSpace (fuel : nat) : M B SystemError := loop fuel eatSpace_body (ec_value ecOK).

Definition parseCRLF : M B ParseResult :=
  let* c := peek in
  if negb (c =c charCR) then ret (failed peExpectCRLF) else
  let* e := next in
  let pr := setSystemError parse_ok e in
  if negb (pr_ok pr) then ret pr else
  let* d := peek in
  if negb (d =c charLF) then ret (failed peExpectCRLF) else
  let* e2 := next in
  ret (setSystemError pr e2).

(** Loop variables: parseResult and the stream; [inl]: return inside the loop. *)
Definition hex_body (ss : str) : M B (str + (ParseResult + str)) :=
  let* c := peek in
  if isxdigit c then
    let* e := next in
    let pr := setSystemError parse_ok e in
    if negb (pr_ok pr) then Break (inl pr) else Continue (ss ++ [c])
  else Break (inr ss).

Definition parseChunkHex (fuel : nat) (value : Z) : M B (ParseResult * Z) :=
  let* r := loop fuel hex_body [] in
  match r with
  | inl pr => ret (pr, value)
  | inr ss =>
      if zlen ss =? 0 then ret (failed peInvalidChunkHex, value) else
      let* pr := parseCRLF in
      ret (pr, extract_unsigned 16 ULONG_MAX ss value)
  end.

Inductive FieldState : Type := psStart | psReadValue | psCR | psSP | psDone.

Definition field_vars : Type := (ParseResult * FieldState * str)%type.

Definition field_body (s : field_vars) : M B (field_vars + (ParseResult * str)) :=
  let '(pr, state, value) := s in
  if negb (pr_ok pr) then
    match state with psDone => Break (pr, value) | _ => Break (failed peInvalidHeaderFieldValue, value) end
  else
  match state with
  | psDone => Break (pr, value)
  | psStart =>
      let* c := peek in
      if negb (isSP c) then Continue (pr, psReadValue, value)
      else let* e := next in Continue (setSystemError pr e, psStart, value)
  | psReadValue =>
      let* c := peek in
      if c =c charCR then let* e := next in Continue (setSystemError pr e, psCR, value)
      else if isSP c then let* e := next in Continue (setSystemError pr e, psSP, value)
      else let* e := next in Continue (setSystemError pr e, psReadValue, value ++ [c])
  | psCR =>
      let* c := peek in
      if c =c charLF then
        let* e := next in
        let pr1 := setSystemError pr e in
        if pr_ok pr1 then
          let* d := peek in
          if isSP d then let* e2 := next in Continue (setSystemError pr1 e2, psSP, value)
          else Continue (pr1, psDone, value)
        else Continue (pr1, psDone, value)
      else Break (failed peExpectCRLF, value)
  | psSP =>
      let* c := peek in
      if isSP c then let* e := next in Continue (setSystemError pr e, psSP, value)
      else Continue (pr, psReadValue, value ++ [charSP])
  end.

Definition parseFieldValue (fuel : nat) : M B (ParseResult * str) :=
  loop fuel field_body (parse_ok, psStart, []).

Definition token_body (stoken : str) : M B (str + (ParseResult + str)) :=
  let* c := peek in
  if negb (isSeparator c) && negb (isCTL c) then
    let* e := next in
    let pr := setSystemError parse_ok e in
    if negb (pr_ok pr) then Break (inl pr) else Continue (stoken ++ [c])
  else Break (inr stoken).

Definition parseToken (fuel : nat) : M B (ParseResult * str) :=
  let* r := loop fuel token_body [] in
  match r with
  | inl pr => ret (pr, [])
  | inr stoken =>
      let* c := peek in
      if isSeparator c || isCTL c then ret (parse_ok, stoken) else ret (failed peUnFinishedToken, [])
  end.

Definition uint_body (s : ParseResult * str) : M B ((ParseResult * str) + (ParseResult * str)) :=
  let (pr, ss) := s in
  if negb (pr_ok pr) then Break (pr, ss) else
  let* c := peek in
  if isdigit c then let* e := next in Continue (setSystemError pr e, ss ++ [c]) else Break (pr, ss).

Definition parseUInt (fuel : nat) : M B (ParseResult * Z) :=
  let* (pr, ss) := loop fuel uint_body (parse_ok, []) in
  if zlen ss =? 0 then ret (failed peExpectingUnsignedInt, 0)
  else ret (pr, extract_unsigned 10 UINT_MAX ss 0).

(** One iteration of the do-while loop; [inl]: return inside the loop. *)
Definition headers_body (fuel : nat) (m : HTTPMessage) : M B (HTTPMessage + ((ParseResult * HTTPMessage) + HTTPMessage)) :=
  let* (pr, token) := parseToken fuel in
  if negb (pr_ok pr) then Break (inl (pr, m)) else
  let header_key := map tolower token in
  let* e1 := eatSpace fuel in
  if negb (pr_ok (setSystemError pr e1)) then Break (inl (setSystemError pr e1, m)) else
  let* c := peek in
  if negb (c =c ":"%char) then Break (inl (failed peExpectingHeaderColon, m)) else
  let* e2 := eatSpace fuel in
  if negb (pr_ok (setSystemError pr e2)) then Break (inl (setSystemError pr e2, m)) else
  let* e3 := next in
  if negb (pr_ok (setSystemError pr e3)) then Break (inl (setSystemError pr e3, m)) else
  let* (pr4, header_value) := parseFieldValue fuel in
  if pr_ok pr4 || pr_eof pr4 then
    let m' := addHeader header_key header_value m in
    let* e5 := eatSpace fuel in
    if negb (pr_ok (setSystemError pr4 e5)) then Break (inl (setSystemError pr4 e5, m')) else
    let* d := peek in
    if negb (d =c charCR) then Continue m' else Break (inr m')
  else Break (inl (pr4, m)).

Definition parseHeaders (fuel : nat) (m : HTTPMessage) : M B (ParseResult * HTTPMessage) :=
  let* _ := eatSpace fuel in
  let* r := loop fuel (headers_body fuel) m in
  match r with
  | inl out => ret out
  | inr m' =>
      let* e := next in
      let pr := setSystemError parse_ok e in
      if negb (pr_ok pr) then ret (pr, m') else
      let* c := peek in
      if negb (c =c charLF) then ret (failed peInvalidHeaderListEnd, m') else ret (pr, m')
  end.

(** [for ( i = 0; i < chunk_size; i++ )]: append the character and advance. *)
Definition chunk_body (chunk_size : Z) (s : Z * HTTPMessage)
    : M B ((Z * HTTPMessage) + ((ParseResult * HTTPMessage) + HTTPMessage)) :=
  let (i, m) := s in
  if i <? chunk_size then
    let* c := peek in
    let* m' := lift (appendBody c m) in
    let* e := next in
    let pr := setSystemError parse_ok e in
    if negb (pr_ok pr) then Break (inl (pr, m')) else Continue (i + 1, m')
  else Break (inr m).

(** One chunk; loop variables: chunk_size and the message, parseResult being ok. *)
Definition chunked_body (fuel : nat) (s : Z * HTTPMessage)
    : M B ((Z * HTTPMessage) + ((ParseResult * HTTPMessage) + (ParseResult * Z * HTTPMessage))) :=
  let (size0, m) := s in
  let* (pr, chunk_size) := parseChunkHex fuel size0 in
  if negb (pr_ok pr) then Break (inl (pr, m)) else
  if chunk_size =? 0 then Break (inr (pr, chunk_size, m)) else
  let* r := loop fuel (chunk_body chunk_size) (0, m) in
  match r with
  | inl out => Break (inl out)
  | inr m' =>
      let* pr2 := parseCRLF in
      if negb (pr_ok pr2) then Break (inl (pr2, m')) else Continue (chunk_size, m')
  end.

Definition parseChunkedBody (fuel : nat) (m : HTTPMessage) : M B (ParseResult * HTTPMessage) :=
  let* r := loop fuel (chunked_body fuel) (0, m) in
  match r with
  | inl out => ret out
  | inr (pr, chunk_size, m') =>
      if negb (chunk_size =? 0) then ret (failed peInvalidLastChunk, m')
      else if pr_eof pr then ret (parse_ok, m') else ret (pr, m')
  end.

(** The body of a message with a content length, as both parseBody functions read it. *)
Definition length_body (content_length : Z) (s : Z * HTTPMessage)
    : M B ((Z * HTTPMessage) + (ParseResult * HTTPMessage)) :=
  let (i, m) := s in
  if i <? content_length then
    let* c := peek in
    let* m' := lift (appendBody c m) in
    if i <? u64 (content_length - 1) then
      let* e := next in
      let pr := setSystemError parse_ok e in
      if negb (pr_ok pr) then Break (pr, m') else Continue (i + 1, m')
    else Continue (i + 1, m')
  else Break (parse_ok, m).

Definition parseLengthBody (fuel : nat) (content_length : Z) (m : HTTPMessage) : M B (ParseResult * HTTPMessage) :=
  loop fuel (length_body content_length) (0, m).
End Parsers.

(** ** Termination

    On a lawful buffer with [n] characters left every parser returns within
    fuel [2 n + 6], whatever the characters are. *)

Section Termination.
Context {B : Type} `{ReadBufferLaws B} `{Allocator}.
Context (fuel n : nat) (Hfuel : (2 * n + 6 <= fuel)%nat).

Lemma tame_parseCRLF : tame (B:=B) parseCRLF n.
Proof. intros b Hok Hw. unfold parseCRLF. tame_steps; split; (done || lia). Qed.

(** A matched CRLF is consumed. *)
Lemma parseCRLF_progress (b : B) : rb_ok b ->
  wp parseCRLF anythrow (fun r b' => rb_ok b' /\ (weight b' <= weight b)%nat /\
                                     (pr_ok r = true -> (weight b' < weight b)%nat)) b.
Proof. intros Hok. unfold parseCRLF. tame_steps; split_and!; first [done | lia]. Qed.

Lemma tame_eatCRLF : tame (B:=B) eatCRLF n.
Proof. intros b Hok Hw. unfold eatCRLF. tame_steps; split; (done || lia). Qed.

Lemma tame_eatSpace : tame (B:=B) (eatSpace fuel) n.
Proof.
  apply (tame_loop _ (fun _ => 0%nat) (fun e => e =? ecOK) 1); [|lia].
  intros e b Hok _. unfold eatSpace_body. tame_steps; breflect; split_and!; first [done | lia].
Qed.

Lemma tame_parseChunkHex v : tame (B:=B) (parseChunkHex fuel v) n.
Proof.
  apply tame_bind.
  - apply (tame_loop _ (fun _ => 0%nat) (fun _ => true) 1); [|lia].
    intros ss b Hok _. unfold hex_body. tame_steps; split_and!; first [done | lia].
  - intros [pr|ss]; [apply tame_ret|]. apply tame_if; [apply tame_ret|].
    apply tame_bind; [apply tame_parseCRLF | intros; apply tame_ret].
Qed.

Lemma tame_parseToken : tame (B:=B) (parseToken fuel) n.
Proof.
  apply tame_bind.
  - apply (tame_loop _ (fun _ => 0%nat) (fun _ => true) 1); [|lia].
    intros ss b Hok _. unfold token_body. tame_steps; split_and!; first [done | lia].
  - intros [pr|ss]; [apply tame_ret|]. apply tame_bind; [apply tame_peek|]. intros c. apply tame_if; apply tame_ret.
Qed.

Lemma tame_parseUInt : tame (B:=B) (parseUInt fuel) n.
Proof.
  apply tame_bind.
  - apply (tame_loop _ (fun _ => 0%nat) (fun s => pr_ok s.1) 1); [|lia].
    intros [pr ss] b Hok _. unfold uint_body. tame_steps; breflect; split_and!; first [done | lia | simpl; lia].
  - intros [pr ss]. apply tame_if; apply tame_ret.
Qed.

Definition field_rank (st : FieldState) : nat :=
  match st with psStart => 3 | psSP => 2 | psReadValue => 1 | psCR => 1 | psDone => 0 end.

Lemma tame_parseFieldValue : tame (B:=B) (parseFieldValue fuel) n.
Proof.
  apply (tame_loop _ (fun s => field_rank s.1.2) (fun s => pr_ok s.1.1) 2); [|simpl; lia].
  intros [[pr st] value] b Hok _. unfold field_body. cbn [fst snd]. destruct (pr_ok pr) eqn:Hpr; [|by destruct st; tame_steps].
  destruct st; tame_steps; split_and!; first [done | lia | simpl; rewrite ?Hpr; simpl; lia].
Qed.

(** Run a tame computation inside a [wp] goal. *)
Tactic Notation "tame_call" constr(L) "as" simple_intropattern(p) :=
  apply wp_bind; eapply wp_mono; [apply L; [done | lia]|]; intros p ? [? ?].

Lemma tame_parseHeaders m : tame (B:=B) (parseHeaders fuel m) n.
Proof.
  apply tame_bind; [apply tame_eatSpace|]. intros _. apply tame_bind.
  - apply (tame_loop _ (fun _ => 0%nat) (fun _ => true) 1); [|lia].
    intros m1 b Hok Hw. unfold headers_body.
    tame_call tame_parseToken as [pr token]. tame_step; [tame_steps|].
    tame_call tame_eatSpace as ?. tame_step; [tame_steps|]. tame_step. tame_step. tame_step; [tame_steps|].
    tame_call tame_eatSpace as ?. tame_step; [tame_steps|]. apply wp_bind.
    apply wp_next_weight; [done|]. intros e3 b3 Hok3 He.
    tame_step; [destruct He as [[? ?]|[? ?]]; tame_steps|]. destruct He as [[-> Hlt]|[-> _]]; [|done].
    tame_call tame_parseFieldValue as [pr4 value]. tame_step; [|tame_steps].
    tame_call tame_eatSpace as ?. tame_steps; split_and!; first [done | lia].
  - intros [out|m']; [apply tame_ret|]. apply tame_bind; [apply tame_next|]. intros e.
    apply tame_if; [apply tame_ret|]. apply tame_bind; [apply tame_peek|]. intros c. apply tame_if; apply tame_ret.
Qed.

Lemma appendBody_fuel c m : appendBody c m <> OutOfFuel.
Proof.
  unfold appendBody, append_octet, reserve, write_cells, fault, completed. cbn [andThen].
  repeat (case_match; simplify_eq; simpl in *; try done).
Qed.

Lemma wp_appendBody c m (b : B) Q : (forall m', Q m' b) -> wp (lift (appendBody c m)) anythrow Q b.
Proof. intros HQ. apply wp_lift. pose proof (appendBody_fuel c m). by destruct (appendBody c m). Qed.

Lemma tame_parseChunkedBody m : tame (B:=B) (parseChunkedBody fuel m) n.
Proof.
  assert (forall size m0, tame (B:=B) (loop fuel (chunk_body size) (0, m0)) n) as Hchunk.
  { intros size m0. apply (tame_loop _ (fun _ => 0%nat) (fun _ => true) 1); [|lia].
    intros [i m1] b Hok _. unfold chunk_body. tame_step; [|tame_steps]. repeat tame_step.
    all: apply wp_appendBody; intros m'; tame_steps; split_and!; first [done | lia]. }
  apply tame_bind.
  - apply (tame_loop _ (fun _ => 0%nat) (fun _ => true) 1); [|lia].
    intros [size m1] b Hok Hw. unfold chunked_body.
    tame_call tame_parseChunkHex as [pr chunk_size]. tame_step; [tame_steps|]. tame_step; [tame_steps|].
    tame_call Hchunk as [out|m']; [tame_steps|]. apply wp_bind.
    eapply wp_mono; [by apply parseCRLF_progress|]. intros pr2 b2 (Hok2 & Hw2 & Hlt).
    destruct (pr_ok pr2); tame_steps.
  - intros [out|[[pr size] m']]; [apply tame_ret|]. repeat apply tame_if; apply tame_ret.
Qed.

Lemma tame_parseLengthBody content_length m :
  0 <= content_length < 2 ^ 64 -> tame (B:=B) (parseLengthBody fuel content_length m) n.
Proof.
  intros Hcl b Hok Hw.
  apply wp_loop with (I := fun s b' => rb_ok b' /\ (weight b' <= weight b)%nat /\ 0 <= fst s)
    (mu := fun s b' => (weight b' + Z.to_nat (Z.min 1 (content_length - fst s)))%nat); [|done|simpl; lia].
  intros [i m1] b1 (Hok1 & Hw1 & Hi). unfold length_body. cbn [fst] in *.
  tame_step; [|tame_steps]. breflect. tame_step. tame_step. tame_step.
  apply wp_appendBody. intros m'. rewrite u64_small by lia. tame_step; breflect.
  - tame_steps.
  - tame_steps; simpl; split_and!; first [done | lia].
Qed.
End Termination.

(** ** What the lexical parsers accept *)

Definition is_token_char (c : ascii) : bool := negb (isSeparator c) && negb (isCTL c).

Lemma fold_snoc (w acc : str) : fold_left (fun a c => a ++ [c]) w acc = acc ++ w.
Proof. revert acc. induction w as [|c w IH]; intros acc; simpl; [by rewrite app_nil_r|]. by rewrite IH, <- app_assoc. Qed.

Section Lexical.
Context {B : Type} `{ReadBufferLaws B}.
Implicit Types (b : B).

(** Read the current character and advance, when more follows. *)
Lemma wp_peek_next {A} (k : ascii -> SystemError -> M B A) x l b E Q :
  rb_ok b -> rest b = x :: l -> l <> [] ->
  (forall b', rb_ok b' -> rest b' = l -> wp (k x (ec_value ecOK)) E Q b') ->
  wp (let* c := peek in let* e := next in k c e) E Q b.
Proof.
  intros Hok Hr Hl HQ. apply wp_bind. eapply wp_peek; [done..|]. apply wp_bind. by eapply wp_next_to.
Qed.

Lemma wp_eatSpace fuel sp c t b :
  rb_ok b -> rest b = sp ++ c :: t -> forallb isSP sp = true -> isSP c = false -> (length sp < fuel)%nat ->
  wp (eatSpace fuel) nothrow (fun e b' => e = ec_value ecOK /\ rb_ok b' /\ rest b' = c :: t) b.
Proof.
  intros Hok Hr Hsp Hc Hf.
  eapply (wp_scan eatSpace_body (fun e => e = ec_value ecOK) isSP (fun _ _ => ec_value ecOK));
    [| |done|done|exact Hr|done|lia|].
  - intros s b1 x k R -> Hok1 Hr1 Hk Hx HR. unfold eatSpace_body. apply wp_bind. eapply wp_peek; [done..|].
    rewrite Hx. apply wp_bind. eapply wp_next_to; [done..|]. intros b' Hok' Hr'. apply wp_ret. by apply HR.
  - done.
  - intros b' -> Hok' Hr'. apply wp_loop_step; [lia|]. apply wp_bind. eapply wp_peek; [done..|].
    rewrite Hc. by apply wp_ret.
Qed.

(** No space to eat: the buffer does not move. *)
Lemma wp_eatSpace_none fuel c t b :
  rb_ok b -> rest b = c :: t -> isSP c = false -> (0 < fuel)%nat ->
  wp (eatSpace fuel) nothrow (fun e b' => e = ec_value ecOK /\ rb_ok b' /\ rest b' = c :: t) b.
Proof. intros. by apply (wp_eatSpace fuel []). Qed.

Lemma wp_parseToken fuel w c t b :
  rb_ok b -> rest b = w ++ c :: t -> forallb is_token_char w = true -> is_token_char c = false -> (length w < fuel)%nat ->
  wp (parseToken fuel) nothrow (fun '(r, v) b' => r = parse_ok /\ v = w /\ rb_ok b' /\ rest b' = c :: t) b.
Proof.
  intros Hok Hr Hw Hc Hf. unfold parseToken. apply wp_bind.
  eapply (wp_scan token_body (fun _ => True) is_token_char (fun a x => a ++ [x])); [| |done|done|exact Hr|done|lia|].
  - intros s b1 x k R _ Hok1 Hr1 Hk Hx HR. unfold token_body. apply wp_bind. eapply wp_peek; [done..|].
    unfold is_token_char in Hx. rewrite Hx. apply wp_bind. eapply wp_next_to; [done..|].
    intros b' Hok' Hr'. apply wp_ret. by apply HR.
  - done.
  - intros b' _ Hok' Hr'. apply wp_loop_step; [lia|]. rewrite fold_snoc. unfold token_body. apply wp_bind.
    eapply wp_peek; [done..|]. unfold is_token_char in Hc. rewrite Hc. apply wp_ret. apply wp_bind.
    eapply wp_peek; [done..|]. rewrite <- negb_orb in Hc. apply negb_false_iff in Hc. rewrite Hc. by apply wp_ret.
Qed.

Lemma wp_parseUInt fuel n c t b :
  rb_ok b -> rest b = print_dec n ++ c :: t -> isdigit c = false -> 0 <= n <= UINT_MAX ->
  (length (print_dec n) < fuel)%nat ->
  wp (parseUInt fuel) nothrow (fun '(r, v) b' => r = parse_ok /\ v = n /\ rb_ok b' /\ rest b' = c :: t) b.
Proof.
  intros Hok Hr Hc Hn Hf. unfold parseUInt. apply wp_bind.
  eapply (wp_scan uint_body (fun s => s.1 = parse_ok) isdigit (fun s x => (parse_ok, s.2 ++ [x])));
    [| |done|done|exact Hr|apply print_dec_digits; lia|lia|].
  - intros [pr s] b1 x k R Hpr Hok1 Hr1 Hk Hx HR. simpl in Hpr. subst pr. unfold uint_body.
    change (negb (pr_ok parse_ok)) with false. cbv iota. apply wp_bind. eapply wp_peek; [done..|].
    rewrite Hx. apply wp_bind. eapply wp_next_to; [done..|]. intros b' Hok' Hr'. apply wp_ret. by apply HR.
  - done.
  - intros b' Hs Hok' Hr'.
    assert (forall (w s : str), fold_left (fun (s0 : ParseResult * str) (x : ascii) => (parse_ok, s0.2 ++ [x])) w (parse_ok, s)
                                = (parse_ok, s ++ w)) as Hfold.
    { induction w as [|x w IH]; intros s; simpl; [by rewrite app_nil_r|]. by rewrite IH, <- app_assoc. }
    rewrite Hfold. apply wp_loop_step; [lia|]. unfold uint_body. change (negb (pr_ok parse_ok)) with false. cbv iota.
    apply wp_bind. eapply wp_peek; [done..|]. rewrite Hc. apply wp_ret. cbn [app].
    pose proof (print_base_nonempty 10 n ltac:(by left) ltac:(lia)) as Hne.
    destruct (Z.eqb_spec (zlen (print_dec n)) 0) as [E0|_]; [by apply zlen_nil in E0|].
    apply wp_ret. by rewrite extract_print_dec.
Qed.

Lemma wp_parseCRLF c t b :
  rb_ok b -> rest b = charCR :: charLF :: c :: t ->
  wp parseCRLF nothrow (fun r b' => r = parse_ok /\ rb_ok b' /\ rest b' = c :: t) b.
Proof.
  intros Hok Hr. unfold parseCRLF. apply wp_bind. eapply wp_peek; [done..|]. apply wp_bind.
  eapply wp_next; [done..|]. intros b1 Hok1 Hr1. apply wp_bind. eapply wp_peek; [done..|]. apply wp_bind.
  eapply wp_next; [done..|]. intros b2 Hok2 Hr2. by apply wp_ret.
Qed.

Lemma wp_parseChunkHex fuel n v0 c t b :
  rb_ok b -> rest b = print_hex n ++ charCR :: charLF :: c :: t -> 0 <= n <= ULONG_MAX ->
  (length (print_hex n) < fuel)%nat ->
  wp (parseChunkHex fuel v0) nothrow (fun '(r, v) b' => r = parse_ok /\ v = n /\ rb_ok b' /\ rest b' = c :: t) b.
Proof.
  intros Hok Hr Hn Hf. unfold parseChunkHex. apply wp_bind.
  assert (forallb isxdigit (print_hex n) = true) as Hx.
  { pose proof (print_base_digits 16 n ltac:(by right; left) ltac:(lia)) as Hd. rewrite forallb_forall in *.
    intros x Hin. specialize (Hd x Hin). clear Hin. revert x Hd. by apply ascii_implies. }
  eapply (wp_scan hex_body (fun _ => True) isxdigit (fun a x => a ++ [x])); [| |done|done|exact Hr|done|lia|].
  - intros s b1 x k R _ Hok1 Hr1 Hk Hxd HR. unfold hex_body. apply wp_bind. eapply wp_peek; [done..|].
    rewrite Hxd. apply wp_bind. eapply wp_next_to; [done..|]. intros b' Hok' Hr'. apply wp_ret. by apply HR.
  - done.
  - intros b' _ Hok' Hr'. apply wp_loop_step; [lia|]. rewrite fold_snoc. unfold hex_body. apply wp_bind.
    eapply wp_peek; [done..|]. apply wp_ret. cbn [app].
    pose proof (print_base_nonempty 16 n ltac:(by right; left) ltac:(lia)) as Hne.
    destruct (Z.eqb_spec (zlen (print_hex n)) 0) as [E0|_]; [by apply zlen_nil in E0|].
    apply wp_bind. eapply wp_mono; [by eapply wp_parseCRLF|]. intros r b2 (-> & Hok2 & Hr2). apply wp_ret.
    unfold extract_unsigned, print_hex in *. destruct (print_base 16 n) eqn:E; [done|].
    rewrite <- E, read_print_base by first [by right; left | lia]. split_and!; (done || lia).
Qed.
End Lexical.

(** ** Field values

    [collapse insp s]: every run of spaces and tabs becomes one space; [insp]: the
    run has already begun. *)
Fixpoint collapse (insp : bool) (s : str) : str :=
  match s with
  | [] => if insp then [charSP] else []
  | c :: t => if isSP c then collapse true t else (if insp then [charSP] else []) ++ c :: collapse false t
  end.

Fixpoint skipSP (s : str) : str :=
  match s with c :: t => if isSP c then skipSP t else s | [] => [] end.

(** A field value as written: a first line and continuation lines, each folded
    by CRLF and a space. *)
Definition field_text (line : str) (more : list str) : str :=
  line ++ concat (map (fun l => charCR :: charLF :: charSP :: l) more).

Definition field_meaning (line : str) (more : list str) : str :=
  collapse false (skipSP line) ++ concat (map (collapse true) more).

Definition no_CR (s : str) : bool := forallb (fun c => negb (c =c charCR)) s.

Section FieldValue.
Context {B : Type} `{ReadBufferLaws B}.
Context (d : ascii) (t : str) (Hd : isSP d = false).

(** What is left to read and to produce in each state of [parseFieldValue]. *)
Definition field_todo (total : str) (s : field_vars) (r : str) : Prop :=
  let '(pr, st, value) := s in
  pr = parse_ok /\
  match st with
  | psStart => exists l ls, no_CR l = true /\ forallb no_CR ls = true /\
      r = field_text l ls ++ charCR :: charLF :: d :: t /\ value ++ field_meaning l ls = total
  | psReadValue => exists l ls, no_CR l = true /\ forallb no_CR ls = true /\
      r = field_text l ls ++ charCR :: charLF :: d :: t /\
      value ++ collapse false l ++ concat (map (collapse true) ls) = total
  | psSP => exists l ls, no_CR l = true /\ forallb no_CR ls = true /\
      r = field_text l ls ++ charCR :: charLF :: d :: t /\
      value ++ collapse true l ++ concat (map (collapse true) ls) = total
  | psCR => (exists l ls, no_CR l = true /\ forallb no_CR ls = true /\
      r = charLF :: charSP :: field_text l ls ++ charCR :: charLF :: d :: t /\
      value ++ collapse true l ++ concat (map (collapse true) ls) = total) \/
      (r = charLF :: d :: t /\ value = total)
  | psDone => r = d :: t /\ value = total
  end.

Definition field_post (total : str) (st : FieldState) (n : nat) (r : field_vars + (ParseResult * str)) (b : B) : Prop :=
  match r with
  | inl s => (rb_ok b /\ field_todo total s (rest b)) /\
             (2 * length (rest b) + field_rank s.1.2 < 2 * n + field_rank st)%nat
  | inr a => a = (parse_ok, total) /\ rb_ok b /\ rest b = d :: t
  end.

Lemma wp_field_step (total : str) st st' value b x k :
  rb_ok b -> rest b = x :: k -> k <> [] -> field_todo total (parse_ok, st', value) k -> (field_rank st' < 2 + field_rank st)%nat ->
  wp (let* e := next in Continue (setSystemError parse_ok e, st', value)) nothrow
     (field_post total st (length (rest b))) b.
Proof.
  intros Hok Hr Hk Htodo Hrank. apply wp_bind. eapply wp_next_to; [done..|]. intros b' Hok' Hr'. apply wp_ret.
  unfold field_post. rewrite Hr, Hr'. split; [done|]. cbn [length fst snd]. lia.
Qed.

(** The text behind the CR that ends a line. *)
Definition after_CR (ls : list str) : str :=
  match ls with
  | [] => charLF :: d :: t
  | l :: ls' => charLF :: charSP :: field_text l ls' ++ charCR :: charLF :: d :: t
  end.

Lemma field_text_nil ls : field_text [] ls ++ charCR :: charLF :: d :: t = charCR :: after_CR ls.
Proof. destruct ls as [|l ls]; [done|]. simpl. unfold field_text. by rewrite <- app_assoc. Qed.

Lemma field_text_cons x l ls :
  field_text (x :: l) ls ++ charCR :: charLF :: d :: t = x :: (field_text l ls ++ charCR :: charLF :: d :: t).
Proof. done. Qed.

Lemma field_text_nonempty l ls : field_text l ls ++ charCR :: charLF :: d :: t <> [].
Proof. intros E. by apply app_eq_nil in E as [_ ?]. Qed.

Lemma todo_CR total value ls :
  forallb no_CR ls = true -> value ++ concat (map (collapse true) ls) = total ->
  field_todo total (parse_ok, psCR, value) (after_CR ls).
Proof.
  intros Hls Hm. split; [done|]. destruct ls as [|l ls]; [right; simpl in *; by rewrite app_nil_r in Hm|].
  left. simpl in *. apply andb_true_iff in Hls as [? ?]. by exists l, ls.
Qed.

Lemma wp_field_start total value l ls b :
  rb_ok b -> no_CR l = true -> forallb no_CR ls = true ->
  rest b = field_text l ls ++ charCR :: charLF :: d :: t -> value ++ field_meaning l ls = total ->
  wp (field_body (parse_ok, psStart, value)) nothrow (field_post total psStart (length (rest b))) b.
Proof.
  intros Hok Hl Hls Hr Hm. unfold field_body. change (negb (pr_ok parse_ok)) with false. cbv iota.
  assert (forall y, rest b = y :: tail (rest b) -> isSP y = false -> skipSP l = l ->
     wp (let* c := peek in
         if negb (isSP c) then Continue (parse_ok, psReadValue, value)
         else let* e := next in Continue (setSystemError parse_ok e, psStart, value))
       nothrow (field_post total psStart (length (rest b))) b) as Hstay.
  { intros y Hy Hsp Hskip. apply wp_bind. eapply wp_peek; [done..|]. rewrite Hsp. apply wp_ret.
    split; [split; [done|]|simpl; lia]. split; [done|]. exists l, ls. unfold field_meaning in Hm. by rewrite Hskip in Hm. }
  destruct l as [|x l].
  - apply (Hstay charCR); [by rewrite Hr, field_text_nil | done | done].
  - destruct (isSP x) eqn:Hx.
    + apply wp_bind. rewrite field_text_cons in Hr. eapply wp_peek; [done..|]. rewrite Hx. cbn [negb].
      eapply wp_field_step; [done | done | apply field_text_nonempty | | lia].
      split; [done|]. exists l, ls. unfold no_CR in Hl. simpl in Hl. apply andb_true_iff in Hl as [_ Hl].
      unfold field_meaning in *. simpl in Hm. by rewrite Hx in Hm.
    + apply (Hstay x); [by rewrite Hr | done | simpl; by rewrite Hx].
Qed.

Lemma wp_field_read total value l ls b :
  rb_ok b -> no_CR l = true -> forallb no_CR ls = true ->
  rest b = field_text l ls ++ charCR :: charLF :: d :: t ->
  value ++ collapse false l ++ concat (map (collapse true) ls) = total ->
  wp (field_body (parse_ok, psReadValue, value)) nothrow (field_post total psReadValue (length (rest b))) b.
Proof.
  intros Hok Hl Hls Hr Hm. unfold field_body. change (negb (pr_ok parse_ok)) with false. cbv iota. apply wp_bind.
  destruct l as [|x l].
  - rewrite field_text_nil in Hr. eapply wp_peek; [done..|]. rewrite ascii_eqb_true.
    eapply wp_field_step; [done | done | by destruct ls | by apply todo_CR | simpl; lia].
  - rewrite field_text_cons in Hr. eapply wp_peek; [done..|].
    unfold no_CR in Hl. simpl in Hl. apply andb_true_iff in Hl as [Hx Hl]. apply negb_true_iff in Hx. rewrite Hx.
    simpl in Hm. destruct (isSP x) eqn:Hsp.
    + eapply wp_field_step; [done | done | apply field_text_nonempty | | simpl; lia].
      split; [done|]. by exists l, ls.
    + eapply wp_field_step; [done | done | apply field_text_nonempty | | simpl; lia].
      split; [done|]. exists l, ls. by rewrite <- app_assoc.
Qed.

Lemma wp_field_space total value l ls b :
  rb_ok b -> no_CR l = true -> forallb no_CR ls = true ->
  rest b = field_text l ls ++ charCR :: charLF :: d :: t ->
  value ++ collapse true l ++ concat (map (collapse true) ls) = total ->
  wp (field_body (parse_ok, psSP, value)) nothrow (field_post total psSP (length (rest b))) b.
Proof.
  intros Hok Hl Hls Hr Hm. unfold field_body. change (negb (pr_ok parse_ok)) with false. cbv iota. apply wp_bind.
  destruct l as [|x l].
  - pose proof Hr as Hr2. rewrite field_text_nil in Hr2. eapply wp_peek; [done..|]. change (isSP charCR) with false. cbv iota.
    apply wp_ret. split; [split; [done|]|simpl; lia]. split; [done|]. exists [], ls. by rewrite <- app_assoc.
  - pose proof Hr as Hr2. rewrite field_text_cons in Hr2. eapply wp_peek; [done..|]. simpl in Hm. destruct (isSP x) eqn:Hsp.
    + eapply wp_field_step; [done | done | apply field_text_nonempty | | simpl; lia].
      unfold no_CR in Hl. simpl in Hl. apply andb_true_iff in Hl as [Hx Hl]. split; [done|]. by exists l, ls.
    + apply wp_ret. split; [split; [done|]|simpl; lia]. split; [done|]. exists (x :: l), ls.
      split; [done|]. split; [done|]. split; [done|]. simpl. rewrite Hsp, <- app_assoc. exact Hm.
Qed.

Lemma wp_field_CR total value b :
  rb_ok b -> field_todo total (parse_ok, psCR, value) (rest b) ->
  wp (field_body (parse_ok, psCR, value)) nothrow (field_post total psCR (length (rest b))) b.
Proof.
  intros Hok [_ Hcase]. unfold field_body. change (negb (pr_ok parse_ok)) with false. cbv iota. apply wp_bind.
  destruct Hcase as [(l & ls & Hl & Hls & Hr & Hm)|[Hr Hm]].
  - eapply wp_peek; [done..|]. rewrite ascii_eqb_true. apply wp_bind. eapply wp_next; [done..|].
    intros b1 Hok1 Hr1. apply wp_bind. eapply wp_peek; [done..|]. cbn [isSP]. apply wp_bind.
    eapply wp_next_to; [done | done | apply field_text_nonempty |]. intros b2 Hok2 Hr2. apply wp_ret.
    unfold field_post. rewrite Hr, Hr2. split; [|cbn [length fst snd field_rank]; lia].
    split; [done|]. split; [done|]. by exists l, ls.
  - eapply wp_peek; [done..|]. rewrite ascii_eqb_true. apply wp_bind. eapply wp_next; [done..|].
    intros b1 Hok1 Hr1. apply wp_bind. eapply wp_peek; [done..|]. rewrite Hd. apply wp_ret.
    unfold field_post. rewrite Hr, Hr1. split; [done|]. cbn [length fst snd field_rank]. lia.
Qed.

(** [parseFieldValue] unfolds continuation lines and collapses white space, and
    stops at the character behind the final CRLF. *)
Lemma wp_parseFieldValue fuel l ls b :
  rb_ok b -> no_CR l = true -> forallb no_CR ls = true ->
  rest b = field_text l ls ++ charCR :: charLF :: d :: t -> (2 * length (rest b) + 3 < fuel)%nat ->
  wp (parseFieldValue fuel) nothrow
     (fun '(r, v) b' => r = parse_ok /\ v = field_meaning l ls /\ rb_ok b' /\ rest b' = d :: t) b.
Proof.
  intros Hok Hl Hls Hr Hf. unfold parseFieldValue.
  apply wp_mono with (Q := fun a b' => a = (parse_ok, field_meaning l ls) /\ rb_ok b' /\ rest b' = d :: t).
  2:{ intros [r v] b' ([= -> ->] & ? & ?). done. }
  apply wp_loop with (I := fun s b' => rb_ok b' /\ field_todo (field_meaning l ls) s (rest b'))
                     (mu := fun s b' => (2 * length (rest b') + field_rank s.1.2)%nat).
  - intros [[pr st] value] b1 [Hok1 [-> Hst]].
    apply wp_mono with (Q := field_post (field_meaning l ls) st (length (rest b1))); [|by intros [s'|a] b'].
    destruct st.
    + destruct Hst as (? & ? & ? & ? & ? & ?). by eapply wp_field_start.
    + destruct Hst as (? & ? & ? & ? & ? & ?). by eapply wp_field_read.
    + by apply wp_field_CR.
    + destruct Hst as (? & ? & ? & ? & ? & ?). by eapply wp_field_space.
    + destruct Hst as [Hr1 ->]. by apply wp_ret.
  - split; [done|]. split; [done|]. by exists l, ls.
  - simpl. lia.
Qed.
End FieldValue.

(** A value that [parseFieldValue] returns as it is written. *)
Definition field_plain (v : str) : Prop := no_CR v = true /\ collapse false (skipSP v) = v.

(** ** The header map *)

Lemma str_eqb_spec s t : str_eqb s t = true <-> s = t.
Proof.
  revert t. induction s as [|c s IH]; intros [|d t]; simpl; try done.
  rewrite andb_true_iff, Ascii.eqb_eq, IH. split; [by intros [-> ->] | by intros [= -> ->]].
Qed.

Lemma str_eqb_refl s : str_eqb s s = true.
Proof. by apply str_eqb_spec. Qed.

Lemma str_ltb_irrefl s : str_ltb s s = false.
Proof. induction s as [|c s IH]; simpl; [done|]. rewrite IH. lia. Qed.

Lemma str_ltb_trans s t u : str_ltb s t = true -> str_ltb t u = true -> str_ltb s u = true.
Proof.
  revert t u. induction s as [|c s IH]; intros [|d t] [|e u]; simpl; try done. intros H1 H2.
  specialize (IH t u). destruct (str_ltb s t), (str_ltb t u), (str_ltb s u); lia.
Qed.

Lemma str_ltb_asym s t : str_ltb s t = true -> str_ltb t s = false.
Proof.
  intros H1. destruct (str_ltb t s) eqn:H2; [|done]. pose proof (str_ltb_trans _ _ _ H1 H2) as H3.
  by rewrite str_ltb_irrefl in H3.
Qed.

Lemma str_ltb_neq s t : str_ltb s t = true -> str_eqb s t = false.
Proof. intros H1. destruct (str_eqb s t) eqn:E; [|done]. apply str_eqb_spec in E as ->. by rewrite str_ltb_irrefl in H1. Qed.

Lemma str_eqb_sym s t : str_eqb s t = str_eqb t s.
Proof. apply eq_iff_eq_true. rewrite !str_eqb_spec. done. Qed.

Lemma str_ltb_total s t : str_eqb s t = false -> str_ltb s t = false -> str_ltb t s = true.
Proof.
  revert t. induction s as [|c s IH]; intros [|d t]; simpl; try done. intros H1 H2.
  destruct (Ascii.eqb_spec c d) as [->|Hne]; simpl in H1.
  - apply orb_false_iff in H2 as [_ H2]. rewrite Z.eqb_refl in H2. rewrite (IH t) by done. lia.
  - assert (octet c <> octet d) by (intros E; by apply octet_inj in E). lia.
Qed.

(** The keys ascend strictly. *)
Fixpoint keys_above (k : str) (m : strmap) : bool :=
  match m with [] => true | (k', _) :: m' => str_ltb k k' && keys_above k m' end.
Fixpoint sorted_keys (m : strmap) : bool :=
  match m with [] => true | (k, _) :: m' => keys_above k m' && sorted_keys m' end.

Lemma keys_above_trans k k' m : str_ltb k k' = true -> keys_above k' m = true -> keys_above k m = true.
Proof.
  intros Hk. induction m as [|[j v] m IH]; simpl; [done|]. rewrite !andb_true_iff. intros [H1 H2].
  split; [by eapply str_ltb_trans | by apply IH].
Qed.

Lemma keys_above_find k m : keys_above k m = true -> map_find k m = None.
Proof.
  induction m as [|[j v] m IH]; simpl; [done|]. rewrite andb_true_iff. intros [H1 H2].
  rewrite str_ltb_neq by done. by apply IH.
Qed.

Lemma keys_above_set j k v m : str_ltb j k = true -> keys_above j m = true -> keys_above j (map_set k v m) = true.
Proof.
  intros Hj. induction m as [|[k' v'] m IH]; simpl; [by rewrite Hj|]. rewrite andb_true_iff. intros [H1 H2].
  repeat case_bool; simpl; rewrite ?Hj, ?H1, ?H2; simpl; auto.
Qed.

Lemma map_set_sorted k v m : sorted_keys m = true -> sorted_keys (map_set k v m) = true.
Proof.
  induction m as [|[k' v'] m IH]; simpl; [done|]. rewrite andb_true_iff. intros [H1 H2].
  destruct (str_eqb k k') eqn:Eq; [apply str_eqb_spec in Eq as ->; simpl; by rewrite H1|].
  destruct (str_ltb k k') eqn:Lt; simpl.
  - rewrite Lt, H1, H2. simpl. rewrite andb_true_r. by eapply keys_above_trans.
  - rewrite keys_above_set; [by apply IH | by apply str_ltb_total | done].
Qed.

Lemma map_find_set k v j m :
  sorted_keys m = true -> map_find j (map_set k v m) = if str_eqb j k then Some v else map_find j m.
Proof.
  induction m as [|[k' v'] m IH]; simpl; [done|]. rewrite andb_true_iff. intros [H1 H2].
  destruct (str_eqb k k') eqn:Eq.
  - apply str_eqb_spec in Eq as ->. simpl. by destruct (str_eqb j k').
  - destruct (str_ltb k k') eqn:Lt; simpl; [done|]. rewrite IH by done.
    destruct (str_eqb j k') eqn:E1; [|done]. apply str_eqb_spec in E1 as ->.
    by rewrite str_eqb_sym, Eq.
Qed.

(** A key above all others goes to the end. *)
Lemma map_set_last k v m : forallb (fun p => str_ltb p.1 k) m = true -> map_set k v m = m ++ [(k, v)] /\ map_find k m = None.
Proof.
  induction m as [|[k' v'] m IH]; simpl; [done|]. rewrite andb_true_iff. intros [H1 H2].
  rewrite str_eqb_sym, str_ltb_neq, str_ltb_asym by done. destruct (IH H2) as [-> ->]. done.
Qed.

(** ** Header lists *)

(** One header as written: name, first line of the value, continuation lines. *)
Record header_line : Type := mkHeaderLine { hname : str; hline : str; hmore : list str }.

Definition header_line_ok (h : header_line) : bool :=
  forallb is_token_char (hname h) && no_CR (hline h) && forallb no_CR (hmore h).

Definition header_text (h : header_line) : str :=
  hname h ++ ":"%char :: field_text (hline h) (hmore h) ++ [charCR; charLF].

Definition header_effect (m : HTTPMessage) (h : header_line) : HTTPMessage :=
  addHeader (map tolower (hname h)) (field_meaning (hline h) (hmore h)) m.

Definition headers_text (hs : list header_line) : str := concat (map header_text hs).

Lemma token_char_facts c : is_token_char c = true -> isSP c = false /\ (c =c charCR) = false.
Proof.
  intros Hc. split; [|by apply (ascii_class_ne is_token_char)].
  apply negb_true_iff. revert c Hc. by apply (ascii_implies is_token_char (fun c => negb (isSP c))).
Qed.

(** What stands behind a header is another header or the final CRLF. *)
Lemma headers_text_head hs t :
  forallb header_line_ok hs = true ->
  exists c k, headers_text hs ++ charCR :: t = c :: k /\ isSP c = false /\ (c =c charCR) = match hs with [] => true | _ => false end.
Proof.
  destruct hs as [|h hs]; intros Hok; [by exists charCR, t|]. simpl in Hok.
  unfold header_line_ok in Hok. rewrite !andb_true_iff in Hok. destruct Hok as [[[Hn _] _] _].
  unfold headers_text. simpl. unfold header_text. destruct (hname h) as [|c n]; simpl.
  - by eexists ":"%char, _.
  - simpl in Hn. apply andb_true_iff in Hn as [Hc _]. destruct (token_char_facts c Hc). by eexists c, _.
Qed.

Section Headers.
Context {B : Type} `{ReadBufferLaws B} `{Allocator}.
Implicit Types (b : B).

Lemma wp_headers_body fuel m h d t b :
  rb_ok b -> header_line_ok h = true -> isSP d = false -> rest b = header_text h ++ d :: t ->
  (2 * length (rest b) + 3 < fuel)%nat ->
  wp (headers_body fuel m) nothrow
     (fun r b' => r = (if negb (d =c charCR) then inl (header_effect m h) else inr (inr (header_effect m h))) /\
                  rb_ok b' /\ rest b' = d :: t) b.
Proof.
  intros Hok Hh Hd Hr Hf. unfold header_line_ok in Hh. rewrite !andb_true_iff in Hh. destruct Hh as [[Hn Hl] Hls].
  unfold header_text in Hr. rewrite <- app_assoc in Hr. cbn [app] in Hr. rewrite <- app_assoc in Hr. cbn [app] in Hr.
  assert (length (rest b) = length (hname h) + S (length (field_text (hline h) (hmore h) ++ charCR :: charLF :: d :: t)))%nat as Hlen.
  { by rewrite Hr, length_app. }
  unfold headers_body. apply wp_bind. eapply wp_mono; [eapply wp_parseToken; [done | exact Hr | done | done | lia]|].
  intros [pr token] b1 (-> & -> & Hok1 & Hr1). change (negb (pr_ok parse_ok)) with false. cbv iota.
  apply wp_bind. eapply wp_mono; [eapply wp_eatSpace_none; [done | exact Hr1 | done | lia]|].
  intros e1 b2 (-> & Hok2 & Hr2). apply wp_bind. eapply wp_peek; [done..|].
  apply wp_bind. eapply wp_mono; [eapply wp_eatSpace_none; [done | exact Hr2 | done | lia]|].
  intros e2 b3 (-> & Hok3 & Hr3). apply wp_bind. eapply wp_next_to; [done | exact Hr3 | apply field_text_nonempty |].
  intros b4 Hok4 Hr4. apply wp_bind.
  eapply wp_mono; [apply (wp_parseFieldValue d t Hd fuel (hline h) (hmore h)); [done | done | done | done | rewrite Hr4; lia]|].
  intros [pr4 v] b5 (-> & -> & Hok5 & Hr5). apply wp_bind.
  eapply wp_mono; [eapply wp_eatSpace_none; [done | exact Hr5 | done | lia]|].
  intros e5 b6 (-> & Hok6 & Hr6). apply wp_bind. eapply wp_peek; [done..|].
  unfold header_effect. by case_bool; apply wp_ret.
Qed.

Lemma wp_headers_loop fuel hs h m t b f :
  rb_ok b -> forallb header_line_ok (h :: hs) = true -> rest b = headers_text (h :: hs) ++ charCR :: t ->
  (2 * length (rest b) + 3 < fuel)%nat -> (length hs < f)%nat ->
  wp (loop f (headers_body fuel) m) nothrow
     (fun r b' => r = inr (fold_left header_effect (h :: hs) m) /\ rb_ok b' /\ rest b' = charCR :: t) b.
Proof.
  revert h m b f. induction hs as [|h2 hs IH]; intros h m b f Hok Hhs Hr Hf Hlt.
  - apply wp_loop_step; [lia|]. simpl in Hhs. rewrite andb_true_r in Hhs.
    unfold headers_text in Hr. cbn [map concat] in Hr. rewrite app_nil_r in Hr.
    eapply wp_mono; [by eapply (wp_headers_body fuel m h charCR)|]. by intros r b' (-> & Hok' & Hr').
  - apply wp_loop_step; [lia|]. simpl in Hhs. apply andb_true_iff in Hhs as [Hh Hhs].
    destruct (headers_text_head (h2 :: hs) t Hhs) as (c & k & Hck & Hsp & Hcr).
    assert (rest b = header_text h ++ c :: k) as Hr'.
    { rewrite Hr, <- Hck. unfold headers_text. cbn [map concat]. by rewrite <- !app_assoc. }
    eapply wp_mono; [by eapply (wp_headers_body fuel m h c k)|]. rewrite Hcr. intros r b' (-> & Hok' & Hr2). cbn [negb].
    eapply wp_mono; [apply (IH h2); [done | done | by rewrite Hr2 | | simpl in Hlt; lia]|done].
    rewrite Hr2. rewrite Hr', length_app in Hf. lia.
Qed.

(** [parseHeaders] on a header list: every header takes effect, in order, and the
    parser stops on the LF of the empty line. *)
Lemma wp_parseHeaders fuel hs m t b :
  rb_ok b -> hs <> [] -> forallb header_line_ok hs = true -> rest b = headers_text hs ++ charCR :: charLF :: t ->
  (2 * length (rest b) + 3 < fuel)%nat ->
  wp (parseHeaders fuel m) nothrow
     (fun '(r, m') b' => r = parse_ok /\ m' = fold_left header_effect hs m /\ rb_ok b' /\ rest b' = charLF :: t) b.
Proof.
  intros Hok Hne Hhs Hr Hf. unfold parseHeaders. apply wp_bind.
  destruct (headers_text_head hs (charLF :: t) Hhs) as (c & k & Hck & Hsp & _). rewrite Hck in Hr.
  eapply wp_mono; [eapply wp_eatSpace_none; [done | exact Hr | done | lia]|]. intros e b1 (-> & Hok1 & Hr1).
  rewrite <- Hck in Hr1. assert (rest b = rest b1) as Hsame by congruence. apply wp_bind.
  destruct hs as [|h hs]; [done|].
  assert (length (h :: hs) <= length (headers_text (h :: hs)))%nat as Hlen.
  { clear. generalize (h :: hs). intros l. induction l as [|x l IH]; [done|]. unfold headers_text in *. cbn [map concat].
    rewrite length_app. unfold header_text at 1. rewrite length_app. simpl. lia. }
  eapply wp_mono; [eapply (wp_headers_loop fuel hs h m (charLF :: t)); [done | done | done | by rewrite <- Hsame |]|].
  - rewrite Hsame, Hr1, length_app in Hf. simpl length in *. lia.
  - intros r b2 (-> & Hok2 & Hr2). apply wp_bind. eapply wp_next; [done..|]. intros b3 Hok3 Hr3. apply wp_bind.
    eapply wp_peek; [done..|]. by apply wp_ret.
Qed.
End Headers.

(** ** Bodies *)

(** The message holds the body [l]. *)
Definition body_is (m : HTTPMessage) (hs : strmap) (l : str) : Prop := headers_ m = hs /\ rep (body_ m) l.

(** A chunk of the chunked transfer coding. *)
Definition chunk_text (data : str) : str :=
  print_hex (zlen data) ++ [charCR; charLF] ++ data ++ [charCR; charLF].

Section Bodies.
Context {B : Type} `{ReadBufferLaws B} `{Allocator} (Halloc : forall n, alloc_ok n = true).
Implicit Types (b : B).

Lemma wp_append_char m hs l c b E (Q : HTTPMessage -> B -> Prop) :
  body_is m hs l -> zlen l + 1 < size_limit -> (forall m', body_is m' hs (l ++ [c]) -> Q m' b) ->
  wp (lift (appendBody c m)) E Q b.
Proof.
  intros [Hh Hrep] Hsz HQ. apply wp_lift. unfold appendBody.
  destruct (append_octet_rep (body_ m) l c Hrep Hsz (Halloc _)) as (b' & -> & Hrep'). cbn. by apply HQ.
Qed.

Lemma wp_parseLengthBody fuel m hs l body t b :
  rb_ok b -> rest b = body ++ t -> body_is m hs l -> zlen l + zlen body < size_limit -> (length body < fuel)%nat ->
  wp (parseLengthBody fuel (zlen body) m) nothrow
     (fun '(r, m') b' => r = parse_ok /\ body_is m' hs (l ++ body) /\ rb_ok b') b.
Proof.
  intros Hok Hr Hm Hsz Hf. unfold parseLengthBody. pose proof (zlen_nonneg l).
  apply wp_loop with
    (I := fun s b' => rb_ok b' /\ exists i : nat, s.1 = Z.of_nat i /\ (i <= length body)%nat /\
            body_is s.2 hs (l ++ take i body) /\ rest b' = drop (i `min` (length body - 1)) (body ++ t))
    (mu := fun s _ => Z.to_nat (zlen body - s.1)).
  - intros [z m1] b1 (Hok1 & i & Hz & Hi & Hm1 & Hr1). cbn [fst snd] in *. subst z. unfold length_body, zlen.
    destruct (Z.ltb_spec (Z.of_nat i) (Z.of_nat (length body))).
    2:{ apply wp_ret. rewrite take_ge in Hm1 by lia. done. }
    destruct (lookup_lt_is_Some_2 body i ltac:(lia)) as [x Hx].
    assert (drop i (body ++ t) = x :: drop (S i) (body ++ t)) as Hdrop.
    { apply drop_S. by apply lookup_app_l_Some. }
    rewrite Nat.min_l, Hdrop in Hr1 by lia. apply wp_bind. eapply wp_peek; [done..|]. apply wp_bind.
    eapply wp_append_char; [done | |].
    { unfold size_limit, zlen in *. rewrite length_app, length_take. lia. }
    intros m' Hm'. rewrite <- app_assoc, <- (take_S_r _ _ _ Hx) in Hm'. rewrite u64_small by (unfold zlen, size_limit in *; lia).
    destruct (Z.ltb_spec (Z.of_nat i) (Z.of_nat (length body) - 1)).
    + apply wp_bind. eapply wp_next_to; [done..| |].
      { intros E%(f_equal length). rewrite length_drop, length_app in E. simpl in E. lia. }
      intros b2 Hok2 Hr2. apply wp_ret. cbn [fst snd]. split; [|lia]. split; [done|]. exists (S i).
      split; [lia|]. split; [lia|]. split; [done|]. by rewrite Nat.min_l by lia.
    + apply wp_ret. cbn [fst snd]. split; [|lia]. split; [done|]. exists (S i).
      split; [lia|]. split; [lia|]. split; [done|].
      replace (S i `min` (length body - 1))%nat with i by lia. by rewrite Hdrop.
  - split; [done|]. exists 0%nat. cbn [fst snd]. rewrite take_0, app_nil_r, Nat.min_0_l. split_and!; (done || lia).
  - simpl. unfold zlen. lia.
Qed.

Lemma wp_chunk_data fuel m hs l data c t b :
  rb_ok b -> rest b = data ++ c :: t -> body_is m hs l -> zlen l + zlen data < size_limit -> (length data < fuel)%nat ->
  wp (loop fuel (chunk_body (zlen data)) (0, m)) nothrow
     (fun r b' => exists m', r = inr m' /\ body_is m' hs (l ++ data) /\ rb_ok b' /\ rest b' = c :: t) b.
Proof.
  intros Hok Hr Hm Hsz Hf. pose proof (zlen_nonneg l).
  apply wp_loop with
    (I := fun s b' => rb_ok b' /\ exists i : nat, s.1 = Z.of_nat i /\ (i <= length data)%nat /\
            body_is s.2 hs (l ++ take i data) /\ rest b' = drop i data ++ c :: t)
    (mu := fun s _ => Z.to_nat (zlen data - s.1)).
  - intros [z m1] b1 (Hok1 & i & Hz & Hi & Hm1 & Hr1). cbn [fst snd] in *. subst z. unfold chunk_body, zlen.
    destruct (Z.ltb_spec (Z.of_nat i) (Z.of_nat (length data))).
    2:{ apply wp_ret. rewrite take_ge in Hm1 by lia. rewrite drop_ge in Hr1 by lia. by exists m1. }
    destruct (lookup_lt_is_Some_2 data i ltac:(lia)) as [x Hx].
    rewrite (drop_S data x i Hx) in Hr1. rewrite <- app_comm_cons in Hr1.
    apply wp_bind. eapply wp_peek; [done..|]. apply wp_bind. eapply wp_append_char; [done | |].
    { unfold size_limit, zlen in *. rewrite length_app, length_take. lia. }
    intros m' Hm'. rewrite <- app_assoc, <- (take_S_r _ _ _ Hx) in Hm'. apply wp_bind.
    eapply wp_next_to; [done..| by destruct (drop (S i) data) |]. intros b2 Hok2 Hr2. apply wp_ret. cbn [fst snd].
    split; [|lia]. split; [done|]. exists (S i). split_and!; (done || lia).
  - split; [done|]. exists 0%nat. cbn [fst snd]. rewrite take_0, app_nil_r. split_and!; (done || lia).
  - simpl. unfold zlen. lia.
Qed.

Lemma wp_chunked_body fuel m hs l size0 data c t b :
  rb_ok b -> rest b = chunk_text data ++ c :: t -> data <> [] -> body_is m hs l -> zlen l + zlen data < size_limit ->
  (length (rest b) < fuel)%nat ->
  wp (chunked_body fuel (size0, m)) nothrow
     (fun r b' => exists m', r = inl (zlen data, m') /\ body_is m' hs (l ++ data) /\ rb_ok b' /\ rest b' = c :: t) b.
Proof.
  intros Hok Hr Hne Hm Hsz Hf. pose proof (zlen_nonneg l). pose proof (zlen_nonneg data).
  assert (exists x d', data = x :: d') as (x & d' & Hd) by (destruct data; [done | eauto]).
  unfold chunk_text in Hr. rewrite <- !app_assoc in Hr. cbn [app] in Hr. rewrite Hd in Hr at 2. cbn [app] in Hr.
  unfold chunked_body. apply wp_bind.
  eapply wp_mono; [apply (wp_parseChunkHex fuel (zlen data) size0 x (d' ++ charCR :: charLF :: c :: t)); [done | done | |]|].
  { unfold size_limit, ULONG_MAX in *. lia. }
  { rewrite Hr, length_app in Hf. lia. }
  intros [r v] b1 (-> & -> & Hok1 & Hr1). change (negb (pr_ok parse_ok)) with false. cbv iota.
  destruct (Z.eqb_spec (zlen data) 0) as [E0|_]; [by apply zlen_nil in E0|]. apply wp_bind.
  eapply wp_mono; [apply (wp_chunk_data fuel m hs l data charCR (charLF :: c :: t)); [done | | done | done |]|].
  { by rewrite Hr1, Hd. }
  { rewrite Hr, length_app in Hf. rewrite Hd. simpl in *. rewrite length_app in Hf. lia. }
  intros r b2 (m' & -> & Hm' & Hok2 & Hr2). apply wp_bind. eapply wp_mono; [by eapply wp_parseCRLF|].
  intros r b3 (-> & Hok3 & Hr3). apply wp_ret. by exists m'.
Qed.

Definition chunks_text (chunks : list str) : str := concat (map chunk_text chunks) ++ lit "0" ++ [charCR; charLF].

Lemma chunks_text_cons d ds : chunks_text (d :: ds) = chunk_text d ++ chunks_text ds.
Proof. unfold chunks_text. cbn [map concat]. by rewrite <- app_assoc. Qed.

Lemma chunks_text_head ds t : exists c k, chunks_text ds ++ t = c :: k.
Proof.
  destruct (chunks_text ds ++ t) as [|c k] eqn:E; [|eauto]. apply (f_equal length) in E.
  unfold chunks_text in E. rewrite !length_app in E. simpl in E. lia.
Qed.

Lemma wp_chunked_loop fuel ds m hs l size0 c t b f :
  rb_ok b -> rest b = chunks_text ds ++ c :: t -> forallb (fun d => negb (zlen d =? 0)) ds = true -> body_is m hs l ->
  zlen l + zlen (concat ds) < size_limit -> (length (rest b) < fuel)%nat -> (length ds < f)%nat ->
  wp (loop f (chunked_body fuel) (size0, m)) nothrow
     (fun r b' => exists m', r = inr (parse_ok, 0, m') /\ body_is m' hs (l ++ concat ds) /\ rb_ok b' /\ rest b' = c :: t) b.
Proof.
  revert m l size0 b f. induction ds as [|d ds IH]; intros m l size0 b f Hok Hr Hne Hm Hsz Hf Hlt;
    (apply wp_loop_step; [lia|]).
  - change (rest b = print_hex 0 ++ charCR :: charLF :: c :: t) in Hr.
    unfold chunked_body. apply wp_bind.
    eapply wp_mono; [eapply (wp_parseChunkHex fuel 0); [done | exact Hr | unfold ULONG_MAX; lia |]|].
    { rewrite Hr, length_app in Hf. lia. }
    intros [r v] b1 (-> & -> & Hok1 & Hr1). apply wp_ret. exists m. cbn [concat]. by rewrite app_nil_r.
  - cbn [forallb concat] in *. apply andb_true_iff in Hne as [Hd Hne].
    destruct (chunks_text_head ds (c :: t)) as (x & k & Hxk).
    rewrite chunks_text_cons, <- app_assoc, Hxk in Hr. rewrite zlen_app in Hsz. pose proof (zlen_nonneg (concat ds)).
    eapply wp_mono; [apply (wp_chunked_body fuel m hs l size0 d x k); [done | done | by destruct d | done | lia | done]|].
    intros r b1 (m' & -> & Hm' & Hok1 & Hr1). rewrite <- Hxk in Hr1.
    eapply wp_mono; [apply (IH m' (l ++ d)); [done | done | done | done | rewrite zlen_app; lia | | simpl in Hlt; lia]|].
    + rewrite Hr1, Hxk. rewrite Hr, length_app in Hf. lia.
    + intros r2 b2. by rewrite <- app_assoc.
Qed.

(** The chunked coding of any sequence of non-empty chunks decodes to their
    concatenation. *)
Lemma wp_parseChunkedBody fuel ds m hs l c t b :
  rb_ok b -> rest b = chunks_text ds ++ c :: t -> forallb (fun d => negb (zlen d =? 0)) ds = true -> body_is m hs l ->
  zlen l + zlen (concat ds) < size_limit -> (length (rest b) < fuel)%nat ->
  wp (parseChunkedBody fuel m) nothrow
     (fun '(r, m') b' => r = parse_ok /\ body_is m' hs (l ++ concat ds) /\ rb_ok b' /\ rest b' = c :: t) b.
Proof.
  intros Hok Hr Hne Hm Hsz Hf. unfold parseChunkedBody. apply wp_bind.
  eapply wp_mono; [apply (wp_chunked_loop fuel ds m hs l 0 c t); [done | done | done | done | done | done |]|].
  - rewrite Hr in Hf. assert (length ds <= length (chunks_text ds))%nat as Hlen.
    { clear. induction ds as [|d ds IH]; [simpl; lia|]. rewrite chunks_text_cons, length_app. unfold chunk_text.
      rewrite !length_app. simpl. lia. }
    rewrite length_app in Hf. lia.
  - intros r b1 (m' & -> & Hm' & Hok1 & Hr1). by apply wp_ret.
Qed.
End Bodies.

(** ** Properties of the message *)

(** On a header map in key order, [addHeader] keeps the order, adds a new header
    with its value or appends to an existing one after a comma, and leaves every
    other header alone; [replaceHeader] overwrites. *)
Theorem header_map_update (m : HTTPMessage) (key value : str) :
  sorted_keys (headers_ m) = true ->
  sorted_keys (headers_ (addHeader key value m)) = true /\
  getHeaderValue key (addHeader key value m) =
    (true, match getHeaderValue key m with (true, old) => old ++ lit "," ++ value | _ => value end) /\
  getHeaderValue key (replaceHeader key value m) = (true, value) /\
  (forall k, k <> key -> getHeaderValue k (addHeader key value m) = getHeaderValue k m /\
                         getHeaderValue k (replaceHeader key value m) = getHeaderValue k m).
Proof.
  intros Hs. unfold getHeaderValue, addHeader, replaceHeader.
  assert (forall k v, k <> key -> map_find k (map_set key v (headers_ m)) = map_find k (headers_ m)) as Hother.
  { intros k v Hk. rewrite map_find_set by done. destruct (str_eqb k key) eqn:E; [|done].
    by apply str_eqb_spec in E. }
  split_and!.
  - destruct (map_find key (headers_ m)); by apply map_set_sorted.
  - destruct (map_find key (headers_ m)) eqn:E; cbn [headers_]; by rewrite map_find_set, str_eqb_refl.
  - cbn [headers_]. by rewrite map_find_set, str_eqb_refl.
  - intros k Hk. destruct (map_find key (headers_ m)) eqn:E; cbn [headers_]; by rewrite !Hother.
Qed.

Definition demo_message : HTTPMessage := mkHTTPMessage [(lit "accept", lit "a"); (lit "host", lit "h")] Bytes_new.

Lemma header_map_update_witness :
  sorted_keys (headers_ (addHeader (lit "accept") (lit "b") demo_message)) = true /\
  getHeaderValue (lit "accept") (addHeader (lit "accept") (lit "b") demo_message) =
    (true, match getHeaderValue (lit "accept") demo_message with (true, old) => old ++ lit "," ++ lit "b" | _ => lit "b" end) /\
  getHeaderValue (lit "accept") (replaceHeader (lit "accept") (lit "b") demo_message) = (true, lit "b") /\
  (forall k, k <> lit "accept" -> getHeaderValue k (addHeader (lit "accept") (lit "b") demo_message) = getHeaderValue k demo_message /\
                         getHeaderValue k (replaceHeader (lit "accept") (lit "b") demo_message) = getHeaderValue k demo_message).
Proof. apply (header_map_update demo_message (lit "accept") (lit "b")). reflexivity. Defined.

Section MessageTheorems.
Context {B : Type} `{ReadBufferLaws B} `{Allocator}.

(** C10 [parseHeaders] on a list of headers, each with any spacing and folding in its
    value, adds every header in order under its lower-case name and with its value
    unfolded and white space collapsed, and stops on the LF of the empty line. *)
Theorem parseHeaders_effect fuel hs m t (b : B) :
  rb_ok b -> hs <> [] -> forallb header_line_ok hs = true -> rest b = headers_text hs ++ charCR :: charLF :: t ->
  (2 * length (rest b) + 3 < fuel)%nat ->
  exists b', parseHeaders fuel m b = Ok ((parse_ok, fold_left header_effect hs m), b') /\ rb_ok b' /\ rest b' = charLF :: t.
Proof.
  intros Hok Hne Hhs Hr Hf.
  destruct (wp_nothrow _ _ _ (wp_parseHeaders fuel hs m t b Hok Hne Hhs Hr Hf)) as ([r m'] & b' & Hrun & -> & -> & Hq).
  by exists b'.
Qed.

(** C11 The chunked transfer coding of any sequence of non-empty chunks is decoded to
    their concatenation, appended to the body; the parser stops behind the CRLF of
    the last chunk. *)
Theorem chunked_decoding fuel ds m hs l c t (b : B) :
  (forall n, alloc_ok n = true) ->
  rb_ok b -> rest b = chunks_text ds ++ c :: t -> forallb (fun d => negb (zlen d =? 0)) ds = true -> body_is m hs l ->
  zlen l + zlen (concat ds) < size_limit -> (length (rest b) < fuel)%nat ->
  exists m' b', parseChunkedBody fuel m b = Ok ((parse_ok, m'), b') /\ body_is m' hs (l ++ concat ds) /\
                rb_ok b' /\ rest b' = c :: t.
Proof.
  intros Ha Hok Hr Hne Hm Hsz Hf.
  destruct (wp_nothrow _ _ _ (wp_parseChunkedBody Ha fuel ds m hs l c t b Hok Hr Hne Hm Hsz Hf))
    as ([r m'] & b' & Hrun & -> & Hq). by exists m', b'.
Qed.

(** Whatever a lawful buffer holds, the header parser and the chunked-body parser
    return (or throw) within fuel linear in the number of characters left, and never
    move backwards. *)
Theorem message_parsers_terminate fuel m (b : B) :
  rb_ok b -> (2 * weight b + 6 <= fuel)%nat ->
  parseHeaders fuel m b <> OutOfFuel /\ parseChunkedBody fuel m b <> OutOfFuel /\
  (forall r m' b', parseHeaders fuel m b = Ok ((r, m'), b') -> rb_ok b' /\ (weight b' <= weight b)%nat).
Proof.
  intros Hok Hf. split_and!.
  - by apply (tame_fuel _ (weight b)); [apply tame_parseHeaders | |].
  - by apply (tame_fuel _ (weight b)); [apply tame_parseChunkedBody | |].
  - intros r m' b' Hrun. pose proof (tame_parseHeaders fuel (weight b) Hf m b Hok ltac:(done)) as Hw.
    unfold wp in Hw. by rewrite Hrun in Hw.
Qed.
End MessageTheorems.

Definition demo_headers : list header_line :=
  [mkHeaderLine (lit "Host") (lit "   example.org") []; mkHeaderLine (lit "Accept") (lit " a,  b") [lit "c"];
   mkHeaderLine (lit "ACCEPT") (lit "d") []].
Definition demo_headers_text : str := headers_text demo_headers ++ charCR :: charLF :: lit "x".

Lemma parseHeaders_effect_witness :
  exists b', parseHeaders 400 demo_message (StringReadBuffer_new demo_headers_text)
             = Ok ((parse_ok, fold_left header_effect demo_headers demo_message), b') /\ rb_ok b' /\ rest b' = charLF :: lit "x".
Proof.
  apply (parseHeaders_effect 400 demo_headers demo_message (lit "x") (StringReadBuffer_new demo_headers_text));
    [by vm_compute | done | reflexivity | reflexivity | vm_compute; lia].
Defined.

Lemma chunked_decoding_witness :
  exists m' b', @parseChunkedBody _ _ always_alloc 400 demo_message
                  (StringReadBuffer_new (chunks_text [lit "hello "; lit "world"] ++ charCR :: [charLF])) = Ok ((parse_ok, m'), b') /\
                body_is m' (headers_ demo_message) ([] ++ concat [lit "hello "; lit "world"]) /\ rb_ok b' /\ rest b' = charCR :: [charLF].
Proof.
  apply (@chunked_decoding _ _ _ always_alloc 400 [lit "hello "; lit "world"] demo_message (headers_ demo_message) [] charCR [charLF]
    (StringReadBuffer_new (chunks_text [lit "hello "; lit "world"] ++ charCR :: [charLF])));
    [done | by vm_compute | reflexivity | reflexivity | split; [done | exact rep_new] | reflexivity | vm_compute; lia].
Defined.

Lemma message_parsers_terminate_witness :
  @parseHeaders StringReadBuffer _ 40 demo_message (StringReadBuffer_new (lit "no colon here")) <> OutOfFuel /\
  @parseChunkedBody StringReadBuffer _ always_alloc 40 demo_message (StringReadBuffer_new (lit "no colon here")) <> OutOfFuel /\
  (forall r m' b', @parseHeaders StringReadBuffer _ 40 demo_message (StringReadBuffer_new (lit "no colon here")) = Ok ((r, m'), b') ->
     rb_ok b' /\ (weight b' <= weight (StringReadBuffer_new (lit "no colon here")))%nat).
Proof.
  apply (@message_parsers_terminate StringReadBuffer _ _ always_alloc 40 demo_message (StringReadBuffer_new (lit "no colon here")));
    [by vm_compute | vm_compute; lia].
Defined.
