(* ===== verification/HTTPRequest.v ===== *)
(** * HTTPRequest: request line, request, and their text

    Models [http::HTTPRequest] and [HTTPRequest::HTTPRequestLine]
    (src/src/include/network/protocol/http/httprequest.hpp,
    src/src/lib/network/protocol/http/httprequest.cpp). *)

From S2P Require Import Prelude.
From S2P Require Import SystemError.
From S2P Require Import Bytes.
From S2P Require Import Socket.
From S2P Require Import ReadBuffer.
From S2P Require Import HTTPFragment.
From S2P Require Import HTTPMessage.

Local Open Scope Z_scope.

Inductive Method : Type :=
| meGET | meHEAD | mePOST | mePUT | mePATCH | meDELETE | meCONNECT | meOPTIONS | meTRACE | meINVALID.

#[export] Instance Method_eq_dec : EqDecision Method.
Proof. solve_decision. Defined.

Definition methodAsString (method : Method) : str :=
  match method with
  | meGET => lit "GET"
  | meHEAD => lit "HEAD"
  | mePOST => lit "POST"
  | mePUT => lit "PUT"
  | mePATCH => lit "PATCH"
  | meDELETE => lit "DELETE"
  | meCONNECT => lit "CONNECT"
  | meOPTIONS => lit "OPTIONS"
  | meTRACE => lit "TRACE"
  | meINVALID => lit "INVALID_METHOD"
  end.

Definition methodFromString (s : str) : Method :=
  if str_eqb s (lit "GET") then meGET
  else if str_eqb s (lit "HEAD") then meHEAD
  else if str_eqb s (lit "POST") then mePOST
  else if str_eqb s (lit "PUT") then mePUT
  else if str_eqb s (lit "PATCH") then mePATCH
  else if str_eqb s (lit "DELETE") then meDELETE
  else if str_eqb s (lit "CONNECT") then meCONNECT
  else if str_eqb s (lit "OPTIONS") then meOPTIONS
  else if str_eqb s (lit "TRACE") then meTRACE
  else meINVALID.

Definition methodAllowsBody (method : Method) : bool :=
  match method with
  | meGET | meHEAD | meDELETE | meCONNECT | meTRACE => false
  | mePOST | mePUT | mePATCH | meOPTIONS => true
  | meINVALID => false
  end.

(** ** Data *)

Record HTTPRequestLine : Type := mkRequestLine { method_ : Method; request_uri_ : str; http_version_ : HTTPVersion }.

(** [HTTPRequestLine()]: the default URI is the three characters quote, star, quote. *)
Definition HTTPRequestLine_new : HTTPRequestLine := mkRequestLine meGET [chr 34; "*"%char; chr 34] HTTPVersion_default.

Definition setMethod (m : Method) (l : HTTPRequestLine) := mkRequestLine m (request_uri_ l) (http_version_ l).
Definition setRequestURI (uri : str) (l : HTTPRequestLine) := mkRequestLine (method_ l) uri (http_version_ l).
Definition setHTTPVersion (v : HTTPVersion) (l : HTTPRequestLine) := mkRequestLine (method_ l) (request_uri_ l) v.

Record HTTPRequest : Type := mkHTTPRequest { request_line_ : HTTPRequestLine; message : HTTPMessage }.

Definition HTTPRequest_new `{Allocator} : outcome HTTPRequest :=
  let! m := HTTPMessage_new in Ok (mkHTTPRequest HTTPRequestLine_new m).

(** ** Text *)

Definition requestline_asString (l : HTTPRequestLine) : str :=
  methodAsString (method_ l) ++ [charSP] ++ request_uri_ l ++ [charSP] ++ version_asString (http_version_ l) ++ [charCR; charLF].

(** [for ( auto header : headers_ ) ss << first << ": " << second << CR << LF] *)
Definition headers_asString (hs : strmap) : str :=
  concat (map (fun p => p.1 ++ lit ": " ++ p.2 ++ [charCR; charLF]) hs).

(** The stream [ss] of [send]: everything before the body. *)
Definition request_head (r : HTTPRequest) : str :=
  requestline_asString (request_line_ r) ++ headers_asString (headers_ (message r)) ++ [charCR; charLF].

Definition carries_body (r : HTTPRequest) : bool :=
  methodAllowsBody (method_ (request_line_ r)) && (0 <? getSize (body_ (message r))).

Definition request_asString (r : HTTPRequest) : outcome str :=
  if carries_body r
  then let! s := Bytes.asString (body_ (message r)) in Ok (request_head r ++ s)
  else Ok (request_head r).

(** The octets at [body_.getArray()]. *)
Definition body_octets (m : HTTPMessage) : outcome str :=
  match determinate (take (Z.to_nat (getSize (body_ m))) (cells (body_ m))) with
  | Some s => Ok s
  | None => Throw (UndefinedBehaviour (lit "read of an unwritten octet"))
  end.

Definition request_send (fuel : nat) (r : HTTPRequest) : M Socket SystemError :=
  let* rc := send fuel (request_head r) false in
  if negb (ok rc) then ret rc
  else if carries_body r then
    let* s := lift (body_octets (message r)) in send fuel s false
  else ret rc.

Definition request_write (fuel : nat) (r : HTTPRequest) : M Socket SystemError :=
  let* s := lift (request_asString r) in send fuel s false.

(** ** Parsing *)

Inductive RequestState : Type :=
| psMethodStart | psMethodEnd | psRequestURIStart | psRequestURIEnd
| psHTTPVersionCR | psHTTPVersionLF | psHTTPVersionEnd | psError | psDone.

Section Parser.
Context {B : Type} `{ReadBuffer B} `{Allocator}.

(** parseResult, state, method_string and the object ([request_uri_] and
    [http_version_] are assigned while parsing). *)
Definition line_vars : Type := (ParseResult * RequestState * str * HTTPRequestLine)%type.

(** What follows the loop. *)
Definition line_result (pr : ParseResult) (state : RequestState) (method_string : str) (l : HTTPRequestLine)
    : ParseResult * HTTPRequestLine :=
  match state with
  | psDone =>
      let l' := mkRequestLine (methodFromString method_string) (request_uri_ l) (http_version_ l) in
      if bool_decide (method_ l' = meINVALID) then (failed peInvalidMethod, l') else (pr, l')
  | _ => (failed peInvalidRequestLine, l)
  end.

Definition line_body (fuel : nat) (s : line_vars) : M B (line_vars + (ParseResult * HTTPRequestLine)) :=
  let '(pr, state, ms, l) := s in
  if negb (pr_ok pr) then Break (line_result pr state ms l) else
  match state with
  | psDone | psError => Break (line_result pr state ms l)
  | psMethodStart =>
      let* c := peek in
      if isspace c then Continue (pr, psMethodEnd, ms, l)
      else
        let* e := next in
        let pr' := setSystemError pr e in
        if negb (pr_ok pr') then Break (pr', l) else Continue (pr', psMethodStart, ms ++ [c], l)
  | psMethodEnd =>
      let* e := eatSpace fuel in
      let pr' := setSystemError pr e in
      if negb (pr_ok pr') then Break (pr', l) else Continue (pr', psRequestURIStart, ms, l)
  | psRequestURIStart =>
      let* c := peek in
      if isspace c then Continue (pr, psRequestURIEnd, ms, l)
      else
        let l' := mkRequestLine (method_ l) (request_uri_ l ++ [c]) (http_version_ l) in
        let* e := next in
        let pr' := setSystemError pr e in
        if negb (pr_ok pr') then Break (pr', l') else Continue (pr', psRequestURIStart, ms, l')
  | psRequestURIEnd =>
      let* (pr', v) := version_parse fuel (http_version_ l) in
      let l' := mkRequestLine (method_ l) (request_uri_ l) v in
      if pr_ok pr' then
        let* e := eatSpace fuel in
        Continue (setSystemError pr' e, psHTTPVersionCR, ms, l')
      else Break (pr', l')
  | psHTTPVersionCR =>
      let* c := peek in
      if c =c charCR then
        let* e := next in
        let pr' := setSystemError pr e in
        if negb (pr_ok pr') then Break (pr', l) else Continue (pr', psHTTPVersionLF, ms, l)
      else Break (failed peExpectCRLF, l)
  | psHTTPVersionLF =>
      let* c := peek in
      if c =c charLF then
        let* e := next in
        let pr' := setSystemError pr e in
        if negb (pr_ok pr') then Break (pr', l) else Continue (pr', psDone, ms, l)
      else Break (failed peExpectCRLF, l)
  | psHTTPVersionEnd =>
      throw (SystemException (lit "HTTPRequest::HTTPRequestLine::parse unhandled state 6") 0)
  end.

Definition requestline_parse (fuel : nat) (l : HTTPRequestLine) : M B (ParseResult * HTTPRequestLine) :=
  loop fuel (line_body fuel) (parse_ok, psMethodStart, [], mkRequestLine (method_ l) [] (http_version_ l)).

Definition request_parseBody (fuel : nat) (m : HTTPMessage) : M B (ParseResult * HTTPMessage) :=
  let* (has_length, content_length) := lift (getHeaderValue_ulong (lit "content-length") m) in
  if has_length : bool then parseLengthBody fuel content_length m
  else
    let (has_encoding, transfer_encoding) := getHeaderValue (lit "transfer-encoding") m in
    if has_encoding : bool then
      if str_eqb transfer_encoding (lit "chunked") then parseChunkedBody fuel m
      else ret (failed peInvalidTransferEncoding, m)
    else ret (failed peUnexpectedBody, m).

Definition request_parse (fuel : nat) (r : HTTPRequest) : M B (ParseResult * HTTPRequest) :=
  let* (pr, l) := requestline_parse fuel (request_line_ r) in
  let r1 := mkHTTPRequest l (message r) in
  if negb (pr_ok pr) then ret (pr, r1) else
  let* c := peek in
  if c =c charCR then
    let* e := next in
    let pr1 := setSystemError pr e in
    if pr_ok pr1 then
      let* d := peek in
      if d =c charLF then
        let* e2 := next in
        let pr2 := setSystemError pr1 e2 in
        if pr_ok pr2 then
          let* (pr3, m) := request_parseBody fuel (message r) in ret (pr3, mkHTTPRequest l m)
        else ret (pr2, r1)
      else ret (parse_ok, r1)
    else ret (parse_ok, r1)
  else
    let* (pr1, m) := parseHeaders fuel (message r) in
    let r2 := mkHTTPRequest l m in
    if negb (pr_ok pr1) then ret (pr1, r2) else
    let* d := peek in
    if d =c charLF then
      let* e := next in
      let pr2 := setSystemError pr1 e in
      if pr_ok pr2 then
        let* (pr3, m') := request_parseBody fuel m in ret (pr3, mkHTTPRequest l m')
      else if pr_eof pr2 then ret (parse_ok, r2)
      else ret (pr2, r2)
    else ret (parse_ok, r2).
End Parser.

(** ** Termination *)

Lemma span_class P s : forallb P (span P s).1 = true.
Proof.
  induction s as [|c s IH]; simpl; [done|]. destruct (P c) eqn:E; [|done].
  destruct (span P s) as [a r]. simpl in *. by rewrite E, IH.
Qed.

Lemma read_dec_nonneg ds acc : forallb isdigit ds = true -> 0 <= acc -> 0 <= fold_left (fun a c => a * 10 + digit_val c) ds acc.
Proof.
  revert acc. induction ds as [|c ds IH]; intros acc; simpl; [done|]. rewrite andb_true_iff. intros [Hc Hds] Ha.
  apply IH; [done|]. assert (0 <= digit_val c); [|lia]. unfold digit_val. rewrite Hc.
  unfold isdigit, in_range in Hc. lia.
Qed.

(** [stoul] yields a 64-bit value, or throws. *)
Lemma stoul_range s : match stoul s with Ok (v, _) => 0 <= v < 2 ^ 64 | Throw _ => True | OutOfFuel => False end.
Proof.
  unfold stoul. destruct (span isspace s) as [sp s1].
  destruct (match s1 with [] => _ | _ :: _ => _ end) as [[neg sign] s2].
  pose proof (span_class isdigit s2) as Hd. destruct (span isdigit s2) as [ds r]. simpl in Hd.
  destruct ds as [|c ds]; [done|]. case_bool; [done|]. pose proof (read_dec_nonneg (c :: ds) 0 Hd ltac:(lia)).
  unfold read_base, ULONG_MAX in *. breflect. destruct neg; [apply u64_range | lia].
Qed.

Section RequestTermination.
Context {B : Type} `{ReadBufferLaws B} `{Allocator}.
Context (fuel n : nat) (Hfuel : (2 * n + 12 <= fuel)%nat).

Definition line_rank (st : RequestState) : nat :=
  match st with
  | psMethodStart => 7 | psMethodEnd => 6 | psRequestURIStart => 5 | psRequestURIEnd => 4
  | psHTTPVersionCR => 3 | psHTTPVersionLF => 2 | psHTTPVersionEnd => 1 | psError | psDone => 0
  end.

Lemma tame_requestline_parse l : tame (B:=B) (requestline_parse fuel l) n.
Proof.
  apply (tame_loop _ (fun s => line_rank s.1.1.2) (fun s => pr_ok s.1.1.1) 1); [|simpl; lia].
  intros [[[pr st] ms] l1] b Hok Hw. unfold line_body. cbn [fst snd]. destruct (pr_ok pr) eqn:Hpr; [|by tame_steps].
  cbn [negb]. destruct st; try (tame_steps; split_and!; first [done | lia | cbn [fst snd]; rewrite ?Hpr; simpl; lia]).
  - apply wp_bind. eapply wp_mono; [apply (tame_eatSpace fuel n ltac:(lia)); [done | lia]|]. intros e b1 [Hok1 Hw1].
    tame_steps; split_and!; first [done | lia | cbn [fst snd]; case_bool; simpl; lia].
  - apply wp_bind. eapply wp_mono; [apply (tame_version_parse fuel n (http_version_ l1) ltac:(lia)); [done | lia]|].
    intros [pr' v] b1 [Hok1 Hw1]. tame_step; [|tame_steps]. apply wp_bind.
    eapply wp_mono; [apply (tame_eatSpace fuel n ltac:(lia)); [done | lia]|]. intros e b2 [Hok2 Hw2].
    tame_steps; split_and!; first [done | lia | cbn [fst snd]; case_bool; simpl; lia].
  - by apply wp_throw.
Qed.

Lemma tame_request_parseBody m : tame (B:=B) (request_parseBody fuel m) n.
Proof.
  intros b Hok Hw. unfold request_parseBody. apply wp_bind, wp_lift. unfold getHeaderValue_ulong.
  destruct (map_find (lit "content-length") (headers_ m)) as [s|].
  - pose proof (stoul_range s) as Hst. destruct (stoul s) as [[v p]|e|]; [|done|done]. cbn [obind].
    destruct (p =? zlen s); [by apply (tame_parseLengthBody fuel n ltac:(lia))|].
    repeat case_match; [by apply (tame_parseChunkedBody fuel n ltac:(lia)) | by apply wp_ret | by apply wp_ret].
  - repeat case_match; [by apply (tame_parseChunkedBody fuel n ltac:(lia)) | by apply wp_ret | by apply wp_ret].
Qed.

Lemma tame_request_parse r : tame (B:=B) (request_parse fuel r) n.
Proof.
  apply tame_bind; [apply tame_requestline_parse|]. intros [pr l]. apply tame_if; [apply tame_ret|].
  apply tame_bind; [apply tame_peek|]. intros c. apply tame_if.
  - apply tame_bind; [apply tame_next|]. intros e. apply tame_if; [|apply tame_ret].
    apply tame_bind; [apply tame_peek|]. intros d. apply tame_if; [|apply tame_ret].
    apply tame_bind; [apply tame_next|]. intros e2. apply tame_if; [|apply tame_ret].
    apply tame_bind; [apply tame_request_parseBody|]. intros [? ?]. apply tame_ret.
  - apply tame_bind; [apply (tame_parseHeaders fuel n ltac:(lia))|]. intros [pr1 m]. apply tame_if; [apply tame_ret|].
    apply tame_bind; [apply tame_peek|]. intros d. apply tame_if; [|apply tame_ret].
    apply tame_bind; [apply tame_next|]. intros e. apply tame_if.
    + apply tame_bind; [apply tame_request_parseBody|]. intros [? ?]. apply tame_ret.
    + apply tame_if; apply tame_ret.
Qed.
End RequestTermination.

(** ** Reading a printed request *)

Lemma methodFromString_asString m : m <> meINVALID -> methodFromString (methodAsString m) = m.
Proof. by destruct m. Qed.

Lemma methodAsString_chars m : forallb (fun c => negb (isspace c)) (methodAsString m) = true.
Proof. by destruct m. Qed.

(** A request line whose text can be read back. *)
Definition line_ok (l : HTTPRequestLine) : Prop :=
  method_ l <> meINVALID /\ request_uri_ l <> [] /\
  forallb (fun c => negb (isspace c)) (request_uri_ l) = true /\ version_ok (http_version_ l).

Lemma nonspace_not_SP c : negb (isspace c) = true -> isSP c = false.
Proof. intros Hc. apply negb_true_iff. revert c Hc. by apply ascii_implies. Qed.

Section Reading.
Context {B : Type} `{ReadBufferLaws B} `{Allocator}.
Implicit Types (b : B).

(** The method name. *)
Lemma wp_line_method fuel f l0 w c t b E Q :
  rb_ok b -> rest b = w ++ c :: t -> forallb (fun c => negb (isspace c)) w = true -> isspace c = true -> (length w < f)%nat ->
  (forall b', rb_ok b' -> rest b' = c :: t ->
     wp (loop (pred (f - length w)) (line_body fuel) (parse_ok, psMethodEnd, w, l0)) E Q b') ->
  wp (loop f (line_body fuel) (parse_ok, psMethodStart, [], l0)) E Q b.
Proof.
  intros Hok Hr Hw Hc Hf HQ.
  set (upd := fun (s : line_vars) (x : ascii) => (parse_ok, psMethodStart, s.1.2 ++ [x], l0)).
  eapply (wp_scan (line_body fuel) (fun s => exists ms, s = (parse_ok, psMethodStart, ms, l0))
            (fun c => negb (isspace c)) upd); [| |by exists []|done|exact Hr|done|lia|].
  - intros s b1 x k R [ms ->] Hok1 Hr1 Hk Hx HR. unfold line_body. change (negb (pr_ok parse_ok)) with false. cbv iota.
    apply wp_bind. eapply wp_peek; [done..|]. apply negb_true_iff in Hx. rewrite Hx. apply wp_bind.
    eapply wp_next_to; [done..|]. intros b' Hok' Hr'. apply wp_ret. by apply HR.
  - intros s x [ms ->] _. by exists (ms ++ [x]).
  - intros b' _ Hok' Hr'.
    assert (forall ms, fold_left upd w (parse_ok, psMethodStart, ms, l0) = (parse_ok, psMethodStart, ms ++ w, l0)) as ->.
    { clear. induction w as [|x w IH]; intros ms; simpl; [by rewrite app_nil_r|].
      etrans; [apply (IH (ms ++ [x]))|]. by rewrite <- app_assoc. }
    apply wp_loop_step; [lia|]. unfold line_body at 1. change (negb (pr_ok parse_ok)) with false. cbv iota.
    apply wp_bind. eapply wp_peek; [done..|]. rewrite Hc. apply wp_ret. by apply HQ.
Qed.

(** The request URI. *)
Lemma wp_line_uri fuel f ms l0 w c t b E Q :
  rb_ok b -> rest b = w ++ c :: t -> forallb (fun c => negb (isspace c)) w = true -> isspace c = true -> (length w < f)%nat ->
  (forall b', rb_ok b' -> rest b' = c :: t ->
     wp (loop (pred (f - length w)) (line_body fuel)
          (parse_ok, psRequestURIEnd, ms, mkRequestLine (method_ l0) (request_uri_ l0 ++ w) (http_version_ l0))) E Q b') ->
  wp (loop f (line_body fuel) (parse_ok, psRequestURIStart, ms, l0)) E Q b.
Proof.
  intros Hok Hr Hw Hc Hf HQ.
  set (line u := mkRequestLine (method_ l0) u (http_version_ l0)).
  set (upd := fun (s : line_vars) (x : ascii) => (parse_ok, psRequestURIStart, ms, line (request_uri_ s.2 ++ [x]))).
  replace l0 with (line (request_uri_ l0)) in * by (by destruct l0).
  eapply (wp_scan (line_body fuel) (fun s => exists u, s = (parse_ok, psRequestURIStart, ms, line u))
            (fun c => negb (isspace c)) upd); [| |by eexists|done|exact Hr|done|lia|].
  - intros s b1 x k R [u ->] Hok1 Hr1 Hk Hx HR. unfold line_body. change (negb (pr_ok parse_ok)) with false. cbv iota.
    apply wp_bind. eapply wp_peek; [done..|]. apply negb_true_iff in Hx. rewrite Hx. apply wp_bind.
    eapply wp_next_to; [done..|]. intros b' Hok' Hr'. apply wp_ret. by apply HR.
  - intros s x [u ->] _. by exists (u ++ [x]).
  - intros b' _ Hok' Hr'.
    assert (forall u, fold_left upd w (parse_ok, psRequestURIStart, ms, line u) = (parse_ok, psRequestURIStart, ms, line (u ++ w))) as ->.
    { clear. induction w as [|x w IH]; intros u; simpl; [by rewrite app_nil_r|].
      etrans; [apply (IH (u ++ [x]))|]. by rewrite <- app_assoc. }
    apply wp_loop_step; [lia|]. unfold line_body at 1. change (negb (pr_ok parse_ok)) with false. cbv iota.
    apply wp_bind. eapply wp_peek; [done..|]. rewrite Hc. apply wp_ret. by apply HQ.
Qed.

(** The HTTP version and the end of the line. *)
Lemma wp_line_tail fuel f ms l0 v c t b :
  rb_ok b -> version_ok v -> rest b = charSP :: version_asString v ++ charCR :: charLF :: c :: t ->
  methodFromString ms <> meINVALID -> (length (rest b) + 10 <= fuel)%nat -> (3 < f)%nat ->
  wp (loop f (line_body fuel) (parse_ok, psRequestURIEnd, ms, l0)) nothrow
     (fun '(r, l) b' => r = parse_ok /\ l = mkRequestLine (methodFromString ms) (request_uri_ l0) v /\ rb_ok b' /\ rest b' = c :: t) b.
Proof.
  intros Hok Hv Hr Hms Hfuel Hf. apply wp_loop_step; [lia|]. unfold line_body at 1.
  change (negb (pr_ok parse_ok)) with false. cbv iota. apply wp_bind.
  eapply wp_mono; [eapply (wp_version_parse fuel v _ [charSP] charCR); [done | done | done | done | exact Hr | lia]|].
  intros [r w] b1 (-> & -> & Hok1 & Hr1). change (pr_ok parse_ok) with true. cbv iota. apply wp_bind.
  eapply wp_mono; [eapply wp_eatSpace_none; [done | exact Hr1 | done | lia]|].
  intros e b2 (-> & Hok2 & Hr2). apply wp_ret.
  apply wp_loop_step; [lia|]. apply wp_bind. eapply wp_peek; [done..|]. rewrite ascii_eqb_true. apply wp_bind.
  eapply wp_next; [done..|]. intros b3 Hok3 Hr3. apply wp_ret.
  apply wp_loop_step; [lia|]. apply wp_bind. eapply wp_peek; [done..|]. rewrite ascii_eqb_true. apply wp_bind.
  eapply wp_next; [done..|]. intros b4 Hok4 Hr4. apply wp_ret.
  apply wp_loop_step; [lia|]. apply wp_ret. unfold line_result. cbn [method_].
  by rewrite bool_decide_eq_false_2.
Qed.

Lemma wp_requestline_parse fuel l l0 c t b :
  line_ok l -> rb_ok b -> rest b = requestline_asString l ++ c :: t -> (length (rest b) + 12 <= fuel)%nat ->
  wp (requestline_parse fuel l0) nothrow
     (fun '(r, l') b' => r = parse_ok /\ l' = l /\ rb_ok b' /\ rest b' = c :: t) b.
Proof.
  intros (Hm & Hu & Huc & Hv) Hok Hr Hf. unfold requestline_asString in Hr. rewrite <- !app_assoc in Hr. cbn [app] in Hr.
  unfold requestline_parse. pose proof (f_equal length Hr) as Hlen. rewrite !length_app in Hlen. cbn [length] in Hlen.
  rewrite !length_app in Hlen. cbn [length] in Hlen.
  eapply wp_line_method; [done | exact Hr | apply methodAsString_chars | done | lia |]. intros b1 Hok1 Hr1.
  apply wp_loop_step; [lia|]. unfold line_body at 1. change (negb (pr_ok parse_ok)) with false. cbv iota.
  destruct (request_uri_ l) as [|x u] eqn:Hue; [done|]. pose proof Huc as Hx. simpl in Hx. apply andb_true_iff in Hx as [Hx _].
  apply wp_bind. eapply wp_mono; [eapply (wp_eatSpace fuel [charSP] x); [done | exact Hr1 | done | by apply nonspace_not_SP | simpl; lia]|].
  intros e b2 (-> & Hok2 & Hr2). apply wp_ret.
  eapply (wp_line_uri _ _ _ _ (x :: u)); [done | exact Hr2 | done | done | lia |]. intros b3 Hok3 Hr3.
  eapply wp_mono; [eapply wp_line_tail; [done | exact Hv | exact Hr3 | by rewrite methodFromString_asString | | lia]|].
  - rewrite Hr3. cbn [length]. rewrite length_app. cbn [length] in *. rewrite length_app in Hlen. cbn [length] in Hlen. lia.
  - intros [r l'] b4 (-> & -> & Hok4 & Hr4). split; [done|]. split; [|done].
    rewrite methodFromString_asString by done. cbn [request_uri_ app]. rewrite <- Hue. by destruct l.
Qed.
End Reading.

(** ** Printed headers and numbers *)

Lemma span_all P s : forallb P s = true -> span P s = (s, []).
Proof. induction s as [|c s IH]; simpl; [done|]. rewrite andb_true_iff. intros [-> Hs]. by rewrite IH. Qed.

Lemma stoul_print n : 0 <= n <= ULONG_MAX -> stoul (print_dec n) = Ok (n, zlen (print_dec n)).
Proof.
  intros Hn. pose proof (print_dec_digits n ltac:(lia)) as Hd.
  pose proof (print_base_nonempty 10 n ltac:(by left) ltac:(lia)) as Hne.
  pose proof (read_print_base 10 n ltac:(by left) ltac:(lia)) as Hrd.
  unfold print_dec in *. destruct (print_base 10 n) as [|c s] eqn:E; [done|]. unfold stoul.
  pose proof Hd as Hc. simpl in Hc. apply andb_true_iff in Hc as [Hc _].
  assert (span isspace (c :: s) = ([], c :: s)) as ->.
  { simpl. by rewrite isdigit_not_space. }
  rewrite (ascii_class_ne isdigit c "-"%char), (ascii_class_ne isdigit c "+"%char) by done.
  rewrite span_all by done. rewrite Hrd. destruct (Z.ltb_spec ULONG_MAX n); [lia|].
  done.
Qed.

(** A header as [asString] writes it. *)
Definition printed_header (p : str * str) : header_line := mkHeaderLine p.1 (charSP :: p.2) [].

(** Header maps whose text can be read back. *)
Definition header_clean (p : str * str) : Prop :=
  forallb is_token_char p.1 = true /\ map tolower p.1 = p.1 /\ field_plain p.2.
Definition headers_ok (hs : strmap) : Prop := sorted_keys hs = true /\ Forall header_clean hs.

Lemma headers_asString_text hs : headers_asString hs = headers_text (map printed_header hs).
Proof.
  unfold headers_asString, headers_text. rewrite map_map. f_equal. apply map_ext. intros [k v].
  unfold header_text, printed_header, field_text. cbn [hname hline hmore fst snd map concat]. by rewrite app_nil_r.
Qed.

Lemma printed_headers_ok hs : Forall header_clean hs -> forallb header_line_ok (map printed_header hs) = true.
Proof.
  induction 1 as [|[k v] hs (Hk & Hl & [Hv _]) _ IH]; [done|]. simpl. rewrite IH, andb_true_r.
  simpl in Hk, Hv. unfold header_line_ok, printed_header. cbn [hname hline hmore fst snd]. rewrite Hk.
  unfold no_CR in *. simpl. by rewrite Hv.
Qed.

Lemma header_effect_printed m p :
  header_clean p -> forallb (fun q => str_ltb q.1 p.1) (headers_ m) = true ->
  header_effect m (printed_header p) = mkHTTPMessage (headers_ m ++ [p]) (body_ m).
Proof.
  intros (Hk & Hl & [Hv Hc]) Hlast. unfold header_effect, printed_header, field_meaning.
  cbn [hname hline hmore map concat]. rewrite app_nil_r, Hl.
  change (skipSP (charSP :: p.2)) with (skipSP p.2). rewrite Hc. unfold addHeader.
  destruct (map_set_last p.1 p.2 (headers_ m) Hlast) as [-> ->]. by destruct p.
Qed.

(** Reading printed headers one after the other rebuilds the map. *)
Lemma fold_printed_headers hs m :
  Forall header_clean hs -> sorted_keys hs = true -> forallb (fun q => keys_above q.1 hs) (headers_ m) = true ->
  fold_left header_effect (map printed_header hs) m = mkHTTPMessage (headers_ m ++ hs) (body_ m).
Proof.
  revert m. induction hs as [|[k v] hs IH]; intros m Hc Hs Hb; simpl; [rewrite app_nil_r; by destruct m|].
  inversion_clear Hc as [|? ? Hc1 Hc2]. simpl in Hs. apply andb_true_iff in Hs as [Ha Hs].
  assert (forallb (fun q => str_ltb q.1 k) (headers_ m) = true /\ forallb (fun q => keys_above q.1 hs) (headers_ m) = true) as [Hb1 Hb2].
  { simpl in Hb. rewrite !forallb_forall in *. split; intros q Hq; specialize (Hb q Hq); by apply andb_true_iff in Hb as [? ?]. }
  rewrite (header_effect_printed m (k, v) Hc1) by done. rewrite IH; [|done|done|].
  - cbn [headers_ body_]. by rewrite <- app_assoc.
  - cbn [headers_]. apply forallb_app_iff. split; [done|]. simpl. by rewrite Ha.
Qed.

(** ** The request round trip *)

(** The body is absent, or allowed by the method and announced by its length. *)
Definition body_announced (allowed : bool) (hs : strmap) (body : str) : Prop :=
  body = [] \/ (allowed = true /\ map_find (lit "content-length") hs = Some (print_dec (zlen body))).

Section RoundTrip.
Context {B : Type} `{ReadBufferLaws B} `{Allocator} (Halloc : forall n, alloc_ok n = true).
Implicit Types (b : B).

Lemma message_new : exists m, HTTPMessage_new = Ok m /\ body_is m [] [].
Proof.
  unfold HTTPMessage_new. destruct (of_string_rep [] ltac:(done) (Halloc _)) as (b & -> & Hrep).
  eexists. split; [done|]. done.
Qed.

Lemma wp_request_parseBody fuel m hs body b :
  rb_ok b -> rest b = body -> body_is m hs [] -> map_find (lit "content-length") hs = Some (print_dec (zlen body)) ->
  zlen body < size_limit -> (length body < fuel)%nat ->
  wp (request_parseBody fuel m) nothrow (fun '(r, m') b' => r = parse_ok /\ body_is m' hs body /\ rb_ok b') b.
Proof.
  intros Hok Hr Hm Hfind Hsz Hf. unfold request_parseBody, getHeaderValue_ulong. destruct Hm as [Hh Hrep].
  rewrite Hh, Hfind, stoul_print by (unfold size_limit, ULONG_MAX, zlen in *; lia). cbn [obind].
  rewrite Z.eqb_refl. apply wp_bind, wp_lift.
  apply (wp_parseLengthBody Halloc fuel m hs [] body []); [done | by rewrite app_nil_r | done | done | done].
Qed.

Lemma wp_request_parse fuel r r0 body b :
  line_ok (request_line_ r) -> headers_ok (headers_ (message r)) -> headers_ (message r) <> [] ->
  body_announced (methodAllowsBody (method_ (request_line_ r))) (headers_ (message r)) body -> zlen body < size_limit ->
  body_is (message r0) [] [] -> rb_ok b -> rest b = request_head r ++ body -> (2 * length (rest b) + 12 <= fuel)%nat ->
  wp (request_parse fuel r0) nothrow
     (fun '(pr, r') b' => pr = parse_ok /\ request_line_ r' = request_line_ r /\
                          body_is (message r') (headers_ (message r)) body /\ rb_ok b') b.
Proof.
  intros Hl [Hs Hc] Hne Hbody Hsz [Hh0 Hrep0] Hok Hr Hf. unfold request_parse.
  unfold request_head in Hr. rewrite headers_asString_text, <- !app_assoc in Hr. cbn [app] in Hr.
  set (hs := headers_ (message r)) in *. pose proof (printed_headers_ok hs Hc) as Hpo.
  destruct (headers_text_head (map printed_header hs) (charLF :: body) Hpo) as (c & k & Hck & _ & Hcr).
  rewrite Hck in Hr. apply wp_bind.
  eapply wp_mono; [eapply wp_requestline_parse; [exact Hl | done | exact Hr | lia]|].
  intros [pr l] b1 (-> & -> & Hok1 & Hr1). change (negb (pr_ok parse_ok)) with false. cbv iota.
  apply wp_bind. eapply wp_peek; [done..|]. rewrite Hcr. destruct hs as [|h hs'] eqn:Ehs; [done|]. rewrite <- Ehs in *.
  replace (match map printed_header hs with [] => true | _ => false end) with false by (by rewrite Ehs).
  rewrite <- Hck in Hr1.
  assert (length (rest b1) <= length (rest b))%nat as Hlen by (rewrite Hr, Hr1, Hck, length_app; lia).
  apply wp_bind. eapply wp_mono; [eapply (wp_parseHeaders fuel (map printed_header hs)); [done | by rewrite Ehs | done | exact Hr1 | lia]|].
  intros [pr1 m] b2 (-> & -> & Hok2 & Hr2). change (negb (pr_ok parse_ok)) with false. cbv iota.
  rewrite (fold_printed_headers hs (message r0)) by (done || by rewrite Hh0). rewrite Hh0. cbn [app].
  apply wp_bind. eapply wp_peek; [done..|]. rewrite ascii_eqb_true. apply wp_bind.
  destruct body as [|x body].
  - apply wp_next_last; [done | by rewrite Hr2 |]. intros b3 Hok3 _. apply wp_ret. done.
  - destruct Hbody as [?|[Ha Hfind]]; [done|]. eapply wp_next; [done..|]. intros b3 Hok3 Hr3. apply wp_bind.
    eapply wp_mono; [apply (wp_request_parseBody fuel _ hs (x :: body)); [done | done | done | done | done |]|].
    + rewrite Hr1, !length_app in Hlen. simpl in *. lia.
    + intros [pr3 m3] b4 (-> & Hm3 & Hok4). by apply wp_ret.
Qed.
End RoundTrip.

(** ** Properties *)

Definition nul_free (s : str) : bool := forallb (fun c => negb (octet c =? 0)) s.

Lemma carries_body_rep r body :
  rep (body_ (message r)) body ->
  carries_body r = methodAllowsBody (method_ (request_line_ r)) && negb (zlen body =? 0).
Proof.
  intros Hrep. unfold carries_body, getSize. rewrite (rep_size _ _ Hrep). pose proof (zlen_nonneg body). f_equal. lia.
Qed.

Lemma request_asString_text r body :
  rep (body_ (message r)) body -> nul_free body = true ->
  body_announced (methodAllowsBody (method_ (request_line_ r))) (headers_ (message r)) body ->
  request_asString r = Ok (request_head r ++ body).
Proof.
  intros Hrep Hnul Hann. unfold request_asString. rewrite (carries_body_rep r body Hrep).
  destruct Hann as [->|[-> _]]; [by rewrite andb_false_r, app_nil_r|].
  destruct body as [|c body]; [by rewrite app_nil_r|]. destruct (Z.eqb_spec (zlen (c :: body)) 0) as [E0|_]; [by apply zlen_nil in E0|].
  cbn [negb andb]. by rewrite (asString_rep _ _ Hrep Hnul).
Qed.

(** C1 Printing a request and parsing the text with a fresh request, from any buffer that
    delivers it and whatever its chunking, gives back the request line, the headers and the
    body.  The request has a valid method, a request URI without white space and at least
    one header (without headers it is not accepted, [headerless_request_rejected]); header
    names are lower-case tokens in order, their values have no line breaks or repeated
    spaces; the body has no zero octet and is empty, or allowed by the method and
    announced by a content-length of its size; allocations succeed. *)
Theorem request_round_trip {B} `{ReadBufferLaws B} `{Allocator} (r : HTTPRequest) (body : str) :
  (forall n, alloc_ok n = true) -> line_ok (request_line_ r) -> headers_ok (headers_ (message r)) -> headers_ (message r) <> [] ->
  rep (body_ (message r)) body -> nul_free body = true -> zlen body < size_limit ->
  body_announced (methodAllowsBody (method_ (request_line_ r))) (headers_ (message r)) body ->
  exists r0 text, HTTPRequest_new = Ok r0 /\ request_asString r = Ok text /\
    forall (b : B) fuel, rb_ok b -> rest b = text -> (2 * length text + 12 <= fuel)%nat ->
    exists r' b', request_parse fuel r0 b = Ok ((parse_ok, r'), b') /\ request_line_ r' = request_line_ r /\
      headers_ (message r') = headers_ (message r) /\ rep (body_ (message r')) body.
Proof.
  intros Ha Hl Hh Hne Hrep Hnul Hsz Hann. destruct (message_new Ha) as (m0 & Hnew & Hm0).
  exists (mkHTTPRequest HTTPRequestLine_new m0), (request_head r ++ body). split; [by unfold HTTPRequest_new; rewrite Hnew|].
  split; [by apply request_asString_text|]. intros b fuel Hok Hr Hf.
  destruct (wp_nothrow _ _ _ (wp_request_parse Ha fuel r (mkHTTPRequest HTTPRequestLine_new m0) body b
              Hl Hh Hne Hann Hsz Hm0 Hok Hr ltac:(by rewrite Hr))) as ([pr r'] & b' & Hrun & -> & Hline & [Hhd Hbd] & _).
  by exists r', b'.
Qed.

Definition demo_request : HTTPRequest :=
  mkHTTPRequest (mkRequestLine mePOST (lit "/a?b=c") (mkHTTPVersion 1 1))
    (mkHTTPMessage [(lit "content-length", lit "5"); (lit "host", lit "example.org")] (bytes_of (lit "hello"))).

Lemma request_round_trip_witness :
  exists r0 text, @HTTPRequest_new always_alloc = Ok r0 /\ request_asString demo_request = Ok text /\
    forall (b : StringReadBuffer) fuel, rb_ok b -> rest b = text -> (2 * length text + 12 <= fuel)%nat ->
    exists r' b', @request_parse _ _ always_alloc fuel r0 b = Ok ((parse_ok, r'), b') /\ request_line_ r' = request_line_ demo_request /\
      headers_ (message r') = headers_ (message demo_request) /\ rep (body_ (message r')) (lit "hello").
Proof.
  apply (@request_round_trip StringReadBuffer _ _ always_alloc demo_request (lit "hello"));
    [done | | | done | | reflexivity | reflexivity | right; split; reflexivity].
  - split; [done|]. split; [done|]. split; [reflexivity | by vm_compute].
  - split; [reflexivity|]. repeat constructor.
  - split; [|split; reflexivity]. by vm_compute.
Defined.

(** C23 Parsing a request ends for every content of the buffer: with a result or an
    exception, within fuel linear in the number of characters. *)
Theorem request_parse_terminates {B} `{ReadBufferLaws B} `{Allocator} fuel r (b : B) :
  rb_ok b -> (2 * weight b + 12 <= fuel)%nat -> request_parse fuel r b <> OutOfFuel.
Proof. intros Hok Hf. by apply (tame_fuel _ (weight b)); [apply tame_request_parse | |]. Qed.

Lemma request_parse_terminates_witness :
  @request_parse StringReadBuffer _ always_alloc 60 demo_request (StringReadBuffer_new (lit "GARBAGE no version")) <> OutOfFuel.
Proof.
  apply (@request_parse_terminates StringReadBuffer _ _ always_alloc 60 demo_request (StringReadBuffer_new (lit "GARBAGE no version")));
    [by vm_compute | vm_compute; lia].
Defined.

(** A complete request without headers is not accepted: at the end of its data the
    parser reports a system error (EAGAIN), although the same request with a header
    is reported as ok. *)
Theorem headerless_request_rejected {B} `{ReadBufferLaws B} `{Allocator} fuel r r0 (b : B) :
  line_ok (request_line_ r) -> headers_ (message r) = [] -> carries_body r = false ->
  rb_ok b -> request_asString r = Ok (rest b) -> (length (rest b) + 12 <= fuel)%nat ->
  exists b', request_parse fuel r0 b =
    Ok ((mkParseResult peSystemError ecEAGAIN, mkHTTPRequest (request_line_ r) (message r0)), b').
Proof.
  intros Hl Hh Hcb Hok Hr Hf. unfold request_asString in Hr. rewrite Hcb in Hr. injection Hr as Hr. symmetry in Hr.
  unfold request_head in Hr. rewrite Hh in Hr. cbn [headers_asString map concat app] in Hr.
  assert (wp (request_parse fuel r0) nothrow
    (fun a _ => a = (mkParseResult peSystemError ecEAGAIN, mkHTTPRequest (request_line_ r) (message r0))) b) as Hwp.
  { unfold request_parse. apply wp_bind.
    eapply wp_mono; [eapply wp_requestline_parse; [exact Hl | done | exact Hr | lia]|].
    intros [pr l] b1 (-> & -> & Hok1 & Hr1). change (negb (pr_ok parse_ok)) with false. cbv iota.
    apply wp_bind. eapply wp_peek; [done..|]. rewrite ascii_eqb_true. apply wp_bind.
    eapply wp_next; [done..|]. intros b2 Hok2 Hr2. apply wp_bind. eapply wp_peek; [done..|]. rewrite ascii_eqb_true.
    apply wp_bind. apply wp_next_last; [done | by rewrite Hr2|]. intros b3 Hok3 _. by apply wp_ret. }
  destruct (wp_nothrow _ _ _ Hwp) as (a & b' & Hrun & ->). by exists b'.
Qed.

Definition bare_request : HTTPRequest :=
  mkHTTPRequest (mkRequestLine meGET (lit "/") (mkHTTPVersion 1 1)) (mkHTTPMessage [] Bytes_new).

Lemma headerless_request_rejected_witness :
  exists b', @request_parse _ _ always_alloc 40 demo_request
      (StringReadBuffer_new (requestline_asString (request_line_ bare_request) ++ [charCR; charLF])) =
    Ok ((mkParseResult peSystemError ecEAGAIN, mkHTTPRequest (request_line_ bare_request) (message demo_request)), b').
Proof.
  apply (@headerless_request_rejected _ _ _ always_alloc 40 bare_request demo_request
    (StringReadBuffer_new (requestline_asString (request_line_ bare_request) ++ [charCR; charLF])));
    [ | reflexivity | reflexivity | by vm_compute | reflexivity | vm_compute; lia].
  split; [done|]. split; [done|]. split; [reflexivity | by vm_compute].
Defined.

(** The method names are exactly the nine of the table: a name is recognised as a
    method if and only if it is that method's text, and anything else is meINVALID. *)
Theorem method_names (s : str) (m : Method) :
  m <> meINVALID -> (methodFromString s = m <-> s = methodAsString m).
Proof.
  intros Hm. split; [|intros ->; by apply methodFromString_asString]. unfold methodFromString. intros Hs.
  repeat match type of Hs with
  | (if str_eqb s ?l then _ else _) = _ => destruct (str_eqb s l) eqn:?; [by subst m; apply str_eqb_spec|]
  end. by subst m.
Qed.

Lemma method_names_witness : methodFromString (lit "PATCH") = mePATCH <-> lit "PATCH" = methodAsString mePATCH.
Proof. apply (method_names (lit "PATCH") mePATCH). done. Defined.

(** A content-length that is no number makes the parser throw std::invalid_argument
    out of [parseBody]; a negative one is taken as a length near 2^64. *)
Theorem content_length_unchecked {B} `{ReadBuffer B} `{Allocator} fuel m (b : B) c t n :
  isspace c = false -> isdigit c = false -> (c =c "-"%char) = false -> (c =c "+"%char) = false -> 0 < n <= ULONG_MAX ->
  (map_find (lit "content-length") (headers_ m) = Some (c :: t) -> request_parseBody fuel m b = Throw std_invalid_argument) /\
  (map_find (lit "content-length") (headers_ m) = Some ("-"%char :: print_dec n) ->
     request_parseBody fuel m b = parseLengthBody fuel (2 ^ 64 - n) m b).
Proof.
  intros Hsp Hdg Hmi Hpl Hn. unfold request_parseBody, getHeaderValue_ulong. split; intros ->.
  - unfold stoul. cbn [span]. rewrite Hsp, Hmi, Hpl. cbn [span]. by rewrite Hdg.
  - unfold stoul. cbn [span]. change (isspace "-"%char) with false. cbv iota. rewrite ascii_eqb_true.
    pose proof (print_dec_digits n ltac:(lia)) as Hd. rewrite span_all by done.
    pose proof (read_print_base 10 n ltac:(by left) ltac:(lia)) as Hrd.
    pose proof (print_base_nonempty 10 n ltac:(by left) ltac:(lia)) as Hne.
    unfold print_dec in *. destruct (print_base 10 n) as [|x ds] eqn:E; [done|]. rewrite Hrd.
    destruct (Z.ltb_spec ULONG_MAX n); [lia|]. cbn [obind]. unfold bind, lift.
    assert (u64 (- n) = 2 ^ 64 - n) as ->.
    { unfold u64, wrap, ULONG_MAX in *. symmetry. apply (Z.mod_unique_pos _ _ (-1)); lia. }
    assert ((zlen (@nil ascii) + 1 + zlen (x :: ds) =? zlen ("-"%char :: x :: ds)) = true) as ->; [|done].
    rewrite (zlen_cons "-"%char). apply Z.eqb_eq. change (zlen (@nil ascii)) with 0. lia.
Qed.

Definition with_length (v : str) : HTTPMessage := mkHTTPMessage [(lit "content-length", v)] Bytes_new.

Lemma content_length_unchecked_witness :
  (map_find (lit "content-length") (headers_ (with_length (lit "abc"))) = Some (lit "abc") ->
     @request_parseBody _ _ always_alloc 5 (with_length (lit "abc")) (StringReadBuffer_new (lit "x")) = Throw std_invalid_argument) /\
  (map_find (lit "content-length") (headers_ (with_length (lit "abc"))) = Some ("-"%char :: print_dec 1) ->
     @request_parseBody _ _ always_alloc 5 (with_length (lit "abc")) (StringReadBuffer_new (lit "x")) =
     @parseLengthBody _ _ always_alloc 5 (2 ^ 64 - 1) (with_length (lit "abc")) (StringReadBuffer_new (lit "x"))).
Proof.
  apply (@content_length_unchecked _ _ always_alloc 5 (with_length (lit "abc")) (StringReadBuffer_new (lit "x")) "a"%char (lit "bc") 1);
    [reflexivity | reflexivity | reflexivity | reflexivity | split; [reflexivity | discriminate]].
Defined.

Lemma body_octets_rep m l : rep (body_ m) l -> body_octets m = Ok l.
Proof. intros Hrep. unfold body_octets, getSize. by rewrite (rep_take _ _ Hrep), determinate_map. Qed.

(** [send] puts exactly the text of the request on the wire, headers first and then
    the body, however much the kernel accepts per call, and so does [write]. *)
Theorem request_send_writes_text fuel r body k :
  rep (body_ (message r)) body -> nul_free body = true ->
  body_announced (methodAllowsBody (method_ (request_line_ r))) (headers_ (message r)) body ->
  Forall progress (outbox k) -> (length (request_head r ++ body) < fuel)%nat ->
  exists text k1 k2, request_asString r = Ok text /\
    request_send fuel r k = Ok (ec_value ecOK, k1) /\ wire_bytes k1 = wire_bytes k ++ text /\
    request_write fuel r k = Ok (ec_value ecOK, k2) /\ wire_bytes k2 = wire_bytes k ++ text.
Proof.
  intros Hrep Hnul Hann Hp Hf. rewrite length_app in Hf.
  pose proof (request_asString_text r body Hrep Hnul Hann) as Htext.
  assert (wp (request_send fuel r) nothrow
    (fun e k' => e = ec_value ecOK /\ wire_bytes k' = wire_bytes k ++ request_head r ++ body) k) as Hsend.
  { unfold request_send. apply wp_bind. eapply wp_mono; [apply send_all; [done | lia]|].
    intros e k' (-> & Hw & Hp' & _). cbn [negb ok]. change (negb (ok (ec_value ecOK))) with false. cbv iota.
    rewrite (carries_body_rep r body Hrep). destruct Hann as [->|[-> _]].
    - rewrite andb_false_r. apply wp_ret. by rewrite app_nil_r.
    - destruct body as [|c body]; [apply wp_ret; by rewrite app_nil_r|].
      destruct (Z.eqb_spec (zlen (c :: body)) 0) as [E0|_]; [by apply zlen_nil in E0|]. cbn [negb andb].
      rewrite (body_octets_rep _ _ Hrep). apply wp_bind, wp_lift.
      eapply wp_mono; [apply send_all; [done | lia]|]. intros e2 k2 (-> & Hw2 & _). by rewrite Hw2, Hw, <- app_assoc. }
  assert (wp (request_write fuel r) nothrow
    (fun e k' => e = ec_value ecOK /\ wire_bytes k' = wire_bytes k ++ request_head r ++ body) k) as Hwrite.
  { unfold request_write. rewrite Htext. apply wp_bind, wp_lift.
    eapply wp_mono; [apply send_all; [done | rewrite length_app; lia]|]. by intros e k' (-> & Hw & _). }
  destruct (wp_nothrow _ _ _ Hsend) as (e1 & k1 & H1 & -> & Hw1).
  destruct (wp_nothrow _ _ _ Hwrite) as (e2 & k2 & H2 & -> & Hw2). by exists (request_head r ++ body), k1, k2.
Qed.

Lemma request_send_writes_text_witness :
  exists text k1 k2, request_asString demo_request = Ok text /\
    request_send 200 demo_request (mkSocket 3 (inl true) (inl 8192) [] [SendAccept 10; SendAccept 3] []) = Ok (ec_value ecOK, k1) /\
    wire_bytes k1 = [] ++ text /\
    request_write 200 demo_request (mkSocket 3 (inl true) (inl 8192) [] [SendAccept 10; SendAccept 3] []) = Ok (ec_value ecOK, k2) /\
    wire_bytes k2 = [] ++ text.
Proof.
  apply (request_send_writes_text 200 demo_request (lit "hello") (mkSocket 3 (inl true) (inl 8192) [] [SendAccept 10; SendAccept 3] []));
    [split; [by vm_compute | split; reflexivity] | reflexivity | right; split; reflexivity | | vm_compute; lia].
  repeat constructor.
Defined.
