(* ===== verification/HTTPResponse.v ===== *)
(** * HTTPResponse: response line, response, and their text

    Models [http::HTTPResponse] and [HTTPResponse::HTTPResponseLine]
    (src/src/include/network/protocol/http/httpresponse.hpp,
    src/src/lib/network/protocol/http/httpresponse.cpp). *)

From S2P Require Import Prelude.
From S2P Require Import SystemError.
From S2P Require Import Bytes.
From S2P Require Import Socket.
From S2P Require Import ReadBuffer.
From S2P Require Import HTTPFragment.
From S2P Require Import HTTPMessage.
From S2P Require Import HTTPRequest.

Local Open Scope Z_scope.

(** ** Status codes *)

Inductive HTTPCode : Type :=
| hcContinue | hcSwitchingProtocols | hcProcessing | hcEarlyHints
| hcOK | hcCreated | hcAccepted | hcNonAuthoritiveInformation
| hcNoContent | hcResetContent | hcPartialContent | hcMultiStatus
| hcAlreadyReported | hcIMUsed | hcMultipleChoices | hcMovedPermanently
| hcFound | hcSeeOther | hcNotModified | hcUseProxy
| hcSwitchProxy | hcTemporaryRedirect | hcPermanentRedirect | hcBadRequest
| hcUnAuthorized | hcPaymentRequired | hcForbidden | hcNotFound
| hcMethodNotAllowed | hcNotAcceptable | hcProxyAuthenticationRequired | hcRequestTimeout
| hcConflict | hcGone | hcLengthRequired | hcPreconditionFailed
| hcPayloadTooLarge | hcURITooLong | hcUnsupportedMediaType | hcRangeNotSatisfiable
| hcExpectationFailed | hcIAmATeapot | hcMisdirectRequest | hcUnporessableEntity
| hcLocked | hcFailedDependency | hcUpgradeRequired | hcPreconditionRequired
| hcTooManyRequests | hcRequestHeaderFieldsTooLarge | hcUnavailableForLegalReasons | hcInternalServerError
| hcNotImplemented | hcBadGateway | hcServiceUnavailable | hcGatewayTimeout
| hcHTTPVersionNotSupported | hcVariantAlsoNegotiates | hcInsufficientStorage | hcLoopDetected
| hcNotExtended | hcNetworkAuthenticationRequired | hcCheckpoint | hcThisIsFine
| hcPageExpired | hcMethodFailure | hcEnhanceYourCalm | hcBlockedByWindowsParentalControls
| hcInvalidToken | hcTokenRequired | hcBandwidthLimitExceeded | hcInvalidSSLCertificate
| hcSiteIsFrozen | hcNetworkReadTimeoutError | hcLoginTimeout | hcRetryWith
| hcRedirect | hcNoRepsonse | hcRequestHeaderTooLarge | hcSSLCertificateError
| hcSSLCertificateRequired | hcHHTPRequestSentToHTTPSPort | hcClientClosedrequest | hcUnknownError
| hcWebServerIsDown | hcConnectionTimedOut | hcOriginIsUnreachable | hcATimeoutOccured
| hcSSLHandshakeFailed | hcRailgunError | hcOriginDNSError.

Definition hc_value (c : HTTPCode) : Z :=
  match c with
  | hcContinue => 100 | hcSwitchingProtocols => 101 | hcProcessing => 102
  | hcEarlyHints => 103 | hcOK => 200 | hcCreated => 201
  | hcAccepted => 202 | hcNonAuthoritiveInformation => 203 | hcNoContent => 204
  | hcResetContent => 205 | hcPartialContent => 206 | hcMultiStatus => 207
  | hcAlreadyReported => 208 | hcIMUsed => 226 | hcMultipleChoices => 300
  | hcMovedPermanently => 301 | hcFound => 302 | hcSeeOther => 303
  | hcNotModified => 304 | hcUseProxy => 305 | hcSwitchProxy => 306
  | hcTemporaryRedirect => 307 | hcPermanentRedirect => 308 | hcBadRequest => 400
  | hcUnAuthorized => 401 | hcPaymentRequired => 402 | hcForbidden => 403
  | hcNotFound => 404 | hcMethodNotAllowed => 405 | hcNotAcceptable => 406
  | hcProxyAuthenticationRequired => 407 | hcRequestTimeout => 408 | hcConflict => 409
  | hcGone => 410 | hcLengthRequired => 411 | hcPreconditionFailed => 412
  | hcPayloadTooLarge => 413 | hcURITooLong => 414 | hcUnsupportedMediaType => 415
  | hcRangeNotSatisfiable => 416 | hcExpectationFailed => 417 | hcIAmATeapot => 418
  | hcMisdirectRequest => 421 | hcUnporessableEntity => 422 | hcLocked => 423
  | hcFailedDependency => 424 | hcUpgradeRequired => 426 | hcPreconditionRequired => 428
  | hcTooManyRequests => 429 | hcRequestHeaderFieldsTooLarge => 431 | hcUnavailableForLegalReasons => 451
  | hcInternalServerError => 500 | hcNotImplemented => 501 | hcBadGateway => 502
  | hcServiceUnavailable => 503 | hcGatewayTimeout => 504 | hcHTTPVersionNotSupported => 505
  | hcVariantAlsoNegotiates => 506 | hcInsufficientStorage => 507 | hcLoopDetected => 508
  | hcNotExtended => 510 | hcNetworkAuthenticationRequired => 511 | hcCheckpoint => 103
  | hcThisIsFine => 218 | hcPageExpired => 419 | hcMethodFailure => 420
  | hcEnhanceYourCalm => 420 | hcBlockedByWindowsParentalControls => 450 | hcInvalidToken => 498
  | hcTokenRequired => 499 | hcBandwidthLimitExceeded => 509 | hcInvalidSSLCertificate => 526
  | hcSiteIsFrozen => 530 | hcNetworkReadTimeoutError => 598 | hcLoginTimeout => 440
  | hcRetryWith => 449 | hcRedirect => 451 | hcNoRepsonse => 444
  | hcRequestHeaderTooLarge => 494 | hcSSLCertificateError => 495 | hcSSLCertificateRequired => 496
  | hcHHTPRequestSentToHTTPSPort => 497 | hcClientClosedrequest => 499 | hcUnknownError => 520
  | hcWebServerIsDown => 521 | hcConnectionTimedOut => 522 | hcOriginIsUnreachable => 523
  | hcATimeoutOccured => 524 | hcSSLHandshakeFailed => 525 | hcRailgunError => 527
  | hcOriginDNSError => 530
  end.

(** The cases of [HTTPCodeAsString], in order. *)
Definition code_texts : list (HTTPCode * str) :=
  [(hcContinue, lit "CONTINUE");
   (hcSwitchingProtocols, lit "SWITCHING PROTOCOLS");
   (hcProcessing, lit "PROCESSING");
   (hcEarlyHints, lit "EARLY HINTS");
   (hcOK, lit "OK");
   (hcCreated, lit "CREATED");
   (hcAccepted, lit "ACCEPTED");
   (hcNonAuthoritiveInformation, lit "NON-AUTHORITATIVE INFORMATION");
   (hcNoContent, lit "NO CONTENT");
   (hcResetContent, lit "RESET CONTENT");
   (hcPartialContent, lit "PARTIAL CONTENT");
   (hcMultiStatus, lit "MULTI-STATUS");
   (hcAlreadyReported, lit "ALREADY REPORTED");
   (hcIMUsed, lit "IM USED");
   (hcMultipleChoices, lit "MULTIPLE CHOICES");
   (hcMovedPermanently, lit "MOVED PERMANENTLY");
   (hcFound, lit "FOUND");
   (hcSeeOther, lit "SEE OTHER");
   (hcNotModified, lit "NOT MODIFIED");
   (hcUseProxy, lit "USE PROXY");
   (hcSwitchProxy, lit "SWITCH PROXY");
   (hcTemporaryRedirect, lit "TEMPORARY REDIRECT");
   (hcPermanentRedirect, lit "PERMANENT REDIRECT");
   (hcBadRequest, lit "BAD REQUEST");
   (hcUnAuthorized, lit "UNAUTHORIZED");
   (hcPaymentRequired, lit "PAYMENT REQUIRED");
   (hcForbidden, lit "FORBIDDEN");
   (hcNotFound, lit "NOT FOUND");
   (hcMethodNotAllowed, lit "METHOD NOT ALLOWED");
   (hcNotAcceptable, lit "NOT ACCEPTABLE");
   (hcProxyAuthenticationRequired, lit "PROXY AUTHENTICATION REQUIRED");
   (hcRequestTimeout, lit "REQUEST TIMEOUT");
   (hcConflict, lit "CONFLICT");
   (hcGone, lit "GONE");
   (hcLengthRequired, lit "LENGTH REQUIRED");
   (hcPreconditionFailed, lit "PRECONDITION FAILED");
   (hcPayloadTooLarge, lit "PAYLOAD TOO LARGE");
   (hcURITooLong, lit "URI TOO LONG");
   (hcUnsupportedMediaType, lit "UNSUPPORTED MEDIA TYPE");
   (hcRangeNotSatisfiable, lit "RANGE NOT SATISFIABLE");
   (hcExpectationFailed, lit "EXPECTATION FAILED");
   (hcIAmATeapot, lit "I'M A TEAPOT");
   (hcMisdirectRequest, lit "MISDIRECTED REQUEST");
   (hcUnporessableEntity, lit "UNPROCESSABLE ENTITY");
   (hcLocked, lit "LOCKED");
   (hcFailedDependency, lit "FAILED DEPENDENCY");
   (hcUpgradeRequired, lit "UPGRADE REQUIRED");
   (hcPreconditionRequired, lit "PRECONDITION REQUIRED");
   (hcTooManyRequests, lit "TOO MANY REQUESTS");
   (hcRequestHeaderFieldsTooLarge, lit "REQUEST HEADER FIELDS TOO LARGE");
   (hcUnavailableForLegalReasons, lit "UNAVAILABLE FOR LEGAL REASONS");
   (hcInternalServerError, lit "INTERNAL SERVER ERROR");
   (hcNotImplemented, lit "NOT IMPLEMENTED");
   (hcBadGateway, lit "BAD GATEWAY");
   (hcServiceUnavailable, lit "SERVICE UNAVAILABLE");
   (hcGatewayTimeout, lit "GATEWAY TIMEOUT");
   (hcHTTPVersionNotSupported, lit "HTTP VERSION NOT SUPPORTED");
   (hcVariantAlsoNegotiates, lit "VARIANT ALSO NEGOTIATES");
   (hcInsufficientStorage, lit "INSUFFICIENT STORAGE");
   (hcLoopDetected, lit "LOOP DETECTED");
   (hcNotExtended, lit "NOT EXTENDED");
   (hcNetworkAuthenticationRequired, lit "NETWORK AUTHENTICATION REQUIRED");
   (hcThisIsFine, lit "THIS IS FINE");
   (hcPageExpired, lit "PAGE EXPIRED");
   (hcMethodFailure, lit "METHOD FAILURE");
   (hcBlockedByWindowsParentalControls, lit "BLOCKED BY WINDOWS PARENTAL CONTROLS");
   (hcInvalidToken, lit "INVALID TOKEN");
   (hcBandwidthLimitExceeded, lit "BANDWIDTH LIMIT EXCEEDED");
   (hcInvalidSSLCertificate, lit "INVALID SSL CERTIFICATE");
   (hcNetworkReadTimeoutError, lit "NETWORK READ TIMEOUT ERROR");
   (hcLoginTimeout, lit "LOGIN TIME-OUT");
   (hcRetryWith, lit "RETRY WITH");
   (hcNoRepsonse, lit "NO RESPONSE");
   (hcRequestHeaderTooLarge, lit "REQUEST HEADER TOO LARGE");
   (hcSSLCertificateError, lit "SSL CERTIFICATE ERROR");
   (hcSSLCertificateRequired, lit "SSL CERTIFICATE REQUIRED");
   (hcHHTPRequestSentToHTTPSPort, lit "HTTP REQUEST SENT TO HTTPS PORT");
   (hcClientClosedrequest, lit "CLIENT CLOSED REQUEST");
   (hcUnknownError, lit "UNKNOWN ERROR");
   (hcWebServerIsDown, lit "WEB SERVER IS DOWN");
   (hcConnectionTimedOut, lit "CONNECTION TIMED OUT");
   (hcOriginIsUnreachable, lit "ORIGIN IS UNREACHABLE");
   (hcATimeoutOccured, lit "A TIMEOUT OCCURRED");
   (hcSSLHandshakeFailed, lit "SSL HANDSHAKE FAILED");
   (hcRailgunError, lit "RAILGUN ERROR");
   (hcOriginDNSError, lit "ORIGIN DNS ERROR")].

(** The argument is any [unsigned int] cast to the enumeration. *)
Definition HTTPCodeAsString (code : Z) : str :=
  match find (fun p => hc_value p.1 =? code) code_texts with
  | Some (_, s) => s
  | None => lit "UNKNOWN HTTP CODE"
  end.

(** ** Data *)

Record HTTPResponseLine : Type := mkResponseLine { version_ : HTTPVersion; http_code_ : Z }.

Definition HTTPResponseLine_new : HTTPResponseLine := mkResponseLine HTTPVersion_default (hc_value hcOK).

Record HTTPResponse : Type := mkHTTPResponse { response_line_ : HTTPResponseLine; rmessage : HTTPMessage }.

Definition HTTPResponse_new `{Allocator} : outcome HTTPResponse :=
  let! m := HTTPMessage_new in Ok (mkHTTPResponse HTTPResponseLine_new m).

(** ** Text *)

Definition responseline_asString (l : HTTPResponseLine) : str :=
  version_asString (version_ l) ++ [charSP] ++ print_dec (http_code_ l) ++ [charSP] ++
  HTTPCodeAsString (http_code_ l) ++ [charCR] ++ [charLF].

Definition response_head (r : HTTPResponse) : str :=
  responseline_asString (response_line_ r) ++ headers_asString (headers_ (rmessage r)) ++ [charCR; charLF].

Definition response_asString (r : HTTPResponse) : outcome str :=
  if 0 <? getSize (body_ (rmessage r))
  then let! s := Bytes.asString (body_ (rmessage r)) in Ok (response_head r ++ s)
  else Ok (response_head r).

Definition response_send (fuel : nat) (r : HTTPResponse) : M Socket SystemError :=
  let* rc := send fuel (response_head r) false in
  if negb (ok rc) then ret rc
  else if 0 <? getSize (body_ (rmessage r)) then
    let* s := lift (body_octets (rmessage r)) in send fuel s false
  else ret rc.

(** ** Parsing *)

Definition hasBody (m : HTTPMessage) : outcome bool :=
  let! (has_length, content_length) := getHeaderValue_ulong (lit "content-length") m in
  if (has_length : bool) && (0 <? content_length) then Ok true
  else
    let (has_encoding, transfer_encoding) := getHeaderValue (lit "transfer-encoding") m in
    if (has_encoding : bool) && str_eqb transfer_encoding (lit "chunked") then Ok true
    else
      let (has_connection, connection) := getHeaderValue (lit "connection") m in
      if (has_connection : bool) && str_eqb connection (lit "close") then Ok true
      else Ok false.

Section Parser.
Context {B : Type} `{ReadBuffer B} `{Allocator}.

(** [while ( ok && get() != charCR ) next()]; [Some pr]: return inside the loop. *)
Definition reason_body (pr : ParseResult) : M B (ParseResult + option ParseResult) :=
  if negb (pr_ok pr) then Break None else
  let* c := peek in
  if negb (c =c charCR) then
    let* e := next in
    let pr' := setSystemError pr e in
    if negb (pr_ok pr') then Break (Some pr') else Continue pr'
  else Break None.

Definition responseline_parse (fuel : nat) (l : HTTPResponseLine) : M B (ParseResult * HTTPResponseLine) :=
  let* (pr, v) := version_parse fuel (version_ l) in
  let l1 := mkResponseLine v (http_code_ l) in
  if negb (pr_ok pr) then ret (pr, l1) else
  let* e := eatSpace fuel in
  let pr1 := setSystemError pr e in
  if negb (pr_ok pr1) then ret (pr1, l1) else
  let* (pr2, i) := parseUInt fuel in
  if negb (pr_ok pr2) then ret (pr2, l1) else
  let l2 := mkResponseLine v i in
  let* stop := loop fuel reason_body pr2 in
  match stop with
  | Some pr3 => ret (pr3, l2)
  | None =>
      let* c := peek in
      if negb (c =c charCR) then ret (failed peExpectCRLF, l2) else
      let* e4 := next in
      let pr4 := setSystemError pr2 e4 in
      if negb (pr_ok pr4) then ret (pr4, l2) else
      let* d := peek in
      if negb (d =c charLF) then ret (failed peExpectCRLF, l2) else
      let* e5 := next in
      ret (setSystemError pr4 e5, l2)
  end.

(** [while ( parseResult.ok() ) { body_.append( data.get() ); next(); }] *)
Definition close_body (s : ParseResult * HTTPMessage) : M B ((ParseResult * HTTPMessage) + HTTPMessage) :=
  let (pr, m) := s in
  if negb (pr_ok pr) then Break m else
  let* c := peek in
  let* m' := lift (appendBody c m) in
  let* e := next in
  Continue (setSystemError pr e, m').

Definition response_parseBody (fuel : nat) (m : HTTPMessage) : M B (ParseResult * HTTPMessage) :=
  let* (has_length, content_length) := lift (getHeaderValue_ulong (lit "content-length") m) in
  if has_length : bool then parseLengthBody fuel content_length m
  else
    let (has_encoding, transfer_encoding) := getHeaderValue (lit "transfer-encoding") m in
    if has_encoding : bool then
      if str_eqb transfer_encoding (lit "chunked") then parseChunkedBody fuel m
      else ret (failed peInvalidTransferEncoding, m)
    else
      let (has_connection, connection_close) := getHeaderValue (lit "connection") m in
      if has_connection : bool then
        if str_eqb connection_close (lit "close") then
          let* m' := loop fuel close_body (parse_ok, m) in ret (parse_ok, m')
        else ret (failed peUnexpectedBody, m)
      else ret (parse_ok, m).

Definition response_parse (fuel : nat) (r : HTTPResponse) : M B (ParseResult * HTTPResponse) :=
  let* (pr, l) := responseline_parse fuel (response_line_ r) in
  let r1 := mkHTTPResponse l (rmessage r) in
  if negb (pr_ok pr) then ret (pr, r1) else
  let* c := peek in
  if c =c charCR then
    let* e := next in
    let pr1 := setSystemError pr e in
    if pr_ok pr1 then
      let* d := peek in
      if d =c charLF then
        let* e2 := next in
        let pr2 := setSystemError pr1 e2 in
        if pr_ok pr2 then
          let* (pr3, m) := response_parseBody fuel (rmessage r) in ret (pr3, mkHTTPResponse l m)
        else ret (pr2, r1)
      else ret (parse_ok, r1)
    else ret (parse_ok, r1)
  else
    let* (pr1, m) := parseHeaders fuel (rmessage r) in
    let r2 := mkHTTPResponse l m in
    if negb (pr_ok pr1) then ret (pr1, r2) else
    let* d := peek in
    if d =c charLF then
      let* has_body := lift (hasBody m) in
      if has_body : bool then
        let* e := next in
        if pr_ok (setSystemError pr1 e) then
          let* (pr3, m') := response_parseBody fuel m in ret (pr3, mkHTTPResponse l m')
        else ret (parse_ok, r2)
      else ret (parse_ok, r2)
    else ret (parse_ok, r2).
End Parser.

(** ** Termination *)

Section ResponseTermination.
Context {B : Type} `{ReadBufferLaws B} `{Allocator}.
Context (fuel n : nat) (Hfuel : (2 * n + 12 <= fuel)%nat).

Lemma tame_responseline_parse l : tame (B:=B) (responseline_parse fuel l) n.
Proof.
  apply tame_bind; [apply tame_version_parse; lia|]. intros [pr v]. apply tame_if; [apply tame_ret|].
  apply tame_bind; [apply tame_eatSpace; lia|]. intros e. apply tame_if; [apply tame_ret|].
  apply tame_bind; [apply tame_parseUInt; lia|]. intros [pr2 i]. apply tame_if; [apply tame_ret|].
  apply tame_bind.
  - apply (tame_loop _ (fun _ => 0%nat) (fun _ => true) 1); [|lia].
    intros pr3 b Hok _. unfold reason_body. tame_steps; split_and!; first [done | lia].
  - intros [pr3|]; [apply tame_ret|]. apply tame_bind; [apply tame_peek|]. intros c. apply tame_if; [apply tame_ret|].
    apply tame_bind; [apply tame_next|]. intros e4. apply tame_if; [apply tame_ret|].
    apply tame_bind; [apply tame_peek|]. intros d. apply tame_if; [apply tame_ret|].
    apply tame_bind; [apply tame_next|]. intros e5. apply tame_ret.
Qed.

Lemma tame_response_parseBody m : tame (B:=B) (response_parseBody fuel m) n.
Proof.
  assert (tame (B:=B) (let* m' := loop fuel close_body (parse_ok, m) in ret (parse_ok, m')) n) as Hclose.
  { apply tame_bind; [|intros; apply tame_ret].
    apply (tame_loop _ (fun _ => 0%nat) (fun s => pr_ok s.1) 1); [|lia].
    intros [pr m1] b Hok _. unfold close_body. cbn [fst]. tame_step; [tame_steps|]. breflect. tame_step. tame_step. tame_step.
    apply wp_appendBody. intros m'. tame_steps; split_and!; first [done | lia | simpl; lia]. }
  intros b Hok Hw. unfold response_parseBody. apply wp_bind, wp_lift. unfold getHeaderValue_ulong.
  destruct (map_find (lit "content-length") (headers_ m)) as [s|].
  - pose proof (stoul_range s) as Hst. destruct (stoul s) as [[v p]|e|]; [|done|done]. cbn [obind].
    destruct (p =? zlen s); [by apply (tame_parseLengthBody fuel n ltac:(lia))|].
    repeat case_match; first [by apply (tame_parseChunkedBody fuel n ltac:(lia)) | by apply Hclose | by apply wp_ret].
  - repeat case_match; first [by apply (tame_parseChunkedBody fuel n ltac:(lia)) | by apply Hclose | by apply wp_ret].
Qed.

Lemma hasBody_fuel m : hasBody m <> OutOfFuel.
Proof.
  unfold hasBody, getHeaderValue_ulong. destruct (map_find (lit "content-length") (headers_ m)) as [s|].
  - pose proof (stoul_range s). destruct (stoul s) as [[v p]| |]; [|done|done]. cbn. repeat case_match; done.
  - cbn. repeat case_match; done.
Qed.

Lemma tame_response_parse r : tame (B:=B) (response_parse fuel r) n.
Proof.
  apply tame_bind; [apply tame_responseline_parse|]. intros [pr l]. apply tame_if; [apply tame_ret|].
  apply tame_bind; [apply tame_peek|]. intros c. apply tame_if.
  - apply tame_bind; [apply tame_next|]. intros e. apply tame_if; [|apply tame_ret].
    apply tame_bind; [apply tame_peek|]. intros d. apply tame_if; [|apply tame_ret].
    apply tame_bind; [apply tame_next|]. intros e2. apply tame_if; [|apply tame_ret].
    apply tame_bind; [apply tame_response_parseBody|]. intros [? ?]. apply tame_ret.
  - apply tame_bind; [apply (tame_parseHeaders fuel n ltac:(lia))|]. intros [pr1 m]. apply tame_if; [apply tame_ret|].
    apply tame_bind; [apply tame_peek|]. intros d. apply tame_if; [|apply tame_ret].
    apply tame_bind; [apply tame_lift, hasBody_fuel|]. intros has. apply tame_if; [|apply tame_ret].
    apply tame_bind; [apply tame_next|]. intros e. apply tame_if; [|apply tame_ret].
    apply tame_bind; [apply tame_response_parseBody|]. intros [? ?]. apply tame_ret.
Qed.
End ResponseTermination.

(** ** Reading a printed response *)

Definition responseline_ok (l : HTTPResponseLine) : Prop := version_ok (version_ l) /\ 0 <= http_code_ l <= UINT_MAX.

Lemma code_text_no_CR code : no_CR (HTTPCodeAsString code) = true.
Proof.
  unfold HTTPCodeAsString. destruct (find _ code_texts) as [[c s]|] eqn:E; [|done].
  apply find_some in E as [Hin _].
  assert (forallb (fun p => no_CR p.2) code_texts = true) as Hall by reflexivity.
  rewrite forallb_forall in Hall. exact (Hall (c, s) Hin).
Qed.

Section ReadingResponse.
Context {B : Type} `{ReadBufferLaws B} `{Allocator}.
Implicit Types (b : B).

Lemma wp_reason fuel w t b :
  rb_ok b -> rest b = w ++ charCR :: t -> no_CR w = true -> (length w < fuel)%nat ->
  wp (loop fuel reason_body parse_ok) nothrow (fun r b' => r = None /\ rb_ok b' /\ rest b' = charCR :: t) b.
Proof.
  intros Hok Hr Hw Hf.
  eapply (wp_scan reason_body (fun pr => pr = parse_ok) (fun c => negb (c =c charCR)) (fun _ _ => parse_ok));
    [| |done|done|exact Hr|done|lia|].
  - intros s b1 x k R -> Hok1 Hr1 Hk Hx HR. unfold reason_body. change (negb (pr_ok parse_ok)) with false. cbv iota.
    apply wp_bind. eapply wp_peek; [done..|]. rewrite Hx. apply wp_bind. eapply wp_next_to; [done..|].
    intros b' Hok' Hr'. apply wp_ret. by apply HR.
  - done.
  - intros b' -> Hok' Hr'. apply wp_loop_step; [lia|]. unfold reason_body. change (negb (pr_ok parse_ok)) with false. cbv iota.
    apply wp_bind. eapply wp_peek; [done..|]. rewrite ascii_eqb_true. by apply wp_ret.
Qed.

Lemma wp_responseline_parse fuel l l0 c t b :
  responseline_ok l -> rb_ok b -> rest b = responseline_asString l ++ c :: t -> (length (rest b) + 12 <= fuel)%nat ->
  wp (responseline_parse fuel l0) nothrow
     (fun '(r, l') b' => r = parse_ok /\ l' = l /\ rb_ok b' /\ rest b' = c :: t) b.
Proof.
  intros [Hv Hcode] Hok Hr Hf. unfold responseline_asString in Hr. rewrite <- !app_assoc in Hr. cbn [app] in Hr.
  pose proof (f_equal length Hr) as Hlen. rewrite !length_app in Hlen. cbn [length] in Hlen.
  rewrite !length_app in Hlen. cbn [length] in Hlen. rewrite length_app in Hlen. cbn [length] in Hlen.
  unfold responseline_parse. apply wp_bind.
  eapply wp_mono; [eapply (wp_version_parse fuel _ _ []); [exact Hv | done | done | | exact Hr | lia]; done|].
  intros [r v] b1 (-> & -> & Hok1 & Hr1). change (negb (pr_ok parse_ok)) with false. cbv iota.
  pose proof (print_dec_digits (http_code_ l) ltac:(lia)) as Hd.
  pose proof (print_base_nonempty 10 (http_code_ l) ltac:(by left) ltac:(lia)) as Hne.
  destruct (print_dec (http_code_ l)) as [|x ds] eqn:Ed; [done|].
  assert (isSP x = false) as Hx.
  { simpl in Hd. apply andb_true_iff in Hd as [Hd _]. apply nonspace_not_SP. by rewrite isdigit_not_space. }
  apply wp_bind. eapply wp_mono; [eapply (wp_eatSpace fuel [charSP] x); [done | exact Hr1 | done | done | simpl; lia]|].
  intros e b2 (-> & Hok2 & Hr2). apply wp_bind.
  eapply wp_mono; [apply (wp_parseUInt fuel (http_code_ l) charSP (HTTPCodeAsString (http_code_ l) ++ charCR :: charLF :: c :: t));
                   [done | by rewrite Hr2, Ed | done | done | rewrite Ed; lia]|].
  intros [r i] b3 (-> & -> & Hok3 & Hr3). change (negb (pr_ok parse_ok)) with false. cbv iota. apply wp_bind.
  eapply wp_mono; [apply (wp_reason fuel (charSP :: HTTPCodeAsString (http_code_ l)) (charLF :: c :: t)); [done | done | |simpl; lia]|].
  { unfold no_CR. simpl. apply code_text_no_CR. }
  intros stop b4 (-> & Hok4 & Hr4). apply wp_bind. eapply wp_peek; [done..|]. rewrite ascii_eqb_true. apply wp_bind.
  eapply wp_next; [done..|]. intros b5 Hok5 Hr5. apply wp_bind. eapply wp_peek; [done..|].
  change (negb (charLF =c charLF)) with false. apply wp_bind. eapply wp_next; [done..|]. intros b6 Hok6 Hr6. apply wp_ret.
  by destruct l.
Qed.

(** A content-length header, if any, is a number. *)
Definition length_header_ok (hs : strmap) : Prop :=
  match map_find (lit "content-length") hs with
  | Some s => exists n, 0 <= n <= ULONG_MAX /\ s = print_dec n
  | None => True
  end.

Lemma hasBody_total hs m : headers_ m = hs -> length_header_ok hs -> exists x, hasBody m = Ok x.
Proof.
  intros Hh Hl. unfold hasBody, getHeaderValue_ulong, length_header_ok in *. rewrite Hh.
  destruct (map_find (lit "content-length") hs) as [s|].
  - destruct Hl as (n & Hn & ->). rewrite stoul_print by done. cbn. repeat case_match; eauto.
  - cbn. repeat case_match; eauto.
Qed.

Context (Halloc : forall n, alloc_ok n = true).

Lemma wp_response_length_body fuel m hs body b :
  rb_ok b -> rest b = body -> body_is m hs [] -> map_find (lit "content-length") hs = Some (print_dec (zlen body)) ->
  zlen body < size_limit -> (length body < fuel)%nat ->
  wp (response_parseBody fuel m) nothrow (fun '(r, m') b' => r = parse_ok /\ body_is m' hs body /\ rb_ok b') b.
Proof.
  intros Hok Hr Hm Hfind Hsz Hf. unfold response_parseBody, getHeaderValue_ulong. destruct Hm as [Hh Hrep].
  rewrite Hh, Hfind, stoul_print by (unfold size_limit, ULONG_MAX, zlen in *; lia). cbn [obind].
  rewrite Z.eqb_refl. apply wp_bind, wp_lift.
  apply (wp_parseLengthBody Halloc fuel m hs [] body []); [done | by rewrite app_nil_r | done | done | done].
Qed.

(** What a parser does with the body that follows a response head. *)
Definition body_reader_ok (hs : strmap) (body : str) : Prop :=
  forall fuel m b, rb_ok b -> rest b = body -> body_is m hs [] -> (2 * length body + 4 <= fuel)%nat ->
    wp (response_parseBody fuel m) nothrow (fun '(r, m') b' => r = parse_ok /\ body_is m' hs body /\ rb_ok b') b.

Lemma wp_response_parse fuel r r0 body b :
  responseline_ok (response_line_ r) -> headers_ok (headers_ (rmessage r)) -> headers_ (rmessage r) <> [] ->
  (if zlen body =? 0 then length_header_ok (headers_ (rmessage r))
   else hasBody (rmessage r) = Ok true /\ body_reader_ok (headers_ (rmessage r)) body) ->
  body_is (rmessage r0) [] [] -> rb_ok b -> rest b = response_head r ++ body -> (2 * length (rest b) + 12 <= fuel)%nat ->
  wp (response_parse fuel r0) nothrow
     (fun '(pr, r') b' => pr = parse_ok /\ response_line_ r' = response_line_ r /\
                          body_is (rmessage r') (headers_ (rmessage r)) body /\ rb_ok b') b.
Proof.
  intros Hl [Hs Hc] Hne Hbody [Hh0 Hrep0] Hok Hr Hf. unfold response_parse.
  unfold response_head in Hr. rewrite headers_asString_text, <- !app_assoc in Hr. cbn [app] in Hr.
  set (hs := headers_ (rmessage r)) in *. pose proof (printed_headers_ok hs Hc) as Hpo.
  destruct (headers_text_head (map printed_header hs) (charLF :: body) Hpo) as (c & k & Hck & _ & Hcr).
  rewrite Hck in Hr. apply wp_bind.
  eapply wp_mono; [eapply wp_responseline_parse; [exact Hl | done | exact Hr | lia]|].
  intros [pr l] b1 (-> & -> & Hok1 & Hr1). change (negb (pr_ok parse_ok)) with false. cbv iota.
  apply wp_bind. eapply wp_peek; [done..|]. rewrite Hcr. destruct hs as [|h hs'] eqn:Ehs; [done|]. rewrite <- Ehs in *.
  replace (match map printed_header hs with [] => true | _ => false end) with false by (by rewrite Ehs).
  rewrite <- Hck in Hr1.
  assert (length (rest b1) <= length (rest b))%nat as Hlen by (rewrite Hr, Hr1, Hck, length_app; lia).
  apply wp_bind. eapply wp_mono; [eapply (wp_parseHeaders fuel (map printed_header hs)); [done | by rewrite Ehs | done | exact Hr1 | lia]|].
  intros [pr1 m] b2 (-> & -> & Hok2 & Hr2). change (negb (pr_ok parse_ok)) with false. cbv iota.
  rewrite (fold_printed_headers hs (rmessage r0)) by (done || by rewrite Hh0). rewrite Hh0. cbn [app].
  apply wp_bind. eapply wp_peek; [done..|]. rewrite ascii_eqb_true. apply wp_bind.
  destruct body as [|x body].
  - change (zlen (@nil ascii) =? 0) with true in Hbody. cbv iota in Hbody.
    destruct (hasBody_total hs (mkHTTPMessage hs (body_ (rmessage r0))) eq_refl Hbody) as [has ->]. apply wp_lift.
    destruct has; [|by apply wp_ret]. apply wp_bind. apply wp_next_last; [done | by rewrite Hr2 |]. intros b3 Hok3 _. by apply wp_ret.
  - destruct (Z.eqb_spec (zlen (x :: body)) 0) as [E0|_]; [by apply zlen_nil in E0|]. destruct Hbody as [Hhas Hread].
    assert (hasBody (mkHTTPMessage hs (body_ (rmessage r0))) = Ok true) as -> by (rewrite <- Hhas; done).
    apply wp_lift. apply wp_bind. eapply wp_next; [done..|]. intros b3 Hok3 Hr3. apply wp_bind.
    eapply wp_mono; [apply (Hread fuel); [done | done | done |]|].
    + rewrite Hr1, !length_app in Hlen. simpl in *. lia.
    + intros [pr3 m3] b4 (-> & Hm3 & Hok4). by apply wp_ret.
Qed.

Lemma wp_close fuel m hs body b :
  rb_ok b -> rest b = body -> body <> [] -> body_is m hs [] -> zlen body < size_limit -> (length body < fuel)%nat ->
  wp (loop fuel close_body (parse_ok, m)) nothrow (fun m' b' => body_is m' hs body /\ rb_ok b') b.
Proof.
  intros Hok Hr Hne Hm Hsz Hf.
  apply wp_loop with
    (I := fun s b' => rb_ok b' /\ ((s.1 = parse_ok /\ rest b' <> [] /\ exists l, body_is s.2 hs l /\ l ++ rest b' = body) \/
                                    (pr_ok s.1 = false /\ body_is s.2 hs body)))
    (mu := fun s b' => if pr_ok s.1 then length (rest b') else 0%nat).
  - intros [pr m1] b1 (Hok1 & Hcase). cbn [fst snd] in *. unfold close_body. destruct Hcase as [(-> & Hne1 & l & Hm1 & Hl)|[Hpr Hm1]].
    + change (negb (pr_ok parse_ok)) with false. cbv iota. destruct (rest b1) as [|x k] eqn:Hr1; [done|].
      apply wp_bind. eapply wp_peek; [done..|]. apply wp_bind. eapply (wp_append_char Halloc); [done | |].
      { rewrite <- Hl, zlen_app, zlen_cons in Hsz. pose proof (zlen_nonneg k). lia. }
      intros m' Hm'. apply wp_bind. destruct k as [|y k].
      * apply wp_next_last; [done | by rewrite Hr1 |]. intros b2 Hok2 _. apply wp_ret. cbn [fst snd].
        split; [split; [done|]; right; split; [done | by rewrite <- Hl]|]. change (pr_ok parse_ok) with true. rewrite pr_ok_EAGAIN. simpl. lia.
      * eapply wp_next; [done..|]. intros b2 Hok2 Hr2. apply wp_ret. cbn [fst snd]. rewrite Hr2.
        split; [split; [done|]; left; split; [done|]; split; [done|]; exists (l ++ [x]); by rewrite <- app_assoc|].
        change (pr_ok (setSystemError parse_ok (ec_value ecOK))) with true. change (pr_ok parse_ok) with true. cbv iota. simpl. lia.
    + rewrite Hpr. by apply wp_ret.
  - split; [done|]. left. split; [done|]. cbn [snd]. rewrite Hr. split; [done|]. by exists [].
  - cbn [fst]. change (pr_ok parse_ok) with true. cbv iota. by rewrite Hr.
Qed.
End ReadingResponse.

(** ** Properties *)

(** How a response delimits its body: it has none; or content-length says how
    much; or connection: close says that it goes on to the end of the data. *)
Definition framed (hs : strmap) (body : str) : Prop :=
  (body = [] /\ length_header_ok hs) \/
  (body <> [] /\ map_find (lit "content-length") hs = Some (print_dec (zlen body))) \/
  (body <> [] /\ map_find (lit "content-length") hs = None /\ map_find (lit "transfer-encoding") hs = None /\
   map_find (lit "connection") hs = Some (lit "close")).

Lemma response_asString_text r body :
  rep (body_ (rmessage r)) body -> nul_free body = true -> response_asString r = Ok (response_head r ++ body).
Proof.
  intros Hrep Hnul. unfold response_asString, getSize. rewrite (rep_size _ _ Hrep).
  destruct body as [|c body]; [by rewrite app_nil_r|]. rewrite zlen_cons. pose proof (zlen_nonneg body).
  destruct (Z.ltb_spec 0 (zlen body + 1)); [|lia]. by rewrite (asString_rep _ _ Hrep Hnul).
Qed.

Lemma framed_readable {B} `{ReadBufferLaws B} `{Allocator} (m : HTTPMessage) body :
  (forall n, alloc_ok n = true) -> framed (headers_ m) body -> zlen body < size_limit ->
  if zlen body =? 0 then length_header_ok (headers_ m)
  else hasBody m = Ok true /\ body_reader_ok (B:=B) (headers_ m) body.
Proof.
  intros Ha Hfr Hsz. destruct Hfr as [[-> Hl]|Hfr]; [done|].
  assert (body <> []) as Hne by (destruct Hfr as [[? _]|[? _]]; done).
  destruct (Z.eqb_spec (zlen body) 0) as [E0|Hnz]; [by apply zlen_nil in E0|]. pose proof (zlen_nonneg body).
  destruct Hfr as [[_ Hcl]|(_ & Hcl & Hte & Hco)].
  - split.
    + unfold hasBody, getHeaderValue_ulong. rewrite Hcl, stoul_print by (unfold size_limit, ULONG_MAX in *; lia).
      cbn [obind]. rewrite Z.eqb_refl. destruct (Z.ltb_spec 0 (zlen body)); [done | lia].
    + intros fuel m' b Hok Hr Hm Hf. apply wp_response_length_body; (done || lia).
  - split; [unfold hasBody, getHeaderValue_ulong, getHeaderValue; by rewrite Hcl, Hte, Hco|].
    intros fuel m' b Hok Hr [Hh Hrep] Hf. unfold response_parseBody, getHeaderValue_ulong, getHeaderValue.
    rewrite Hh, Hcl, Hte, Hco. apply wp_bind, wp_lift. cbv iota beta. rewrite str_eqb_refl. apply wp_bind.
    eapply wp_mono; [apply (wp_close Ha fuel m' (headers_ m) body); [done | done | done | done | done | lia]|].
    intros m2 b2 [Hm2 Hok2]. by apply wp_ret.
Qed.

(** C2 Printing a response and parsing the text with a fresh response, from any buffer that
    delivers it, gives back the status line (any status code), the headers and the body.
    The response has at least one header, header names are lower-case tokens in order,
    their values have no line breaks or repeated spaces; the body has no zero octet and is
    absent, or announced by a content-length of its size, or sent under connection: close
    and ended by the buffer answering EAGAIN, as a receive timeout does (a peer that closes
    a plain socket does not end it, [read_until_close_never_ends]); allocations succeed. *)
Theorem response_round_trip {B} `{ReadBufferLaws B} `{Allocator} (r : HTTPResponse) (body : str) :
  (forall n, alloc_ok n = true) -> responseline_ok (response_line_ r) -> headers_ok (headers_ (rmessage r)) -> headers_ (rmessage r) <> [] ->
  rep (body_ (rmessage r)) body -> nul_free body = true -> zlen body < size_limit -> framed (headers_ (rmessage r)) body ->
  exists r0 text, HTTPResponse_new = Ok r0 /\ response_asString r = Ok text /\
    forall (b : B) fuel, rb_ok b -> rest b = text -> (2 * length text + 12 <= fuel)%nat ->
    exists r' b', response_parse fuel r0 b = Ok ((parse_ok, r'), b') /\ response_line_ r' = response_line_ r /\
      headers_ (rmessage r') = headers_ (rmessage r) /\ rep (body_ (rmessage r')) body.
Proof.
  intros Ha Hl Hh Hne Hrep Hnul Hsz Hfr. destruct (message_new Ha) as (m0 & Hnew & Hm0).
  exists (mkHTTPResponse HTTPResponseLine_new m0), (response_head r ++ body). split; [by unfold HTTPResponse_new; rewrite Hnew|].
  split; [by apply response_asString_text|]. intros b fuel Hok Hr Hf.
  destruct (wp_nothrow _ _ _ (wp_response_parse fuel r (mkHTTPResponse HTTPResponseLine_new m0) body b
              Hl Hh Hne (framed_readable (rmessage r) body Ha Hfr Hsz) Hm0 Hok Hr ltac:(by rewrite Hr)))
    as ([pr r'] & b' & Hrun & -> & Hline & [Hhd Hbd] & _).
  by exists r', b'.
Qed.

Definition demo_response : HTTPResponse :=
  mkHTTPResponse (mkResponseLine (mkHTTPVersion 1 1) 404)
    (mkHTTPMessage [(lit "connection", lit "close"); (lit "server", lit "dodo 1")] (bytes_of (lit "gone"))).

Lemma response_round_trip_witness :
  exists r0 text, @HTTPResponse_new always_alloc = Ok r0 /\ response_asString demo_response = Ok text /\
    forall (b : StringReadBuffer) fuel, rb_ok b -> rest b = text -> (2 * length text + 12 <= fuel)%nat ->
    exists r' b', @response_parse _ _ always_alloc fuel r0 b = Ok ((parse_ok, r'), b') /\ response_line_ r' = response_line_ demo_response /\
      headers_ (rmessage r') = headers_ (rmessage demo_response) /\ rep (body_ (rmessage r')) (lit "gone").
Proof.
  apply (@response_round_trip StringReadBuffer _ _ always_alloc demo_response (lit "gone"));
    [done | by vm_compute | | done | | reflexivity | reflexivity | right; right; split; [done | split_and!; reflexivity]].
  - split; [reflexivity|]. repeat constructor.
  - split; [|split; reflexivity]. by vm_compute.
Defined.

(** Parsing a response from a lawful buffer ends for every content of the buffer,
    within fuel linear in the number of characters. *)
Theorem response_parse_terminates {B} `{ReadBufferLaws B} `{Allocator} fuel r (b : B) :
  rb_ok b -> (2 * weight b + 12 <= fuel)%nat -> response_parse fuel r b <> OutOfFuel.
Proof. intros Hok Hf. by apply (tame_fuel _ (weight b)); [apply tame_response_parse | |]. Qed.

Lemma response_parse_terminates_witness :
  @response_parse StringReadBuffer _ always_alloc 60 demo_response (StringReadBuffer_new (lit "HTTP/1.1 2x0 OK")) <> OutOfFuel.
Proof.
  apply (@response_parse_terminates StringReadBuffer _ _ always_alloc 60 demo_response (StringReadBuffer_new (lit "HTTP/1.1 2x0 OK")));
    [by vm_compute | vm_compute; lia].
Defined.

(** The state of a socket buffer whose peer has closed, at the last octet read. *)
Definition drained (b : SocketReadBuffer) : Prop :=
  inbox (sock b) = [RecvEOF] /\ (exists c junk, kbuffer_ b = Some c :: junk) /\ kidx_ b = 0 /\ received_ b <= 1.

Lemma drained_step b : drained b -> exists c b', socket_get b = Ok c /\ socket_next b = Ok (ec_value ecOK, b') /\ drained b'.
Proof.
  intros (Hi & (c & junk & Hbuf) & Hk & Hr).
  unfold socket_get, socket_next, socket_underflow. cbn [received_ kidx_ sock kbufsize_ kbuffer_]. rewrite Hk, Hbuf.
  change (Z.to_nat 0) with 0%nat. change (0 + 1) with 1. destruct (Z.leb_spec (received_ b) 1); [|lia].
  unfold receive, sys_recv. rewrite Hi. eexists c, _. split; [done|]. split; [done|].
  unfold drained. cbn [inbox sock kbuffer_ kidx_ received_ map app length drop]. rewrite Hi. split; [done|].
  split; [by exists c, junk|]. split; [done|]. by vm_compute.
Qed.

(** C40 The read-until-close loop of [HTTPResponse::parseBody] does not end when the
    peer closes a plain socket: it keeps appending the last chunk's first octet, for
    every number of iterations up to the size limit of the body. *)
Theorem read_until_close_never_ends `{Allocator} fuel m hs l (b : SocketReadBuffer) :
  (forall n, alloc_ok n = true) -> body_is m hs l -> drained b -> zlen l + Z.of_nat fuel < size_limit ->
  loop fuel close_body (parse_ok, m) b = OutOfFuel.
Proof.
  intros Ha. revert m l b. induction fuel as [|f IH]; intros m l b Hm Hdr Hsz; [done|].
  destruct (drained_step b Hdr) as (c & b' & Hget & Hnext & Hdr').
  destruct (append_octet_rep (body_ m) l c (proj2 Hm) ltac:(lia) (Ha _)) as (by' & Happ & Hrep').
  cbn [loop]. unfold close_body at 1. change (negb (pr_ok parse_ok)) with false. cbv iota.
  unfold bind at 1 2 3 4, peek, lift, appendBody. cbn [get next SocketReadBuffer_ReadBuffer]. rewrite Hget, Happ.
  cbn [completed obind]. rewrite Hnext. cbn [Continue ret].
  apply (IH _ (l ++ [c])); [split; [by destruct Hm | done] | done | rewrite zlen_app; change (zlen [c]) with 1; lia].
Qed.

Definition closed_connection : SocketReadBuffer :=
  mkSocketReadBuffer (mkSocket 3 (inl true) (inl 8192) [RecvEOF] [] []) [Some "x"; None; None]%char 3 0 1 1.

Lemma read_until_close_never_ends_witness :
  @loop SocketReadBuffer _ _ 1000 (@close_body _ _ always_alloc) (parse_ok, rmessage demo_response) closed_connection = OutOfFuel.
Proof.
  apply (@read_until_close_never_ends always_alloc 1000 (rmessage demo_response) (headers_ (rmessage demo_response)) (lit "gone"));
    [done | | | reflexivity].
  - split; [done|]. split; [|split; reflexivity]. by vm_compute.
  - split; [reflexivity|]. split; [by eexists _, _|]. split; [reflexivity | discriminate].
Defined.

(** [HTTPResponse::send] puts exactly the text of the response on the wire. *)
Theorem response_send_writes_text fuel r body k :
  rep (body_ (rmessage r)) body -> nul_free body = true ->
  Forall progress (outbox k) -> (length (response_head r ++ body) < fuel)%nat ->
  exists text k1, response_asString r = Ok text /\
    response_send fuel r k = Ok (ec_value ecOK, k1) /\ wire_bytes k1 = wire_bytes k ++ text.
Proof.
  intros Hrep Hnul Hp Hf. rewrite length_app in Hf.
  assert (wp (response_send fuel r) nothrow
    (fun e k' => e = ec_value ecOK /\ wire_bytes k' = wire_bytes k ++ response_head r ++ body) k) as Hsend.
  { unfold response_send. apply wp_bind. eapply wp_mono; [apply send_all; [done | lia]|].
    intros e k' (-> & Hw & Hp' & _). change (negb (ok (ec_value ecOK))) with false. cbv iota.
    unfold getSize. rewrite (rep_size _ _ Hrep). destruct body as [|c body]; [apply wp_ret; by rewrite app_nil_r|].
    pose proof (zlen_nonneg body). rewrite zlen_cons. destruct (Z.ltb_spec 0 (zlen body + 1)); [|lia].
    rewrite (body_octets_rep _ _ Hrep). apply wp_bind, wp_lift.
    eapply wp_mono; [apply send_all; [done | lia]|]. intros e2 k2 (-> & Hw2 & _). by rewrite Hw2, Hw, <- app_assoc. }
  destruct (wp_nothrow _ _ _ Hsend) as (e1 & k1 & H1 & -> & Hw1).
  exists (response_head r ++ body), k1. split; [by apply response_asString_text | done].
Qed.

Lemma response_send_writes_text_witness :
  exists text k1, response_asString demo_response = Ok text /\
    response_send 200 demo_response (mkSocket 3 (inl true) (inl 8192) [] [SendAccept 10; SendAccept 3] []) = Ok (ec_value ecOK, k1) /\
    wire_bytes k1 = [] ++ text.
Proof.
  apply (response_send_writes_text 200 demo_response (lit "gone") (mkSocket 3 (inl true) (inl 8192) [] [SendAccept 10; SendAccept 3] []));
    [split; [by vm_compute | split; reflexivity] | reflexivity | repeat constructor | vm_compute; lia].
Defined.
