(* ===== verification/URI.v ===== *)
(** * URI: the URI parser

    Models [network::URI] (src/src/include/network/uri.hpp,
    src/src/lib/network/uri.cpp): the record of components, its text, the character
    classes and the parsing automaton.  Indices are [size_t] values bounded by the
    size of the string, kept as [nat].

    The automaton is a step function; [step_rel] is the relation of its running
    states, and [loop_of_steps] turns a derivation into a result of the loop. *)

From stdpp Require Import relations.
From S2P Require Import Prelude.
From S2P Require Import SystemError.
From S2P Require Import HTTPMessage.

Local Open Scope Z_scope.

(** ** Data *)

Record URI : Type := mkURI {
  scheme_ : str; userinfo_ : str; host_ : str; port_ : str; path_ : str; query_ : str; fragment_ : str
}.

Definition reset : URI := mkURI [] [] [] [] [] [] [].

Definition set_scheme (v : str) (u : URI) := mkURI v (userinfo_ u) (host_ u) (port_ u) (path_ u) (query_ u) (fragment_ u).
Definition set_userinfo (v : str) (u : URI) := mkURI (scheme_ u) v (host_ u) (port_ u) (path_ u) (query_ u) (fragment_ u).
Definition set_host (v : str) (u : URI) := mkURI (scheme_ u) (userinfo_ u) v (port_ u) (path_ u) (query_ u) (fragment_ u).
Definition set_port (v : str) (u : URI) := mkURI (scheme_ u) (userinfo_ u) (host_ u) v (path_ u) (query_ u) (fragment_ u).
Definition set_path (v : str) (u : URI) := mkURI (scheme_ u) (userinfo_ u) (host_ u) (port_ u) v (query_ u) (fragment_ u).
Definition set_query (v : str) (u : URI) := mkURI (scheme_ u) (userinfo_ u) (host_ u) (port_ u) (path_ u) v (fragment_ u).
Definition set_fragment (v : str) (u : URI) := mkURI (scheme_ u) (userinfo_ u) (host_ u) (port_ u) (path_ u) (query_ u) v.

(** [if ( v.size() ) ss << pre << v << post] *)
Definition when (v pre post : str) : str := match v with [] => [] | _ => pre ++ v ++ post end.

Definition uri_asString (u : URI) : str :=
  scheme_ u ++ lit ":" ++
  (match host_ u with [] => [] | _ => lit "//" end) ++
  when (userinfo_ u) [] (lit "@") ++
  when (host_ u) [] [] ++
  when (port_ u) (lit ":") [] ++
  path_ u ++
  when (query_ u) (lit "?") [] ++
  when (fragment_ u) (lit "#") [].

Definition uri_eqb (a b : URI) : bool :=
  str_eqb (scheme_ a) (scheme_ b) && str_eqb (userinfo_ a) (userinfo_ b) && str_eqb (host_ a) (host_ b) &&
  str_eqb (port_ a) (port_ b) && str_eqb (path_ a) (path_ b) && str_eqb (query_ a) (query_ b) &&
  str_eqb (fragment_ a) (fragment_ b).

Definition uri_neqb (a b : URI) : bool :=
  negb (str_eqb (scheme_ a) (scheme_ b)) || negb (str_eqb (userinfo_ a) (userinfo_ b)) || negb (str_eqb (host_ a) (host_ b)) ||
  negb (str_eqb (port_ a) (port_ b)) || negb (str_eqb (path_ a) (path_ b)) || negb (str_eqb (query_ a) (query_ b)) ||
  negb (str_eqb (fragment_ a) (fragment_ b)).

Definition uri_ltb (a b : URI) : bool :=
  let eqs := str_eqb (scheme_ a) (scheme_ b) in
  let equ := str_eqb (userinfo_ a) (userinfo_ b) in
  let eqh := str_eqb (host_ a) (host_ b) in
  let eqp := str_eqb (port_ a) (port_ b) in
  let eqpath := str_eqb (path_ a) (path_ b) in
  let eqq := str_eqb (query_ a) (query_ b) in
  str_ltb (scheme_ a) (scheme_ b) ||
  (eqs && str_ltb (userinfo_ a) (userinfo_ b)) ||
  (eqs && equ && str_ltb (host_ a) (host_ b)) ||
  (eqs && equ && eqh && str_ltb (port_ a) (port_ b)) ||
  (eqs && equ && eqh && eqp && str_ltb (path_ a) (path_ b)) ||
  (eqs && equ && eqh && eqp && eqpath && str_ltb (query_ a) (query_ b)) ||
  (eqs && equ && eqh && eqp && eqpath && eqq && str_ltb (fragment_ a) (fragment_ b)).

(** ** Character classes *)

Definition verifySchemeChar (c : ascii) : bool :=
  isalpha c || isdigit c || (c =c "+"%char) || (c =c "."%char) || (c =c "-"%char).

Definition verifyOctetChar (c : ascii) : bool :=
  isalpha c || isdigit c || (c =c "-"%char) || (c =c "."%char) || (c =c "_"%char) || (c =c "~"%char).

Definition verifyTCP6Char (c : ascii) : bool :=
  ((schar "a"%char <=? schar c) && (schar c <=? schar "f"%char)) ||
  ((schar "A"%char <=? schar c) && (schar c <=? schar "F"%char)) || isdigit c || (c =c ":"%char).

Definition verifyUserInfoHostChar (c : ascii) : bool :=
  verifyOctetChar c || (c =c "!"%char) || (c =c "$"%char) || (c =c "&"%char) || (c =c "'"%char) || (c =c "("%char) ||
  (c =c ")"%char) || (c =c "*"%char) || (c =c "+"%char) || (c =c ","%char) || (c =c ";"%char) || (c =c "="%char).

Definition verifyPathChar (c : ascii) : bool :=
  verifyUserInfoHostChar c || (c =c ":"%char) || (c =c "/"%char) || (c =c "@"%char).

Definition verifyQueryFragmentChar (c : ascii) : bool :=
  verifyUserInfoHostChar c || (c =c ":"%char) || (c =c "@"%char) || (c =c "/"%char) || (c =c "?"%char).

(** ** The automaton *)

Inductive ParseState : Type :=
| psSchemeStart | psSchemeEnd | psAuthorityStart | psUserInfoEnd | psHostStart | psHostEnd | psPortStart | psPortEnd
| psPathStart | psPathEnd | psQueryStart | psQueryEnd | psFragmentStart | psTCP6Start | psPCTEncoded | psError | psDone.

#[export] Instance ParseState_eq_dec : EqDecision ParseState.
Proof. solve_decision. Defined.

(** The local variables of [URI::parse] and the object. *)
Record vars : Type := mkVars {
  state : ParseState; prev_state : ParseState; return_state : ParseState; idx : nat; mark : nat; uri : URI
}.

(** [s[i]]: the terminating zero at [i == s.size()], undefined beyond. *)
Definition char_at (s : str) (i : nat) : outcome ascii :=
  match s !! i with
  | Some c => Ok c
  | None => if (i =? length s)%nat then Ok (chr 0) else Throw (UndefinedBehaviour (lit "string index out of range"))
  end.

(** [s.substr( pos, n )] *)
Definition substr (s : str) (pos n : nat) : outcome str :=
  if (length s <? pos)%nat then Throw std_out_of_range else Ok (take n (drop pos s)).

(** [state = psError] *)
Definition fail (v : vars) : outcome vars := Ok (mkVars psError psError (return_state v) (idx v) (mark v) (uri v)).
(** Assign [state], [idx] and [mark]; every iteration ends with [prev_state = state]. *)
Definition goto (st : ParseState) (i m : nat) (v : vars) : outcome vars :=
  Ok (mkVars st st (return_state v) i m (uri v)).
(** [return_state = state; state = psPCTEncoded] *)
Definition escape (v : vars) : outcome vars := Ok (mkVars psPCTEncoded psPCTEncoded (state v) (idx v) (mark v) (uri v)).
(** [idx++] *)
Definition advance (v : vars) : outcome vars := goto (state v) (S (idx v)) (mark v) v.
Definition with_uri (f : URI -> URI) (v : vars) : vars :=
  mkVars (state v) (prev_state v) (return_state v) (idx v) (mark v) (f (uri v)).

Definition scheme_step (s : str) (v : vars) : outcome vars :=
  let! c := char_at s (idx v) in
  if negb (bool_decide (prev_state v = psSchemeStart)) && negb (isalpha c) then fail v
  else if c =c ":"%char then goto psSchemeEnd (idx v) (mark v) v
  else if negb (verifySchemeChar c) then fail v else advance v.

Definition scheme_end_step (s : str) (v : vars) : outcome vars :=
  let! w := substr s (mark v) (idx v - mark v) in
  let v1 := with_uri (set_scheme w) v in
  let i := S (idx v) in
  let! c := char_at s i in
  if c =c "/"%char then
    let! d := char_at s (S i) in
    if d =c "/"%char then goto psAuthorityStart (S (S i)) (S (S i)) v1
    else goto psError (S i) (mark v) v1
  else goto psPathStart i i v1.

Definition authority_step (s : str) (v : vars) : outcome vars :=
  let! c := char_at s (idx v) in
  if c =c "@"%char then goto psUserInfoEnd (idx v) (mark v) v
  else if c =c "/"%char then goto psHostEnd (idx v) (mark v) v
  else if c =c ":"%char then goto psHostEnd (idx v) (mark v) v
  else if c =c "["%char then goto psTCP6Start (S (idx v)) (mark v) v
  else if c =c "%"%char then escape v
  else if verifyUserInfoHostChar c then advance v else fail v.

Definition userinfo_end_step (s : str) (v : vars) : outcome vars :=
  if (mark v <? idx v)%nat then
    let! w := substr s (mark v) (idx v - mark v) in
    goto psHostStart (S (idx v)) (S (idx v)) (with_uri (set_userinfo w) v)
  else fail v.

Definition host_step (s : str) (v : vars) : outcome vars :=
  let! c := char_at s (idx v) in
  if c =c "["%char then goto psTCP6Start (S (idx v)) (mark v) v
  else if (c =c ":"%char) || (c =c "/"%char) then goto psHostEnd (idx v) (mark v) v
  else if verifyUserInfoHostChar c then advance v
  else if c =c "%"%char then escape v else fail v.

Definition tcp6_step (s : str) (v : vars) : outcome vars :=
  let! c := char_at s (idx v) in
  if c =c "]"%char then goto psHostEnd (S (idx v)) (mark v) v
  else if verifyTCP6Char c then advance v else fail v.

Definition host_end_step (s : str) (v : vars) : outcome vars :=
  if (mark v <? idx v)%nat then
    let! w := substr s (mark v) (idx v - mark v) in
    let v1 := with_uri (set_host w) v in
    let! c := char_at s (idx v) in
    if c =c ":"%char then goto psPortStart (S (idx v)) (S (idx v)) v1
    else goto psPathStart (idx v) (idx v) v1
  else fail v.

Definition port_step (s : str) (v : vars) : outcome vars :=
  let! c := char_at s (idx v) in
  if negb (isdigit c) then goto psPortEnd (idx v) (mark v) v else advance v.

Definition port_end_step (s : str) (v : vars) : outcome vars :=
  if (mark v <? idx v)%nat then
    let! w := substr s (mark v) (idx v - mark v) in
    goto psPathStart (idx v) (idx v) (with_uri (set_port w) v)
  else fail v.

Definition path_step (s : str) (v : vars) : outcome vars :=
  let! c := char_at s (idx v) in
  if c =c "?"%char then goto psPathEnd (idx v) (mark v) v
  else if c =c "#"%char then goto psPathEnd (idx v) (mark v) v
  else if verifyPathChar c then advance v
  else if c =c "%"%char then escape v else fail v.

Definition path_end_step (s : str) (v : vars) : outcome vars :=
  if (mark v <? idx v)%nat then
    let! w := substr s (mark v) (idx v - mark v) in
    let v1 := with_uri (set_path w) v in
    let! c := char_at s (idx v) in
    let st := if c =c "?"%char then psQueryStart else if c =c "#"%char then psFragmentStart else psPathEnd in
    goto st (S (idx v)) (S (idx v)) v1
  else fail v.

Definition query_step (s : str) (v : vars) : outcome vars :=
  let! c := char_at s (idx v) in
  if c =c "#"%char then goto psQueryEnd (idx v) (mark v) v
  else if verifyQueryFragmentChar c then advance v
  else if c =c "%"%char then escape v else fail v.

Definition query_end_step (s : str) (v : vars) : outcome vars :=
  if (mark v <? idx v)%nat then
    let! w := substr s (mark v) (idx v - mark v) in
    goto psFragmentStart (S (idx v)) (S (idx v)) (with_uri (set_query w) v)
  else fail v.

Definition fragment_step (s : str) (v : vars) : outcome vars :=
  let! c := char_at s (idx v) in
  if verifyQueryFragmentChar c then advance v
  else if c =c "%"%char then escape v else fail v.

(** [idx < s.size() && std::isxdigit( s[idx] )] *)
Definition xdigit_at (s : str) (i : nat) : outcome bool :=
  if (i <? length s)%nat then let! c := char_at s i in Ok (isxdigit c) else Ok false.

Definition pct_step (s : str) (v : vars) : outcome vars :=
  let! c := char_at s (idx v) in
  if c =c "%"%char then
    let i := S (idx v) in
    let! x := xdigit_at s i in
    if x : bool then
      let! y := xdigit_at s (S i) in
      if y : bool then goto (return_state v) (S (S i)) (mark v) v
      else goto psError (S i) (mark v) v
    else goto psError i (mark v) v
  else fail v.

(** One iteration of the [switch]. *)
Definition uri_step (s : str) (v : vars) : outcome vars :=
  match state v with
  | psSchemeStart => scheme_step s v
  | psSchemeEnd => scheme_end_step s v
  | psAuthorityStart => authority_step s v
  | psUserInfoEnd => userinfo_end_step s v
  | psHostStart => host_step s v
  | psTCP6Start => tcp6_step s v
  | psHostEnd => host_end_step s v
  | psPortStart => port_step s v
  | psPortEnd => port_end_step s v
  | psPathStart => path_step s v
  | psPathEnd => path_end_step s v
  | psQueryStart => query_step s v
  | psQueryEnd => query_end_step s v
  | psFragmentStart => fragment_step s v
  | psPCTEncoded => pct_step s v
  | psError | psDone => advance v
  end.

(** [state != psDone && state != psError && idx < s.size()] *)
Definition running (s : str) (v : vars) : bool :=
  match state v with psDone | psError => false | _ => (idx v <? length s)%nat end.

Fixpoint uri_loop (fuel : nat) (s : str) (v : vars) : outcome vars :=
  match fuel with
  | O => OutOfFuel
  | S f => if running s v then let! v' := uri_step s v in uri_loop f s v' else Ok v
  end.

(** What follows the loop: the component that was being read is completed. *)
Definition uri_finish (s : str) (v : vars) : outcome URI :=
  let rest_of_s := substr s (mark v) (length s - mark v) in
  match state v with
  | psAuthorityStart => let! w := rest_of_s in Ok (set_host w (uri v))
  | psPathStart => let! w := rest_of_s in Ok (set_path w (uri v))
  | psQueryStart => let! w := rest_of_s in Ok (set_query w (uri v))
  | psFragmentStart => let! w := rest_of_s in Ok (set_fragment w (uri v))
  | _ => Ok (uri v)
  end.

(** [URI::parse( s, idx )]: the result, the object and [idx]. *)
Definition uri_parse (fuel : nat) (s : str) : outcome (bool * URI * nat) :=
  let! v := uri_loop fuel s (mkVars psSchemeStart psError psError 0 0 reset) in
  let! u := uri_finish s v in
  Ok (negb (bool_decide (state v = psError)), u, idx v).

(** ** Safety and termination *)

Definition rank (st : ParseState) : nat :=
  match st with
  | psSchemeStart => 15 | psSchemeEnd => 14 | psAuthorityStart => 13 | psUserInfoEnd => 12 | psHostStart => 11
  | psTCP6Start => 10 | psHostEnd => 9 | psPortStart => 8 | psPortEnd => 7 | psPathStart => 6 | psPathEnd => 5
  | psQueryStart => 4 | psQueryEnd => 3 | psFragmentStart => 2 | psPCTEncoded => 1 | psError | psDone => 0
  end.

Definition vars_ok (s : str) (v : vars) : Prop := (mark v <= idx v <= length s)%nat.
Definition measure (s : str) (v : vars) : nat := (16 * (length s - idx v) + rank (state v))%nat.

Lemma char_at_lt s i : (i < length s)%nat -> exists c, char_at s i = Ok c /\ s !! i = Some c.
Proof. intros Hi. unfold char_at. destruct (lookup_lt_is_Some_2 s i Hi) as [c ->]. eauto. Qed.

(** [s[i]] is defined up to and including the end, and a non-zero character is inside. *)
Lemma char_at_le s i : (i <= length s)%nat -> exists c, char_at s i = Ok c /\ (c = chr 0 \/ (i < length s)%nat).
Proof.
  intros Hi. destruct (decide (i < length s)%nat) as [Hlt|Hge].
  - destruct (char_at_lt s i Hlt) as (c & -> & _). eauto.
  - unfold char_at. rewrite lookup_ge_None_2 by lia. destruct (Nat.eqb_spec i (length s)); [eauto | lia].
Qed.

Lemma substr_le s p n : (p <= length s)%nat -> substr s p n = Ok (take n (drop p s)).
Proof. intros Hp. unfold substr. destruct (Nat.ltb_spec (length s) p); [lia | done]. Qed.

Lemma xdigit_at_total s i : exists x, xdigit_at s i = Ok x /\ (x = true -> (i < length s)%nat).
Proof.
  unfold xdigit_at. destruct (Nat.ltb_spec i (length s)) as [Hi|Hi]; [|by exists false].
  destruct (char_at_lt s i Hi) as (c & -> & _). simpl. eauto.
Qed.

(** Goals of the form [exists v', Ok _ = Ok v' /\ ...] left by one branch of a step. *)
Ltac branch := eexists; split; [reflexivity|]; unfold vars_ok, measure, running in *; cbn in *; split; lia.

Lemma uri_step_progress s v :
  running s v = true -> vars_ok s v ->
  exists v', uri_step s v = Ok v' /\ vars_ok s v' /\ (measure s v' < measure s v)%nat.
Proof.
  intros Hrun Hok. destruct v as [st pv rt i m u]. unfold running in Hrun. cbn [state idx] in Hrun.
  assert (i < length s)%nat as Hi by (destruct st; done || by apply Nat.ltb_lt).
  assert (m <= i)%nat as Hm by (unfold vars_ok in Hok; simpl in Hok; lia).
  destruct (char_at_lt s i Hi) as (c & Hc & _).
  assert (vars_ok s (mkVars st pv rt i m u)) as Hok' by done. clear Hok.
  unfold uri_step. destruct st; cbn [state]; try done.
  - unfold scheme_step. cbn [idx]. rewrite Hc. cbn [obind]. repeat case_bool; branch.
  - unfold scheme_end_step. cbn [idx mark]. rewrite substr_le by lia. cbn [obind].
    destruct (char_at_le s (S i) ltac:(lia)) as (d & -> & Hd). cbn [obind].
    destruct (Ascii.eqb_spec d "/"%char) as [->|_]; [|branch]. destruct Hd as [?|Hd]; [done|].
    destruct (char_at_le s (S (S i)) ltac:(lia)) as (e & -> & He). cbn [obind].
    destruct (Ascii.eqb_spec e "/"%char) as [->|_]; [|branch]. destruct He as [?|He]; [done | branch].
  - unfold authority_step. cbn [idx]. rewrite Hc. cbn [obind]. repeat case_bool; branch.
  - unfold userinfo_end_step. cbn [idx mark]. case_bool; [rewrite substr_le by lia; cbn [obind]|]; branch.
  - unfold host_step. cbn [idx]. rewrite Hc. cbn [obind]. repeat case_bool; branch.
  - unfold host_end_step. cbn [idx mark]. case_bool; [|branch]. rewrite substr_le by lia. cbn [obind].
    rewrite Hc. cbn [obind]. case_bool; branch.
  - unfold port_step. cbn [idx]. rewrite Hc. cbn [obind]. repeat case_bool; branch.
  - unfold port_end_step. cbn [idx mark]. case_bool; [rewrite substr_le by lia; cbn [obind]|]; branch.
  - unfold path_step. cbn [idx]. rewrite Hc. cbn [obind]. repeat case_bool; branch.
  - unfold path_end_step. cbn [idx mark]. case_bool; [|branch]. rewrite substr_le by lia. cbn [obind].
    rewrite Hc. cbn [obind]. repeat case_bool; branch.
  - unfold query_step. cbn [idx]. rewrite Hc. cbn [obind]. repeat case_bool; branch.
  - unfold query_end_step. cbn [idx mark]. case_bool; [rewrite substr_le by lia; cbn [obind]|]; branch.
  - unfold fragment_step. cbn [idx]. rewrite Hc. cbn [obind]. repeat case_bool; branch.
  - unfold tcp6_step. cbn [idx]. rewrite Hc. cbn [obind]. repeat case_bool; branch.
  - unfold pct_step. cbn [idx mark return_state]. rewrite Hc. cbn [obind]. case_bool; [|branch].
    destruct (xdigit_at_total s (S i)) as (x & -> & Hx). cbn [obind]. destruct x; [|branch]. specialize (Hx eq_refl).
    destruct (xdigit_at_total s (S (S i))) as (y & -> & Hy). cbn [obind]. destruct y; [|branch]. specialize (Hy eq_refl).
    eexists. split; [reflexivity|]. unfold vars_ok, measure in *. cbn in *. split; [lia|]. destruct rt; cbn; lia.
Qed.

Lemma uri_loop_total s fuel v :
  vars_ok s v -> (measure s v < fuel)%nat ->
  exists v', uri_loop fuel s v = Ok v' /\ vars_ok s v' /\ running s v' = false.
Proof.
  revert v. induction fuel as [|f IH]; intros v Hok Hf; [lia|]. simpl. destruct (running s v) eqn:Hrun; [|by exists v].
  destruct (uri_step_progress s v Hrun Hok) as (v1 & -> & Hok1 & Hlt). cbn [obind]. apply IH; [done | lia].
Qed.

Lemma uri_finish_total s v : vars_ok s v -> exists u, uri_finish s v = Ok u.
Proof.
  intros Hok. unfold uri_finish, vars_ok in *. rewrite substr_le by lia. cbn [obind]. destruct (state v); eauto.
Qed.

(** ** The step relation *)

Definition step_rel (s : str) (v v' : vars) : Prop := running s v = true /\ uri_step s v = Ok v'.

Lemma loop_of_steps s v v' fuel :
  rtc (step_rel s) v v' -> running s v' = false -> vars_ok s v -> (measure s v < fuel)%nat -> uri_loop fuel s v = Ok v'.
Proof.
  intros Hsteps Hend. revert fuel. induction Hsteps as [v|v v1 v' [Hrun Hstep] _ IH]; intros fuel Hok Hf.
  - destruct fuel; [lia|]. simpl. by rewrite Hend.
  - destruct fuel as [|f]; [lia|]. simpl. rewrite Hrun, Hstep. cbn [obind].
    destruct (uri_step_progress s v Hrun Hok) as (v2 & Hstep2 & Hok2 & Hlt). rewrite Hstep in Hstep2. simplify_eq.
    apply IH; [done | done | lia].
Qed.

(** ** Reading well-formed components *)

(** Characters of a class and, if [esc], percent-encoded octets. *)
Fixpoint pct_ok (esc : bool) (P : ascii -> bool) (w : str) : bool :=
  match w with
  | [] => true
  | c :: t =>
      if c =c "%"%char then
        match t with a :: b :: t' => esc && isxdigit a && isxdigit b && pct_ok esc P t' | _ => false end
      else P c && pct_ok esc P t
  end.

Lemma lookup_mid (pre post : str) c : (pre ++ c :: post) !! length pre = Some c.
Proof. by rewrite lookup_app_r, Nat.sub_diag by lia. Qed.

Lemma char_at_mid pre post c : char_at (pre ++ c :: post) (length pre) = Ok c.
Proof. unfold char_at. by rewrite lookup_mid. Qed.

Lemma char_at_Some s i c : s !! i = Some c -> char_at s i = Ok c.
Proof. unfold char_at. by intros ->. Qed.

Lemma substr_mid pre w post n : n = length w -> substr (pre ++ w ++ post) (length pre) n = Ok w.
Proof.
  intros ->. rewrite substr_le by (rewrite length_app; lia). f_equal.
  by rewrite drop_app_length, take_app_length.
Qed.

(** A percent-encoded octet returns to the state it interrupted. *)
Lemma pct_step_ok pre post c a b X pv m u :
  (c =c "%"%char) = true -> isxdigit a = true -> isxdigit b = true ->
  pct_step (pre ++ c :: a :: b :: post) (mkVars psPCTEncoded pv X (length pre) m u) =
  Ok (mkVars X X X (length pre + 3) m u).
Proof.
  intros Hc Ha Hb. unfold pct_step. cbn [idx return_state mark]. rewrite char_at_mid. cbn [obind]. rewrite Hc.
  assert (forall k x, (k < 3)%nat -> [c; a; b] !! k = Some x ->
            char_at (pre ++ c :: a :: b :: post) (length pre + k) = Ok x /\
            (length pre + k < length (pre ++ c :: a :: b :: post))%nat) as Hat.
  { intros k x Hk Hx. split; [|rewrite length_app; simpl; lia]. apply char_at_Some.
    rewrite lookup_app_r by lia. replace (length pre + k - length pre)%nat with k by lia.
    destruct k as [|[|[|k]]]; done || lia. }
  destruct (Hat 1%nat a ltac:(lia) eq_refl) as [H1 L1]. destruct (Hat 2%nat b ltac:(lia) eq_refl) as [H2 L2].
  rewrite <- Nat.add_1_r. replace (S (length pre + 1)) with (length pre + 2)%nat by lia. unfold xdigit_at.
  apply Nat.ltb_lt in L1 as ->. apply Nat.ltb_lt in L2 as ->. rewrite H1, H2. cbn [obind]. rewrite Ha, Hb.
  unfold goto. cbn [return_state uri]. by replace (S (length pre + 2)) with (length pre + 3)%nat by lia.
Qed.

Section Reach.
Context (s : str).

(** Whatever [prev_state] and [return_state] hold, the automaton gets from one
    configuration to another. *)
Definition reach (X : ParseState) (i m : nat) (u : URI) (Y : ParseState) (j n : nat) (w : URI) : Prop :=
  forall pv rt, exists pv' rt', rtc (step_rel s) (mkVars X pv rt i m u) (mkVars Y pv' rt' j n w).

(** The automaton consumes the whole text and ends with the components [w]. *)
Definition finishes (X : ParseState) (i m : nat) (u w : URI) : Prop :=
  forall pv rt, exists v', rtc (step_rel s) (mkVars X pv rt i m u) v' /\ state v' <> psError /\ idx v' = length s /\
                           uri_finish s v' = Ok w.

Lemma reach_trans X i m u Y j n w Z k o x : reach X i m u Y j n w -> reach Y j n w Z k o x -> reach X i m u Z k o x.
Proof.
  intros H1 H2 pv rt. destruct (H1 pv rt) as (pv1 & rt1 & S1). destruct (H2 pv1 rt1) as (pv2 & rt2 & S2).
  exists pv2, rt2. by etrans.
Qed.

Lemma reach_finishes X i m u Y j n w x : reach X i m u Y j n w -> finishes Y j n w x -> finishes X i m u x.
Proof.
  intros H1 H2 pv rt. destruct (H1 pv rt) as (pv1 & rt1 & S1). destruct (H2 pv1 rt1) as (v' & S2 & Hq).
  exists v'. split; [by etrans | done].
Qed.

(** The automaton ends in its error state. *)
Definition rejects (X : ParseState) (i m : nat) (u : URI) : Prop :=
  forall pv rt, exists v', rtc (step_rel s) (mkVars X pv rt i m u) v' /\ state v' = psError.

Lemma reach_rejects X i m u Y j n w : reach X i m u Y j n w -> rejects Y j n w -> rejects X i m u.
Proof.
  intros H1 H2 pv rt. destruct (H1 pv rt) as (pv1 & rt1 & S1). destruct (H2 pv1 rt1) as (v' & S2 & Hq).
  exists v'. split; [by etrans | done].
Qed.

(** The end of the text in a state that completes no component. *)
Lemma reach_ends X i m u Y n w x :
  reach X i m u Y (length s) n w -> Y <> psError -> (forall pv rt, uri_finish s (mkVars Y pv rt (length s) n w) = Ok x) -> finishes X i m u x.
Proof. intros H1 HY Hx pv rt. destruct (H1 pv rt) as (pv1 & rt1 & S1). eexists. by split_and!. Qed.

Definition live (X : ParseState) : Prop := X <> psError /\ X <> psDone.

Lemma live_running X pv rt i m u : live X -> (i < length s)%nat -> running s (mkVars X pv rt i m u) = true.
Proof. intros [H1 H2] Hi. unfold running. cbn. destruct X; (done || by apply Nat.ltb_lt). Qed.

Lemma reach_step X i m u Y j n w :
  live X -> (i < length s)%nat ->
  (forall pv rt, exists pv' rt', uri_step s (mkVars X pv rt i m u) = Ok (mkVars Y pv' rt' j n w)) ->
  reach X i m u Y j n w.
Proof.
  intros Hl Hi Hs pv rt. destruct (Hs pv rt) as (pv' & rt' & E). exists pv', rt'. apply rtc_once.
  split; [by apply live_running | done].
Qed.

Lemma rejects_step X i m u :
  live X -> (i < length s)%nat -> (forall pv rt, exists v', uri_step s (mkVars X pv rt i m u) = Ok v' /\ state v' = psError) -> rejects X i m u.
Proof.
  intros Hl Hi Hs pv rt. destruct (Hs pv rt) as (v' & E & Hst). exists v'. split; [|done]. apply rtc_once. split; [by apply live_running | done].
Qed.

(** A state that consumes the characters of a class and sends [%] to psPCTEncoded. *)
Definition scans (X : ParseState) (esc : bool) (P : ascii -> bool) : Prop :=
  live X /\ forall pv rt i m u c, s !! i = Some c ->
    (P c = true -> (c =c "%"%char) = false -> uri_step s (mkVars X pv rt i m u) = Ok (mkVars X X rt (S i) m u)) /\
    (esc = true -> (c =c "%"%char) = true -> uri_step s (mkVars X pv rt i m u) = Ok (mkVars psPCTEncoded psPCTEncoded X i m u)).

Lemma reach_scan X esc P m u w pre post :
  scans X esc P -> s = pre ++ w ++ post -> pct_ok esc P w = true ->
  reach X (length pre) m u X (length pre + length w) m u.
Proof.
  intros [Hlive Hscan]. remember (length w) as n eqn:Hn. revert w pre Hn.
  induction n as [n IH] using lt_wf_ind. intros w pre -> Hs Hw. destruct w as [|c t].
  { intros pv rt. exists pv, rt. simpl. by rewrite Nat.add_0_r. }
  assert (s !! length pre = Some c) as Hc by (rewrite Hs; apply lookup_mid).
  assert (length pre < length s)%nat as Hlt by (rewrite Hs, length_app; simpl; lia).
  simpl in Hw. destruct (c =c "%"%char) eqn:Epct.
  - destruct t as [|a [|b t]]; [done..|]. rewrite !andb_true_iff in Hw. destruct Hw as [[[-> Ha] Hb] Ht].
    assert (reach X (length pre) m u X (length (pre ++ [c; a; b])) m u) as Hesc.
    { intros pv rt. exists X, X. rewrite length_app. simpl length.
      eapply rtc_l; [split; [by apply live_running | by apply (Hscan pv rt _ m u _ Hc)]|].
      apply rtc_once. split; [by apply live_running|]. rewrite Hs. by apply pct_step_ok. }
    eapply reach_trans; [exact Hesc|]. replace (length pre + _)%nat with (length (pre ++ [c; a; b]) + length t)%nat
      by (rewrite length_app; simpl; lia).
    apply (IH (length t)) with (w := t); [simpl; lia | done | by rewrite Hs, <- app_assoc | done].
  - apply andb_true_iff in Hw as [HP Ht].
    eapply reach_trans.
    { apply (reach_step X _ _ _ X (length (pre ++ [c])) m u); [done | done|]. intros pv rt. eexists _, _.
      rewrite length_app, Nat.add_1_r. by apply (Hscan pv rt _ m u _ Hc). }
    replace (length pre + _)%nat with (length (pre ++ [c]) + length t)%nat by (rewrite length_app; simpl; lia).
    apply (IH (length t)) with (w := t); [simpl; lia | done | by rewrite Hs, <- app_assoc | done].
Qed.
End Reach.

Section Components.
Context (s : str).

Lemma scans_intro X esc P f :
  live X -> (forall v, state v = X -> uri_step s v = (let! c := char_at s (idx v) in f c v)) ->
  (forall c v, P c = true -> (c =c "%"%char) = false -> f c v = advance v) ->
  (forall c v, esc = true -> (c =c "%"%char) = true -> f c v = escape v) -> scans s X esc P.
Proof.
  intros Hl Hstep Hadv Hesc. split; [done|]. intros pv rt i m u c Hc.
  rewrite Hstep by done. cbn [idx]. rewrite (char_at_Some _ _ _ Hc). cbn [obind].
  split; [intros HP Hn; by rewrite Hadv | intros He Hp; by rewrite Hesc].
Qed.

Ltac classes P H :=
  repeat match goal with
  | |- context [?c =c ?k] => rewrite (ascii_class_ne P c k H) by reflexivity
  end.

Lemma scans_authority : scans s psAuthorityStart true verifyUserInfoHostChar.
Proof.
  eapply scans_intro; [done | intros v Hv; unfold uri_step, authority_step; rewrite Hv; reflexivity | |].
  - intros c v HP _. cbv beta. classes verifyUserInfoHostChar HP. by rewrite HP.
  - intros c v _ Hc. apply Ascii.eqb_eq in Hc as ->. reflexivity.
Qed.

Lemma scans_host : scans s psHostStart true verifyUserInfoHostChar.
Proof.
  eapply scans_intro; [done | intros v Hv; unfold uri_step, host_step; rewrite Hv; reflexivity | |].
  - intros c v HP _. cbv beta. classes verifyUserInfoHostChar HP. by rewrite HP.
  - intros c v _ Hc. apply Ascii.eqb_eq in Hc as ->. reflexivity.
Qed.

Lemma scans_tcp6 : scans s psTCP6Start false verifyTCP6Char.
Proof.
  eapply scans_intro; [done | intros v Hv; unfold uri_step, tcp6_step; rewrite Hv; reflexivity | |done].
  intros c v HP _. cbv beta. classes verifyTCP6Char HP. by rewrite HP.
Qed.

Lemma scans_port : scans s psPortStart false isdigit.
Proof.
  eapply scans_intro; [done | intros v Hv; unfold uri_step, port_step; rewrite Hv; reflexivity | |done].
  intros c v HP _. cbv beta. by rewrite HP.
Qed.

Lemma scans_path : scans s psPathStart true verifyPathChar.
Proof.
  eapply scans_intro; [done | intros v Hv; unfold uri_step, path_step; rewrite Hv; reflexivity | |].
  - intros c v HP _. cbv beta. classes verifyPathChar HP. by rewrite HP.
  - intros c v _ Hc. apply Ascii.eqb_eq in Hc as ->. reflexivity.
Qed.

Lemma scans_query : scans s psQueryStart true verifyQueryFragmentChar.
Proof.
  eapply scans_intro; [done | intros v Hv; unfold uri_step, query_step; rewrite Hv; reflexivity | |].
  - intros c v HP _. cbv beta. classes verifyQueryFragmentChar HP. by rewrite HP.
  - intros c v _ Hc. apply Ascii.eqb_eq in Hc as ->. reflexivity.
Qed.

Lemma scans_fragment : scans s psFragmentStart true verifyQueryFragmentChar.
Proof.
  eapply scans_intro; [done | intros v Hv; unfold uri_step, fragment_step; rewrite Hv; reflexivity | |].
  - intros c v HP _. cbv beta. by rewrite HP.
  - intros c v _ Hc. apply Ascii.eqb_eq in Hc as ->. reflexivity.
Qed.

(** The last component: what was scanned to the end of the text is taken. *)
Lemma finishes_last X esc P u u' w pre :
  scans s X esc P -> s = pre ++ w -> pct_ok esc P w = true -> X <> psError ->
  (forall pv rt, uri_finish s (mkVars X pv rt (length s) (length pre) u) =
                 (let! x := substr s (length pre) (length s - length pre) in Ok (u' x))) ->
  finishes s X (length pre) (length pre) u (u' w).
Proof.
  intros Hsc Hs Hw HX Hfin pv rt.
  destruct (reach_scan s X esc P (length pre) u w pre [] Hsc ltac:(by rewrite app_nil_r) Hw pv rt) as (pv' & rt' & Hst).
  replace (length pre + length w)%nat with (length s) in Hst by (by rewrite Hs, length_app).
  eexists. split; [exact Hst|]. split; [done|]. split; [done|]. rewrite Hfin.
  rewrite Hs at 1. rewrite <- (app_nil_r w) at 1. rewrite substr_mid by (rewrite Hs, length_app; lia). done.
Qed.

Lemma set_query_nil u : query_ u = [] -> set_query [] u = u.
Proof. destruct u. cbn. by intros ->. Qed.

Lemma finishes_fragment u f pre :
  s = pre ++ f -> pct_ok true verifyQueryFragmentChar f = true ->
  finishes s psFragmentStart (length pre) (length pre) u (set_fragment f u).
Proof. intros Hs Hf. by apply (finishes_last _ true verifyQueryFragmentChar u (fun x => set_fragment x u)); [apply scans_fragment | | | |]. Qed.

Lemma finishes_query u q f pre :
  s = pre ++ q ++ when f (lit "#") [] -> q <> [] -> fragment_ u = [] ->
  pct_ok true verifyQueryFragmentChar q = true -> pct_ok true verifyQueryFragmentChar f = true ->
  finishes s psQueryStart (length pre) (length pre) u (set_fragment f (set_query q u)).
Proof.
  intros Hs Hne Hfr Hq Hf. destruct f as [|c f].
  - simpl in Hs. rewrite app_nil_r in Hs. replace (set_fragment [] (set_query q u)) with (set_query q u).
    + by apply (finishes_last _ true verifyQueryFragmentChar u (fun x => set_query x u)); [apply scans_query | | | |].
    + destruct u; simpl in *; by subst.
  - unfold when in Hs. rewrite app_nil_r in Hs. cbn [app list_ascii_of_string] in Hs.
    assert (length s = length pre + length q + S (S (length f)))%nat as Hlen by (rewrite Hs, !length_app; simpl; lia).
    assert (0 < length q)%nat as Hq0 by (destruct q; [done | simpl; lia]).
    assert (s !! (length pre + length q)%nat = Some "#"%char) as Hat.
    { rewrite Hs, app_assoc, <- length_app. apply lookup_mid. }
    eapply reach_finishes; [eapply (reach_scan s psQueryStart _ _ _ u q pre); [apply scans_query | exact Hs | done]|].
    eapply reach_finishes; [apply (reach_step s _ _ _ _ psQueryEnd (length pre + length q) (length pre) u); [done | lia|]|].
    { intros pv rt. eexists _, _. unfold uri_step, query_step. cbn [state idx]. rewrite (char_at_Some _ _ _ Hat). reflexivity. }
    eapply reach_finishes; [apply (reach_step s _ _ _ _ psFragmentStart (S (length pre + length q)) (S (length pre + length q)) (set_query q u)); [done | lia|]|].
    { intros pv rt. eexists _, _. unfold uri_step, query_end_step. cbn [state idx mark].
      destruct (Nat.ltb_spec (length pre) (length pre + length q)); [|lia].
      rewrite Hs at 1. rewrite substr_mid by lia. reflexivity. }
    replace (S (length pre + length q)) with (length (pre ++ q ++ ["#"%char])) by (rewrite !length_app; simpl; lia).
    apply finishes_fragment; [|done]. by rewrite Hs, <- !app_assoc.
Qed.

(** From the path on. *)
Lemma finishes_path u p q f pre :
  s = pre ++ p ++ when q (lit "?") [] ++ when f (lit "#") [] ->
  (p <> [] \/ (q = [] /\ f = [])) -> query_ u = [] -> fragment_ u = [] -> pct_ok true verifyPathChar p = true ->
  pct_ok true verifyQueryFragmentChar q = true -> pct_ok true verifyQueryFragmentChar f = true ->
  finishes s psPathStart (length pre) (length pre) u (set_fragment f (set_query q (set_path p u))).
Proof.
  intros Hs Hp Hqu Hfu Hpc Hqc Hfc.
  assert (forall x t, s = pre ++ p ++ x :: t -> (x =c "?"%char) || (x =c "#"%char) = true -> p <> [] ->
    reach s psPathStart (length pre) (length pre) u (if x =c "?"%char then psQueryStart else psFragmentStart)
      (length (pre ++ p ++ [x])) (length (pre ++ p ++ [x])) (set_path p u)) as Hend.
  { intros x t Hx Hxc Hne.
    assert (length s = length pre + length p + S (length t))%nat as Hlen by (rewrite Hx, !length_app; simpl; lia).
    assert (0 < length p)%nat as Hp0 by (destruct p; [done | simpl; lia]).
    assert (s !! (length pre + length p)%nat = Some x) as Hat.
    { rewrite Hx, app_assoc, <- length_app. apply lookup_mid. }
    replace (length (pre ++ p ++ [x])) with (S (length pre + length p)) by (rewrite !length_app; simpl; lia).
    eapply reach_trans; [eapply (reach_scan s psPathStart _ _ _ u p pre); [apply scans_path | exact Hx | done]|].
    eapply reach_trans; [apply (reach_step s _ _ _ _ psPathEnd (length pre + length p) (length pre) u); [done | lia|]|].
    { intros pv rt. eexists _, _. unfold uri_step, path_step. cbn [state idx]. rewrite (char_at_Some _ _ _ Hat). cbn [obind].
      apply orb_true_iff in Hxc as [->|Hh]; [reflexivity|]. rewrite Hh. by case_bool. }
    apply reach_step; [done | lia|]. intros pv rt.
    exists (if x =c "?"%char then psQueryStart else psFragmentStart), rt. unfold uri_step, path_end_step. cbn [state idx mark].
    destruct (Nat.ltb_spec (length pre) (length pre + length p)); [|lia].
    rewrite Hx at 1. rewrite substr_mid by lia. cbn [obind]. rewrite (char_at_Some _ _ _ Hat). cbn [obind].
    destruct (x =c "?"%char); [done|]. simpl in Hxc. by rewrite Hxc. }
  destruct q as [|cq q].
  - destruct f as [|cf f].
    + simpl in Hs. rewrite app_nil_r in Hs. replace (set_fragment _ _) with (set_path p u) by (destruct u; simpl in *; by subst).
      by apply (finishes_last _ true verifyPathChar u (fun x => set_path x u)); [apply scans_path | | | |].
    + destruct Hp as [Hp|[_ ?]]; [|done]. unfold when in Hs. rewrite app_nil_r in Hs. cbn [app list_ascii_of_string] in Hs.
      eapply reach_finishes; [by apply (Hend "#"%char (cf :: f) Hs)|]. cbn [Ascii.eqb Bool.eqb].
      rewrite set_query_nil by done.
      apply finishes_fragment; [|done]. by rewrite Hs, <- !app_assoc.
  - destruct Hp as [Hp|[? _]]; [|done]. unfold when in Hs at 1. rewrite app_nil_r in Hs. cbn [app list_ascii_of_string] in Hs.
    rewrite <- ?app_comm_cons in Hs.
    eapply reach_finishes; [by eapply (Hend "?"%char _ Hs)|]. cbn [Ascii.eqb Bool.eqb].
    apply (finishes_query (set_path p u) (cq :: q)); [|done..]. rewrite Hs, <- !app_assoc. done.
Qed.
(** An empty path cannot be followed by a query or a fragment. *)
Lemma rejects_empty_path u c t pre :
  s = pre ++ c :: t -> (c =c "?"%char) || (c =c "#"%char) = true -> rejects s psPathStart (length pre) (length pre) u.
Proof.
  intros Hs Hc. assert (length pre < length s)%nat as Hlt by (rewrite Hs, length_app; simpl; lia).
  assert (s !! length pre = Some c) as Hat by (rewrite Hs; apply lookup_mid).
  eapply reach_rejects; [apply (reach_step s _ _ _ _ psPathEnd (length pre) (length pre) u); [done | done|]|].
  - intros pv rt. eexists _, _. unfold uri_step, path_step. cbn [state idx]. rewrite (char_at_Some _ _ _ Hat). cbn [obind].
    apply orb_true_iff in Hc as [->|Hh]; [reflexivity|]. rewrite Hh. by case_bool.
  - apply rejects_step; [done | done|]. intros pv rt. eexists. unfold uri_step, path_end_step. cbn [state idx mark].
    by rewrite Nat.ltb_irrefl.
Qed.
End Components.

(** ** Authorities *)

Definition host_plain (h : str) : Prop := h <> [] /\ pct_ok true verifyUserInfoHostChar h = true.
Definition host_bracketed (h : str) : Prop :=
  exists a, h = "["%char :: a ++ ["]"%char] /\ pct_ok false verifyTCP6Char a = true.
Definition host_ok (h : str) : Prop := host_plain h \/ host_bracketed h.

Section Authority.
Context (s : str).

(** The two states that read a host agree on what ends it. *)
Definition reads_host (X : ParseState) : Prop := X = psAuthorityStart \/ X = psHostStart.

Lemma reads_host_scans X : reads_host X -> scans s X true verifyUserInfoHostChar.
Proof. intros [ -> | -> ]; [apply scans_authority | apply scans_host]. Qed.

Lemma reads_host_step X pv rt i m u c :
  reads_host X -> s !! i = Some c ->
  ((c =c ":"%char) || (c =c "/"%char) = true -> exists pv' rt', uri_step s (mkVars X pv rt i m u) = Ok (mkVars psHostEnd pv' rt' i m u)) /\
  ((c =c "["%char) = true -> exists pv' rt', uri_step s (mkVars X pv rt i m u) = Ok (mkVars psTCP6Start pv' rt' (S i) m u)).
Proof.
  intros [ -> | -> ] Hc; unfold uri_step, authority_step, host_step; cbn [state idx]; rewrite (char_at_Some _ _ _ Hc); cbn [obind];
    (split; [intros E; apply orb_true_iff in E as [E|E] | intros E]; apply Ascii.eqb_eq in E as ->; by eexists _, _).
Qed.

(** A host is read up to its end; a bracketed one whatever follows, a plain one up to the
    colon of a port or the slash of a path. *)
Lemma reach_host X u h t pre :
  reads_host X -> s = pre ++ h ++ t ->
  host_bracketed h \/ (host_plain h /\ exists c t', t = c :: t' /\ (c =c ":"%char) || (c =c "/"%char) = true) ->
  reach s X (length pre) (length pre) u psHostEnd (length pre + length h) (length pre) u.
Proof.
  intros HX Hs Hh. assert (live X) as Hl by (by destruct HX as [ -> | -> ]).
  assert (length s = length pre + length h + length t)%nat as Hlen by (rewrite Hs, !length_app; lia).
  destruct Hh as [(a & Ha & Hp)|([Hne Hp] & c & t' & -> & Hc)].
  - subst h. cbn [length] in *. rewrite length_app in *. cbn [length] in *.
    assert (s !! length pre = Some "["%char) as H0 by (rewrite Hs; apply lookup_mid).
    assert (s = (pre ++ ["["%char]) ++ a ++ "]"%char :: t) as Hs2 by (by rewrite Hs, <- !app_assoc; cbn; rewrite <- !app_assoc).
    assert (length (pre ++ ["["%char]) = S (length pre)) as L1 by (rewrite length_app; simpl; lia).
    eapply reach_trans.
    { apply (reach_step s X _ _ _ psTCP6Start (S (length pre)) (length pre) u); [done | lia|]. intros pv rt.
      by apply (reads_host_step X pv rt _ _ u _ HX H0). }
    rewrite <- L1 at 1.
    eapply reach_trans; [eapply (reach_scan s psTCP6Start _ _ _ u a _ _); [apply scans_tcp6 | exact Hs2 | done]|].
    apply reach_step; [done | lia|]. intros pv rt. eexists _, _. unfold uri_step, tcp6_step. cbn [state idx].
    rewrite (char_at_Some s _ "]"%char) by (rewrite Hs2, (app_assoc (pre ++ _) a), <- length_app; apply lookup_mid).
    cbn [obind]. rewrite ascii_eqb_true. unfold goto. by replace (S (length (pre ++ ["["%char]) + length a)) with
      (length pre + S (length a + 1))%nat by lia.
  - assert (s !! (length pre + length h)%nat = Some c) as Hat by (rewrite Hs, app_assoc, <- length_app; apply lookup_mid).
    eapply reach_trans; [eapply (reach_scan s X _ _ _ u h pre); [by apply reads_host_scans | exact Hs | done]|].
    apply reach_step; [done | simpl in Hlen; lia|]. intros pv rt. by apply (reads_host_step X pv rt _ _ u c HX Hat).
Qed.

(** The host is taken, and what follows it decides. *)
Lemma reach_host_end u h c t pre :
  s = pre ++ h ++ c :: t -> h <> [] ->
  reach s psHostEnd (length pre + length h) (length pre) u (if c =c ":"%char then psPortStart else psPathStart)
    (length (pre ++ h ++ (if c =c ":"%char then [c] else []))) (length (pre ++ h ++ (if c =c ":"%char then [c] else []))) (set_host h u).
Proof.
  intros Hs Hne. assert (0 < length h)%nat as Hh0 by (destruct h; [done | simpl; lia]).
  apply reach_step; [done | rewrite Hs, !length_app; simpl; lia|]. intros pv rt. exists (if c =c ":"%char then psPortStart else psPathStart), rt. unfold uri_step, host_end_step. cbn [state idx mark].
  destruct (Nat.ltb_spec (length pre) (length pre + length h)); [|lia]. rewrite Hs at 1. rewrite substr_mid by lia. cbn [obind].
  rewrite (char_at_Some s _ c) by (rewrite Hs, app_assoc, <- length_app; apply lookup_mid). cbn [obind].
  unfold goto. destruct (c =c ":"%char); rewrite !length_app; cbn [length return_state with_uri uri]; [|by rewrite Nat.add_0_r].
  by replace (length pre + (length h + 1))%nat with (S (length pre + length h)) by lia.
Qed.

Lemma digits_pct_ok w : forallb isdigit w = true -> pct_ok false isdigit w = true.
Proof.
  induction w as [|x w IH]; [done|]. cbn [forallb pct_ok]. intros [Hx Hw]%andb_true_iff.
  rewrite (ascii_class_ne isdigit x "%"%char), Hx by done. by apply IH.
Qed.

(** The port is taken at the character that follows it. *)
Lemma reach_port u d port c t pre :
  s = pre ++ (d :: port) ++ c :: t -> forallb isdigit (d :: port) = true -> isdigit c = false ->
  reach s psPortStart (length pre) (length pre) u psPathStart (length (pre ++ d :: port)) (length (pre ++ d :: port)) (set_port (d :: port) u).
Proof.
  intros Hs Hdig Hc. set (w := d :: port) in *. rewrite length_app.
  assert (s !! (length pre + length w)%nat = Some c) as Hat by (rewrite Hs, app_assoc, <- length_app; apply lookup_mid).
  assert (length pre + length w < length s)%nat as Hlt by (rewrite Hs, !length_app; simpl; lia).
  eapply reach_trans; [eapply (reach_scan s psPortStart _ _ _ _ w pre); [apply scans_port | exact Hs | by apply digits_pct_ok]|].
  eapply reach_trans; [apply (reach_step s _ _ _ _ psPortEnd (length pre + length w) (length pre) u); [done | done|]|].
  { intros pv rt. eexists _, _. unfold uri_step, port_step. cbn [state idx]. rewrite (char_at_Some _ _ _ Hat). cbn [obind]. by rewrite Hc. }
  apply reach_step; [done | done|]. intros pv rt. eexists _, _. unfold uri_step, port_end_step. cbn [state idx mark].
  destruct (Nat.ltb_spec (length pre) (length pre + length w)) as [_|Hbad]; [|simpl in Hbad; lia].
  rewrite Hs at 1. rewrite substr_mid by lia. reflexivity.
Qed.

(** From the host up to the path, or to what stands in its place. *)
Lemma reach_path X u h port c t pre :
  reads_host X -> host_ok h -> forallb isdigit port = true -> port_ u = [] ->
  s = pre ++ h ++ when port (lit ":") [] ++ c :: t ->
  isdigit c = false -> (c =c ":"%char) = false -> (c =c "/"%char) = true \/ host_bracketed h \/ port <> [] ->
  let pre' := pre ++ h ++ when port (lit ":") [] in
  reach s X (length pre) (length pre) u psPathStart (length pre') (length pre') (set_port port (set_host h u)).
Proof.
  intros HX Hh Hport Hpu Hs Hd Hc Hend pre'. assert (h <> []) as Hne by (by destruct Hh as [[? _]|(a & -> & _)]).
  destruct port as [|d port].
  - cbn [when app] in Hs. unfold pre'. cbn [when]. rewrite app_nil_r.
    eapply reach_trans.
    + eapply (reach_host X u h (c :: t)); [done | done|]. destruct Hh as [Hh|Hh]; [|by left]. destruct Hend as [Hend|[?|?]]; [|by left|done].
      right. split; [done|]. exists c, t. split; [done|]. by rewrite Hend, orb_true_r.
    + replace (set_port [] (set_host h u)) with (set_host h u) by (destruct u; simpl in *; by subst).
      pose proof (reach_host_end u h c t pre Hs Hne) as Hr. by rewrite Hc, app_nil_r in Hr.
  - assert (when (d :: port) (lit ":") [] = ":"%char :: d :: port) as Hw by (unfold when; by rewrite app_nil_r).
    unfold pre'. rewrite Hw in *. cbn [app] in Hs.
    eapply reach_trans; [eapply (reach_host X u h _ pre HX Hs); destruct Hh as [Hh|Hh]; [right; split; [done|]; by eexists _, _ | by left]|].
    eapply reach_trans; [exact (reach_host_end u h ":"%char _ pre Hs Hne)|]. rewrite ascii_eqb_true.
    replace (pre ++ h ++ ":"%char :: d :: port) with ((pre ++ h ++ [":"%char]) ++ d :: port) by (by rewrite <- !app_assoc).
    apply (reach_port (set_host h u) d port c t); [by rewrite Hs, <- !app_assoc | done | done].
Qed.

(** The user info, if there is one. *)
Lemma reach_userinfo u ui t pre :
  pct_ok true verifyUserInfoHostChar ui = true -> userinfo_ u = [] -> s = pre ++ when ui [] (lit "@") ++ t ->
  let pre' := pre ++ when ui [] (lit "@") in
  reach s psAuthorityStart (length pre) (length pre) u (match ui with [] => psAuthorityStart | _ => psHostStart end)
    (length pre') (length pre') (set_userinfo ui u).
Proof.
  intros Hui Huu Hs pre'. destruct ui as [|x ui].
  - replace (set_userinfo [] u) with u by (destruct u; simpl in *; by subst). unfold pre'. cbn [when]. rewrite app_nil_r.
    intros pv rt. by exists pv, rt.
  - assert (when (x :: ui) [] (lit "@") = (x :: ui) ++ ["@"%char]) as Hw by done. unfold pre'.
    rewrite Hw in *. rewrite <- app_assoc in Hs. clear Hw pre'. set (w := x :: ui) in *.
    assert (s !! (length pre + length w)%nat = Some "@"%char) as Hat by (rewrite Hs, app_assoc, <- length_app; apply lookup_mid).
    assert (length pre + length w < length s)%nat as Hlt by (rewrite Hs, !length_app; simpl; lia).
    eapply reach_trans; [eapply (reach_scan s psAuthorityStart _ _ _ u w pre); [apply scans_authority | exact Hs | done]|].
    eapply reach_trans; [apply (reach_step s _ _ _ _ psUserInfoEnd (length pre + length w) (length pre) u); [done | done|]|].
    { intros pv rt. eexists _, _. unfold uri_step, authority_step. cbn [state idx]. rewrite (char_at_Some _ _ _ Hat). reflexivity. }
    replace (length (pre ++ w ++ ["@"%char])) with (S (length pre + length w)) by (rewrite !length_app; simpl; lia).
    apply reach_step; [done | done|]. intros pv rt. eexists _, _. unfold uri_step, userinfo_end_step. cbn [state idx mark].
    destruct (Nat.ltb_spec (length pre) (length pre + length w)) as [_|Hbad]; [|simpl in Hbad; lia].
    rewrite Hs at 1. rewrite substr_mid by lia. reflexivity.
Qed.

(** *** Behind the host: a path, nothing, or a query or fragment without a path *)

Lemma finishes_host X u h port p q f pre :
  reads_host X -> host_ok h -> forallb isdigit port = true ->
  s = pre ++ h ++ when port (lit ":") [] ++ ("/"%char :: p) ++ when q (lit "?") [] ++ when f (lit "#") [] ->
  port_ u = [] -> query_ u = [] -> fragment_ u = [] -> pct_ok true verifyPathChar p = true ->
  pct_ok true verifyQueryFragmentChar q = true -> pct_ok true verifyQueryFragmentChar f = true ->
  finishes s X (length pre) (length pre) u
    (set_fragment f (set_query q (set_path ("/"%char :: p) (set_port port (set_host h u))))).
Proof.
  intros HX Hh Hport Hs Hpu Hqu Hfu Hp Hq Hf.
  eapply reach_finishes; [eapply (reach_path X u h port "/"%char); [done | done | done | done | exact Hs | done | done | by left]|].
  apply finishes_path; [by rewrite Hs, <- !app_assoc | by left | done..].
Qed.

Lemma rejects_host X u h port c t pre :
  reads_host X -> host_ok h -> forallb isdigit port = true -> port_ u = [] ->
  s = pre ++ h ++ when port (lit ":") [] ++ c :: t -> (c =c "?"%char) || (c =c "#"%char) = true ->
  rejects s X (length pre) (length pre) u.
Proof.
  intros HX Hh Hport Hpu Hs Hc.
  assert (isdigit c = false /\ (c =c ":"%char) = false /\ (c =c "/"%char) = false /\ (c =c "["%char) = false /\ (c =c "@"%char) = false /\
          (c =c "%"%char) = false /\ verifyUserInfoHostChar c = false) as (H1 & H2 & H3 & H4 & H5 & H6 & H7).
  { apply orb_true_iff in Hc as [Hc|Hc]; apply Ascii.eqb_eq in Hc as ->; by split_and!. }
  assert (host_bracketed h \/ port <> [] \/ (host_plain h /\ port = [])) as Hcase.
  { destruct Hh as [Hh|Hh]; [|by left]. destruct port; [by right; right | by right; left]. }
  assert (host_bracketed h \/ port <> [] -> rejects s X (length pre) (length pre) u) as Hpath.
  { intros Hb. eapply reach_rejects; [eapply (reach_path X u h port c t); try done; by right|].
    eapply (rejects_empty_path s _ c t); [by rewrite Hs, <- !app_assoc | done]. }
  destruct Hcase as [Hb|[Hb|[[Hne Hb] ->]]]; [apply Hpath; by left | apply Hpath; by right|].
  assert (s !! (length pre + length h)%nat = Some c) as Hat by (rewrite Hs, app_assoc, <- length_app; apply lookup_mid).
  eapply reach_rejects; [eapply (reach_scan s X _ _ _ u h pre); [by apply reads_host_scans | exact Hs | done]|].
  apply rejects_step; [by destruct HX as [ -> | -> ] | rewrite Hs, !length_app; simpl; lia|]. intros pv rt. eexists.
  destruct HX as [ -> | -> ]; unfold uri_step, authority_step, host_step; cbn [state idx]; rewrite (char_at_Some _ _ _ Hat); cbn [obind];
    by rewrite ?H2, ?H3, ?H4, ?H5, ?H6, ?H7.
Qed.

(** What the parser makes of a host at the end of the text: only a plain host that it
    reads in the first state of an authority is kept. *)
Definition host_kept (X : ParseState) (h port : str) (u : URI) : URI :=
  match port, h, X with
  | _ :: _, _, _ => set_host h u
  | [], c :: _, psAuthorityStart => if c =c "["%char then u else set_host h u
  | _, _, _ => u
  end.

Lemma finishes_authority_end X u h port pre :
  reads_host X -> host_ok h -> forallb isdigit port = true -> s = pre ++ h ++ when port (lit ":") [] ->
  finishes s X (length pre) (length pre) u (host_kept X h port u).
Proof.
  intros HX Hh Hport Hs. assert (h <> []) as Hne by (by destruct Hh as [[? _]|(a & -> & _)]). destruct port as [|d port].
  - cbn [when] in Hs. destruct Hh as [[_ Hp]|Hb].
    + assert (exists c h', h = c :: h' /\ (c =c "["%char) = false) as (c & h' & Eh & Hc).
      { destruct h as [|c h']; [done|]. exists c, h'. split; [done|]. cbn [pct_ok] in Hp. destruct (c =c "["%char) eqn:E; [|done].
        apply Ascii.eqb_eq in E as ->. done. }
      assert (s = pre ++ h) as Hs' by (by rewrite app_nil_r in Hs). destruct HX as [ -> | -> ].
      * unfold host_kept. rewrite Eh, Hc, <- Eh.
        by apply (finishes_last s _ true verifyUserInfoHostChar u (fun x => set_host x u)); [apply scans_authority | | | |].
      * assert (host_kept psHostStart h [] u = u) as -> by (by destruct h).
        eapply (reach_ends s _ _ _ _ psHostStart (length pre) u u); [|done|by intros].
        replace (length s) with (length pre + length h)%nat by (by rewrite Hs', length_app).
        eapply (reach_scan s psHostStart _ _ _ u h pre []); [apply scans_host | done | done].
    + pose proof Hb as (a & Ea & _). unfold host_kept. rewrite Ea. rewrite ascii_eqb_true.
      replace (match X with psAuthorityStart => u | _ => u end) with u by (by destruct X).
      eapply (reach_ends s _ _ _ _ psHostEnd); [|done|by intros].
      replace (length s) with (length pre + length h)%nat by (by rewrite Hs, app_nil_r, length_app).
      eapply (reach_host X u h [] pre); [done | done | by left].
  - assert (when (d :: port) (lit ":") [] = ":"%char :: d :: port) as Hw by (unfold when; by rewrite app_nil_r). rewrite Hw in Hs.
    unfold host_kept.
    eapply reach_finishes; [eapply (reach_host X u h _ pre HX Hs); destruct Hh as [Hh|Hh]; [right; split; [done|]; by eexists _, _ | by left]|].
    eapply reach_finishes; [exact (reach_host_end u h ":"%char _ pre Hs Hne)|]. rewrite ascii_eqb_true.
    eapply (reach_ends s _ _ _ _ psPortStart); [|done|by intros].
    replace (length s) with (length (pre ++ h ++ [":"%char]) + length (d :: port))%nat by (rewrite Hs, !length_app; simpl; lia).
    eapply (reach_scan s psPortStart _ _ _ _ (d :: port) _ []); [apply scans_port | by rewrite Hs, <- !app_assoc, app_nil_r | by apply digits_pct_ok].
Qed.
End Authority.

(** ** Schemes *)

Definition scheme_ok (w : str) : Prop := exists c t, w = c :: t /\ isalpha c = true /\ forallb verifySchemeChar t = true.

Section Scheme.
Context (s : str).

Lemma scheme_scan u w pre post rt :
  s = pre ++ w ++ post -> forallb verifySchemeChar w = true ->
  rtc (step_rel s) (mkVars psSchemeStart psSchemeStart rt (length pre) 0 u)
                   (mkVars psSchemeStart psSchemeStart rt (length pre + length w) 0 u).
Proof.
  revert pre. induction w as [|c w IH]; intros pre Hs Hw; [simpl; by rewrite Nat.add_0_r|].
  simpl in Hw. apply andb_true_iff in Hw as [Hc Hw].
  assert (s !! length pre = Some c) as Hat by (rewrite Hs; apply lookup_mid).
  assert (length pre < length s)%nat as Hlt by (rewrite Hs, length_app; simpl; lia).
  eapply rtc_l.
  { split; [apply live_running; done|]. unfold uri_step, scheme_step. cbn [state idx prev_state].
    rewrite (char_at_Some _ _ _ Hat). cbn [obind]. rewrite bool_decide_eq_true_2 by done. cbn [negb andb].
    rewrite (ascii_class_ne verifySchemeChar c ":"%char), Hc by done. reflexivity. }
  unfold advance, goto. cbn [state idx mark return_state uri].
  replace (S (length pre)) with (length (pre ++ [c])) by (rewrite length_app; simpl; lia).
  replace (length pre + length (c :: w))%nat with (length (pre ++ [c]) + length w)%nat by (rewrite length_app; simpl; lia).
  apply IH; [by rewrite Hs, <- app_assoc | done].
Qed.

(** The scheme and its colon, from the start of the text. *)
Lemma scheme_steps w t :
  s = w ++ ":"%char :: t -> scheme_ok w ->
  rtc (step_rel s) (mkVars psSchemeStart psError psError 0 0 reset) (mkVars psSchemeEnd psSchemeEnd psError (length w) 0 reset).
Proof.
  intros Hs (c & r & -> & Hc & Hr).
  assert (length s = S (length r) + S (length t))%nat as Hlen by (rewrite Hs, length_app; simpl; lia).
  eapply rtc_l.
  { split; [apply live_running; [done | lia]|]. unfold uri_step, scheme_step. cbn [state idx prev_state].
    rewrite (char_at_Some s 0 c) by (by rewrite Hs). cbn [obind]. rewrite Hc, andb_false_r.
    rewrite (ascii_class_ne isalpha c ":"%char) by done.
    assert (verifySchemeChar c = true) as -> by (unfold verifySchemeChar; by rewrite Hc). reflexivity. }
  unfold advance, goto. cbn [state idx mark return_state uri]. eapply rtc_r.
  { apply (scheme_scan reset r [c] (":"%char :: t)); [by rewrite Hs | done]. }
  split; [apply live_running; [done | simpl; lia]|]. unfold uri_step, scheme_step. cbn [state idx prev_state].
  rewrite (char_at_Some s (length [c] + length r) ":"%char).
  - cbn [obind]. rewrite bool_decide_eq_true_2 by done. reflexivity.
  - rewrite Hs. change (length [c] + length r)%nat with (length (c :: r)). apply lookup_mid.
Qed.

Lemma scheme_end_authority w t pv rt :
  s = w ++ lit "://" ++ t ->
  step_rel s (mkVars psSchemeEnd pv rt (length w) 0 reset)
    (mkVars psAuthorityStart psAuthorityStart rt (length (w ++ lit "://")) (length (w ++ lit "://")) (set_scheme w reset)).
Proof.
  intros Hs. assert (length s = length w + 3 + length t)%nat as Hlen by (rewrite Hs, !length_app; simpl; lia).
  split; [apply live_running; [done | lia]|]. unfold uri_step, scheme_end_step. cbn [state idx mark].
  assert (substr s 0 (length w - 0) = Ok w) as ->.
  { rewrite Hs. apply (substr_mid [] w). lia. }
  cbn [obind].
  rewrite (char_at_Some s (S (length w)) "/"%char) by (rewrite Hs, lookup_app_r by lia; by replace (S (length w) - length w)%nat with 1%nat by lia).
  cbn [obind]. rewrite ascii_eqb_true.
  rewrite (char_at_Some s (S (S (length w))) "/"%char) by (rewrite Hs, lookup_app_r by lia; by replace (S (S (length w)) - length w)%nat with 2%nat by lia).
  cbn [obind]. rewrite ascii_eqb_true. unfold goto. rewrite length_app. cbn [length list_ascii_of_string].
  by replace (length w + 3)%nat with (S (S (S (length w)))) by lia.
Qed.

Lemma scheme_end_path w t pv rt :
  s = w ++ ":"%char :: t -> match t with c :: _ => (c =c "/"%char) = false | [] => True end ->
  step_rel s (mkVars psSchemeEnd pv rt (length w) 0 reset)
    (mkVars psPathStart psPathStart rt (length (w ++ [":"%char])) (length (w ++ [":"%char])) (set_scheme w reset)).
Proof.
  intros Hs Ht. assert (length s = length w + S (length t))%nat as Hlen by (rewrite Hs, !length_app; simpl; lia).
  split; [apply live_running; [done | lia]|]. unfold uri_step, scheme_end_step. cbn [state idx mark].
  assert (substr s 0 (length w - 0) = Ok w) as ->.
  { rewrite Hs. apply (substr_mid [] w). lia. }
  cbn [obind]. rewrite length_app. cbn [length]. rewrite Nat.add_1_r. destruct t as [|c t].
  - unfold char_at. rewrite lookup_ge_None_2 by (simpl in Hlen; lia).
    destruct (Nat.eqb_spec (S (length w)) (length s)) as [_|Hbad]; [reflexivity | simpl in Hlen; lia].
  - rewrite (char_at_Some s (S (length w)) c) by (rewrite Hs, lookup_app_r by lia; by replace (S (length w) - length w)%nat with 1%nat by lia).
    cbn [obind]. by rewrite Ht.
Qed.

(** The automaton, run to the end of the text, is the parser. *)
Lemma uri_parse_finishes fuel X pv rt i m u w :
  rtc (step_rel s) (mkVars psSchemeStart psError psError 0 0 reset) (mkVars X pv rt i m u) ->
  finishes s X i m u w -> (16 * length s + 16 <= fuel)%nat ->
  uri_parse fuel s = Ok (true, w, length s).
Proof.
  intros H1 Hfin Hf. destruct (Hfin pv rt) as (v' & H2 & Hst & Hidx & Hw).
  assert (running s v' = false) as Hend.
  { unfold running. rewrite Hidx, Nat.ltb_irrefl. by destruct (state v'). }
  unfold uri_parse. rewrite (loop_of_steps s _ v' fuel); [| by etrans | done | unfold vars_ok; simpl; lia | unfold measure; simpl; lia].
  cbn [obind]. rewrite Hw. cbn [obind]. by rewrite bool_decide_eq_false_2, Hidx.
Qed.
Lemma uri_parse_rejects fuel X pv rt i m u :
  rtc (step_rel s) (mkVars psSchemeStart psError psError 0 0 reset) (mkVars X pv rt i m u) ->
  rejects s X i m u -> (16 * length s + 16 <= fuel)%nat -> exists w j, uri_parse fuel s = Ok (false, w, j).
Proof.
  intros H1 Hrej Hf. destruct (Hrej pv rt) as (v' & H2 & Hst). assert (vars_ok s (mkVars psSchemeStart psError psError 0 0 reset)) as Hok0 by (unfold vars_ok; simpl; lia).
  assert (running s v' = false) as Hend by (unfold running; by rewrite Hst). unfold uri_parse.
  rewrite (loop_of_steps s _ v' fuel); [| by etrans | done | done | unfold measure; simpl; lia]. cbn [obind].
  unfold uri_finish. rewrite Hst. cbn [obind]. rewrite bool_decide_eq_true_2 by done. by eexists _, _.
Qed.

(** A path that starts with a slash, without an authority. *)
Lemma scheme_rejects w t :
  s = w ++ ":"%char :: "/"%char :: t -> match t with c :: _ => (c =c "/"%char) = false | [] => True end ->
  rejects s psSchemeEnd (length w) 0 reset.
Proof.
  intros Hs Ht. assert (length s = length w + S (S (length t)))%nat as Hlen by (rewrite Hs, !length_app; simpl; lia).
  apply rejects_step; [done | lia|]. intros pv rt. eexists. unfold uri_step, scheme_end_step. cbn [state idx mark].
  assert (substr s 0 (length w - 0) = Ok w) as -> by (rewrite Hs; apply (substr_mid [] w); lia). cbn [obind].
  rewrite (char_at_Some s (S (length w)) "/"%char) by (rewrite Hs, lookup_app_r by lia; by replace (S (length w) - length w)%nat with 1%nat by lia).
  cbn [obind]. rewrite ascii_eqb_true. destruct t as [|c t].
  - unfold char_at. rewrite lookup_ge_None_2 by (simpl in Hlen; lia).
    destruct (Nat.eqb_spec (S (S (length w))) (length s)) as [_|Hbad]; [split; reflexivity | simpl in Hlen; lia].
  - rewrite (char_at_Some s (S (S (length w))) c) by (rewrite Hs, lookup_app_r by lia; by replace (S (S (length w)) - length w)%nat with 2%nat by lia).
    cbn [obind]. rewrite Ht. split; reflexivity.
Qed.
End Scheme.

(** ** Properties *)

(** The well-formed URIs of RFC 3986, component by component: an authority of optional user
    info, a host and an optional port, followed by an empty or absolute path; or no
    authority and a path that does not start with two slashes.  User info is without the
    (deprecated) colon, a bracketed host is of hexadecimal digits and colons. *)
Definition uri_wellformed (u : URI) : Prop :=
  scheme_ok (scheme_ u) /\ pct_ok true verifyPathChar (path_ u) = true /\ pct_ok true verifyQueryFragmentChar (query_ u) = true /\
  pct_ok true verifyQueryFragmentChar (fragment_ u) = true /\
  ((host_ok (host_ u) /\ pct_ok true verifyUserInfoHostChar (userinfo_ u) = true /\ forallb isdigit (port_ u) = true /\
    (path_ u = [] \/ exists p, path_ u = "/"%char :: p)) \/
   (host_ u = [] /\ userinfo_ u = [] /\ port_ u = [] /\ forall p, path_ u <> "/"%char :: "/"%char :: p)).

(** A query or a fragment. *)
Definition has_suffix (u : URI) : bool := match query_ u, fragment_ u with [], [] => false | _, _ => true end.

(** What the parser reads from the text of a well-formed URI: [u] itself, unless the text
    ends with the authority, where the port, or else a host behind user info or in
    brackets, is dropped; [None] if it rejects the text, which it does for an empty path
    before a query or fragment and for an absolute path without an authority. *)
Definition read_back (u : URI) : option URI :=
  match host_ u, path_ u with
  | _ :: _, _ :: _ => Some u
  | [], c :: _ => if c =c "/"%char then None else Some u
  | [], [] => if has_suffix u then None else Some u
  | c :: _, [] =>
      if has_suffix u then None else
      match port_ u, userinfo_ u with
      | _ :: _, _ => Some (set_port [] u)
      | [], _ :: _ => Some (set_host [] u)
      | [], [] => Some (if c =c "["%char then set_host [] u else u)
      end
  end.

Lemma uri_eta u v :
  scheme_ v = [] -> userinfo_ v = [] -> host_ v = [] -> port_ v = [] -> path_ v = [] -> query_ v = [] -> fragment_ v = [] ->
  set_fragment (fragment_ u) (set_query (query_ u) (set_path (path_ u) (set_port (port_ u)
    (set_host (host_ u) (set_userinfo (userinfo_ u) (set_scheme (scheme_ u) v)))))) = u.
Proof. by destruct u. Qed.

(** A query or fragment starts with its mark. *)
Lemma suffix_head u : has_suffix u = true -> exists c t,
  when (query_ u) (lit "?") [] ++ when (fragment_ u) (lit "#") [] = c :: t /\ (c =c "?"%char) || (c =c "#"%char) = true.
Proof.
  unfold has_suffix. destruct (query_ u) as [|cq q]; [destruct (fragment_ u) as [|cf f]; [done|]|]; intros _; eexists _, _; (split; [by cbn|done]).
Qed.

Lemma no_suffix u : has_suffix u = false -> query_ u = [] /\ fragment_ u = [].
Proof. unfold has_suffix. by destruct (query_ u), (fragment_ u). Qed.

(** The text of a URI with an authority, and the automaton at its host. *)
Lemma authority_start u : let s := uri_asString u in
  host_ok (host_ u) -> pct_ok true verifyUserInfoHostChar (userinfo_ u) = true -> scheme_ok (scheme_ u) ->
  let pre := (scheme_ u ++ lit "://") ++ when (userinfo_ u) [] (lit "@") in
  s = pre ++ host_ u ++ when (port_ u) (lit ":") [] ++ path_ u ++ when (query_ u) (lit "?") [] ++ when (fragment_ u) (lit "#") [] /\
  exists pv rt, rtc (step_rel s) (mkVars psSchemeStart psError psError 0 0 reset)
    (mkVars (match userinfo_ u with [] => psAuthorityStart | _ => psHostStart end) pv rt (length pre) (length pre)
       (set_userinfo (userinfo_ u) (set_scheme (scheme_ u) reset))).
Proof.
  intros s Hh Hui Hsch pre.
  assert (s = (scheme_ u ++ lit "://") ++ when (userinfo_ u) [] (lit "@") ++ host_ u ++ when (port_ u) (lit ":") [] ++
              path_ u ++ when (query_ u) (lit "?") [] ++ when (fragment_ u) (lit "#") []) as Hs.
  { unfold s, uri_asString. rewrite <- !app_assoc.
    destruct (host_ u) as [|hc ht] eqn:Eh; [destruct Hh as [[? _]|(a & ? & _)]; done|]. unfold when at 2. by rewrite app_nil_r. }
  split; [unfold pre; by rewrite Hs, <- !app_assoc|].
  pose proof (reach_userinfo s (set_scheme (scheme_ u) reset) (userinfo_ u) _ (scheme_ u ++ lit "://") Hui eq_refl Hs) as Hr.
  rewrite <- (app_assoc (scheme_ u)) in Hs. edestruct Hr as (pv & rt & Hsteps). exists pv, rt. etrans; [|exact Hsteps].
  eapply rtc_r; [by eapply (scheme_steps s (scheme_ u))|]. by eapply scheme_end_authority.
Qed.

Lemma uri_authority_parsed u fuel :
  scheme_ok (scheme_ u) -> pct_ok true verifyPathChar (path_ u) = true -> pct_ok true verifyQueryFragmentChar (query_ u) = true ->
  pct_ok true verifyQueryFragmentChar (fragment_ u) = true -> host_ok (host_ u) ->
  pct_ok true verifyUserInfoHostChar (userinfo_ u) = true -> forallb isdigit (port_ u) = true ->
  path_ u = [] \/ (exists p, path_ u = "/"%char :: p) -> (16 * length (uri_asString u) + 16 <= fuel)%nat ->
  match read_back u with
  | Some w => uri_parse fuel (uri_asString u) = Ok (true, w, length (uri_asString u))
  | None => exists w i, uri_parse fuel (uri_asString u) = Ok (false, w, i)
  end.
Proof.
  intros Hsch Hp Hq Hf Hh Hui Hport Hpath Hfuel. destruct (authority_start u Hh Hui Hsch) as (Hs & pv & rt & Hsteps).
  set (s := uri_asString u) in *. set (pre := (scheme_ u ++ _) ++ _) in *. set (u0 := set_userinfo _ _) in *.
  set (X := match userinfo_ u with [] => _ | _ => _ end) in *. assert (HX : reads_host X) by (unfold X; destruct (userinfo_ u); [by left | by right]).
  assert (exists c h', host_ u = c :: h') as (hc & h' & Eh) by (destruct Hh as [[? _]|(a & -> & _)]; [destruct (host_ u); [done|by eexists _, _] | by eexists _, _]).
  unfold read_back. rewrite Eh. destruct Hpath as [Epath|(p & Epath)]; rewrite Epath in *.
  - destruct (has_suffix u) eqn:Hsuf.
    + destruct (suffix_head u Hsuf) as (c & t & Et & Hc). rewrite Et in Hs.
      eapply uri_parse_rejects; [exact Hsteps | by eapply rejects_host | done].
    + destruct (no_suffix u Hsuf) as [Eq Ef]. rewrite Eq, Ef in Hs. cbn [when app] in Hs. rewrite app_nil_r in Hs.
      pose proof (finishes_authority_end s X u0 (host_ u) (port_ u) pre HX Hh Hport Hs) as Hfin.
      pose proof (uri_parse_finishes s fuel _ _ _ _ _ _ _ Hsteps Hfin Hfuel) as Hparse. fold s in Hparse. rewrite Eh in Hparse.
      clear -Hparse Epath Eq Ef Eh. unfold host_kept, X, u0 in Hparse. destruct u as [sch ui ho po pa qu fr]; cbn in *; subst.
      destruct po, ui; try exact Hparse.
  - pose proof (finishes_host s X u0 (host_ u) (port_ u) p (query_ u) (fragment_ u) pre HX Hh Hport Hs eq_refl eq_refl eq_refl Hp Hq Hf) as Hfin.
    rewrite <- Epath in Hfin. unfold u0 in Hfin. rewrite uri_eta in Hfin by done. by eapply uri_parse_finishes.
Qed.

Lemma uri_relative_parsed u fuel :
  scheme_ok (scheme_ u) -> pct_ok true verifyPathChar (path_ u) = true -> pct_ok true verifyQueryFragmentChar (query_ u) = true ->
  pct_ok true verifyQueryFragmentChar (fragment_ u) = true -> host_ u = [] -> userinfo_ u = [] -> port_ u = [] ->
  (forall p, path_ u <> "/"%char :: "/"%char :: p) -> (16 * length (uri_asString u) + 16 <= fuel)%nat ->
  match read_back u with
  | Some w => uri_parse fuel (uri_asString u) = Ok (true, w, length (uri_asString u))
  | None => exists w i, uri_parse fuel (uri_asString u) = Ok (false, w, i)
  end.
Proof.
  intros Hsch Hp Hq Hf E1 E2 E3 Hhd Hfuel. set (s := uri_asString u) in *.
  assert (s = (scheme_ u ++ [":"%char]) ++ path_ u ++ when (query_ u) (lit "?") [] ++ when (fragment_ u) (lit "#") []) as Hs.
  { unfold s, uri_asString. by rewrite E1, E2, E3, <- !app_assoc. }
  pose proof Hs as Hs'. rewrite <- app_assoc in Hs'. cbn [app] in Hs'.
  pose proof (scheme_steps s (scheme_ u) _ Hs' Hsch) as Hscheme. unfold read_back. rewrite E1.
  assert (Hstart : match path_ u ++ when (query_ u) (lit "?") [] ++ when (fragment_ u) (lit "#") [] with c :: _ => (c =c "/"%char) = false | [] => True end ->
            exists pv rt, rtc (step_rel s) (mkVars psSchemeStart psError psError 0 0 reset)
              (mkVars psPathStart pv rt (length (scheme_ u ++ [":"%char])) (length (scheme_ u ++ [":"%char])) (set_scheme (scheme_ u) reset))).
  { intros Hc. eexists _, _. eapply rtc_r; [exact Hscheme|]. by eapply scheme_end_path. }
  assert (Hfin : path_ u <> [] \/ (query_ u = [] /\ fragment_ u = []) ->
            finishes s psPathStart (length (scheme_ u ++ [":"%char])) (length (scheme_ u ++ [":"%char])) (set_scheme (scheme_ u) reset) u).
  { intros Hne. pose proof (finishes_path s (set_scheme (scheme_ u) reset) (path_ u) (query_ u) (fragment_ u) (scheme_ u ++ [":"%char])
                  Hs Hne eq_refl eq_refl Hp Hq Hf) as Hfin.
    by replace (set_fragment _ _) with u in Hfin by (destruct u; simpl in *; by subst). }
  destruct (path_ u) as [|c p] eqn:Epath.
  - destruct (has_suffix u) eqn:Hsuf.
    + destruct (suffix_head u Hsuf) as (c & t & Et & Hc). cbn [app] in *. rewrite Et in *.
      destruct Hstart as (pv & rt & Hsteps); [by apply orb_true_iff in Hc as [Hc|Hc]; apply Ascii.eqb_eq in Hc as -> |].
      eapply uri_parse_rejects; [exact Hsteps | by eapply (rejects_empty_path s) | done].
    + destruct (no_suffix u Hsuf) as [Eq Ef]. rewrite Eq, Ef in Hstart. destruct Hstart as (pv & rt & Hsteps); [done|].
      eapply uri_parse_finishes; [exact Hsteps | by apply Hfin; right | done].
  - destruct (c =c "/"%char) eqn:Ec.
    + apply Ascii.eqb_eq in Ec as ->. cbn [app] in *. eapply uri_parse_rejects; [exact Hscheme | | done].
      eapply scheme_rejects; [exact Hs'|]. destruct p as [|d p]; cbn [app].
      * destruct (when (query_ u) _ _ ++ _) as [|d t] eqn:Et; [done|]. destruct (has_suffix u) eqn:Hsuf.
        -- destruct (suffix_head u Hsuf) as (c & t' & Et' & Hc). rewrite Et in Et'. injection Et' as -> _.
           by apply orb_true_iff in Hc as [Hc|Hc]; apply Ascii.eqb_eq in Hc as ->.
        -- destruct (no_suffix u Hsuf) as [Eq Ef]. by rewrite Eq, Ef in Et.
      * destruct (d =c "/"%char) eqn:Ed; [|done]. apply Ascii.eqb_eq in Ed as ->. by destruct (Hhd p).
    + destruct Hstart as (pv & rt & Hsteps); [done|]. eapply uri_parse_finishes; [exact Hsteps | by apply Hfin; left | done].
Qed.

(** C6 The text of any well-formed URI, parsed again: a URI whose text goes on behind its
    authority with a path, has no authority and a relative path, or is a scheme with or
    without a plain host, is accepted, consumed in full and has the same components.  The
    others are told apart exactly ([read_back]): of a text that ends with its authority
    the port is dropped or, without a port, a host behind user info or in brackets, though
    the text is accepted; a query or fragment without a path, and an absolute path without
    an authority, are rejected. *)
Theorem uri_round_trip (u : URI) (fuel : nat) :
  uri_wellformed u -> (16 * length (uri_asString u) + 16 <= fuel)%nat ->
  match read_back u with
  | Some w => uri_parse fuel (uri_asString u) = Ok (true, w, length (uri_asString u))
  | None => exists w i, uri_parse fuel (uri_asString u) = Ok (false, w, i)
  end.
Proof.
  intros (Hsch & Hp & Hq & Hf & Hcase) Hfuel. destruct Hcase as [(Hh & Hui & Hport & Hpath)|(E1 & E2 & E3 & Hhd)].
  - by apply uri_authority_parsed.
  - by apply uri_relative_parsed.
Qed.

Definition demo_uri : URI :=
  mkURI (lit "https") (lit "me%20too") (lit "[2001:db8::1]") (lit "8080") (lit "/a/b%2Fc") (lit "x=1&y=2") (lit "top").

Lemma uri_round_trip_witness :
  uri_parse 1200 (lit "https://me%20too@[2001:db8::1]:8080/a/b%2Fc?x=1&y=2#top") = Ok (true, demo_uri, 55%nat).
Proof.
  apply (uri_round_trip demo_uri 1200).
  - split; [by exists "h"%char, (lit "ttps")|]. split; [reflexivity|]. split; [reflexivity|]. split; [reflexivity|]. left.
    split; [right; by exists (lit "2001:db8::1")|]. split; [reflexivity|]. split; [reflexivity|]. right. by exists (lit "a/b%2Fc").
  - vm_compute. lia.
Defined.

(** C22 [URI::parse] is total: for every input it ends within fuel 16 n + 16, reads no
    character outside the string (including its terminator), and takes no substring
    from outside it. *)
Theorem uri_parse_total (s : str) (fuel : nat) :
  (16 * length s + 16 <= fuel)%nat ->
  exists r u i, uri_parse fuel s = Ok (r, u, i) /\ (i <= length s)%nat.
Proof.
  intros Hf. unfold uri_parse.
  destruct (uri_loop_total s fuel (mkVars psSchemeStart psError psError 0 0 reset)) as (v & -> & Hok & _);
    [unfold vars_ok; simpl; lia | unfold measure; simpl; lia |].
  cbn [obind]. destruct (uri_finish_total s v Hok) as [u ->]. cbn [obind]. eexists _, _, _. split; [done|].
  unfold vars_ok in Hok. lia.
Qed.

Lemma uri_parse_total_witness :
  exists r u i, uri_parse 200 (lit "ht%tp:/") = Ok (r, u, i) /\ (i <= 7)%nat.
Proof. apply (uri_parse_total (lit "ht%tp:/") 200). vm_compute. lia. Defined.

(** Components at the end of the text can be lost while the parser reports success:
    a port, a host behind user info and a bracketed host are dropped when nothing
    follows them, an unterminated bracket is accepted, and a text without a colon
    is accepted with no component at all. *)
Theorem uri_trailing_component_lost :
  uri_parse 1000 (lit "http://host:80") = Ok (true, set_host (lit "host") (set_scheme (lit "http") reset), 14%nat) /\
  uri_parse 1000 (lit "http://user@host") = Ok (true, set_userinfo (lit "user") (set_scheme (lit "http") reset), 16%nat) /\
  uri_parse 1000 (lit "http://[::1]") = Ok (true, set_scheme (lit "http") reset, 12%nat) /\
  uri_parse 1000 (lit "http://[::1") = Ok (true, set_scheme (lit "http") reset, 11%nat) /\
  uri_parse 1000 (lit "http") = Ok (true, reset, 4%nat).
Proof. split_and!; reflexivity. Qed.

(** User info with a colon is read as host and port, and the host as a path. *)
Theorem userinfo_colon_misread :
  uri_parse 1000 (lit "http://user:1@host/") =
    Ok (true, mkURI (lit "http") [] (lit "user") (lit "1") (lit "@host/") [] [], 19%nat) /\
  exists u i, uri_parse 1000 (lit "http://user:pw@host/") = Ok (false, u, i).
Proof. split; [by vm_compute|]. eexists _, _. by vm_compute. Qed.

(** [operator<] is the lexicographic order on the list of components. *)
Fixpoint lex_ltb (l k : list str) : bool :=
  match l, k with
  | x :: l', y :: k' => str_ltb x y || (str_eqb x y && lex_ltb l' k')
  | _, _ => false
  end.

Definition components (u : URI) : list str :=
  [scheme_ u; userinfo_ u; host_ u; port_ u; path_ u; query_ u; fragment_ u].

Lemma uri_ltb_lex a b : uri_ltb a b = lex_ltb (components a) (components b).
Proof.
  unfold uri_ltb. cbn [components lex_ltb].
  repeat match goal with |- context [str_eqb ?x ?y] => destruct (str_eqb x y); cbn [andb]; rewrite ?orb_false_r, ?orb_assoc; try done end.
Qed.

Lemma lex_ltb_irrefl l : lex_ltb l l = false.
Proof. induction l as [|x l IH]; simpl; [done|]. by rewrite str_ltb_irrefl, IH, andb_false_r. Qed.

Lemma lex_ltb_trans l k j : lex_ltb l k = true -> lex_ltb k j = true -> lex_ltb l j = true.
Proof.
  revert k j. induction l as [|x l IH]; intros [|y k] [|z j]; simpl; try done.
  rewrite !orb_true_iff, !andb_true_iff, !str_eqb_spec. intros [H1|[-> H1]] [H2|[-> H2]]; [left; by eapply str_ltb_trans | by left..|].
  right. split; [done | by eapply IH].
Qed.

Lemma lex_ltb_total l k : length l = length k -> lex_ltb l k = true \/ l = k \/ lex_ltb k l = true.
Proof.
  revert k. induction l as [|x l IH]; intros [|y k]; simpl; try done; [by right; left|]. intros [= Hl].
  destruct (str_eqb x y) eqn:E.
  - apply str_eqb_spec in E as ->. rewrite str_ltb_irrefl, str_eqb_refl. simpl. destruct (IH k Hl) as [?|[->|?]]; auto.
  - destruct (str_ltb x y) eqn:L; [by left|]. right. right. by rewrite (str_ltb_total x y).
Qed.

Lemma uri_eqb_spec a b : uri_eqb a b = true <-> a = b.
Proof.
  unfold uri_eqb. rewrite !andb_true_iff, !str_eqb_spec. destruct a, b; simpl. split; [|by intros [= -> -> -> -> -> -> ->]].
  intros [[[[[[-> ->] ->] ->] ->] ->] ->]. done.
Qed.

(** The comparison operators of URI: [==] decides equality of all components, [!=] is
    its negation, and [<] is a strict total order. *)
Theorem uri_order_total (a b c : URI) :
  (uri_eqb a b = true <-> a = b) /\ uri_neqb a b = negb (uri_eqb a b) /\ uri_ltb a a = false /\
  (uri_ltb a b = true -> uri_ltb b c = true -> uri_ltb a c = true) /\
  (uri_ltb a b = true \/ uri_eqb a b = true \/ uri_ltb b a = true).
Proof.
  rewrite !uri_ltb_lex, uri_eqb_spec. split; [done|]. split; [|split; [apply lex_ltb_irrefl|split; [by apply lex_ltb_trans|]]].
  - unfold uri_neqb, uri_eqb. by rewrite !negb_andb.
  - destruct (lex_ltb_total (components a) (components b) eq_refl) as [?|[E|?]]; [by left | | by right; right].
    right. left. destruct a, b. unfold components in E. simpl in E. by simplify_eq.
Qed.
