(* ===== verification/Cache.v ===== *)
(** * Cache: a read-through cache with LRU eviction and expiry

    Models [common::Cache] (src/src/include/common/cache.hpp).  [std::map] is a
    [gmap]; the LRU [std::multimap] is a list of (hit time, key) sorted by time, where
    insertion goes behind equal times.  The steady clock is read through explicit
    arguments: [t1 <= t2 <= t3] are the successive readings of one call, in
    nanoseconds.  [load] is the virtual function of the derived class: it returns its
    result and what it leaves in the value it was given by reference.

    The mutex makes every public call one atomic step; the theorems are about
    sequences of such steps. *)

From S2P Require Import Prelude.

Local Open Scope Z_scope.

Section Cache.
Context {Key Value : Type} `{Countable Key}.

Record CacheEntry : Type := mkCacheEntry { load_time : Z; hit_time : Z; value : Value }.

Record Cache : Type := mkCache {
  cache_ : gmap Key CacheEntry;
  lrumap_ : list (Z * Key);
  max_size_ : Z;
  life_time_s_ : Z;
  hits_ : Z;
  load_ : Z;
  expired_ : Z;
}.

Definition Cache_new (max_size life_time : Z) : Cache := mkCache ∅ [] max_size life_time 0 0 0.

Definition set_maps (c : gmap Key CacheEntry) (l : list (Z * Key)) (s : Cache) : Cache :=
  mkCache c l (max_size_ s) (life_time_s_ s) (hits_ s) (load_ s) (expired_ s).
Definition set_counters (h l e : Z) (s : Cache) : Cache :=
  mkCache (cache_ s) (lrumap_ s) (max_size_ s) (life_time_s_ s) h l e.

Definition clear (s : Cache) : Cache := set_maps ∅ [] s.
Definition setMaxSize (n : Z) (s : Cache) : Cache :=
  mkCache (cache_ s) (lrumap_ s) n (life_time_s_ s) (hits_ s) (load_ s) (expired_ s).
Definition setMaxLifeTime (n : Z) (s : Cache) : Cache :=
  mkCache (cache_ s) (lrumap_ s) (max_size_ s) n (hits_ s) (load_ s) (expired_ s).

(** [multimap::insert]: behind the last element with the same time. *)
Fixpoint lru_insert (t : Z) (k : Key) (l : list (Z * Key)) : list (Z * Key) :=
  match l with
  | [] => [(t, k)]
  | (t', k') :: l' => if t <? t' then (t, k) :: l else (t', k') :: lru_insert t k l'
  end.

(** The loop over [equal_range( t )] for the element of key [k], and its erasure;
    [None]: not found. *)
Fixpoint lru_erase (t : Z) (k : Key) (l : list (Z * Key)) : option (list (Z * Key)) :=
  match l with
  | [] => None
  | (t', k') :: l' =>
      if (t' =? t) && bool_decide (k' = k) then Some l'
      else match lru_erase t k l' with Some r => Some ((t', k') :: r) | None => None end
  end.

Definition addLRU (k : Key) (e : CacheEntry) (s : Cache) : Cache :=
  set_maps (cache_ s) (lru_insert (hit_time e) k (lrumap_ s)) s.

(** [*lrumap_.begin()] of an empty map is undefined. *)
Definition removeLRU (s : Cache) : outcome Cache :=
  match lrumap_ s with
  | [] => Throw (UndefinedBehaviour (lit "begin of an empty map"))
  | (_, k) :: l => Ok (set_maps (delete k (cache_ s)) l s)
  end.

Definition updateLRU (k : Key) (e : CacheEntry) (prev_hit_time : Z) (s : Cache) : Cache :=
  match lru_erase prev_hit_time k (lrumap_ s) with
  | Some l => addLRU k e (set_maps (cache_ s) l s)
  | None => s
  end.

(** [duration_cast<seconds>( now - load_time ) > life_time_s_] *)
Definition expired_at (now : Z) (e : CacheEntry) (s : Cache) : bool :=
  (0 <? life_time_s_ s) && (life_time_s_ s <? Z.quot (now - load_time e) (10 ^ 9)).

(** [get( key, value )]: the result, the value and the cache. *)
Definition get (load : Key -> Value -> bool * Value) (key : Key) (v0 : Value) (t1 t2 t3 : Z) (s : Cache)
    : outcome (bool * Value * Cache) :=
  match cache_ s !! key with
  | Some e =>
      let s1 := set_counters (u64 (hits_ s + 1)) (load_ s) (expired_ s) s in
      let hit (e' : CacheEntry) (s2 : Cache) :=
        let e2 := mkCacheEntry (load_time e') t3 (value e') in
        let s3 := set_maps (<[key := e2]> (cache_ s2)) (lrumap_ s2) s2 in
        Ok (true, value e', updateLRU key e2 (hit_time e') s3) in
      if expired_at t1 e s then
        let (r, v) := load key (value e) in
        if r then
          hit (mkCacheEntry t2 (hit_time e) v) (set_counters (hits_ s1) (load_ s1) (u64 (expired_ s1 + 1)) s1)
        else Ok (false, v0, set_maps (<[key := mkCacheEntry (load_time e) (hit_time e) v]> (cache_ s1)) (lrumap_ s1) s1)
      else hit e s1
  | None =>
      let s1 := set_counters (hits_ s) (u64 (load_ s + 1)) (expired_ s) s in
      let (r, v) := load key v0 in
      if r then
        let e := mkCacheEntry t2 t3 v in
        let s2 := addLRU key e (set_maps (<[key := e]> (cache_ s1)) (lrumap_ s1) s1) in
        if max_size_ s2 <? Z.of_nat (size (cache_ s2)) then
          let! s3 := removeLRU s2 in Ok (true, v, s3)
        else Ok (true, v, s2)
      else Ok (false, v, s1)
  end.

Definition erase (key : Key) (s : Cache) : Cache :=
  match cache_ s !! key with
  | Some e =>
      let l := match lru_erase (hit_time e) key (lrumap_ s) with Some l' => l' | None => lrumap_ s end in
      set_maps (delete key (cache_ s)) l s
  | None => s
  end.

(** ** Invariant *)

(** The LRU list is in time order, has every cached key exactly once under its
    hit time, and nothing else. *)
Fixpoint time_sorted (l : list (Z * Key)) : Prop :=
  match l with
  | [] => True
  | (t, _) :: l' => Forall (fun p => t <= fst p) l' /\ time_sorted l'
  end.

Definition cache_inv (s : Cache) : Prop :=
  time_sorted (lrumap_ s) /\ NoDup (map snd (lrumap_ s)) /\
  (forall t k, (t, k) ∈ lrumap_ s <-> exists e, cache_ s !! k = Some e /\ hit_time e = t).

(** Keys from the least to the most recently used. *)
Definition order (s : Cache) : list Key := map snd (lrumap_ s).

(** No hit lies in the future. *)
Definition before (t : Z) (s : Cache) : Prop := Forall (fun p => fst p <= t) (lrumap_ s).

Definition without (k : Key) (l : list Key) : list Key := filter (fun x => x <> k) l.

(** ** The LRU list *)

Definition drop_key (k : Key) (l : list (Z * Key)) : list (Z * Key) := filter (fun p => snd p <> k) l.

Lemma lru_insert_last t k l : Forall (fun p => fst p <= t) l -> lru_insert t k l = l ++ [(t, k)].
Proof.
  induction 1 as [|[t' k'] l Ht _ IH]; simpl; [done|]. simpl in Ht. destruct (Z.ltb_spec t t'); [lia|]. by rewrite IH.
Qed.

Lemma drop_key_fresh k l : k ∉ map snd l -> drop_key k l = l.
Proof.
  induction l as [|[t' k'] l IH]; simpl; [done|]. rewrite not_elem_of_cons. intros [Hk Hl].
  unfold drop_key in *. rewrite filter_cons_True by (simpl; congruence). by rewrite IH.
Qed.

Lemma lru_erase_found t k l : NoDup (map snd l) -> (t, k) ∈ l -> lru_erase t k l = Some (drop_key k l).
Proof.
  induction l as [|[t' k'] l IH]; simpl; [by intros _ ?%elem_of_nil|].
  rewrite NoDup_cons. intros [Hk Hnd] Hin. apply elem_of_cons in Hin as [[= -> ->]|Hin].
  - rewrite Z.eqb_refl, bool_decide_eq_true_2 by done. simpl. unfold drop_key.
    rewrite filter_cons_False by (simpl; tauto). f_equal. symmetry. by apply drop_key_fresh.
  - assert (k' <> k) as Hne.
    { intros ->. apply Hk. apply list_elem_of_In, in_map_iff. exists (t, k). split; [done|]. by apply list_elem_of_In. }
    rewrite bool_decide_eq_false_2, andb_false_r, IH by done. unfold drop_key. by rewrite filter_cons_True by (simpl; congruence).
Qed.

Lemma drop_key_order k l : map snd (drop_key k l) = without k (map snd l).
Proof.
  unfold drop_key, without. induction l as [|[t' k'] l IH]; [done|]. simpl.
  rewrite !filter_cons. simpl. case_decide; simpl; by rewrite IH.
Qed.

Lemma elem_of_drop_key t k j l : (t, j) ∈ drop_key k l <-> (t, j) ∈ l /\ j <> k.
Proof. unfold drop_key. rewrite list_elem_of_filter. simpl. tauto. Qed.

Lemma time_sorted_filter P `{forall p, Decision (P p)} l : time_sorted l -> time_sorted (filter P l).
Proof.
  induction l as [|[t k] l IH]; [done|]. simpl. intros [Hf Hs]. rewrite filter_cons. case_decide; [|by apply IH].
  split; [|by apply IH]. rewrite Forall_forall in *. intros p [_ Hp]%list_elem_of_filter. by apply Hf.
Qed.

Lemma time_sorted_snoc t k l : time_sorted l -> Forall (fun p => fst p <= t) l -> time_sorted (l ++ [(t, k)]).
Proof.
  induction l as [|[t' k'] l IH]; simpl; [by repeat constructor|]. intros [Hf Hs] Ha. inversion_clear Ha as [|? ? Ht Ha'].
  split; [|by apply IH]. apply Forall_app. split; [done|]. by repeat constructor.
Qed.

Lemma NoDup_without k (l : list Key) : NoDup l -> NoDup (without k l ++ [k]).
Proof.
  intros Hl. apply NoDup_app. split; [by apply NoDup_filter|]. split; [|by apply NoDup_singleton].
  intros x Hx%list_elem_of_filter Hk%list_elem_of_singleton. tauto.
Qed.

(** ** The operations keep the invariant *)

(** Making a key the most recent one. *)
Lemma inv_touch s k t e :
  cache_inv s -> before t s -> hit_time e = t ->
  cache_inv (set_maps (<[k := e]> (cache_ s)) (drop_key k (lrumap_ s) ++ [(t, k)]) s).
Proof.
  intros (Hs & Hnd & Hmem) Hb <-. split_and!; cbn [lrumap_ cache_ set_maps].
  - apply time_sorted_snoc; [by apply time_sorted_filter|]. rewrite Forall_forall. intros p [_ Hp]%list_elem_of_filter.
    unfold before in Hb. rewrite Forall_forall in Hb. by apply Hb.
  - rewrite map_app, drop_key_order. by apply NoDup_without.
  - intros t j. rewrite elem_of_app, list_elem_of_singleton, elem_of_drop_key, Hmem. destruct (decide (j = k)) as [->|Hne].
    + rewrite lookup_insert_eq. split; [intros [[_ ?]|[= ->]]; [done|eauto] | intros (e' & [= <-] & <-); by right].
    + rewrite lookup_insert_ne by done. split; [intros [[? _]|[= _ ?]]; done | intros ?; by left].
Qed.

Lemma lookup_lru s k e : cache_inv s -> cache_ s !! k = Some e -> (hit_time e, k) ∈ lrumap_ s.
Proof. intros (_ & _ & Hmem) He. apply Hmem. eauto. Qed.

Lemma fresh_lru s k : cache_inv s -> cache_ s !! k = None -> k ∉ map snd (lrumap_ s).
Proof.
  intros (_ & _ & Hmem) Hk Hin. apply list_elem_of_In, in_map_iff in Hin as ([t j] & <- & Hin%list_elem_of_In).
  apply Hmem in Hin as (e & He & _). simpl in Hk. by rewrite Hk in He.
Qed.

(** Evicting the head of the LRU list. *)
Lemma inv_evict s t k l : cache_inv s -> lrumap_ s = (t, k) :: l -> cache_inv (set_maps (delete k (cache_ s)) l s).
Proof.
  intros (Hs & Hnd & Hmem) Hl. rewrite Hl in *. simpl in Hs, Hnd. apply NoDup_cons in Hnd as [Hk Hnd].
  split_and!; cbn [lrumap_ cache_ set_maps]; [tauto | done |]. intros t' j. destruct (decide (j = k)) as [->|Hne].
  - rewrite lookup_delete_eq. split; [|by intros (? & ? & _)]. intros Hin. exfalso. apply Hk.
    apply list_elem_of_In, in_map_iff. exists (t', k). split; [done|]. by apply list_elem_of_In.
  - rewrite lookup_delete_ne by done. rewrite <- Hmem, elem_of_cons. split; [by right | intros [[= _ ?]|?]; done].
Qed.

Lemma inv_size s : cache_inv s -> size (cache_ s) = length (lrumap_ s).
Proof.
  intros (_ & Hnd & Hmem). rewrite <- size_dom, <- (length_map snd (lrumap_ s)), <- (size_list_to_set (C:=gset Key)) by done.
  f_equal. apply set_eq. intros k. rewrite elem_of_dom, elem_of_list_to_set. split.
  - intros [e He]. apply list_elem_of_In, in_map_iff. exists (hit_time e, k). split; [done|]. apply list_elem_of_In, Hmem. eauto.
  - intros Hin. apply list_elem_of_In, in_map_iff in Hin as ([t j] & <- & Hin%list_elem_of_In).
    apply Hmem in Hin as (e & He & _). by exists e.
Qed.

(** ** What [get] does to the recency order *)

(** The order after a call: a hit moves the key to the end; a successful load adds
    it at the end and drops the head if there are now too many; a failed load
    changes nothing. *)
Definition order_after (s : Cache) (key : Key) (r : bool) : list Key :=
  if negb r then order s
  else
    match cache_ s !! key with
    | Some _ => without key (order s) ++ [key]
    | None => if max_size_ s <? Z.of_nat (S (length (order s))) then tail (order s ++ [key]) else order s ++ [key]
    end.

Lemma updateLRU_touch s k e e2 t :
  cache_inv s -> cache_ s !! k = Some e -> hit_time e2 = t -> before t s ->
  updateLRU k e2 (hit_time e) (set_maps (<[k := e2]> (cache_ s)) (lrumap_ s) s) =
  set_maps (<[k := e2]> (cache_ s)) (drop_key k (lrumap_ s) ++ [(t, k)]) s.
Proof.
  intros Hinv He <- Hb. unfold updateLRU. cbn [lrumap_ set_maps].
  rewrite (lru_erase_found _ _ _ (proj1 (proj2 Hinv)) (lookup_lru s k e Hinv He)).
  unfold addLRU. cbn [lrumap_ cache_ set_maps]. rewrite lru_insert_last; [done|].
  unfold before in Hb. rewrite Forall_forall in *. intros p [_ Hp]%list_elem_of_filter. by apply Hb.
Qed.

(** Replacing the value of an entry without touching its hit time. *)
Lemma inv_update_value s k e e' :
  cache_inv s -> cache_ s !! k = Some e -> hit_time e' = hit_time e ->
  cache_inv (set_maps (<[k := e']> (cache_ s)) (lrumap_ s) s).
Proof.
  intros (Hs & Hnd & Hmem) He Ht. split_and!; [done | done |]. cbn [lrumap_ cache_ set_maps]. intros t j. rewrite Hmem.
  destruct (decide (j = k)) as [->|Hne]; [|by rewrite lookup_insert_ne].
  rewrite lookup_insert_eq, He. split; intros (x & [= <-] & <-); eauto.
Qed.

(** Well-formedness only depends on the two maps. *)
Lemma inv_maps s s' : cache_ s' = cache_ s -> lrumap_ s' = lrumap_ s -> cache_inv s -> cache_inv s'.
Proof. unfold cache_inv. by intros -> ->. Qed.

Lemma before_mono t t' s : t <= t' -> before t s -> before t' s.
Proof. unfold before. rewrite !Forall_forall. intros Ht Hb p Hp. specialize (Hb p Hp). lia. Qed.

Lemma get_hit load key v0 t1 t2 t3 s e :
  cache_inv s -> before t3 s -> cache_ s !! key = Some e ->
  exists r v s', get load key v0 t1 t2 t3 s = Ok (r, v, s') /\ cache_inv s' /\ before t3 s' /\ order s' = order_after s key r /\
    max_size_ s' = max_size_ s /\
    (if expired_at t1 e s
     then (r, if r then v else (load key (value e)).2) = load key (value e) /\
          cache_ s' !! key = Some (mkCacheEntry (if r then t2 else load_time e) (if r then t3 else hit_time e) (load key (value e)).2)
     else r = true /\ v = value e /\ cache_ s' !! key = Some (mkCacheEntry (load_time e) t3 (value e))).
Proof.
  intros Hinv Hb He. unfold get, order_after. rewrite He.
  assert (forall (c : Cache) e', cache_ c = cache_ s -> lrumap_ c = lrumap_ s -> hit_time e' = t3 ->
    let c' := updateLRU key e' (hit_time e) (set_maps (<[key := e']> (cache_ c)) (lrumap_ c) c) in
    cache_inv c' /\ before t3 c' /\ order c' = without key (order s) ++ [key] /\ max_size_ c' = max_size_ c /\ cache_ c' !! key = Some e') as Htouch.
  { intros c e' Hc Hl Ht. assert (cache_inv c) as Hic by (by eapply inv_maps). cbv zeta.
    rewrite (updateLRU_touch c key e e' t3) by (done || by rewrite Hc || (unfold before; by rewrite Hl)).
    split; [by apply inv_touch; [| unfold before; rewrite Hl |]|]. unfold before, order. cbn [lrumap_ cache_ set_maps max_size_].
    rewrite Hl, map_app, drop_key_order, lookup_insert_eq. split; [|done]. apply Forall_app. split; [|by repeat constructor].
    rewrite Forall_forall. intros p [_ Hp]%list_elem_of_filter. unfold before in Hb. rewrite Forall_forall in Hb. by apply Hb. }
  destruct (expired_at t1 e s).
  - destruct (load key (value e)) as [r v]. destruct r.
    + eexists _, _, _. split; [done|]. cbn [hit_time load_time value negb snd].
      edestruct Htouch as (I1 & I2 & I3 & I4 & I5); [| | |split; [exact I1|]; split; [exact I2|]; split; [exact I3|]; split; [exact I4|];
        split; [done | exact I5]]; done.
    + eexists _, _, _. split; [done|]. cbn [negb snd]. split.
      { eapply inv_maps; [| |apply (inv_update_value s key e (mkCacheEntry (load_time e) (hit_time e) v)); done]; done. }
      split; [done|]. split; [done|]. split; [done|]. split; [done|]. cbn [cache_ set_maps]. by rewrite lookup_insert_eq.
  - eexists _, _, _. split; [done|]. cbn [negb].
    edestruct Htouch as (I1 & I2 & I3 & I4 & I5); [| | |split; [exact I1|]; split; [exact I2|]; split; [exact I3|]; split; [exact I4|];
        split; [done|]; split; [done | exact I5]]; done.
Qed.

Lemma get_miss load key v0 t1 t2 t3 s :
  cache_inv s -> before t3 s -> cache_ s !! key = None ->
  exists r v s', get load key v0 t1 t2 t3 s = Ok (r, v, s') /\ cache_inv s' /\ before t3 s' /\ order s' = order_after s key r /\
    max_size_ s' = max_size_ s /\ (r, v) = load key v0 /\
    (r = true -> 0 < max_size_ s -> cache_ s' !! key = Some (mkCacheEntry t2 t3 v)).
Proof.
  intros Hinv Hb Hk. unfold get, order_after. rewrite Hk. destruct (load key v0) as [[|] v]; cbn [negb].
  2:{ eexists _, _, _. split; [done|]. split; [by eapply inv_maps|]. split_and!; done. }
  set (e := mkCacheEntry t2 t3 v). set (s1 := set_counters _ _ _ s).
  set (s2 := addLRU key e _).
  assert (s2 = set_maps (<[key := e]> (cache_ s1)) (lrumap_ s1 ++ [(t3, key)]) s1) as Hs2.
  { unfold s2, addLRU. cbn [lrumap_ cache_ set_maps]. by rewrite lru_insert_last. }
  assert (cache_inv s2) as Hinv2.
  { rewrite Hs2. rewrite <- (drop_key_fresh key (lrumap_ s1)) by (by apply (fresh_lru s)). by apply inv_touch. }
  assert (before t3 s2) as Hb2.
  { rewrite Hs2. unfold before. cbn [lrumap_ set_maps]. apply Forall_app. split; [done|]. by repeat constructor. }
  assert (order s2 = order s ++ [key]) as Ho2 by (rewrite Hs2; unfold order; cbn [lrumap_ set_maps]; by rewrite map_app).
  assert (cache_ s2 !! key = Some e) as Hke by (rewrite Hs2; cbn [cache_ set_maps]; by rewrite lookup_insert_eq).
  rewrite (inv_size s2 Hinv2). unfold order in Ho2. rewrite <- (length_map snd (lrumap_ s2)), Ho2, length_app. cbn [length].
  rewrite Nat.add_1_r. change (max_size_ s2) with (max_size_ s). fold (order s).
  destruct (Z.ltb_spec (max_size_ s) (Z.of_nat (S (length (order s))))) as [Hfull|Hroom].
  - unfold removeLRU. destruct (lrumap_ s2) as [|[t k] l] eqn:El; [by destruct (map snd (lrumap_ s))|]. cbn [obind].
    eexists _, _, _. split; [done|]. split; [by eapply (inv_evict s2)|]. split_and!; try done.
    + unfold before in *. cbn [lrumap_ set_maps]. rewrite El in Hb2. by inversion Hb2.
    + unfold order. cbn [lrumap_ set_maps]. unfold order in *. by rewrite <- Ho2.
    + intros _ Hmax. cbn [cache_ set_maps]. rewrite lookup_delete_ne; [done|]. intros ->.
      unfold order in *. destruct (lrumap_ s) as [|[t' k'] l'] eqn:El'; [cbn [map length] in Hfull; lia|].
      cbn [map app snd] in Ho2. injection Ho2 as Ekey _. subst k'.
      apply (fresh_lru s key Hinv Hk). rewrite El'. simpl. by left.
  - eexists _, _, _. split; [done|]. split_and!; try done.
Qed.

Lemma erase_spec s key :
  cache_inv s -> cache_inv (erase key s) /\ order (erase key s) = without key (order s) /\ cache_ (erase key s) = delete key (cache_ s).
Proof.
  intros Hinv. pose proof Hinv as (Hs & Hnd & Hmem). unfold erase. destruct (cache_ s !! key) as [e|] eqn:He.
  - rewrite (lru_erase_found _ _ _ Hnd (lookup_lru s key e Hinv He)). split; [|split; [|done]].
    + split_and!; cbn [lrumap_ cache_ set_maps]; [by apply time_sorted_filter | rewrite drop_key_order; by apply NoDup_filter|].
      intros t j. rewrite elem_of_drop_key, Hmem. destruct (decide (j = key)) as [->|Hne].
      * rewrite lookup_delete_eq. split; [by intros [_ ?] | by intros (? & ? & _)].
      * rewrite lookup_delete_ne by done. tauto.
    + unfold order. cbn [lrumap_ set_maps]. by rewrite drop_key_order.
  - split; [done|]. rewrite delete_id by done. split; [|done]. unfold order.
    by rewrite <- drop_key_order, drop_key_fresh by (by apply fresh_lru).
Qed.

(** ** Sequences of calls *)

Inductive call : Type :=
| CallGet (key : Key) (v0 : Value) (t1 t2 t3 : Z)
| CallErase (key : Key)
| CallClear.

Definition step (load : Key -> Value -> bool * Value) (c : call) (s : Cache) : outcome Cache :=
  match c with
  | CallGet key v0 t1 t2 t3 => let! (r, s') := get load key v0 t1 t2 t3 s in Ok s'
  | CallErase key => Ok (erase key s)
  | CallClear => Ok (clear s)
  end.

Fixpoint calls (load : Key -> Value -> bool * Value) (cs : list call) (s : Cache) : outcome Cache :=
  match cs with
  | [] => Ok s
  | c :: cs' => let! s' := step load c s in calls load cs' s'
  end.

(** The clock readings of successive calls do not decrease. *)
Fixpoint clock_from (t : Z) (cs : list call) : Prop :=
  match cs with
  | [] => True
  | CallGet _ _ t1 t2 t3 :: cs' => t <= t1 /\ t1 <= t2 /\ t2 <= t3 /\ clock_from t3 cs'
  | _ :: cs' => clock_from t cs'
  end.

Lemma order_after_bound s key r :
  0 <= max_size_ s -> cache_inv s -> Z.of_nat (length (order s)) <= max_size_ s ->
  Z.of_nat (length (order_after s key r)) <= max_size_ s.
Proof.
  intros Hm Hinv Hl. unfold order_after. destruct r; [|done]. cbn [negb]. destruct (cache_ s !! key) as [e|] eqn:He.
  - pose proof (lookup_lru s key e Hinv He) as Hin. rewrite length_app. cbn [length].
    assert (length (without key (order s)) < length (order s))%nat; [|lia]. unfold without.
    apply (length_filter_lt _ _ key); [|tauto]. unfold order. apply list_elem_of_In, in_map_iff. exists (hit_time e, key).
    split; [done|]. by apply list_elem_of_In.
  - case_bool; breflect; [|rewrite length_app; cbn [length]; lia]. destruct (order s) as [|x l]; cbn [app tail length] in *; [lia|].
    rewrite length_app. cbn [length]. lia.
Qed.

Lemma step_bounded load c s t :
  0 <= max_size_ s -> cache_inv s -> before t s -> Z.of_nat (length (order s)) <= max_size_ s ->
  clock_from t [c] ->
  exists s' t', step load c s = Ok s' /\ max_size_ s' = max_size_ s /\ cache_inv s' /\ before t' s' /\
    Z.of_nat (length (order s')) <= max_size_ s /\ (forall cs, clock_from t (c :: cs) -> clock_from t' cs).
Proof.
  intros Hm Hinv Hb Hl Hck. destruct c as [key v0 t1 t2 t3|key|]; cbn [step clock_from] in *.
  - assert (before t3 s) as Hb3 by (eapply before_mono; [|done]; lia).
    destruct (cache_ s !! key) as [e|] eqn:He.
    + destruct (get_hit load key v0 t1 t2 t3 s e Hinv Hb3 He) as (r & v & s' & -> & Hi & Hb' & Ho & Hms & _).
      exists s', t3. cbn [obind]. split_and!; try done; [rewrite Ho; by apply order_after_bound | tauto].
    + destruct (get_miss load key v0 t1 t2 t3 s Hinv Hb3 He) as (r & v & s' & -> & Hi & Hb' & Ho & Hms & _).
      exists s', t3. cbn [obind]. split_and!; try done; [rewrite Ho; by apply order_after_bound | tauto].
  - destruct (erase_spec s key Hinv) as (Hi & Ho & Hc). exists (erase key s), t. split; [done|].
    assert (max_size_ (erase key s) = max_size_ s) as Hms by (unfold erase; by destruct (cache_ s !! key)).
    split_and!; try done.
    + unfold before, erase in *. destruct (cache_ s !! key) as [e|] eqn:He; [|done]. cbn [lrumap_ set_maps].
      rewrite (lru_erase_found _ _ _ (proj1 (proj2 Hinv)) (lookup_lru s key e Hinv He)).
      rewrite Forall_forall in *. intros p [_ Hp]%list_elem_of_filter. by apply Hb.
    + rewrite Ho. unfold without. pose proof (length_filter (fun x => x <> key) (order s)). lia.
  - exists (clear s), t. split; [done|]. split; [done|]. split.
    + split_and!; [done | constructor |]. intros t' k. simpl. rewrite lookup_empty. split; [by intros ?%elem_of_nil | by intros (? & ? & _)].
    + split_and!; [constructor | cbn; lia | done].
Qed.

Lemma calls_bounded load cs s t :
  0 <= max_size_ s -> cache_inv s -> before t s -> Z.of_nat (length (order s)) <= max_size_ s -> clock_from t cs ->
  exists s', calls load cs s = Ok s' /\ cache_inv s' /\ max_size_ s' = max_size_ s /\ Z.of_nat (length (order s')) <= max_size_ s.
Proof.
  revert s t. induction cs as [|c cs IH]; intros s t Hm Hinv Hb Hl Hck; cbn [calls]; [by exists s|].
  destruct (step_bounded load c s t Hm Hinv Hb Hl) as (s' & t' & -> & Hms & Hinv' & Hb' & Hl' & Hck').
  { destruct c; cbn [clock_from] in *; tauto. }
  cbn [obind]. destruct (IH s' t') as (s2 & -> & Hi2 & Hm2 & Hl2); [by rewrite Hms | done | done | by rewrite Hms | by apply Hck' |].
  exists s2. by rewrite <- Hms.
Qed.

Lemma cache_inv_new max_size life_time : cache_inv (Cache_new max_size life_time).
Proof.
  split_and!; [done | constructor |]. intros t k. simpl. rewrite lookup_empty. split; [by intros ?%elem_of_nil | by intros (? & ? & _)].
Qed.

(** ** Properties *)

(** C12 One call of [get] on a well-formed cache, with a clock that does not go back:
    it does not touch invalid memory, keeps the cache well formed, and updates the
    recency order as LRU prescribes - a hit makes the key the most recent, a
    successful load adds it and evicts the least recently used key if the cache is
    over its size, a failed load changes nothing.  A fresh hit returns the cached
    value; an expired hit or a miss returns what [load] produced. *)
Theorem cache_get_is_lru load key v0 t1 t2 t3 s :
  cache_inv s -> before t3 s ->
  exists r v s', get load key v0 t1 t2 t3 s = Ok (r, v, s') /\ cache_inv s' /\ before t3 s' /\
    order s' = order_after s key r /\
    match cache_ s !! key with
    | Some e => if expired_at t1 e s then r = (load key (value e)).1 /\ (r = true -> v = (load key (value e)).2)
                else r = true /\ v = value e
    | None => (r, v) = load key v0
    end.
Proof.
  intros Hinv Hb. destruct (cache_ s !! key) as [e|] eqn:He.
  - destruct (get_hit load key v0 t1 t2 t3 s e Hinv Hb He) as (r & v & s' & Hg & Hi & Hb' & Ho & _ & Hv).
    exists r, v, s'. split_and!; try done. destruct (expired_at t1 e s); [|tauto]. destruct Hv as [Hv _].
    rewrite <- Hv. split; [done|]. by intros ->.
  - destruct (get_miss load key v0 t1 t2 t3 s Hinv Hb He) as (r & v & s' & Hg & Hi & Hb' & Ho & _ & Hv & _).
    by exists r, v, s'.
Qed.

(** In every sequence of get, erase and clear calls on a fresh cache the number of
    entries never exceeds the configured maximum and every cached key is in the LRU
    list exactly once. *)
Theorem cache_never_exceeds_max load cs max_size life_time :
  0 <= max_size -> clock_from 0 cs ->
  exists s, calls load cs (Cache_new max_size life_time) = Ok s /\ cache_inv s /\ Z.of_nat (size (cache_ s)) <= max_size.
Proof.
  intros Hm Hck. destruct (calls_bounded load cs (Cache_new max_size life_time) 0) as (s & -> & Hinv & _ & Hl);
    [done | apply cache_inv_new | by constructor | done | done |].
  exists s. split_and!; [done | done |]. rewrite (inv_size s Hinv). unfold order in Hl. by rewrite length_map in Hl.
Qed.
End Cache.

Definition demo_load (k v : Z) : bool * Z := (true, k * 10).
Definition demo_calls : list (@call Z Z) :=
  [CallGet 1 0 1 2 3; CallGet 2 0 4 5 6; CallGet 1 0 7 8 9; CallGet 3 0 10 11 12; CallErase 2; CallGet 4 0 13 14 15].

Lemma cache_never_exceeds_max_witness :
  exists s, calls demo_load demo_calls (Cache_new 2 300) = Ok s /\ cache_inv s /\ Z.of_nat (size (cache_ s)) <= 2.
Proof. apply (cache_never_exceeds_max demo_load demo_calls 2 300); [discriminate | cbn; lia]. Defined.

Definition one_entry : @Cache Z Z _ _ := mkCache {[ 1 := mkCacheEntry 0 5 10 ]} [(5, 1)] 1 300 0 0 0.

Lemma one_entry_inv : cache_inv one_entry.
Proof.
  split_and!; [by repeat constructor | apply NoDup_singleton |]. intros t k. cbn [lrumap_ cache_ one_entry].
  rewrite list_elem_of_singleton. split; [intros [= -> ->]; by eexists | intros (e & [<- <-]%lookup_singleton_Some & <-); done].
Qed.

Lemma cache_get_is_lru_witness :
  exists r v s', get demo_load 2 0 6 7 8 one_entry = Ok (r, v, s') /\ cache_inv s' /\ before 8 s' /\
    order s' = order_after one_entry 2 r /\
    match cache_ one_entry !! 2 with
    | Some e => if expired_at 6 e one_entry then r = (demo_load 2 (value e)).1 /\ (r = true -> v = (demo_load 2 (value e)).2)
                else r = true /\ v = value e
    | None => (r, v) = demo_load 2 0
    end.
Proof.
  apply (cache_get_is_lru demo_load 2 0 6 7 8 one_entry); [exact one_entry_inv | repeat constructor; discriminate].
Defined.
