(* ===== verification/Stomp.v ===== *)
(** * Stomp: the STOMP CONNECT frame

    Models [stomp::Frame] and [stomp::Connect]
    (src/src/include/network/protocol/stomp/stomp.hpp,
    src/src/lib/network/protocol/stomp/stomp.cpp). *)

From S2P Require Import Prelude.
From S2P Require Import SystemError.
From S2P Require Import Bytes.

Local Open Scope Z_scope.

Inductive FrameMatch : Type := NoMatch | IncompleteMatch | FullMatch.
Inductive Version : Type := v1_2.

(** The constant members of [Frame], as octets. *)
Definition eol : str := [chr 10].
Definition command_connect : str := lit "STOMP".
Definition command_connected : str := lit "CONNECTED".
Definition header_accept_version_1_2 : str := lit "accept-version:1.2".

Record Connect : Type := mkConnect {
  host_ : str; login_ : str; passcode_ : str; version_ : Version; heartbeat_out_ms_ : Z; heartbeat_in_ms_ : Z
}.

Definition Connect_new (v : Version) : Connect := mkConnect [] [] [] v 0 0.
Definition setHost (h : str) (c : Connect) := mkConnect h (login_ c) (passcode_ c) (version_ c) (heartbeat_out_ms_ c) (heartbeat_in_ms_ c).
Definition setLogin (l : str) (c : Connect) := mkConnect (host_ c) l (passcode_ c) (version_ c) (heartbeat_out_ms_ c) (heartbeat_in_ms_ c).
Definition setPasscode (p : str) (c : Connect) := mkConnect (host_ c) (login_ c) p (version_ c) (heartbeat_out_ms_ c) (heartbeat_in_ms_ c).
Definition setHeartbeat (o i : Z) (c : Connect) := mkConnect (host_ c) (login_ c) (passcode_ c) (version_ c) o i.

Inductive State : Type := command_read | endofline.

(** The [case endofline] block: leave with a match, or consume a CR. *)
Definition endofline_case (frame : Bytes) (index : Z) : outcome (Z + FrameMatch) :=
  let! o := getOctet index frame in
  if o =c chr 13 then Ok (inl (index + 1))
  else if o =c chr 10 then Ok (inr FullMatch)
  else Ok (inr NoMatch).

(** The [while] loop over (state, index, cmd_idx).  The first case has no [break]: it
    continues with the second. *)
Fixpoint readCommand (fuel : nat) (frame command : Bytes) (st : State) (index cmd_idx : Z) : outcome (FrameMatch * Z) :=
  match fuel with
  | O => OutOfFuel
  | S f =>
      if index <? getSize frame then
        let! (st1, index1, cmd1, stop) :=
          match st with
          | command_read =>
              if cmd_idx =? getSize command then Ok (endofline, index, cmd_idx, false)
              else
                let! a := getOctet index frame in
                let! b := getOctet cmd_idx command in
                if negb (a =c b) then Ok (st, index, cmd_idx, true)
                else Ok (command_read, index + 1, cmd_idx + 1, false)
          | endofline => Ok (st, index, cmd_idx, false)
          end in
        if stop : bool then Ok (NoMatch, index1)
        else
          let! r := endofline_case frame index1 in
          match r with
          | inl index2 => readCommand f frame command st1 index2 cmd1
          | inr m => Ok (m, index1)
          end
      else Ok (IncompleteMatch, index)
  end.

Section Operations.
Context `{Allocator}.

(** [Connect::match] *)
Definition connect_match (fuel : nat) (frame : Bytes) : outcome FrameMatch :=
  let! command := completed (of_string command_connect) in
  let! (m, index) := readCommand fuel frame command command_read 0 0 in
  Ok m.

(** [frame.append( s )] with a temporary or constant [Bytes] made from a string. *)
Definition append_text (s : str) (frame : Bytes) : result unit :=
  match of_string s with
  | (Ok _, src) => append src frame
  | (Throw e, _) => (Throw e, frame)
  | (OutOfFuel, _) => (OutOfFuel, frame)
  end.

Fixpoint append_texts (parts : list str) (frame : Bytes) : result unit :=
  match parts with
  | [] => (Ok tt, frame)
  | s :: parts' => andThen (append_text s frame) (fun _ f => append_texts parts' f)
  end.

(** [Connect::generate]; [Puts() << n] prints in decimal. *)
Definition generate (c : Connect) (frame : Bytes) : result unit :=
  andThen (append_texts
    ([command_connect; eol; header_accept_version_1_2; eol; lit "host:" ++ host_ c; eol] ++
     (if 0 <? zlen (login_ c) then [lit "login:" ++ login_ c; eol; lit "passcode:" ++ passcode_ c; eol] else []) ++
     (if negb (heartbeat_out_ms_ c =? 0)
      then [lit "heart-beat:" ++ print_dec (heartbeat_out_ms_ c) ++ lit "," ++ print_dec (heartbeat_in_ms_ c); eol] else []) ++
     [eol]) (free frame))
    (fun _ f => append_octet (chr 0) f).
End Operations.

(** ** Properties *)

(** The frame as text: command line, headers, empty line, NUL. *)
Definition frame_text (c : Connect) : str :=
  lit "STOMP" ++ eol ++ lit "accept-version:1.2" ++ eol ++ lit "host:" ++ host_ c ++ eol ++
  (if 0 <? zlen (login_ c) then lit "login:" ++ login_ c ++ eol ++ lit "passcode:" ++ passcode_ c ++ eol else []) ++
  (if negb (heartbeat_out_ms_ c =? 0)
   then lit "heart-beat:" ++ print_dec (heartbeat_out_ms_ c) ++ lit "," ++ print_dec (heartbeat_in_ms_ c) ++ eol else []) ++
  eol ++ [chr 0].

Section Properties.
Context `{Allocator} (Halloc : forall n, alloc_ok n = true).

Lemma append_text_rep s b l :
  rep b l -> zlen l + zlen s < size_limit -> exists b', append_text s b = (Ok tt, b') /\ rep b' (l ++ s).
Proof.
  intros Hrep Hsz. pose proof (zlen_nonneg l). pose proof (zlen_nonneg s). unfold append_text.
  destruct (of_string_rep s ltac:(lia) (Halloc _)) as (src & -> & Hsrc).
  apply (append_rep b l src s Hrep Hsrc); [lia | apply Halloc].
Qed.

Lemma append_texts_rep parts b l :
  rep b l -> zlen l + zlen (concat parts) < size_limit ->
  exists b', append_texts parts b = (Ok tt, b') /\ rep b' (l ++ concat parts).
Proof.
  revert b l. induction parts as [|s parts IH]; intros b l Hrep Hsz; cbn [append_texts concat] in *.
  - exists b. by rewrite app_nil_r.
  - rewrite zlen_app in Hsz. pose proof (zlen_nonneg (concat parts)).
    destruct (append_text_rep s b l Hrep ltac:(lia)) as (b1 & -> & Hrep1). cbn [andThen].
    destruct (IH b1 (l ++ s) Hrep1 ltac:(rewrite zlen_app; lia)) as (b2 & -> & Hrep2). exists b2. by rewrite app_assoc.
Qed.

Lemma generate_rep c frame :
  zlen (frame_text c) < size_limit -> exists b', generate c frame = (Ok tt, b') /\ rep b' (frame_text c).
Proof.
  intros Hsz. unfold generate.
  match goal with |- context [append_texts ?p _] => set (parts := p) end.
  assert (concat parts ++ [chr 0] = frame_text c) as Htext.
  { unfold parts, frame_text, command_connect, header_accept_version_1_2. rewrite !concat_app. cbn [concat].
    rewrite <- ?app_assoc. cbn [app]. rewrite <- ?app_assoc.
    destruct (0 <? zlen (login_ c)); destruct (heartbeat_out_ms_ c =? 0); cbn [negb concat app];
      rewrite ?app_nil_r, <- ?app_assoc; reflexivity. }
  rewrite <- Htext, zlen_app in Hsz. change (zlen [chr 0]) with 1 in Hsz.
  destruct (append_texts_rep parts (free frame) [] rep_new ltac:(change (zlen (@nil ascii)) with 0; lia)) as (b1 & -> & Hrep1).
  cbn [andThen app] in *. destruct (append_octet_rep b1 (concat parts) (chr 0) Hrep1 Hsz (Halloc _)) as (b2 & -> & Hrep2).
  exists b2. by rewrite <- Htext.
Qed.

(** A frame that starts with two characters of the command is rejected at the second. *)
Lemma readCommand_second_octet fuel frame command l c d x t :
  rep frame (c :: d :: t) -> rep command (c :: x :: l) -> (d =c chr 13) = false -> (d =c chr 10) = false -> (0 < fuel)%nat ->
  readCommand fuel frame command command_read 0 0 = Ok (NoMatch, 1).
Proof using Type.
  clear Halloc. intros Hf Hc Hcr Hlf Hfuel. destruct fuel as [|f]; [lia|]. cbn [readCommand]. unfold getSize.
  rewrite (rep_size _ _ Hf), (rep_size _ _ Hc), !zlen_cons. pose proof (zlen_nonneg t). pose proof (zlen_nonneg l).
  destruct (Z.ltb_spec 0 (zlen t + 1 + 1)); [|lia]. destruct (Z.eqb_spec 0 (zlen l + 1 + 1)); [lia|].
  pose proof (getOctet_rep _ _ 0%nat c Hf eq_refl) as Ho0. pose proof (getOctet_rep _ _ 0%nat c Hc eq_refl) as Ho1.
  pose proof (getOctet_rep _ _ 1%nat d Hf eq_refl) as Ho2. change (Z.of_nat 0) with 0 in *. change (Z.of_nat 1) with 1 in *.
  rewrite Ho0, Ho1. cbn [obind]. rewrite ascii_eqb_true. cbn [negb obind].
  unfold endofline_case. change (0 + 1) with 1. rewrite Ho2. cbn [obind]. by rewrite Hcr, Hlf.
Qed.

(** [Connect::generate] writes the CONNECT frame: command, accept-version and host
    headers, login and passcode when a login is set, the heart-beat header when an
    outgoing heart-beat is set, an empty line and a NUL; whatever the frame held
    before. *)
Theorem generate_writes_frame c frame :
  zlen (frame_text c) < size_limit -> exists b', generate c frame = (Ok tt, b') /\ rep b' (frame_text c).
Proof. apply generate_rep. Qed.

(** [Connect::match] rejects every frame that [Connect::generate] writes: behind the
    first octet of the command the loop falls through to the end-of-line test. *)
Theorem own_frame_never_matches c frame fuel :
  zlen (frame_text c) < size_limit -> (0 < fuel)%nat ->
  exists b', generate c frame = (Ok tt, b') /\ connect_match fuel b' = Ok NoMatch.
Proof.
  intros Hsz Hf. destruct (generate_rep c frame Hsz) as (b' & Hg & Hrep). exists b'. split; [done|].
  unfold connect_match. destruct (of_string_rep command_connect ltac:(done) (Halloc _)) as (cmd & -> & Hcmd).
  cbn [completed obind].
  rewrite (readCommand_second_octet fuel b' cmd (lit "OMP") "S"%char "T"%char "T"%char (drop 2 (frame_text c))); done.
Qed.
End Properties.

Definition demo_connect : Connect :=
  setHeartbeat 10000 30000 (setPasscode (lit "secret") (setLogin (lit "spjm") (setHost (lit "stomp.github.org") (Connect_new v1_2)))).

Lemma generate_writes_frame_witness :
  exists b', @generate always_alloc demo_connect (bytes_of (lit "old content")) = (Ok tt, b') /\ rep b' (frame_text demo_connect).
Proof.
  apply (@generate_writes_frame always_alloc (fun _ => eq_refl) demo_connect (bytes_of (lit "old content"))). reflexivity.
Defined.

Lemma own_frame_never_matches_witness :
  exists b', @generate always_alloc demo_connect Bytes_new = (Ok tt, b') /\ @connect_match always_alloc 10 b' = Ok NoMatch.
Proof.
  apply (@own_frame_never_matches always_alloc (fun _ => eq_refl) demo_connect Bytes_new 10); [reflexivity | lia].
Defined.
