(* ===== verification/Util.v ===== *)
(** * Util: string helpers

    Models the pure helpers of src/src/include/common/util.hpp and
    src/src/lib/common/util.cpp: split, escapedSplit, strASCII, dumpBinaryData,
    escapeJSON and the line readers.  A text file is its content, or [None] when it
    cannot be opened. *)

From S2P Require Import Prelude.
From S2P Require Import HTTPMessage.

Local Open Scope Z_scope.

(** ** Splitting *)

(** [while ( getline( is, s, delimiter ) ) result.push_back( s )]: what follows the
    last delimiter is a piece only if it is not empty. *)
Fixpoint split_aux (delimiter : ascii) (s : str) (src : str) : list str :=
  match src with
  | [] => match s with [] => [] | _ => [s] end
  | c :: t => if c =c delimiter then s :: split_aux delimiter [] t else split_aux delimiter (s ++ [c]) t
  end.

Definition split (src : str) (delimiter : ascii) : list str := split_aux delimiter [] src.

Inductive SplitState : Type := stInit | stEscape | stInput.

Fixpoint escaped_aux (escape : list ascii) (delimiter : ascii) (st : SplitState) (tmp : str) (src : str) : list str :=
  match src with
  | [] => if 0 <? zlen tmp then [tmp] else []
  | c :: t =>
      if existsb (Ascii.eqb c) escape then escaped_aux escape delimiter stEscape tmp t
      else if c =c delimiter then
        match st with
        | stEscape => escaped_aux escape delimiter stInput (tmp ++ [c]) t
        | _ => tmp :: escaped_aux escape delimiter stInput [] t
        end
      else escaped_aux escape delimiter st (tmp ++ [c]) t
  end.

Definition escapedSplit (src : str) (escape : list ascii) (delimiter : ascii) : list str :=
  escaped_aux escape delimiter stInit [] src.

(** ** Character dumps *)

Definition control_names : list str :=
  [lit "NUL"; lit "SOH"; lit "STX"; lit "ETX"; lit "EOT"; lit "ENQ"; lit "ACK"; lit "BEL"; lit " BS"; lit " HT"; lit " LF";
   lit " VT"; lit " FF"; lit " CR"; lit " SO"; lit " SI"; lit "DLE"; lit "DC1"; lit "DC2"; lit "DC3"; lit "DC4"; lit "NAK";
   lit "SYN"; lit "ETB"; lit "CAN"; lit " EM"; lit "SUB"; lit "ESC"; lit " FS"; lit " GS"; lit " RS"; lit " US"].

(** [c] is a signed char; the last branch prints the char itself. *)
Definition strASCII (c : ascii) : str :=
  if (schar c <? 32) || (schar c =? 127) then
    if schar c =? 127 then lit "DEL"
    else if schar c <? 0 then lit "???"
    else default (lit "???") (control_names !! Z.to_nat (schar c))
  else if schar c <? 255 then setw 3 " "%char [c]
  else setw 3 "0"%char [c].

Definition newline : str := [chr 10].

(** The two text lines of one dumped row; [idx - width] is a [size_t]. *)
Definition dump_row (idx width : Z) (binary_line char_line : str) (last : bool) : str :=
  setw 6 "0"%char (print_dec (u64 (idx - width))) ++ binary_line ++ newline ++
  replicate 6 " "%char ++ char_line ++ (if last then [] else newline).

Definition hex_cell (c : ascii) : str := lit " " ++ setw 2 "0"%char (print_hex (octet c)) ++ lit " ".
Definition char_cell (c : ascii) : str := strASCII c ++ lit " ".

Fixpoint dump_aux (width idx line_idx : Z) (binary_line char_line : str) (s : str) : str :=
  match s with
  | [] => if line_idx =? 0 then [] else dump_row idx width binary_line char_line true
  | c :: t =>
      if width <=? line_idx then
        dump_row idx width binary_line char_line false ++
        dump_aux width (idx + 1) 1 (hex_cell c) (char_cell c) t
      else dump_aux width (idx + 1) (line_idx + 1) (binary_line ++ hex_cell c) (char_line ++ char_cell c) t
  end.

Definition dumpBinaryData (s : str) (width : Z) : str := dump_aux width 0 0 [] [] s.

(** ** JSON *)

Definition quote : ascii := chr 34.
Definition backslash : ascii := chr 92.

Definition escapeJSON_char (c : ascii) : str :=
  if c =c quote then [backslash; quote]
  else if c =c backslash then [backslash; backslash]
  else if c =c chr 8 then [backslash; "b"%char]
  else if c =c chr 12 then [backslash; "f"%char]
  else if c =c chr 10 then [backslash; "n"%char]
  else if c =c chr 13 then [backslash; "r"%char]
  else if c =c chr 9 then [backslash; "t"%char]
  else if (0 <=? schar c) && (schar c <=? 31) then [backslash; "u"%char] ++ setw 4 "0"%char (print_hex (schar c))
  else [c].

Fixpoint escapeJSON (s : str) : str :=
  match s with [] => [] | c :: t => escapeJSON_char c ++ escapeJSON t end.

(** ** Reading lines *)

(** [getline] on the rest of a stream: the line, the rest, and [good()] afterwards
    (reading up to the end of the file sets eofbit). *)
Fixpoint getline_aux (line s : str) : str * str * bool :=
  match s with
  | [] => (line, [], false)
  | c :: t => if c =c chr 10 then (line, t, true) else getline_aux (line ++ [c]) t
  end.
Definition getline (s : str) : str * str * bool := getline_aux [] s.

Definition open_failed (filename : str) : exn := DodoException (lit "failed to open '" ++ filename ++ lit "'").

Definition fileReadString (filename : str) (content : option str) : outcome str :=
  match content with
  | Some s => let '(line, _, _) := getline s in Ok line
  | None => Throw (open_failed filename)
  end.

(** [while ( ifs.good() ) { if keep push_back( line ); getline( ifs, line ); }]; every
    turn but the last consumes a character of [rest]. *)
Fixpoint read_lines (fuel : nat) (keep : str -> bool) (line rest : str) (good : bool) : outcome (list str) :=
  match fuel with
  | O => OutOfFuel
  | S f =>
      if good then
        let '(line', rest', good') := getline rest in
        let! lines := read_lines f keep line' rest' good' in
        Ok ((if keep line then [line] else []) ++ lines)
      else Ok []
  end.

Definition first_line (content : option str) : str * str * bool :=
  match content with Some s => getline s | None => ([], [], false) end.

(** [fileReadStrings( filename )]: the test is on [good()], not on its negation. *)
Definition fileReadStrings (filename : str) (content : option str) : outcome (list str) :=
  let '(line, rest, good) := first_line content in
  if good then Throw (open_failed filename)
  else read_lines (S (length rest)) (fun _ => true) line rest good.

(** [fileReadStrings( filename, exp )]; [matches] is the regular expression. *)
Definition fileReadStrings_regex (filename : str) (matches : str -> bool) (content : option str) : outcome (list str) :=
  let '(line, rest, good) := first_line content in
  if negb good then Throw (open_failed filename)
  else read_lines (S (S (length rest))) matches line rest good.

(** ** Properties *)

Fixpoint join (delimiter : ascii) (pieces : list str) : str :=
  match pieces with
  | [] => []
  | [p] => p
  | p :: ps => p ++ delimiter :: join delimiter ps
  end.

Definition free_of (d : ascii) (p : str) : bool := forallb (fun c => negb (c =c d)) p.

Lemma free_of_app d s t : free_of d (s ++ t) = free_of d s && free_of d t.
Proof. apply forallb_app. Qed.

Lemma split_aux_piece d acc p t :
  free_of d p = true -> split_aux d acc (p ++ d :: t) = (acc ++ p) :: split_aux d [] t.
Proof.
  revert acc. induction p as [|c p IH]; intros acc Hp; simpl.
  - by rewrite ascii_eqb_true, app_nil_r.
  - unfold free_of in Hp. simpl in Hp. apply andb_true_iff in Hp as [Hc Hp]. apply negb_true_iff in Hc.
    rewrite Hc, IH by done. by rewrite <- app_assoc.
Qed.

Lemma split_aux_last d acc p : free_of d p = true -> split_aux d acc p = match acc ++ p with [] => [] | s => [s] end.
Proof.
  revert acc. induction p as [|c p IH]; intros acc Hp; simpl.
  - rewrite app_nil_r. by destruct acc.
  - unfold free_of in Hp. simpl in Hp. apply andb_true_iff in Hp as [Hc Hp]. apply negb_true_iff in Hc.
    rewrite Hc, IH by done. by rewrite <- app_assoc.
Qed.

Lemma split_join d ps p :
  forallb (free_of d) ps = true -> free_of d p = true -> p <> [] -> split (join d (ps ++ [p])) d = ps ++ [p].
Proof.
  intros Hps Hp Hne. unfold split. induction ps as [|q ps IH]; cbn [app join forallb] in *.
  - rewrite split_aux_last by done. by destruct p.
  - apply andb_true_iff in Hps as [Hq Hps]. destruct (ps ++ [p]) as [|x xs] eqn:E; [by destruct ps|].
    rewrite split_aux_piece by done. cbn [app]. by rewrite IH.
Qed.

(** [split] inverts joining: pieces without the delimiter, the last one not empty,
    joined by the delimiter are split back into the same pieces. *)
Theorem split_inverts_join d ps p :
  forallb (free_of d) ps = true -> free_of d p = true -> p <> [] -> split (join d (ps ++ [p])) d = ps ++ [p].
Proof. apply split_join. Qed.

Lemma split_inverts_join_witness :
  split (lit "a,,b c") ","%char = [lit "a"; []; lit "b c"].
Proof. apply (split_inverts_join ","%char [lit "a"; []] (lit "b c")); [reflexivity | reflexivity | discriminate]. Defined.

(** [escapedSplit] does not do what its documentation says: the escape character is
    dropped even when no delimiter follows, and it still protects the next delimiter
    however far away. *)
Theorem escapedSplit_differs_from_doc :
  escapedSplit (lit "one:two$:three") ["$"%char] ":"%char = [lit "one"; lit "two:three"] /\
  escapedSplit (lit "one:t$$wo:three") ["$"%char] ":"%char = [lit "one"; lit "two:three"].
Proof. split; reflexivity. Qed.

(** Without escape characters in the text, [escapedSplit] is [split]. *)
Theorem escapedSplit_plain escape d src :
  forallb (fun c => negb (existsb (Ascii.eqb c) escape)) src = true -> escapedSplit src escape d = split src d.
Proof.
  unfold escapedSplit, split. generalize (@nil ascii).
  assert (forall st acc, st <> stEscape -> forallb (fun c => negb (existsb (Ascii.eqb c) escape)) src = true ->
            escaped_aux escape d st acc src = split_aux d acc src) as Haux; [|intros acc Hs; by apply Haux].
  induction src as [|c src IH]; intros st acc Hst Hs; simpl.
  - destruct acc; [done|]. rewrite zlen_cons. pose proof (zlen_nonneg acc). destruct (Z.ltb_spec 0 (zlen acc + 1)); [done|lia].
  - simpl in Hs. apply andb_true_iff in Hs as [Hc Hs]. apply negb_true_iff in Hc. rewrite Hc.
    destruct (c =c d); [|by apply IH]. destruct st; [by rewrite IH | done | by rewrite IH].
Qed.

Lemma escapedSplit_plain_witness : escapedSplit (lit "a:b::c") ["$"%char] ":"%char = split (lit "a:b::c") ":"%char.
Proof. apply (escapedSplit_plain ["$"%char] ":"%char (lit "a:b::c")). reflexivity. Defined.

(** The reader of a JSON string: [None] for a malformed text. *)
Fixpoint unescape (s : str) : option str :=
  match s with
  | [] => Some []
  | c :: t =>
      if c =c quote then None
      else if c =c backslash then
        match t with
        | d :: t' =>
            if d =c "u"%char then
              match t' with
              | h1 :: h2 :: h3 :: h4 :: t2 =>
                  if forallb isxdigit [h1; h2; h3; h4]
                  then option_map (cons (chr (read_base 16 [h1; h2; h3; h4]))) (unescape t2) else None
              | _ => None
              end
            else
              let plain := if (d =c quote) || (d =c backslash) || (d =c "/"%char) then Some d
                           else if d =c "b"%char then Some (chr 8) else if d =c "f"%char then Some (chr 12)
                           else if d =c "n"%char then Some (chr 10) else if d =c "r"%char then Some (chr 13)
                           else if d =c "t"%char then Some (chr 9) else None in
              match plain with Some x => option_map (cons x) (unescape t') | None => None end
        | [] => None
        end
      else if octet c <? 32 then None
      else option_map (cons c) (unescape t)
  end.

Lemma unescape_char c t : unescape (escapeJSON_char c ++ t) = option_map (cons c) (unescape t).
Proof.
  (* decided for each of the 256 characters, with the rest of the text left open *)
  pose proof (elem_of_all_ascii c) as Hin. revert c Hin.
  apply List.Forall_forall. unfold all_ascii. cbn [seq map].
  repeat (constructor; [reflexivity|]). constructor.
Qed.

(** A JSON reader gets the original text back from [escapeJSON]: every quote,
    backslash and control character is escaped by a sequence that denotes it, and no
    raw control character or unescaped quote remains. *)
Theorem escapeJSON_round_trip (s : str) : unescape (escapeJSON s) = Some s.
Proof. induction s as [|c s IH]; [done|]. cbn [escapeJSON]. by rewrite unescape_char, IH. Qed.

(** [strASCII] always yields three characters, so the columns of a dump align. *)
Theorem strASCII_width (c : ascii) : length (strASCII c) = 3%nat.
Proof.
  apply Nat.eqb_eq. revert c. apply (ascii_forall (fun c => (length (strASCII c) =? 3)%nat)). by vm_compute.
Qed.

(** The offset printed for the last row of [dumpBinaryData] is computed as if the row
    were full: for a text shorter than the width it is a number near 2^64. *)
Theorem dump_short_text_offset_wraps s width :
  s <> [] -> zlen s < width < 2 ^ 64 ->
  exists tail, dumpBinaryData s width = setw 6 "0"%char (print_dec (2 ^ 64 - (width - zlen s))) ++ tail.
Proof.
  intros Hne Hw. unfold dumpBinaryData.
  assert (forall t idx b c, 0 <= idx -> idx + zlen t < width -> t <> [] \/ 0 < idx ->
    exists tail, dump_aux width idx idx b c t = setw 6 "0"%char (print_dec (2 ^ 64 - (width - (idx + zlen t)))) ++ tail) as Haux.
  { induction t as [|x t IH]; intros idx b c H0 H1 H2; cbn [dump_aux].
    - destruct (Z.eqb_spec idx 0) as [->|_]; [destruct H2 as [H2|H2]; [done | lia]|]. change (zlen (@nil ascii)) with 0 in *.
      unfold dump_row. rewrite Z.add_0_r. eexists. f_equal. f_equal. f_equal.
      unfold u64, wrap. symmetry. apply (Z.mod_unique_pos _ _ (-1)); lia.
    - rewrite zlen_cons in *. pose proof (zlen_nonneg t). destruct (Z.leb_spec width idx); [lia|].
      destruct (IH (idx + 1) (b ++ hex_cell x) (c ++ char_cell x)) as [tail ->]; [lia | lia | right; lia |].
      exists tail. by replace (idx + 1 + zlen t) with (idx + (zlen t + 1)) by lia. }
  destruct (Haux s 0 [] [] ltac:(lia) ltac:(lia) ltac:(by left)) as [tail ->]. by exists tail.
Qed.

Lemma dump_short_text_offset_wraps_witness :
  exists tail, dumpBinaryData (lit "ab") 16 = setw 6 "0"%char (print_dec (2 ^ 64 - (16 - 2))) ++ tail.
Proof. apply (dump_short_text_offset_wraps (lit "ab") 16); [discriminate | split; reflexivity]. Defined.

(** The lines of a text that end in a line feed; [line] is the start of the first. *)
Fixpoint complete_lines (line s : str) : list str :=
  match s with
  | [] => []
  | c :: t => if c =c chr 10 then line :: complete_lines [] t else complete_lines (line ++ [c]) t
  end.

Lemma getline_aux_complete line s :
  match getline_aux line s with
  | (l, r, true) => complete_lines line s = l :: complete_lines [] r /\ (length r < length s)%nat
  | (_, _, false) => complete_lines line s = []
  end.
Proof.
  revert line. induction s as [|c s IH]; intros line; simpl; [done|]. destruct (c =c chr 10); [split; [done | lia]|].
  specialize (IH (line ++ [c])). destruct (getline_aux (line ++ [c]) s) as [[l r] []]; [|done]. destruct IH. split; [done | lia].
Qed.

Lemma read_lines_complete fuel keep line rest :
  (length rest + 2 <= fuel)%nat -> read_lines fuel keep line rest true = Ok (List.filter keep (line :: complete_lines [] rest)).
Proof.
  revert line rest. induction fuel as [|f IH]; intros line rest Hf; [lia|]. cbn [read_lines]. unfold getline.
  pose proof (getline_aux_complete [] rest) as Hg. destruct (getline_aux [] rest) as [[l r] [|]].
  - destruct Hg as [-> Hl]. rewrite IH by lia. cbn [obind List.filter]. by destruct (keep line).
  - rewrite Hg. destruct f; [lia|]. cbn [read_lines obind List.filter]. by destruct (keep line).
Qed.

(** [fileReadStrings( filename )] has its test inverted: a readable file with at least
    one complete line makes it throw, a file that cannot be opened gives an empty list,
    and it never returns a line; the overload with a regular expression tests the right
    way and returns the matching lines among those that end in a line feed. *)
Theorem fileReadStrings_inverted filename line rest matches :
  free_of (chr 10) line = true ->
  fileReadStrings filename (Some (line ++ chr 10 :: rest)) = Throw (open_failed filename) /\
  fileReadStrings filename None = Ok [] /\
  (forall content lines, fileReadStrings filename content = Ok lines -> lines = []) /\
  fileReadStrings_regex filename matches None = Throw (open_failed filename) /\
  fileReadStrings_regex filename matches (Some (line ++ chr 10 :: rest)) =
    Ok (List.filter matches (line :: complete_lines [] rest)).
Proof.
  intros Hl.
  assert (forall acc, getline_aux acc (line ++ chr 10 :: rest) = (acc ++ line, rest, true)) as Hg.
  { induction line as [|c line IH]; intros acc; simpl; [by rewrite app_nil_r|].
    unfold free_of in Hl. simpl in Hl. apply andb_true_iff in Hl as [Hc Hl]. apply negb_true_iff in Hc.
    rewrite Hc, IH by done. by rewrite <- app_assoc. }
  unfold fileReadStrings, fileReadStrings_regex. split_and!; try done.
  - unfold first_line, getline. by rewrite Hg.
  - intros content lines. destruct (first_line content) as [[l r] []]; [done|]. cbn [read_lines]. congruence.
  - unfold first_line, getline. rewrite Hg. cbn [app negb]. apply read_lines_complete. lia.
Qed.

Lemma fileReadStrings_inverted_witness :
  fileReadStrings (lit "f") (Some (lit "x" ++ chr 10 :: lit "y")) = Throw (open_failed (lit "f")) /\
  fileReadStrings (lit "f") None = Ok [] /\
  (forall content lines, fileReadStrings (lit "f") content = Ok lines -> lines = []) /\
  fileReadStrings_regex (lit "f") (fun _ => true) None = Throw (open_failed (lit "f")) /\
  fileReadStrings_regex (lit "f") (fun _ => true) (Some (lit "x" ++ chr 10 :: lit "y")) =
    Ok (List.filter (fun _ => true) (lit "x" :: complete_lines [] (lit "y"))).
Proof. apply (fileReadStrings_inverted (lit "f") (lit "x") (lit "y") (fun _ => true)). reflexivity. Defined.

(** ** Numbers in files and free space *)

Fixpoint skip_space (s : str) : str := match s with c :: r => if isspace c then skip_space r else s | [] => [] end.
Fixpoint take_digits (s : str) : str * str :=
  match s with
  | c :: r => if isdigit c then let (d, t) := take_digits r in (c :: d, t) else ([], s)
  | [] => ([], [])
  end.

(** [f >> i] for an [int]: its value and whether the stream is good afterwards.  Reaching
    the end of the stream, and a value out of range, which is replaced by the limit, both
    leave a stream that is not good; a stream with nothing but space leaves [i] alone. *)
Definition extract_int (s : str) (i : Z) : bool * Z :=
  match skip_space s with
  | [] => (false, i)
  | c :: r =>
      let neg := (c =c "-"%char) in
      let (d, rest) := take_digits (if neg || (c =c "+"%char) then r else c :: r) in
      match d with
      | [] => (false, 0)
      | _ =>
          let v := if neg then - read_base 10 d else read_base 10 d in
          if v <? - 2 ^ 31 then (false, - 2 ^ 31)
          else if 2 ^ 31 - 1 <? v then (false, 2 ^ 31 - 1)
          else (match rest with [] => false | _ => true end, v)
      end
  end.

Definition fileReadInt (content : option str) (i : Z) : bool * Z :=
  match content with Some s => extract_int s i | None => (false, i) end.

(** [availableFileSpace]: [vfs] is what statvfs answers, the block size and the blocks. *)
Definition availableFileSpace (vfs : option (Z * Z)) (avail : Z) : bool * Z :=
  match vfs with Some (bsize, bavail) => (true, u64 (bsize * bavail)) | None => (false, avail) end.

Lemma take_digits_app d rest : forallb isdigit d = true -> match rest with c :: _ => isdigit c = false | [] => True end -> take_digits (d ++ rest) = (d, rest).
Proof.
  induction d as [ | c d IH ]; cbn; intros Hd Hr; [ destruct rest as [ | c r ]; [ done | cbn; by rewrite Hr ] | ].
  apply andb_true_iff in Hd as [ Hc Hd ]. by rewrite Hc, IH.
Qed.

(** [fileReadInt] reads the number a file starts with, but answers [true] only if something
    follows it: a file that holds the number and no line feed is reported as a failure. *)
Theorem fileReadInt_reads n rest i : 0 <= n < 2 ^ 31 -> match rest with c :: _ => isdigit c = false | [] => True end ->
  fileReadInt (Some (print_dec n ++ rest)) i = (match rest with [] => false | _ => true end, n).
Proof.
  intros Hn Hr. pose proof (print_dec_digits n ltac:(lia)) as Hd. assert (Hb : numeral_base 10) by by left.
  pose proof (read_print_base 10 n Hb ltac:(lia)) as Hv. change (print_base 10 n) with (print_dec n) in Hv. pose proof (print_base_nonempty 10 n Hb ltac:(lia)) as Hne.
  change (print_base 10 n) with (print_dec n) in Hne. unfold fileReadInt, extract_int. pose proof (take_digits_app _ _ Hd Hr) as Ht.
  destruct (print_dec n) as [ | c d ]; [ done | ]. cbn [forallb] in Hd. apply andb_true_iff in Hd as [ Hc _ ].
  assert (Hsp : isspace c = false /\ (c =c "-"%char) = false /\ (c =c "+"%char) = false).
  { destruct c as [ [] [] [] [] [] [] [] [] ]; vm_compute in Hc; try discriminate Hc; by vm_compute. }
  destruct Hsp as (Hs & Hm & Hp). cbn [app skip_space]. rewrite Hs, Hm, Hp. cbn [orb]. rewrite <- app_comm_cons in Ht. rewrite Ht, Hv.
  destruct (Z.ltb_spec n (- 2 ^ 31)); [ lia | ]. by destruct (Z.ltb_spec (2 ^ 31 - 1) n); [ lia | ].
Qed.

Lemma fileReadInt_reads_witness : fileReadInt (Some (lit "42")) 7 = (false, 42) /\ fileReadInt (Some (lit "42" ++ [chr 10])) 7 = (true, 42).
Proof. split; [ apply (fileReadInt_reads 42 [] 7); (lia || exact I) | apply (fileReadInt_reads 42 [chr 10] 7); (lia || reflexivity) ]. Defined.
