(* ===== verification/DataCrypt.v ===== *)
(** * DataCrypt: encrypted strings

    Models [common::DataCrypt] (src/src/include/common/datacrypt.hpp,
    src/src/lib/common/datacrypt.cpp): the cipher tables, key padding, the text format
    ENC[cipher:..,data:..,iv:..,tag:..] and the calls into OpenSSL.  OpenSSL's AES-GCM
    is the class [GCM]: the return codes and outputs of its EVP calls.  The context
    is represented by what it was initialised with. *)

From S2P Require Import Prelude.
From S2P Require Import SystemError.
From S2P Require Import Bytes.
From S2P Require Import HTTPMessage.
From S2P Require Import Util.

Local Open Scope Z_scope.

(** ** Tables *)

Inductive Cipher : Type := EVP_aes_128_gcm | EVP_aes_192_gcm | EVP_aes_256_gcm | Invalid.
Definition Default : Cipher := EVP_aes_256_gcm.

Definition keyOctets (c : Cipher) : Z :=
  match c with EVP_aes_128_gcm => 16 | EVP_aes_192_gcm => 24 | EVP_aes_256_gcm => 32 | Invalid => 0 end.
Definition ivOctets (c : Cipher) : Z :=
  match c with EVP_aes_128_gcm => 16 | EVP_aes_192_gcm => 16 | EVP_aes_256_gcm => 16 | Invalid => 0 end.
Definition blockOctets (c : Cipher) : Z :=
  match c with EVP_aes_128_gcm => 16 | EVP_aes_192_gcm => 16 | EVP_aes_256_gcm => 16 | Invalid => 0 end.
Definition tagLength (c : Cipher) : Z :=
  match c with EVP_aes_128_gcm => 16 | EVP_aes_192_gcm => 16 | EVP_aes_256_gcm => 16 | Invalid => 0 end.

Definition cipher2String (c : Cipher) : str :=
  match c with
  | EVP_aes_128_gcm => lit "EVP_aes_128_gcm"
  | EVP_aes_192_gcm => lit "EVP_aes_192_gcm"
  | EVP_aes_256_gcm => lit "EVP_aes_256_gcm"
  | Invalid => lit "Invalid cipher"
  end.

Definition string2Cipher (s : str) : Cipher :=
  if str_eqb s (cipher2String EVP_aes_128_gcm) then EVP_aes_128_gcm
  else if str_eqb s (cipher2String EVP_aes_192_gcm) then EVP_aes_192_gcm
  else if str_eqb s (cipher2String EVP_aes_256_gcm) then EVP_aes_256_gcm
  else Invalid.

(** [octets + blockOctets - ( octets % blockOctets )] *)
Definition cipherOctets (c : Cipher) (octets : Z) : outcome Z :=
  if blockOctets c =? 0 then Throw (UndefinedBehaviour (lit "division by zero"))
  else Ok (u64 (octets + blockOctets c - octets mod blockOctets c)).

(** ** Key padding *)

(** The loop that repeats the key: [ss], [idx]; each iteration appends one octet. *)
Fixpoint pad_loop (fuel : nat) (n : Z) (key : str) (ss : str) (idx : nat) : outcome str :=
  match fuel with
  | O => OutOfFuel
  | S f =>
      if zlen ss <? n then
        match key !! idx with
        | Some c => pad_loop f n key (ss ++ [c]) (if (length key - 1 <? S idx)%nat then 0%nat else S idx)
        | None => Throw (UndefinedBehaviour (lit "string index out of range"))
        end
      else Ok ss
  end.

(** 33 iterations are enough for the longest key. *)
Definition paddedKey (c : Cipher) (key : str) : outcome str :=
  if zlen key <? 1 then Throw (DodoException (lit "empty key")) else pad_loop 33 (keyOctets c) key [] 0.

(** ** The text format *)

Definition encode (c : Cipher) (data iv tag : str) : str :=
  lit "ENC[cipher:" ++ cipher2String c ++ lit "," ++ lit "data:" ++ data ++ lit ",iv:" ++ iv ++ lit ",tag:" ++ tag ++ lit "]".

Record Parts : Type := mkParts { p_cipher : str; p_data : str; p_iv : str; p_tag : str }.

Definition set_part (key value : str) (p : Parts) : option Parts :=
  if str_eqb key (lit "cipher") then Some (mkParts value (p_data p) (p_iv p) (p_tag p))
  else if str_eqb key (lit "data") then Some (mkParts (p_cipher p) value (p_iv p) (p_tag p))
  else if str_eqb key (lit "iv") then Some (mkParts (p_cipher p) (p_data p) value (p_tag p))
  else if str_eqb key (lit "tag") then Some (mkParts (p_cipher p) (p_data p) (p_iv p) value)
  else None.

Fixpoint read_sections (sections : list str) (p : Parts) : option Parts :=
  match sections with
  | [] => Some p
  | s :: rest =>
      match split s ":"%char with
      | [key; value] => match set_part key value p with Some p' => read_sections rest p' | None => None end
      | _ => None
      end
  end.

(** [while ( isspace( src[close_pos] ) && close_pos > 0 ) close_pos--] *)
Fixpoint close_position (src : str) (pos : nat) : nat :=
  match pos with
  | O => O
  | S p => match src !! pos with Some c => if isspace c then close_position src p else pos | None => pos end
  end.

(** [decode]: [None] for a result of false. *)
Definition decode (src : str) : option Parts :=
  if negb (str_eqb (take 4 src) (lit "ENC[")) then None
  else
    let close_pos := close_position src (length src - 1) in
    if negb (str_eqb (take 1 (drop close_pos src)) (lit "]")) then None
    else
      let sections := split (take (close_pos - 4) (drop 4 src)) ","%char in
      if negb (zlen sections =? 4) then None
      else
        match read_sections sections (mkParts [] [] [] []) with
        | Some p =>
            if (zlen (p_cipher p) =? 0) || (zlen (p_data p) =? 0) || (zlen (p_iv p) =? 0) || (zlen (p_tag p) =? 0)
            then None else Some p
        | None => None
        end.

(** ** OpenSSL's AES-GCM *)

(** A cipher context: what it was initialised with, and the vector length and tag that
    the EVP_CIPHER_CTX_ctrl calls set afterwards. *)
Record CipherContext : Type := mkContext { x_cipher : Cipher; x_key : str; x_iv : str; x_ivlen : Z; x_tag : str }.

(** Return codes and octets written.  Lengths are [int]; the calls after an Update also
    depend on the text it was given. *)
Class GCM := {
  CIPHER_CTX_new : bool;
  SSL_errors : str;                                      (** [getSSLErrors( LF )] *)
  EncryptInit : Cipher -> str -> str -> Z;               (** cipher, key, iv *)
  EncryptUpdate : CipherContext -> str -> Z -> Z * str;  (** plaintext and its length *)
  EncryptFinal : CipherContext -> str -> Z * str;
  GetTag : CipherContext -> str -> Z -> Z * str;         (** .. and tag length *)
  DecryptInit : Cipher -> str -> str -> Z;
  DecryptUpdate : CipherContext -> str -> Z -> Z * str;  (** ciphertext and its length *)
  DecryptFinal : CipherContext -> str -> Z * str;
}.

Section Crypt.
Context `{Allocator} `{OpenSSL} `{GCM}.

(** The octets an OpenSSL call reads through [getArray()], [getSize()]. *)
Definition octets_of (b : Bytes) : outcome str :=
  match determinate (take (Z.to_nat (size_ b)) (cells b)) with
  | Some s => Ok s
  | None => Throw (UndefinedBehaviour (lit "read of an indeterminate octet"))
  end.

(** An OpenSSL call that writes [out] at [getArray() + off]. *)
Definition written (b : Bytes) (off : Z) (out : str) : outcome Bytes := completed (write_cells b off (map Some out)).

(** [throw_Exception( what << getSSLErrors( LF ) )] *)
Definition ssl_error (what : string) : exn := DodoException (list_ascii_of_string what ++ SSL_errors).

Definition encrypt (cipher : Cipher) (key : str) (src : Bytes) : outcome str :=
  if negb CIPHER_CTX_new then Throw (ssl_error "EVP_CIPHER_CTX_new : ") else
  let! padded := paddedKey cipher key in
  let! k := completed (of_string padded) in
  let! iv := completed (random (ivOctets cipher) Bytes_new) in
  let! capacity := cipherOctets cipher (getSize src) in
  let! encrypted := completed (reserve capacity Bytes_new) in
  let! kd := octets_of k in
  let! ivd := octets_of iv in
  match cipher with
  | Invalid => Throw (DodoException (lit "cannot use Cipher 'Invalid'"))
  | _ =>
      if negb (EncryptInit cipher kd ivd =? 1) then Throw (ssl_error "EVP_EncryptInit_ex : ") else
      let ctx := mkContext cipher kd ivd (ivOctets cipher * 8) [] in
      let! plain := octets_of src in
      let (rc1, out) := EncryptUpdate ctx plain (int_of (getSize src)) in
      let! encrypted1 := written encrypted 0 out in
      if negb (rc1 =? 1) then Throw (ssl_error "EVP_EncryptUpdate : ") else
      let (rc2, fin) := EncryptFinal ctx plain in
      let! encrypted2 := written encrypted1 (zlen out) fin in
      if negb (rc2 =? 1) then Throw (ssl_error "EVP_EncryptFinal_ex : ") else
      let! encrypted3 := completed (reserve (zlen out + zlen fin) encrypted2) in
      let! tag := completed (reserve (tagLength cipher) Bytes_new) in
      let (rc3, t) := GetTag ctx plain (int_of (getSize tag)) in
      let! tag1 := written tag 0 t in
      if negb (rc3 =? 1) then Throw (ssl_error "EVP_CIPHER_CTX_ctrl : ") else
      let! sdata := encodeBase64 encrypted3 in
      let! siv := encodeBase64 iv in
      let! stag := encodeBase64 tag1 in
      Ok (encode cipher sdata siv stag)
  end.

(** [decrypt]: the return value and the destination. *)
Definition decrypt (key src : str) (dest : Bytes) : outcome (Z * Bytes) :=
  match decode src with
  | None => Ok (1, dest)
  | Some p =>
      let cipher := string2Cipher (p_cipher p) in
      let! data := completed (decodeBase64 (p_data p) Bytes_new) in
      let! iv := completed (decodeBase64 (p_iv p) Bytes_new) in
      let! tag := completed (decodeBase64 (p_tag p) Bytes_new) in
      let! padded := paddedKey cipher key in
      let! k := completed (of_string padded) in
      if negb CIPHER_CTX_new then Throw (ssl_error "EVP_CIPHER_CTX_new : ") else
      let! kd := octets_of k in
      let! ivd := octets_of iv in
      match cipher with
      | Invalid => Throw (DodoException (lit "invalid cipher " ++ p_cipher p))
      | _ =>
          if negb (DecryptInit cipher kd ivd =? 1) then Throw (ssl_error "EVP_DecryptInit_ex : ") else
          let! td := octets_of tag in
          let ctx := mkContext cipher kd ivd (ivOctets cipher * 8) td in
          let! tmp := completed (reserve (getSize data) Bytes_new) in
          let! dest1 := completed (reserve 0 dest) in
          let! cd := octets_of data in
          let (rc1, out) := DecryptUpdate ctx cd (int_of (getSize data)) in
          let! tmp1 := written tmp 0 out in
          if negb (rc1 =? 1) then Throw (ssl_error "EVP_DecryptUpdate : ") else
          let! dest2 := completed (append_n tmp1 (zlen out) dest1) in
          let (rc2, fin) := DecryptFinal ctx cd in
          let! tmp2 := written tmp1 0 fin in
          let! dest3 := completed (append_n tmp2 (zlen fin) dest2) in
          Ok (if negb (rc2 =? 1) then 2 else 0, dest3)
      end
  end.
End Crypt.

(** ** The text format is read back *)

Definition field_ok (s : str) : Prop := s <> [] /\ free_of ","%char s = true /\ free_of ":"%char s = true.

Lemma cipher_field c : field_ok (cipher2String c).
Proof. split_and!; by destruct c. Qed.

Lemma split_pair k v : free_of ":"%char k = true -> free_of ":"%char v = true -> v <> [] -> split (k ++ ":"%char :: v) ":"%char = [k; v].
Proof. intros Hk Hv Hne. apply (split_join ":"%char [k] v); [by cbn; rewrite Hk | done | done]. Qed.

Lemma free_of_nil d : free_of d [] = true.
Proof. done. Qed.

(** The four sections between the brackets. *)
Definition sections_of (c : Cipher) (data iv tag : str) : list str :=
  [lit "cipher" ++ ":"%char :: cipher2String c; lit "data" ++ ":"%char :: data; lit "iv" ++ ":"%char :: iv; lit "tag" ++ ":"%char :: tag].

Lemma split_sections c data iv tag :
  field_ok data -> field_ok iv -> field_ok tag ->
  split (join ","%char (sections_of c data iv tag)) ","%char = sections_of c data iv tag.
Proof.
  intros (_ & Hd & _) (_ & Hi & _) (_ & Ht & _).
  apply (split_join ","%char [lit "cipher" ++ ":"%char :: cipher2String c; lit "data" ++ ":"%char :: data; lit "iv" ++ ":"%char :: iv]).
  - cbn [forallb]. rewrite !free_of_app. destruct (cipher_field c) as (_ & Hc & _).
    unfold free_of in *. cbn [forallb]. rewrite Hc, Hd, Hi. reflexivity.
  - rewrite free_of_app. unfold free_of in *. cbn [forallb]. rewrite Ht. reflexivity.
  - done.
Qed.

Lemma encode_sections c data iv tag :
  encode c data iv tag = lit "ENC[" ++ join ","%char (sections_of c data iv tag) ++ ["]"%char].
Proof.
  unfold encode, sections_of. cbn [join]. rewrite <- !app_assoc. cbn [app list_ascii_of_string].
  rewrite <- !app_assoc. cbn [app]. rewrite <- !app_assoc. reflexivity.
Qed.

Lemma read_all_sections c data iv tag :
  field_ok data -> field_ok iv -> field_ok tag ->
  read_sections (sections_of c data iv tag) (mkParts [] [] [] []) = Some (mkParts (cipher2String c) data iv tag).
Proof.
  intros (Hd0 & _ & Hd) (Hi0 & _ & Hi) (Ht0 & _ & Ht). destruct (cipher_field c) as (Hc0 & _ & Hc).
  unfold sections_of. cbn [read_sections].
  rewrite (split_pair (lit "cipher")) by done. change (set_part (lit "cipher") ?v ?p) with (Some (mkParts v (p_data p) (p_iv p) (p_tag p))).
  cbv iota. cbn [read_sections p_data p_iv p_tag p_cipher].
  rewrite (split_pair (lit "data")) by done. change (set_part (lit "data") ?v ?p) with (Some (mkParts (p_cipher p) v (p_iv p) (p_tag p))).
  cbv iota. cbn [read_sections p_data p_iv p_tag p_cipher].
  rewrite (split_pair (lit "iv")) by done. change (set_part (lit "iv") ?v ?p) with (Some (mkParts (p_cipher p) (p_data p) v (p_tag p))).
  cbv iota. cbn [read_sections p_data p_iv p_tag p_cipher].
  rewrite (split_pair (lit "tag")) by done. reflexivity.
Qed.

Lemma close_position_at src ws (pre : str) :
  src = pre ++ "]"%char :: ws -> pre <> [] -> forallb isspace ws = true -> close_position src (length src - 1) = length pre.
Proof.
  intros -> Hpre. rewrite length_app. cbn [length].
  assert (forall n, (n <= length ws)%nat -> forallb isspace ws = true ->
            close_position (pre ++ "]"%char :: ws) (length pre + n) = length pre) as Haux.
  { induction n as [|n IH]; intros Hn Hws.
    - rewrite Nat.add_0_r. destruct (length pre) as [|m] eqn:E; [done|]. cbn [close_position]. rewrite <- E.
      by rewrite lookup_app_r, Nat.sub_diag by lia.
    - rewrite Nat.add_succ_r. cbn [close_position]. rewrite lookup_app_r by lia.
      replace (S (length pre + n) - length pre)%nat with (S n) by lia. change (("]"%char :: ws) !! S n) with (ws !! n).
      destruct (lookup_lt_is_Some_2 ws n ltac:(lia)) as [x Hx]. rewrite Hx.
      rewrite forallb_forall in Hws. rewrite Hws by (apply list_elem_of_In; by eapply list_elem_of_lookup_2).
      apply IH; [lia | by apply forallb_forall]. }
  intros Hws. replace (length pre + S (length ws) - 1)%nat with (length pre + length ws)%nat by lia. by apply Haux.
Qed.

Lemma decode_encode c data iv tag ws :
  field_ok data -> field_ok iv -> field_ok tag -> forallb isspace ws = true ->
  decode (encode c data iv tag ++ ws) = Some (mkParts (cipher2String c) data iv tag).
Proof.
  intros Hd Hi Ht Hws. rewrite encode_sections. set (body := join _ _).
  assert ((lit "ENC[" ++ body ++ ["]"%char]) ++ ws = (lit "ENC[" ++ body) ++ "]"%char :: ws) as -> by (by rewrite <- !app_assoc).
  unfold decode. change (take 4 ((lit "ENC[" ++ body) ++ "]"%char :: ws)) with (lit "ENC["). rewrite str_eqb_refl. cbn [negb].
  rewrite (close_position_at _ ws (lit "ENC[" ++ body)) by done.
  rewrite drop_app_length. change (take 1 ("]"%char :: ws)) with (lit "]"). rewrite str_eqb_refl. cbn [negb].
  assert (take (length (lit "ENC[" ++ body) - 4) (drop 4 ((lit "ENC[" ++ body) ++ "]"%char :: ws)) = body) as ->.
  { rewrite <- app_assoc, length_app. change 4%nat with (length (lit "ENC[")). rewrite drop_app_length.
    replace (length (lit "ENC[") + length body - length (lit "ENC["))%nat with (length body) by lia. apply take_app_length. }
  unfold body. rewrite split_sections by done. change (negb (zlen (sections_of c data iv tag) =? 4)) with false. cbv iota.
  rewrite read_all_sections by done. cbn [p_cipher p_data p_iv p_tag].
  destruct (cipher_field c) as (Hc0 & _). destruct Hd as (Hd0 & _), Hi as (Hi0 & _), Ht as (Ht0 & _).
  assert (forall s : str, s <> [] -> (zlen s =? 0) = false) as Hz.
  { intros s Hs. apply Z.eqb_neq. intros E. by apply zlen_nil in E. }
  by rewrite !Hz.
Qed.

(** ** Key padding *)

(** The octets of the key, repeated. *)
Definition key_octet (key : str) (i : nat) : option ascii := key !! (i mod length key)%nat.

Lemma pad_loop_spec n key fuel ss idx :
  key <> [] -> 0 <= n -> zlen ss <= n -> idx = (length ss mod length key)%nat -> (Z.to_nat n - length ss < fuel)%nat ->
  (forall i, (i < length ss)%nat -> ss !! i = key_octet key i) ->
  exists r, pad_loop fuel n key ss idx = Ok r /\ zlen r = n /\ forall i, (i < length r)%nat -> r !! i = key_octet key i.
Proof.
  intros Hk Hn. assert (length key <> 0)%nat as Hk0 by (by destruct key).
  revert ss idx. induction fuel as [|f IH]; intros ss idx Hss Hidx Hf Hr; [lia|]. cbn [pad_loop]. unfold zlen in *.
  destruct (Z.ltb_spec (Z.of_nat (length ss)) n) as [Hlt|Hge]; [|exists ss; split; [done|]; split; [lia | done]].
  pose proof (Nat.mod_upper_bound (length ss) (length key) Hk0) as Hb.
  destruct (lookup_lt_is_Some_2 key idx ltac:(lia)) as [c Hc]. rewrite Hc.
  apply IH; rewrite ?length_app; cbn [length]; [lia | | lia |].
  - rewrite Nat.add_1_r. subst idx. destruct (Nat.ltb_spec (length key - 1) (S (length ss mod length key))) as [Hw|Hw].
    + assert (length ss mod length key = length key - 1)%nat as Em by lia.
      pose proof (Nat.div_mod (length ss) (length key) Hk0) as Hdm.
      apply (Nat.mod_unique _ _ (S (length ss / length key))); [lia | nia].
    + pose proof (Nat.div_mod (length ss) (length key) Hk0) as Hdm.
      apply (Nat.mod_unique _ _ (length ss / length key)); [lia | nia].
  - intros i Hi. destruct (decide (i < length ss)%nat) as [Hi'|Hi'].
    + rewrite lookup_app_l by done. by apply Hr.
    + assert (i = length ss) as -> by lia. rewrite lookup_app_r, Nat.sub_diag by lia. unfold key_octet. subst idx. by rewrite Hc.
Qed.

Lemma paddedKey_spec c key :
  key <> [] -> exists r, paddedKey c key = Ok r /\ zlen r = keyOctets c /\ forall i, (i < length r)%nat -> r !! i = key_octet key i.
Proof.
  intros Hk. unfold paddedKey. destruct (Z.ltb_spec (zlen key) 1) as [Hl|_].
  { pose proof (zlen_nonneg key). assert (zlen key = 0) as E by lia. by apply zlen_nil in E. }
  apply pad_loop_spec; [done | by destruct c | by destruct c | by rewrite Nat.Div0.mod_0_l | |].
  - destruct c; cbn; lia.
  - intros i Hi. cbn in Hi. lia.
Qed.

(** ** Properties *)

(** Key padding repeats the key up to exactly the length the cipher needs, for keys
    of every length; an empty key is refused. *)
Theorem paddedKey_repeats_key c key :
  (key <> [] -> exists r, paddedKey c key = Ok r /\ zlen r = keyOctets c /\ forall i, (i < length r)%nat -> r !! i = key_octet key i) /\
  paddedKey c [] = Throw (DodoException (lit "empty key")).
Proof. split; [apply paddedKey_spec | done]. Qed.

(** The text written by [encrypt] is taken apart by [decode] into the same cipher
    name, data, initialisation vector and tag, also with white space behind it. *)
Theorem decode_reads_encoded c data iv tag ws :
  field_ok data -> field_ok iv -> field_ok tag -> forallb isspace ws = true ->
  decode (encode c data iv tag ++ ws) = Some (mkParts (cipher2String c) data iv tag).
Proof. apply decode_encode. Qed.

Lemma decode_reads_encoded_witness :
  decode (encode Default (lit "Zm9v") (lit "aXY=") (lit "dGFn") ++ [chr 10]) =
  Some (mkParts (lit "EVP_aes_256_gcm") (lit "Zm9v") (lit "aXY=") (lit "dGFn")).
Proof.
  apply (decode_reads_encoded Default (lit "Zm9v") (lit "aXY=") (lit "dGFn") [chr 10]);
    [by repeat split | by repeat split | by repeat split | reflexivity].
Defined.

(** Encrypting with Cipher::Invalid divides by zero before the test that should
    refuse it. *)
Theorem encrypt_invalid_divides_by_zero `{Allocator} `{OpenSSL} `{GCM} key src :
  (forall n, alloc_ok n = true) -> CIPHER_CTX_new = true -> key <> [] -> RAND_bytes 0 = Some [] ->
  encrypt Invalid key src = Throw (UndefinedBehaviour (lit "division by zero")).
Proof.
  intros Ha Hx Hk Hr. unfold encrypt. rewrite Hx. cbn [negb]. destruct (paddedKey_spec Invalid key Hk) as (r & -> & Hlen & _). cbn [obind].
  assert (r = []) as -> by (by apply zlen_nil).
  destruct (of_string_rep [] ltac:(done) (Ha _)) as (b & -> & _). cbn [completed obind].
  unfold random. cbn. change (int_of 0) with 0. by rewrite Hr.
Qed.

(** ** Encryption and decryption *)

Lemma wf_write_prefix b k :
  wf b -> zlen k <= size_ b ->
  exists b', write_cells b 0 (map Some k) = (Ok tt, b') /\ wf b' /\ size_ b' = size_ b /\ take (length k) (cells b') = map Some k.
Proof.
  intros Hwf Hk. pose proof (wf_cells b Hwf) as [Hlen Hb]. unfold write_cells. destruct k as [|c k]; [by exists b|].
  set (vals := map Some (c :: k)). assert (zlen vals = zlen (c :: k)) as Hv by (unfold zlen, vals; by rewrite length_map).
  assert (exists v vs, vals = v :: vs) as (v & vs & Evals) by (by eexists _, _). rewrite Evals. rewrite <- Evals. clear v vs Evals.
  destruct (Z.leb_spec (0 + zlen vals) (zlen (cells b))); [|lia]. cbn [Z.leb andb].
  change (0 <=? 0) with true. cbn [andb]. eexists. split; [done|].
  change (Z.to_nat 0) with 0%nat. rewrite take_0. cbn [app Nat.add].
  assert (length vals = length (c :: k)) as Hl by (unfold vals; by rewrite length_map).
  split; [|split; [done|]].
  - unfold wf in *. cbn [array_ size_ allocated_size]. destruct (array_ b) eqn:Ea.
    2:{ rewrite zlen_cons in Hk. pose proof (zlen_nonneg k). lia. }
    unfold zlen in *. rewrite length_app, length_drop. unfold cells in *. rewrite Ea in *. cbn [default] in *. lia.
  - change (cells (mkBytes (Some ?x) _ _)) with x. rewrite <- Hl. apply take_app_length.
Qed.

Lemma wf_reserve_down b l :
  wf b -> zlen l <= size_ b -> take (length l) (cells b) = map Some l -> forall `{Allocator},
  exists b', reserve (zlen l) b = (Ok tt, b') /\ rep b' l.
Proof.
  intros Hwf Hl Hc Hal. pose proof (zlen_nonneg l). unfold reserve. case_bool; breflect; [by exists b|].
  unfold wf in Hwf. destruct (array_ b) as [mem|] eqn:Ea; [|lia].
  destruct (Z.ltb_spec (allocated_size b) (zlen l)); [lia|]. eexists. split; [done|].
  split; [unfold wf; cbn; split; lia|]. split; [done|]. unfold cells in *. by rewrite Ea in Hc.
Qed.

Section RoundTrip.
Context `{Allocator} `{OpenSSL} `{GCM} (Halloc : forall n, alloc_ok n = true).

Lemma octets_of_rep b l : rep b l -> octets_of b = Ok l.
Proof using Type. intros Hrep. unfold octets_of. by rewrite (rep_take _ _ Hrep), determinate_map. Qed.

(** A fresh block of [n] octets. *)
Lemma reserve_new n : 0 <= n < size_limit -> exists b, reserve n Bytes_new = (Ok tt, b) /\ wf b /\ size_ b = n.
Proof.
  intros Hn. destruct (reserve_grow Bytes_new [] n rep_new ltac:(change (zlen (@nil ascii)) with 0; lia) (Halloc _)) as (b & Hb & Hwf & Hs & _).
  by exists b.
Qed.

(** A block filled completely by an OpenSSL call. *)
Lemma written_all b k : wf b -> size_ b = zlen k -> exists b', written b 0 k = Ok b' /\ rep b' k.
Proof using Type.
  intros Hwf Hs. unfold written. destruct (write_cells_rep b [] k Hwf) as (b' & Hw & Hrep); [done | done |].
  change (zlen (@nil ascii)) with 0 in Hw. rewrite Hw. by exists b'.
Qed.

(** What is documented of base64: the text of [d] has no separators, fits the block
    and is decoded to [d]. *)
Definition base64_text (d : str) : str :=
  List.filter (fun c => negb (octet c =? 0) && negb (octet c =? 10)) ((EVP_EncodeUpdate d (zlen d)).2 ++ EVP_EncodeFinal d).

Definition base64_ok (d : str) : Prop :=
  let e := base64_text d in let update := EVP_DecodeUpdate e (zlen e) in let final := EVP_DecodeFinal e in
  EVP_ENCODE_CTX_new = true /\ zlen e < 2 ^ 31 /\
  (EVP_EncodeUpdate d (zlen d)).1 = 1 /\ zlen (EVP_EncodeUpdate d (zlen d)).2 + zlen (EVP_EncodeFinal d) <= base64sz (zlen d) /\
  free_of ","%char e = true /\ free_of ":"%char e = true /\ (d <> [] -> e <> []) /\
  update.1 <> -1 /\ final.1 = 1 /\ update.2 ++ final.2 = d /\ zlen d <= zlen e.

(** The library sealed [plain] as [ct] with [tag]: its answers to the calls of [encrypt], of
    the lengths documented for the mode, as many octets as were given and none at the end,
    and a tag of the length asked for. *)
Definition sealed (c : Cipher) (k iv plain ct tag : str) : Prop :=
  let ctx := mkContext c k iv (ivOctets c * 8) [] in
  CIPHER_CTX_new = true /\ EncryptInit c k iv = 1 /\ EncryptUpdate ctx plain (zlen plain) = (1, ct) /\ EncryptFinal ctx plain = (1, []) /\
  GetTag ctx plain 16 = (1, tag) /\ zlen ct = zlen plain /\ zlen tag = 16.

(** What the library makes of cipher, key, vector, ciphertext and tag when it is asked to
    open them: a refusal, or whether it accepts the tag, with the octets it gives.  Nothing
    is assumed of its answers except that they fit the blocks they are written to. *)
Definition opening (c : Cipher) (k iv ct tag : str) : outcome (Z * str) :=
  if negb (DecryptInit c k iv =? 1) then Throw (ssl_error "EVP_DecryptInit_ex : ") else
  let ctx := mkContext c k iv (ivOctets c * 8) tag in
  let (rc1, out) := DecryptUpdate ctx ct (zlen ct) in
  if negb (rc1 =? 1) then Throw (ssl_error "EVP_DecryptUpdate : ") else
  let (rc2, fin) := DecryptFinal ctx ct in
  Ok (if rc2 =? 1 then 0 else 2, out ++ fin).

Definition answers_fit (c : Cipher) (k iv ct tag : str) : Prop :=
  let ctx := mkContext c k iv (ivOctets c * 8) tag in
  let update := DecryptUpdate ctx ct (zlen ct) in
  zlen update.2 <= zlen ct /\ (update.1 = 1 -> zlen update.2 = zlen ct) /\ zlen (DecryptFinal ctx ct).2 <= zlen ct.

Lemma encodeBase64_ok b d : rep b d -> base64_ok d -> encodeBase64 b = Ok (base64_text d).
Proof.
  intros Hrep (Hx & Hsz & Hrc & Hfit & _ & _ & _ & _ & _ & _ & Hlen). unfold encodeBase64, unchecked_block.
  rewrite Hx, Halloc, (rep_take _ _ Hrep), determinate_map, (rep_size _ _ Hrep), int_of_small by (pose proof (zlen_nonneg d); lia).
  cbn [negb]. unfold base64_text. destruct (EVP_EncodeUpdate d (zlen d)) as [rc out]. cbn [fst snd] in *. subst rc.
  pose proof (zlen_nonneg (EVP_EncodeFinal d)).
  destruct (Z.ltb_spec (base64sz (zlen d)) (zlen out)); [lia|].
  destruct (Z.ltb_spec (base64sz (zlen d)) (zlen out + zlen (EVP_EncodeFinal d))); [lia|]. done.
Qed.

Lemma decodeBase64_ok d : base64_ok d -> exists b, completed (decodeBase64 (base64_text d) Bytes_new) = Ok b /\ rep b d.
Proof.
  intros (Hx & Hsz & _ & _ & _ & _ & _ & Hu & Hf & Hd & Hlen). unfold decodeBase64, unchecked_block. pose proof (zlen_nonneg d).
  rewrite Hx, Halloc, int_of_small by lia. cbn [negb].
  destruct (EVP_DecodeUpdate (base64_text d) _) as [rc1 o1]. destruct (EVP_DecodeFinal (base64_text d)) as [rc2 o2].
  cbn [fst snd] in *. subst rc2. rewrite <- Hd in *. rewrite zlen_app in *. pose proof (zlen_nonneg o1). pose proof (zlen_nonneg o2).
  destruct (Z.ltb_spec (zlen (base64_text (o1 ++ o2))) (zlen o1)); [lia|].
  destruct (Z.eqb_spec rc1 (-1)); [done|]. destruct (Z.ltb_spec (zlen (base64_text (o1 ++ o2))) (zlen o1 + zlen o2)); [lia|].
  cbn [negb Z.eqb Pos.eqb]. destruct (reserve_new (zlen o1 + zlen o2) ltac:(unfold size_limit; lia)) as (b1 & -> & Hwf & Hs). cbn [andThen].
  destruct (write_cells_rep b1 [] (o1 ++ o2) Hwf) as (b' & Hw & Hrep); [rewrite Hs, zlen_app; done | done |].
  change (zlen (@nil ascii)) with 0 in Hw. rewrite Hw. by exists b'.
Qed.

Lemma string2Cipher_print c : c <> Invalid -> string2Cipher (cipher2String c) = c.
Proof using Type. by destruct c. Qed.

Lemma base64_field d : base64_ok d -> d <> [] -> field_ok (base64_text d).
Proof using Type. intros (_ & _ & _ & _ & Hf1 & Hf2 & Hf3 & _) Hd. split_and!; auto. Qed.

(** Sealing with all the block handling around it. *)
Lemma encrypt_text c key k iv src plain ct tag :
  c <> Invalid -> paddedKey c key = Ok k -> zlen k = keyOctets c -> RAND_bytes 16 = Some iv -> zlen iv = 16 ->
  rep src plain -> zlen plain < 2 ^ 31 -> (forall d, zlen d <= zlen plain + 16 -> base64_ok d) ->
  CIPHER_CTX_new = true -> let ctx := mkContext c k iv (ivOctets c * 8) [] in
  EncryptInit c k iv = 1 -> EncryptUpdate ctx plain (zlen plain) = (1, ct) -> EncryptFinal ctx plain = (1, []) ->
  GetTag ctx plain 16 = (1, tag) -> zlen ct = zlen plain -> zlen tag = 16 ->
  encrypt c key src = Ok (encode c (base64_text ct) (base64_text iv) (base64_text tag)).
Proof.
  intros Hc Hk Hkl Hiv Hivl Hsrc Hsz Hb64 Hx ctx He1 He2 He3 He4 Hct Htag. unfold encrypt. rewrite Hx, Hk. cbn [negb obind].
  pose proof (zlen_nonneg plain). unfold size_limit in *.
  destruct (of_string_rep k ltac:(unfold size_limit; destruct c; cbn in Hkl; lia) (Halloc _)) as (kb & -> & Hkb). cbn [completed obind].
  assert (ivOctets c = 16 /\ tagLength c = 16 /\ blockOctets c = 16) as (-> & -> & Hblk) by (by destruct c).
  unfold random. change (negb (16 =? size_ Bytes_new)) with true. cbv iota.
  destruct (reserve_new 16 ltac:(unfold size_limit; lia)) as (b1 & Hb1 & Hwf1 & Hs1). rewrite Hb1. cbn [andThen]. rewrite Hs1. change (int_of 16) with 16. rewrite Hiv.
  destruct (write_cells_rep b1 [] iv Hwf1 ltac:(rewrite Hs1, Hivl; done) eq_refl) as (ivb & Hw & Hivb).
  change (zlen (@nil ascii)) with 0 in Hw. cbn [app] in Hivb. rewrite Hw. cbn [completed obind].
  unfold cipherOctets. rewrite Hblk. change (16 =? 0) with false. cbv iota. unfold getSize at 1 2. rewrite (rep_size _ _ Hsrc). cbn [obind].
  pose proof (Z.mod_pos_bound (zlen plain) 16 ltac:(lia)). rewrite u64_small by lia.
  destruct (reserve_new (zlen plain + 16 - zlen plain mod 16) ltac:(unfold size_limit; lia)) as (eb & -> & Hwfe & Hse). cbn [completed obind].
  rewrite (octets_of_rep _ _ Hkb), (octets_of_rep _ _ Hivb), (octets_of_rep _ _ Hsrc). cbn [obind].
  destruct (wf_write_prefix eb ct Hwfe ltac:(rewrite Hse, Hct; lia)) as (eb1 & Hw1 & Hwfe1 & Hse1 & Hce1).
  destruct (wf_reserve_down eb1 ct Hwfe1 ltac:(rewrite Hse1, Hse, Hct; lia) Hce1) as (eb2 & Hr2 & Hreb2).
  destruct (written_all b1 tag Hwf1 ltac:(by rewrite Hs1, Htag)) as (tb & Hwt & Htb).
  assert (encodeBase64 eb2 = Ok (base64_text ct)) as Hd1 by (apply encodeBase64_ok; [done | apply Hb64; lia]).
  assert (encodeBase64 ivb = Ok (base64_text iv)) as Hd2 by (apply encodeBase64_ok; [done | apply Hb64; lia]).
  assert (encodeBase64 tb = Ok (base64_text tag)) as Hd3 by (apply encodeBase64_ok; [done | apply Hb64; lia]).
  assert (mkContext c k iv (16 * 8) [] = ctx) as -> by (by destruct c).
  unfold getSize. rewrite (rep_size _ _ Hsrc), (int_of_small (zlen plain)), He1, He2, He3 by lia. change (negb (1 =? 1)) with false. cbv iota.
  assert (written eb 0 ct = Ok eb1) as -> by (unfold written; by rewrite Hw1). cbn [obind].
  assert (written eb1 (zlen ct) [] = Ok eb1) as -> by done. cbn [obind]. change (zlen (@nil ascii)) with 0.
  rewrite Z.add_0_r, Hr2. cbn [completed obind]. rewrite Hs1. change (int_of 16) with 16. rewrite He4, Hwt. cbn [obind].
  change (negb (1 =? 1)) with false. cbv iota. rewrite Hd1, Hd2, Hd3. cbn [obind]. destruct c; [done..|by destruct Hc].
Qed.

(** A block that holds [l], overwritten at its start. *)
Lemma written_prefix b l k : rep b l -> zlen k <= zlen l -> exists b', written b 0 k = Ok b' /\ rep b' (k ++ drop (length k) l).
Proof using Type.
  intros Hrep Hk. destruct (wf_write_prefix b k (rep_wf _ _ Hrep) ltac:(rewrite (rep_size _ _ Hrep); lia)) as (b' & Hw & Hwf & Hs & Hc).
  unfold written. rewrite Hw. exists b'. split; [done|]. assert (length k <= length l)%nat as Hle by (unfold zlen in Hk; lia).
  assert (zlen (k ++ drop (length k) l) = zlen l) as Hlen by (unfold zlen; rewrite length_app, length_drop; lia).
  split; [done|]. split; [by rewrite Hlen, Hs, (rep_size _ _ Hrep)|].
  rewrite length_app, length_drop. replace (length k + (length l - length k))%nat with (length l) by lia. rewrite map_app.
  assert (Hcells : cells b' = map Some k ++ drop (length k) (cells b)).
  { unfold write_cells in Hw. destruct k as [|x k]; [injection Hw as <-; done|]. cbn [map] in Hw. case_bool; [|done]. injection Hw as <-. unfold cells.
    cbn [array_ default from_option id map length app]. by rewrite length_map. }
  rewrite Hcells, take_app_ge by (rewrite length_map; lia). rewrite length_map. f_equal. rewrite take_drop_commute.
  replace (length k + (length l - length k))%nat with (length l) by lia.
  pose proof (rep_take _ _ Hrep) as Ht. rewrite (rep_size _ _ Hrep) in Ht. unfold zlen in Ht. rewrite Nat2Z.id in Ht. by rewrite Ht, skipn_map.
Qed.

(** The calls of [decrypt] behind its blocks. *)
Lemma open_blocks c k iv ct tag tm de :
  wf tm -> size_ tm = zlen ct -> rep de [] -> zlen ct < 2 ^ 31 -> answers_fit c k iv ct tag ->
  let run :=
    if negb (DecryptInit c k iv =? 1) then Throw (ssl_error "EVP_DecryptInit_ex : ") else
    let (rc1, out) := DecryptUpdate (mkContext c k iv (ivOctets c * 8) tag) ct (zlen ct) in
    let! tmp1 := written tm 0 out in
    if negb (rc1 =? 1) then Throw (ssl_error "EVP_DecryptUpdate : ") else
    let! dest2 := completed (append_n tmp1 (zlen out) de) in
    let (rc2, fin) := DecryptFinal (mkContext c k iv (ivOctets c * 8) tag) ct in
    let! tmp2 := written tmp1 0 fin in
    let! dest3 := completed (append_n tmp2 (zlen fin) dest2) in
    Ok (if negb (rc2 =? 1) then 2 else 0, dest3) in
  match opening c k iv ct tag with
  | Ok (r, l) => exists dest', run = Ok (r, dest') /\ rep dest' l
  | Throw e => run = Throw e
  | OutOfFuel => False
  end.
Proof.
  intros Hwft Hst Hde Hsz (Hu & Hu1 & Hf) run. subst run. unfold opening. destruct (negb (DecryptInit c k iv =? 1)); [done|].
  set (ctx := mkContext c k iv (ivOctets c * 8) tag) in *. destruct (DecryptUpdate ctx ct (zlen ct)) as [rc1 out]. cbn [fst snd] in *.
  destruct (wf_write_prefix tm out Hwft ltac:(lia)) as (t0 & Hw0 & _).
  destruct (Z.eqb_spec rc1 1) as [ -> | Hrc1]; cbn [negb].
  2:{ unfold written at 1. rewrite Hw0. by cbn [completed obind]. }
  specialize (Hu1 eq_refl). destruct (written_all tm out Hwft ltac:(lia)) as (tm1 & -> & Htm1). cbn [obind].
  pose proof (zlen_nonneg out). pose proof (zlen_nonneg (DecryptFinal ctx ct).2).
  destruct (append_n_rep de [] tm1 out (zlen out) Hde Htm1 ltac:(lia) ltac:(unfold size_limit; change (zlen (@nil ascii)) with 0; lia) (Halloc _))
    as (de2 & -> & Hde2). cbn [completed obind]. rewrite take_ge in Hde2 by (unfold zlen; lia). cbn [app] in Hde2.
  destruct (DecryptFinal ctx ct) as [rc2 fin]. cbn [fst snd] in *.
  destruct (written_prefix tm1 out fin Htm1 ltac:(lia)) as (tm2 & -> & Htm2). cbn [obind].
  destruct (append_n_rep de2 out tm2 _ (zlen fin) Hde2 Htm2 ltac:(rewrite zlen_app; pose proof (zlen_nonneg (drop (length fin) out)); lia)
              ltac:(unfold size_limit; lia) (Halloc _)) as (de3 & -> & Hde3).
  cbn [completed obind]. exists de3. split; [by destruct (rc2 =? 1)|]. unfold zlen in Hde3. by rewrite Nat2Z.id, take_app_length in Hde3.
Qed.

(** Opening the text, with all the block handling around it; blanks behind it are skipped. *)
Lemma decrypt_text c key k iv dest l0 ct tag ws : forallb isspace ws = true ->
  c <> Invalid -> paddedKey c key = Ok k -> zlen k = keyOctets c -> zlen iv = 16 -> ct <> [] -> zlen ct < 2 ^ 31 ->
  (forall d, zlen d <= zlen ct + 16 -> base64_ok d) -> rep dest l0 -> zlen tag = 16 ->
  CIPHER_CTX_new = true -> answers_fit c k iv ct tag ->
  match opening c k iv ct tag with
  | Ok (r, l) => exists dest', decrypt key (encode c (base64_text ct) (base64_text iv) (base64_text tag) ++ ws) dest = Ok (r, dest') /\ rep dest' l
  | Throw e => decrypt key (encode c (base64_text ct) (base64_text iv) (base64_text tag) ++ ws) dest = Throw e
  | OutOfFuel => False
  end.
Proof.
  intros Hws Hc Hk Hkl Hivl Hne Hsz Hb64 Hdest Htag Hx Hfit. unfold decrypt. pose proof (zlen_nonneg ct).
  assert (forall s : str, zlen s <> 0 -> s <> []) as Hnz by (intros s Hs ->; done).
  assert (zlen ct <> 0) as Hp0 by (intros E; by apply zlen_nil in E).
  rewrite decode_encode by (done || (apply base64_field; [apply Hb64; lia | apply Hnz; lia])).
  cbn [p_cipher p_data p_iv p_tag]. rewrite string2Cipher_print by done.
  destruct (decodeBase64_ok ct ltac:(apply Hb64; lia)) as (cb & -> & Hcb).
  destruct (decodeBase64_ok iv ltac:(apply Hb64; lia)) as (ivb & -> & Hivb).
  destruct (decodeBase64_ok tag ltac:(apply Hb64; lia)) as (tb & -> & Htb).
  cbn [obind]. rewrite Hk. cbn [obind].
  destruct (of_string_rep k ltac:(unfold size_limit; destruct c; cbn in Hkl; lia) (Halloc _)) as (kb & -> & Hkb). cbn [completed obind].
  rewrite Hx. cbn [negb]. rewrite (octets_of_rep _ _ Hkb), (octets_of_rep _ _ Hivb), (octets_of_rep _ _ Htb), (octets_of_rep _ _ Hcb). cbn [obind].
  unfold getSize. rewrite (rep_size _ _ Hcb), int_of_small by lia.
  destruct (reserve_new (zlen ct) ltac:(unfold size_limit; lia)) as (tm & -> & Hwft & Hst). cbn [completed obind].
  destruct (reserve_shrink dest l0 0 Hdest ltac:(pose proof (zlen_nonneg l0); lia)) as (de & -> & Hde). cbn [completed obind].
  change (Z.to_nat 0) with 0%nat in Hde. rewrite take_0 in Hde.
  pose proof (open_blocks c k iv ct tag tm de Hwft Hst Hde Hsz Hfit) as Hopen. by destruct c; [..|destruct Hc].
Qed.

Lemma encrypted_opens c key src plain dest l0 iv k ct tag :
  c <> Invalid -> key <> [] -> rep src plain -> plain <> [] -> zlen plain < 2 ^ 31 -> rep dest l0 ->
  RAND_bytes 16 = Some iv -> zlen iv = 16 -> (forall d, zlen d <= zlen plain + 16 -> base64_ok d) ->
  paddedKey c key = Ok k -> sealed c k iv plain ct tag -> answers_fit c k iv ct tag ->
  exists text, encrypt c key src = Ok text /\ forall ws, forallb isspace ws = true ->
    match opening c k iv ct tag with
    | Ok (r, l) => exists dest', decrypt key (text ++ ws) dest = Ok (r, dest') /\ rep dest' l
    | Throw e => decrypt key (text ++ ws) dest = Throw e
    | OutOfFuel => False
    end.
Proof.
  intros Hc Hkey Hsrc Hne Hsz Hdest Hiv Hivl Hb64 Hk (Hx & E1 & E2 & E3 & E4 & Hct & Htag) Hfit.
  destruct (paddedKey_spec c key Hkey) as (k' & Hk' & Hkl & _). rewrite Hk in Hk'. injection Hk' as <-.
  exists (encode c (base64_text ct) (base64_text iv) (base64_text tag)). split; [by eapply encrypt_text|].
  intros ws Hws. apply (decrypt_text c key k iv dest l0 ct tag ws); try done; rewrite ?Hct; try done.
  intros ->. apply Hne, zlen_nil. by rewrite <- Hct.
Qed.

(** C18 What [encrypt] writes, [decrypt] hands back to the library: for every cipher, key and
    non-empty plaintext that the library sealed, [encrypt] returns a text from which, also
    with white space behind it, [decrypt] under the same key asks the library to open
    exactly the cipher, padded key, vector, ciphertext and tag of the encryption, and
    answers what the library answers: an exception when it refuses, 0 or 2 with the octets
    it gives, as it accepts the tag or not, whatever the destination held before. *)
Theorem decrypt_hands_back_encrypted c key src plain dest l0 iv k ct tag :
  c <> Invalid -> key <> [] -> rep src plain -> plain <> [] -> zlen plain < 2 ^ 31 -> rep dest l0 ->
  RAND_bytes 16 = Some iv -> zlen iv = 16 -> (forall d, zlen d <= zlen plain + 16 -> base64_ok d) ->
  paddedKey c key = Ok k -> sealed c k iv plain ct tag -> answers_fit c k iv ct tag ->
  exists text, encrypt c key src = Ok text /\ forall ws, forallb isspace ws = true ->
    match opening c k iv ct tag with
    | Ok (r, l) => exists dest', decrypt key (text ++ ws) dest = Ok (r, dest') /\ rep dest' l
    | Throw e => decrypt key (text ++ ws) dest = Throw e
    | OutOfFuel => False
    end.
Proof.
  intros Hc Hkey Hsrc Hne Hsz Hdest Hiv Hivl Hb64 Hk Hseal Hfit. by eapply encrypted_opens.
Qed.

(** An empty plaintext cannot be decrypted again: its text has an empty data field,
    which [decode] refuses, so [decrypt] returns 1. *)
Theorem empty_plaintext_not_decryptable c key iv tag dest :
  field_ok iv -> field_ok tag -> decrypt key (encode c [] iv tag) dest = Ok (1, dest).
Proof using Type.
  intros Hi Ht. unfold decrypt. assert (decode (encode c [] iv tag) = None) as ->; [|done].
  rewrite encode_sections. set (body := join _ _). unfold decode.
  change (take 4 (lit "ENC[" ++ body ++ ["]"%char])) with (lit "ENC["). rewrite str_eqb_refl. cbn [negb].
  rewrite (close_position_at (lit "ENC[" ++ body ++ ["]"%char]) [] (lit "ENC[" ++ body)) by (rewrite <- ?app_assoc; done).
  rewrite (app_assoc (lit "ENC[") body), drop_app_length. change (take 1 ["]"%char]) with (lit "]"). rewrite str_eqb_refl. cbn [negb].
  assert (take (length (lit "ENC[" ++ body) - 4) (drop 4 ((lit "ENC[" ++ body) ++ ["]"%char])) = body) as ->.
  { rewrite <- app_assoc, length_app. change 4%nat with (length (lit "ENC[")). rewrite drop_app_length.
    replace (length (lit "ENC[") + length body - length (lit "ENC["))%nat with (length body) by lia. apply take_app_length. }
  assert (split body ","%char = sections_of c [] iv tag) as ->.
  { destruct Hi as (_ & Hi & _), Ht as (_ & Ht & _), (cipher_field c) as (_ & Hc & _).
    apply (split_join ","%char [lit "cipher" ++ ":"%char :: cipher2String c; lit "data" ++ [":"%char]; lit "iv" ++ ":"%char :: iv]).
    - cbn [forallb]. rewrite !free_of_app. unfold free_of in *. cbn [forallb]. rewrite Hc, Hi. reflexivity.
    - rewrite free_of_app. unfold free_of in *. cbn [forallb]. rewrite Ht. reflexivity.
    - done. }
  change (negb (zlen (sections_of c [] iv tag) =? 4)) with false. cbv iota. unfold sections_of. cbn [read_sections].
  destruct (cipher_field c) as (Hc0 & _ & Hc). rewrite (split_pair (lit "cipher")) by done. reflexivity.
Qed.
End RoundTrip.

(** ** A concrete codec and cipher for the witnesses

    Hexadecimal text in place of base64, and the identity in place of AES. *)

Definition hex2 (c : ascii) : str := [digit_char (octet c / 16); digit_char (octet c mod 16)].
Definition to_hex (d : str) : str := concat (map hex2 d).
Fixpoint of_hex (e : str) : str :=
  match e with a :: b :: t => chr (digit_val a * 16 + digit_val b) :: of_hex t | _ => [] end.

Definition toy_ssl : OpenSSL := {|
  RAND_bytes n := Some (replicate (Z.to_nat n) "r"%char);
  EVP_ENCODE_CTX_new := true;
  EVP_EncodeUpdate d _ := (1, to_hex d);
  EVP_EncodeFinal _ := [];
  EVP_DecodeUpdate e _ := (0, of_hex e);
  EVP_DecodeFinal _ := (1, []);
|}.

Definition toy_gcm : GCM := {|
  CIPHER_CTX_new := true; SSL_errors := [];
  EncryptInit _ _ _ := 1; EncryptUpdate _ p _ := (1, p); EncryptFinal _ _ := (1, []);
  GetTag _ _ n := (1, replicate (Z.to_nat n) "T"%char);
  DecryptInit _ _ _ := 1; DecryptUpdate _ c _ := (1, c); DecryptFinal _ _ := (1, []);
|}.

Lemma of_to_hex d : of_hex (to_hex d) = d.
Proof.
  induction d as [|c d IH]; [done|]. unfold to_hex in *. cbn [map concat hex2 app of_hex]. rewrite IH. f_equal.
  apply Ascii.eqb_eq. revert c.
  apply (ascii_forall (fun c => chr (digit_val (digit_char (octet c / 16)) * 16 + digit_val (digit_char (octet c mod 16))) =c c)).
  by vm_compute.
Qed.

Lemma to_hex_class d : forallb isxdigit (to_hex d) = true.
Proof.
  induction d as [|c d IH]; [done|]. unfold to_hex in *. cbn [map concat]. rewrite forallb_app, IH, andb_true_r. revert c.
  apply (ascii_forall (fun c => forallb isxdigit (hex2 c))). by vm_compute.
Qed.

Lemma to_hex_length d : zlen (to_hex d) = 2 * zlen d.
Proof. induction d as [|c d IH]; [done|]. unfold to_hex in *. cbn [map concat hex2 app]. rewrite !zlen_cons. lia. Qed.

Lemma xdigits_within P (s : str) :
  forallb isxdigit s = true -> forallb (fun c => implb (isxdigit c) (P c)) all_ascii = true -> forallb P s = true.
Proof.
  intros Hs HP. rewrite forallb_forall in *. intros c Hc. apply (ascii_implies isxdigit P); [by rewrite forallb_forall | by apply Hs].
Qed.

Lemma filter_all (P : ascii -> bool) (s : str) : forallb P s = true -> List.filter P s = s.
Proof. induction s as [|c s IH]; simpl; [done|]. rewrite andb_true_iff. intros [-> Hs]. by rewrite IH. Qed.

Lemma toy_base64_ok d : zlen d <= 21 -> @base64_ok toy_ssl d.
Proof.
  intros Hd. pose proof (zlen_nonneg d). pose proof (to_hex_class d) as Hx. unfold base64_ok.
  assert (@base64_text toy_ssl d = to_hex d) as ->.
  { unfold base64_text. cbn. rewrite app_nil_r. apply filter_all. by apply xdigits_within. }
  cbn [toy_ssl EVP_EncodeUpdate EVP_EncodeFinal EVP_DecodeUpdate EVP_DecodeFinal fst snd]. rewrite app_nil_r, of_to_hex, to_hex_length.
  change (zlen (@nil ascii)) with 0. split_and!; try done.
  - lia.
  - unfold base64sz. rewrite (Z.div_small (zlen d) 48) by lia. change (u64 (u64 ((0 + 1) * 65) + 1)) with 66. lia.
  - by apply xdigits_within.
  - by apply xdigits_within.
  - by destruct d.
  - lia.
Qed.

Definition demo_key : str := match paddedKey Default (lit "secret") with Ok k => k | _ => [] end.

Lemma decrypt_hands_back_encrypted_witness :
  exists text, @encrypt always_alloc toy_ssl toy_gcm Default (lit "secret") (bytes_of (lit "hello")) = Ok text /\
    forall ws, forallb isspace ws = true ->
    exists dest', @decrypt always_alloc toy_ssl toy_gcm (lit "secret") (text ++ ws) (bytes_of (lit "old")) = Ok (0, dest') /\ rep dest' (lit "hello").
Proof.
  apply (@decrypt_hands_back_encrypted always_alloc toy_ssl toy_gcm (fun _ => eq_refl) Default (lit "secret") (bytes_of (lit "hello")) (lit "hello")
           (bytes_of (lit "old")) (lit "old") (replicate 16 "r"%char) demo_key (lit "hello") (replicate 16 "T"%char));
    [done | done | split; [by vm_compute | split; reflexivity] | done | reflexivity | split; [by vm_compute | split; reflexivity]
    | reflexivity | reflexivity | intros d Hd; apply toy_base64_ok; exact Hd | by vm_compute | split_and!; reflexivity | split_and!; by vm_compute].
Defined.

Lemma encrypt_invalid_divides_by_zero_witness :
  @encrypt always_alloc toy_ssl toy_gcm Invalid (lit "secret") (bytes_of (lit "hello")) = Throw (UndefinedBehaviour (lit "division by zero")).
Proof. apply (@encrypt_invalid_divides_by_zero always_alloc toy_ssl toy_gcm (lit "secret") (bytes_of (lit "hello"))); [done | reflexivity | done | reflexivity]. Defined.

Lemma empty_plaintext_not_decryptable_witness :
  @decrypt always_alloc toy_ssl toy_gcm (lit "secret") (encode Default [] (lit "7272") (lit "5454")) Bytes_new = Ok (1, Bytes_new).
Proof.
  apply (@empty_plaintext_not_decryptable always_alloc toy_ssl toy_gcm Default (lit "secret") (lit "7272") (lit "5454") Bytes_new);
    by repeat split.
Defined.

Lemma paddedKey_repeats_key_witness :
  (lit "abc" <> [] -> exists r, paddedKey EVP_aes_128_gcm (lit "abc") = Ok r /\ zlen r = 16 /\
     forall i, (i < length r)%nat -> r !! i = key_octet (lit "abc") i) /\
  paddedKey EVP_aes_128_gcm [] = Throw (DodoException (lit "empty key")).
Proof. apply (paddedKey_repeats_key EVP_aes_128_gcm (lit "abc")). Defined.
