(* ===== verification/TCPServer.v ===== *)
(** * TCPServer: the work a server does for one connection

    Models src/src/lib/network/tcpserver.cpp ([TCPServer::run], the handling of one
    work item), src/src/include/network/tcpserver.hpp, and from
    src/src/lib/network/tcplistener.cpp and its header the socket states with their
    operators and [TCPConnectionData] ([readBuffer], [clearBuffer]).

    A protocol is a subclass of [TCPServer]: its [handShake], [readSocket] and
    [shutDown] are the methods of the class [Protocol], arbitrary computations over
    the socket and the read buffer of the connection.  A computation that may be
    interrupted by an exception and caught keeps the object as the exception left it:
    the monad [X]. *)

From S2P Require Import Prelude.
From S2P Require Import SystemError.
From S2P Require Import Bytes.
From S2P Require Import Socket.

Local Open Scope Z_scope.

(** ** Socket states: a set of flags in an int *)

Abbreviation SockState := Z.
Definition None_ : SockState := 0.
Definition New : SockState := 1.
Definition Read : SockState := 2.
Definition Shut : SockState := 4.

Definition state_or (self other : SockState) : SockState := Z.lor self other.
Definition state_xor (self other : SockState) : SockState := Z.lxor self other.
Definition state_and (self other : SockState) : bool := negb (Z.land self other =? 0).

(** [operator<<( const Puts&, SockState )]. *)
Definition state_text (state : SockState) : str :=
  (if state_and state None_ then lit "None|" else []) ++
  (if state_and state New then lit "New|" else []) ++
  (if state_and state Read then lit "Read|" else []) ++
  (if state_and state Shut then lit "Shut|" else []) ++
  lit " (" ++ print_dec state ++ lit ")".

Inductive ServerState : Type :=
| ssWait | ssAwoken | ssHandshake | ssHandshakeDone | ssReadSocket | ssReadSocketDone
| ssShutdown | ssShutdownDone | ssReleaseWork | ssReleaseWorkDone.

#[export] Instance ServerState_eq_dec : EqDecision ServerState.
Proof. solve_decision. Defined.

(** ** TCPConnectionData *)

(** What a server works on: the socket of the connection and its data context. *)
Record Conn : Type := mkConn { sock : Socket; read_buffer : Bytes }.

Section Connection.
Context `{Allocator}.

(** [socket->receive( buf, request, recv )] on the connection's socket. *)
Definition conn_receive (request : Z) : X Conn (SystemError * str) := fun c =>
  match receive request (sock c) with
  | Ok (r, k) => (Ok r, mkConn k (read_buffer c))
  | Throw e => (Throw e, mkConn (snd (sys_recv request (sock c))) (read_buffer c))
  | OutOfFuel => (OutOfFuel, c)
  end.

Definition conn_append (src : Bytes) (n : Z) : X Conn unit := fun c =>
  let (o, b) := append_n src n (read_buffer c) in (o, mkConn (sock c) b).

Definition pure_bytes (r : result unit) : X Conn Bytes := fun c => (completed r, c).

Definition acceptable (error : SystemError) : bool := (error =? ecOK) || (error =? ecEAGAIN).

(** One round of the do-while; [tmp] and [received] are the loop's variables.  The
    error branch is [return false]: the bool converts to the SystemError 0. *)
Definition readBuffer_body (l : Bytes * Z) : X Conn ((Bytes * Z) + (SystemError * Z)) :=
  let (tmp, received) := l in
  let^ (error, data) := conn_receive (getSize tmp) in
  let recv := zlen data in
  let^ tmp' := pure_bytes (write_cells tmp 0 (map Some data)) in
  if acceptable error && (0 <? recv) then
    let^ _ := conn_append tmp' recv in
    if recv =? 4096 then xret (inl (tmp', received + recv)) else xret (inr (error, received + recv))
  else if negb (acceptable error) then xret (inr (SystemError_of_int 0, received))
  else if recv =? 4096 then xret (inl (tmp', received)) else xret (inr (error, received)).

Definition readBuffer (fuel : nat) : X Conn (SystemError * Z) :=
  let^ tmp := pure_bytes (reserve 4096 Bytes_new) in
  xloop fuel readBuffer_body (tmp, 0).

Definition clearBuffer : X Conn unit := fun c => (Ok tt, mkConn (sock c) (free (read_buffer c))).

(** ** The protocol a subclass of TCPServer implements *)

Class Protocol := {
  handShake : X Conn (bool * Z * Z);            (** result, received, sent *)
  readSocket : X Conn (SystemError * Z);        (** result, sent *)
  shutDown : X Conn unit;
}.

(** ** The three stages of a work item

    Each stage adds to [completion_state] according to what its calls answered;
    [None] is an exception caught inside the stage. *)

Definition new_stage (r : option bool) (completion : SockState) : SockState :=
  match r with
  | Some ok => let c := state_or completion New in if ok then c else state_or c Shut
  | None => completion
  end.

(** [r]: the answers of [readBuffer] and of [readSocket]. *)
Definition read_stage (r : option (SystemError * SystemError)) (completion : SockState) : SockState :=
  match r with
  | Some (buffered, answered) =>
      let c := state_or completion Read in
      if (buffered =? ecOK) && acceptable answered then c else state_or c Shut
  | None => completion
  end.

Definition shut_stage (r : option unit) (completion : SockState) : SockState :=
  match r with
  | Some _ => state_or completion Shut
  | None => completion
  end.

(** The bytes [addReceivedSentBytes] adds. *)
Definition traffic : Type := Z * Z.
Definition add_traffic (t u : traffic) : traffic := (fst t + fst u, snd t + snd u).

Context `{Protocol}.

Definition serve_new (completion : SockState) : X Conn (SockState * traffic) :=
  let^ r := xtry handShake in
  match r with
  | Some (ok, received, sent) => xret (new_stage (Some ok) completion, (received, sent))
  | None => xret (new_stage None completion, (0, 0))
  end.

Definition serve_read (fuel : nat) (completion : SockState) : X Conn (SockState * traffic) :=
  let^ r := xtry (let^ (error, received) := readBuffer fuel in
                  let^ (answer, sent) := readSocket in
                  xret (error, answer, (received, sent))) in
  match r with
  | Some (error, answer, t) => xret (read_stage (Some (error, answer)) completion, t)
  | None => xret (read_stage None completion, (0, 0))
  end.

Definition serve_shut (completion : SockState) : X Conn (SockState * traffic) :=
  let^ r := xtry shutDown in
  xret (shut_stage r completion, (0, 0)).

Definition stage (enabled : bool) (m : SockState -> X Conn (SockState * traffic)) (l : SockState * traffic)
    : X Conn (SockState * traffic) :=
  if enabled then let^ (c, t) := m (fst l) in xret (c, add_traffic (snd l) t) else xret l.

(** [TCPServer::run] on a popped item in state [state]: the completion state it hands
    to [releaseWork], and the traffic it reported. *)
Definition serve (fuel : nat) (state : SockState) : X Conn (SockState * traffic) :=
  let^ l := stage (state_and state New) serve_new (None_, (0, 0)) in
  let^ l := stage (state_and state Read) (serve_read fuel) l in
  stage (state_and state Shut) serve_shut l.

End Connection.

(** ** Reading a connection *)

Section ReadBuffer.
Context `{Allocator} (memory : forall n, alloc_ok n = true).

(** The scratch buffer: a block of at least 4096 octets. *)
Definition scratch (tmp : Bytes) : Prop :=
  wf tmp /\ size_ tmp = 4096 /\ 4096 <= zlen (cells tmp).

Lemma reserve_scratch : exists tmp, reserve 4096 Bytes_new = (Ok tt, tmp) /\ scratch tmp.
Proof.
  destruct (reserve_grow Bytes_new [] 4096 rep_new ltac:(done) (memory _)) as (b & E & Hw & Hs & _).
  exists b. split; [done|]. pose proof (wf_cells b Hw). split_and!; [done|done|lia].
Qed.

(** Receiving [data] into the scratch buffer. *)
Lemma scratch_write tmp (data : str) :
  scratch tmp -> zlen data <= 4096 ->
  exists tmp' rest, write_cells tmp 0 (map Some data) = (Ok tt, tmp') /\ scratch tmp' /\
                    cells tmp' = map Some data ++ rest.
Proof.
  intros (Hw & Hs & Hc) Hd. unfold write_cells.
  destruct (map Some data) as [|x l] eqn:Em.
  { exists tmp, (cells tmp). done. }
  assert (zlen (x :: l) = zlen data) as Ez by (rewrite <- Em; unfold zlen; by rewrite length_map).
  replace ((0 <=? 0) && (0 + zlen (x :: l) <=? zlen (cells tmp))) with true
    by (symmetry; apply andb_true_iff; split; [done | apply Z.leb_le; lia]).
  eexists _, _. split; [done|]. unfold cells at 2. cbn [array_ default].
  split; [|reflexivity].
  destruct (wf_cells tmp Hw) as [Hl Hb].
  assert (zlen (take (Z.to_nat 0) (cells tmp) ++ (x :: l) ++ drop (Z.to_nat 0 + length (x :: l)) (cells tmp))
          = zlen (cells tmp)) as Ec.
  { unfold zlen in *. rewrite !length_app, length_take, length_drop. simpl length in *. lia. }
  remember (take _ _ ++ _ ++ drop _ _) as mem eqn:E0. clear E0.
  unfold scratch, wf. change (cells (mkBytes (Some mem) (size_ tmp) (allocated_size tmp))) with mem.
  cbn [array_ size_ allocated_size]. lia.
Qed.

Lemma conn_append_scratch c l tmp (data : str) rest :
  rep (read_buffer c) l -> scratch tmp -> cells tmp = map Some data ++ rest ->
  zlen data <= 4096 -> zlen l + zlen data < size_limit ->
  exists b, conn_append tmp (zlen data) c = (Ok tt, mkConn (sock c) b) /\ rep b (l ++ data).
Proof.
  intros Hr (_ & Hs & _) Hc Hd Hl. unfold conn_append, append_n. rewrite Hs, Hc.
  destruct (Z.ltb_spec 4096 (zlen data)); [lia|].
  destruct (append_mem_rep (read_buffer c) l data rest Hr ltac:(lia) (memory _)) as (b & E & Hb).
  rewrite E. by exists b.
Qed.

(** One round on a segment that begins with [data]: it is moved to the read buffer. *)
Lemma readBuffer_round c l tmp received s t :
  scratch tmp -> rep (read_buffer c) l -> inbox (sock c) = RecvData s :: t -> s <> [] ->
  zlen l + zlen s < size_limit ->
  let data := take 4096 s in
  let k := set_inbox (match drop 4096 s with [] => t | r => RecvData r :: t end) (sock c) in
  exists tmp' b, scratch tmp' /\ rep b (l ++ data) /\
    readBuffer_body (tmp, received) c =
      (Ok (if zlen data =? 4096 then inl (tmp', received + zlen data)
           else inr (ec_value ecOK, received + zlen data)), mkConn k b).
Proof.
  intros Ht Hr Hi Hs Hlim data k.
  assert (0 < zlen data <= 4096 /\ zlen data <= zlen s) as Hd.
  { unfold data, zlen. rewrite length_take. destruct s; [done|]. simpl length. lia. }
  destruct (scratch_write tmp data Ht ltac:(lia)) as (tmp' & rest & Ew & Ht' & Hc).
  destruct (conn_append_scratch (mkConn k (read_buffer c)) l tmp' data rest Hr Ht' Hc ltac:(lia) ltac:(lia))
    as (b & Ea & Hb).
  exists tmp', b. split_and!; [done..|]. unfold readBuffer_body.
  erewrite xbind_ok; [|unfold conn_receive, receive, sys_recv, getSize; destruct Ht as (_ & -> & _);
                       rewrite Hi; reflexivity].
  change (Z.to_nat 4096) with 4096%nat. fold data k. cbv beta iota zeta.
  erewrite xbind_ok; [|unfold pure_bytes; rewrite Ew; reflexivity].
  change (acceptable (ec_value ecOK)) with true. cbn [andb].
  destruct (Z.ltb_spec 0 (zlen data)); [|lia].
  erewrite xbind_ok; [|exact Ea]. by destruct (zlen data =? 4096).
Qed.

(** The rounds over a segment of [n] full blocks and a shorter rest. *)
Lemma readBuffer_blocks n : forall fuel c l tmp received s t,
  scratch tmp -> rep (read_buffer c) l -> inbox (sock c) = RecvData s :: t -> s <> [] ->
  zlen l + zlen s < size_limit ->
  (length s / 4096 = n)%nat -> (n < fuel)%nat ->
  exists tmp' b, scratch tmp' /\ rep b (l ++ s) /\
    xloop fuel readBuffer_body (tmp, received) c =
      (if (length s mod 4096 =? 0)%nat
       then xloop (fuel - n) readBuffer_body (tmp', received + zlen s)
       else xret (ec_value ecOK, received + zlen s)) (mkConn (set_inbox t (sock c)) b).
Proof.
  induction n as [|n IH]; intros fuel c l tmp received s t Ht Hr Hi Hs Hlim Hn Hf;
    (destruct fuel as [|f]; [lia|]);
    destruct (readBuffer_round c l tmp received s t Ht Hr Hi Hs Hlim) as (tmp' & b & Ht' & Hb & E);
    pose proof (Nat.div_mod_eq (length s) 4096) as Hdm;
    pose proof (Nat.mod_upper_bound (length s) 4096 ltac:(lia)) as Hmb.
  - assert (length s < 4096)%nat as Hlt by lia. rewrite take_ge, drop_ge in * by lia.
    exists tmp', b. split_and!; [done..|]. simpl xloop. erewrite xbind_ok; [|exact E].
    destruct (Z.eqb_spec (zlen s) 4096); [unfold zlen in *; lia|].
    destruct (Nat.eqb_spec (length s mod 4096) 0); [destruct s; [done|simpl length in *; lia]|]. done.
  - assert (4096 <= length s)%nat as Hge by lia.
    assert (zlen (take 4096 s) = 4096) as Hz by (unfold zlen; rewrite length_take; lia).
    simpl xloop. erewrite xbind_ok; [|exact E]. rewrite Hz. cbn [Z.eqb Pos.eqb].
    destruct (drop 4096 s) as [|x r] eqn:Ed.
    + assert (length s = 4096)%nat as Hl by (pose proof (length_drop s 4096) as L; rewrite Ed in L; simpl in L; lia).
      assert (n = 0)%nat as -> by lia. rewrite take_ge in Hb by lia.
      exists tmp', b. split_and!; [done..|].
      replace (length s mod 4096 =? 0)%nat with true by (rewrite Hl; done).
      replace (S f - 1)%nat with f by lia. by rewrite (ltac:(unfold zlen; lia) : zlen s = 4096).
    + assert (length (x :: r) = length s - 4096)%nat as Hlr by (rewrite <- Ed; apply length_drop).
      assert (length (x :: r) / 4096 = n)%nat as Hn'.
      { symmetry. apply (Nat.div_unique _ 4096 n (length s mod 4096)); lia. }
      destruct (IH f (mkConn (set_inbox (RecvData (x :: r) :: t) (sock c)) b) (l ++ take 4096 s) tmp'
                  (received + 4096) (x :: r) t Ht' Hb eq_refl ltac:(done)) as (tmp2 & b2 & Ht2 & Hb2 & E2);
        [rewrite zlen_app, Hz; unfold zlen in *; lia | done | lia |].
      exists tmp2, b2. split; [done|]. rewrite <- app_assoc, <- Ed, take_drop in Hb2. split; [done|].
      rewrite E2. cbn [sock set_inbox].
      assert (length (x :: r) mod 4096 = length s mod 4096)%nat as ->.
      { rewrite Hlr. replace (length s) with ((length s - 4096) + 1 * 4096)%nat at 2 by lia.
        by rewrite Nat.Div0.mod_add. }
      replace (received + 4096 + zlen (x :: r)) with (received + zlen s) by (unfold zlen in *; lia).
      replace (S f - S n)%nat with (f - n)%nat by lia. done.
Qed.
End ReadBuffer.

(** Every continuing round takes 4096 octets off the stream. *)
Lemma readBuffer_body_progress `{Allocator} l c l' c' :
  readBuffer_body l c = (Ok (inl l'), c') ->
  (length (pending (sock c')) < length (pending (sock c)))%nat.
Proof.
  destruct l as [tmp received]. unfold readBuffer_body, xbind, conn_receive, receive, sys_recv, pending.
  destruct (inbox (sock c)) as [|[s| |e] t] eqn:Hi; cbv beta iota zeta.
  - done.
  - set (n := Z.to_nat (getSize tmp)).
    assert (length (concat (map seg_bytes match drop n s with [] => t | r => RecvData r :: t end)) =
            length (concat (map seg_bytes (RecvData s :: t))) - length (take n s))%nat as El.
    { pose proof (take_drop n s) as E. apply (f_equal length) in E. rewrite length_app in E.
      destruct (drop n s) as [|x r]; cbn [map concat seg_bytes]; rewrite ?length_app; cbn [length] in *; lia. }
    assert (length (take n s) <= length (concat (map seg_bytes (RecvData s :: t))))%nat as Hle
      by (cbn [map concat seg_bytes]; rewrite length_app, length_take; lia).
    unfold pure_bytes, conn_append. cbn [set_inbox sock inbox read_buffer].
    destruct (write_cells tmp 0 (map Some (take n s))) as [[u|ex|] tmp']; cbn [completed]; try done.
    change (acceptable (ec_value ecOK)) with true. cbn [andb negb].
    destruct (Z.ltb_spec 0 (zlen (take n s))) as [Hp|].
    + destruct (append_n tmp' _ _) as [[v|ex|] b]; try done.
      destruct (zlen (take n s) =? 4096); intros [= <- <-]. cbn [sock inbox set_inbox].
      rewrite El. unfold zlen in Hp. lia.
    + destruct (zlen (take n s) =? 4096) eqn:E4; breflect; [lia|]. done.
  - done.
  - destruct ((e =? ecEAGAIN) || (e =? ecECONNREFUSED) || (e =? ecENOTCONN)); [|done].
    unfold pure_bytes. cbn [map]. change (write_cells tmp 0 []) with (Ok tt, tmp : Bytes). cbn [completed].
    change (zlen (@nil ascii)) with 0. rewrite andb_false_r. cbn [Z.eqb].
    by destruct (negb (acceptable e)).
Qed.

(** The operations of Bytes contain no loop. *)
Lemma write_cells_total b o v : fst (write_cells b o v) <> OutOfFuel.
Proof. unfold write_cells, fault. destruct v; [done|]. by case_bool. Qed.

Lemma reserve_total `{Allocator} n b : fst (reserve n b) <> OutOfFuel.
Proof. unfold reserve. case_bool; [done|]. destruct (array_ b); repeat (case_bool; try done). Qed.

Lemma append_n_total `{Allocator} src n b : fst (append_n src n b) <> OutOfFuel.
Proof.
  unfold append_n, append_mem, andThen. case_bool; [done|].
  pose proof (reserve_total (u64 (size_ b + n)) b). destruct (reserve _ b) as [[u|ex|] b']; try done.
  case_bool; [apply write_cells_total | done].
Qed.

Lemma readBuffer_body_total `{Allocator} l c : fst (readBuffer_body l c) <> OutOfFuel.
Proof.
  destruct l as [tmp received]. unfold readBuffer_body, xbind, conn_receive, receive, pure_bytes.
  destruct (sys_recv _ _) as [[data|errno] k].
  - pose proof (write_cells_total tmp 0 (map Some data)).
    cbv beta iota. destruct (write_cells tmp 0 _) as [[u|x|] tmp']; cbn [completed]; try done.
    destruct (acceptable _ && _); [|by repeat case_bool].
    unfold conn_append. pose proof (append_n_total tmp' (zlen data) (read_buffer (mkConn k (read_buffer c)))).
    destruct (append_n tmp' _ _) as [[v|x|] b]; [by case_bool | done | done].
  - destruct ((errno =? ecEAGAIN) || _ || _); [|done]. cbn [map].
    change (write_cells tmp 0 []) with (Ok tt, tmp : Bytes). cbn [completed]. change (zlen (@nil ascii)) with 0.
    rewrite andb_false_r. repeat (case_bool; try done).
Qed.

Lemma xloop_readBuffer_total `{Allocator} fuel : forall l c,
  (length (pending (sock c)) < fuel)%nat -> fst (xloop fuel readBuffer_body l c) <> OutOfFuel.
Proof.
  induction fuel as [|f IH]; intros l c Hf; [lia|]. simpl. unfold xbind.
  pose proof (readBuffer_body_total l c).
  destruct (readBuffer_body l c) as [[[l'|r]|ex|] c'] eqn:E; try done.
  apply IH. apply readBuffer_body_progress in E. lia.
Qed.

(** ** Theorems *)

(** Data that does not fill its last block of 4096 octets: [readBuffer] appends
    exactly the waiting segment to the read buffer, reports its size and ecOK, and
    leaves what follows on the socket. *)
Theorem readBuffer_delivers `{Allocator} fuel c l s t :
  (forall n, alloc_ok n = true) ->
  rep (read_buffer c) l -> inbox (sock c) = RecvData s :: t ->
  (length s mod 4096 <> 0)%nat -> zlen l + zlen s < size_limit -> (length s < fuel)%nat ->
  exists b, rep b (l ++ s) /\ readBuffer fuel c = (Ok (ec_value ecOK, zlen s), mkConn (set_inbox t (sock c)) b).
Proof.
  intros Hm Hr Hi Hs Hl Hf. destruct (reserve_scratch Hm) as (tmp & E & Ht).
  assert (s <> []) as Hne by (by destruct s).
  pose proof (Nat.Div0.div_le_upper_bound (length s) 4096 (length s) ltac:(lia)).
  destruct (readBuffer_blocks Hm _ fuel c l tmp 0 s t Ht Hr Hi Hne Hl eq_refl ltac:(lia)) as (tmp' & b & _ & Hb & El).
  exists b. split; [done|]. unfold readBuffer, pure_bytes. erewrite xbind_ok; [|by rewrite E].
  rewrite El. by rewrite (proj2 (Nat.eqb_neq _ _) Hs).
Qed.

(** Data that exactly fills its blocks, with nothing behind it on a non-blocking
    socket: everything is appended, but the error of the last, empty read is what
    [readBuffer] returns. *)
Lemma readBuffer_full_blocks `{Allocator} fuel c l s :
  (forall n, alloc_ok n = true) ->
  rep (read_buffer c) l -> inbox (sock c) = [RecvData s] -> s <> [] ->
  (length s mod 4096 = 0)%nat -> zlen l + zlen s < size_limit -> (length s < fuel)%nat ->
  exists b, rep b (l ++ s) /\ readBuffer fuel c = (Ok (ec_value ecEAGAIN, zlen s), mkConn (set_inbox [] (sock c)) b).
Proof.
  intros Hm Hr Hi Hne Hs Hl Hf. destruct (reserve_scratch Hm) as (tmp & E & Ht).
  assert (length s / 4096 < length s)%nat by (apply Nat.div_lt; [destruct s; simpl; [done|]|]; lia).
  destruct (readBuffer_blocks Hm _ fuel c l tmp 0 s [] Ht Hr Hi Hne Hl eq_refl ltac:(lia)) as (tmp' & b & Ht' & Hb & El).
  exists b. split; [done|]. unfold readBuffer, pure_bytes. erewrite xbind_ok; [|by rewrite E].
  rewrite El, (proj2 (Nat.eqb_eq _ _) Hs).
  destruct (fuel - length s / 4096)%nat as [|f] eqn:Ef; [lia|]. simpl xloop. unfold xbind at 1, readBuffer_body.
  unfold conn_receive, receive, sys_recv. cbn [sock inbox set_inbox]. by destruct Ht' as (_ & _ & _).
Qed.

(** [readBuffer] returns or throws on every stream and every allocator. *)
Theorem readBuffer_terminates `{Allocator} fuel c :
  (length (pending (sock c)) < fuel)%nat -> fst (readBuffer fuel c) <> OutOfFuel.
Proof.
  intros Hf. unfold readBuffer, xbind, pure_bytes. pose proof (reserve_total 4096 Bytes_new).
  destruct (reserve 4096 Bytes_new) as [[u|x|] tmp]; cbn [completed]; try done.
  by apply xloop_readBuffer_total.
Qed.

(** The completion state as a function of the handlers' answers. *)
Definition completion (state : SockState) (hs : option bool) (rd : option (SystemError * SystemError))
    (sd : option unit) : SockState :=
  let c := if state_and state New then new_stage hs None_ else None_ in
  let c := if state_and state Read then read_stage rd c else c in
  if state_and state Shut then shut_stage sd c else c.

(** The flags a socket can carry. *)
Definition flags (state : SockState) : Prop := 0 <= state < 8.

Lemma flags_in state : flags state -> In state (map Z.of_nat (seq 0 8)).
Proof.
  intros Hf. unfold flags in Hf. apply in_map_iff. exists (Z.to_nat state). rewrite in_seq. lia.
Qed.

(** A fact about all flag sets is decided by evaluation. *)
Lemma flags_forall (P : SockState -> bool) :
  forallb P (map Z.of_nat (seq 0 8)) = true -> forall state, flags state -> P state = true.
Proof. intros HP state Hf. rewrite forallb_forall in HP. by apply HP, flags_in. Qed.

(** What the read stage depends on: did both calls answer acceptably. *)
Lemma read_stage_bool rd c : exists b : option bool,
  read_stage rd c = match b with
                    | Some true => state_or c Read
                    | Some false => state_or (state_or c Read) Shut
                    | None => c
                    end.
Proof.
  destruct rd as [[b a]|]; [|by exists None]. unfold read_stage.
  exists (Some ((b =? ecOK) && acceptable a)). by destruct ((b =? ecOK) && acceptable a).
Qed.

Lemma completion_within state hs rd sd :
  flags state ->
  let c := completion state hs rd sd in
  flags c /\ (state_and c Shut = false -> Z.land state c = c).
Proof.
  intros Hf. cbv zeta. unfold completion.
  destruct (read_stage_bool rd (if state_and state New then new_stage hs None_ else None_)) as [b ->].
  apply flags_in in Hf. revert state Hf. apply List.Forall_forall. unfold flags.
  destruct hs as [[]|], b as [[]|], sd as [[]|]; repeat constructor; vm_compute; done.
Qed.

Section Serve.
Context `{Allocator} `{Protocol}.

Lemma stage_ok enabled m l c s t c' :
  m (fst l) c = (Ok (s, t), c') ->
  exists t', stage enabled m l c = (Ok (if enabled then s else fst l, t'), if enabled then c' else c).
Proof.
  intros E. unfold stage. destruct enabled; [|destruct l; by eexists].
  erewrite xbind_ok; [|exact E]. by eexists.
Qed.

(** The handlers terminate, and only read from the peer. *)
Definition well_behaved : Prop :=
  (forall c, fst (handShake c) <> OutOfFuel) /\ (forall c, fst (readSocket c) <> OutOfFuel) /\
  (forall c, fst (shutDown c) <> OutOfFuel) /\
  (forall c, length (pending (sock (snd (handShake c)))) <= length (pending (sock c)))%nat.

Lemma serve_new_spec s c :
  fst (handShake c) <> OutOfFuel ->
  exists hs t, serve_new s c = (Ok (new_stage hs s, t), snd (handShake c)).
Proof.
  intros Hh. unfold serve_new, xbind, xtry. destruct (handShake c) as [[[[ok r] x]|e|] c'].
  - by exists (Some ok), (r, x).
  - by exists None, (0, 0).
  - done.
Qed.

Lemma serve_read_spec fuel s c :
  (forall c, fst (readSocket c) <> OutOfFuel) -> (length (pending (sock c)) < fuel)%nat ->
  exists rd t c', serve_read fuel s c = (Ok (read_stage rd s, t), c').
Proof.
  intros Hr Hf. pose proof (readBuffer_terminates fuel c Hf) as Hb. unfold serve_read.
  unfold xbind at 1, xtry, xbind at 1.
  destruct (readBuffer fuel c) as [[[e n]|x|] c1]; [|by exists None, (0, 0), c1 | done].
  unfold xbind. specialize (Hr c1). destruct (readSocket c1) as [[[a m]|x|] c2]; [| |done].
  - by exists (Some (e, a)), (n, m), c2.
  - by exists None, (0, 0), c2.
Qed.

Lemma serve_shut_spec s c :
  fst (shutDown c) <> OutOfFuel -> exists sd t c', serve_shut s c = (Ok (shut_stage sd s, t), c').
Proof.
  intros Hs. unfold serve_shut, xbind, xtry. destruct (shutDown c) as [[u|e|] c'].
  - by exists (Some u), (0, 0), c'.
  - by exists None, (0, 0), c'.
  - done.
Qed.

(** ** No exception of a handler escapes from the handling of a work item

    Whatever the handlers do, serving an item returns a completion state, and that is
    the function [completion] of what the handlers answered. *)
Lemma serve_completes fuel state c :
  well_behaved -> (length (pending (sock c)) < fuel)%nat ->
  exists hs rd sd t c', serve fuel state c = (Ok (completion state hs rd sd, t), c').
Proof.
  intros (Hh & Hr & Hs & Hp) Hf. unfold serve.
  destruct (serve_new_spec None_ c (Hh c)) as (hs & t1 & E1).
  destruct (stage_ok (state_and state New) serve_new (None_, (0, 0)) c _ _ _ E1) as (u1 & F1).
  erewrite xbind_ok; [|exact F1]. cbn [fst]. specialize (Hp c).
  set (s1 := if state_and state New then _ else _). set (c1 := if state_and state New then _ else c).
  assert (length (pending (sock c1)) < fuel)%nat as Hf1 by (unfold c1; case_bool; lia).
  destruct (serve_read_spec fuel s1 c1 Hr Hf1) as (rd & t2 & c2 & E2).
  destruct (stage_ok (state_and state Read) (serve_read fuel) (s1, u1) c1 _ _ _ E2) as (u2 & F2).
  erewrite xbind_ok; [|exact F2]. cbn [fst].
  set (s2 := if state_and state Read then _ else s1). set (c3 := if state_and state Read then _ else _).
  destruct (serve_shut_spec s2 c3 (Hs c3)) as (sd & t3 & c4 & E3).
  destruct (stage_ok (state_and state Shut) serve_shut (s2, u2) c3 _ _ _ E3) as (u3 & F3).
  exists hs, rd, sd. eauto.
Qed.
End Serve.

(** C30 Whatever the handlers answer, throw or return, serving a work item produces a
    completion state; unless it asks for the connection to be closed, it contains only
    flags the item had, so that the exclusive or of [releaseWork] clears the handled
    flags and sets none. *)
Theorem serve_settles_flags `{Allocator} `{Protocol} fuel state c :
  well_behaved -> flags state -> (length (pending (sock c)) < fuel)%nat ->
  exists comp t c',
    serve fuel state c = (Ok (comp, t), c') /\ flags comp /\
    (state_and comp Shut = false -> state_xor state comp = Z.ldiff state comp).
Proof.
  intros Hw Hs Hf. destruct (serve_completes fuel state c Hw Hf) as (hs & rd & sd & t & c' & E).
  destruct (completion_within state hs rd sd Hs) as [Hc Hsub].
  eexists _, _, _. split; [exact E|]. split; [done|]. intros Hn. specialize (Hsub Hn).
  remember (completion state hs rd sd) as comp eqn:E0. clear E0 E. unfold state_xor.
  apply Z.bits_inj'. intros n Hn0. rewrite Z.lxor_spec, Z.ldiff_spec.
  apply (f_equal (fun z => Z.testbit z n)) in Hsub. rewrite Z.land_spec in Hsub.
  destruct (Z.testbit state n), (Z.testbit comp n); done.
Qed.

(** A protocol that echoes nothing and accepts everything. *)
Definition silent : Protocol := {|
  handShake := xret (true, 0, 0); readSocket := xret (ec_value ecOK, 0); shutDown := xret tt |}.

(** A protocol whose handlers throw. *)
Definition throwing : Protocol := {|
  handShake := fun c => (Throw std_invalid_argument, c);
  readSocket := fun c => (Throw std_invalid_argument, c);
  shutDown := fun c => (Throw std_invalid_argument, c) |}.

Definition demo_conn (i : list RecvEvent) : Conn := mkConn (test_socket i) Bytes_new.

Lemma throwing_well_behaved : @well_behaved throwing.
Proof. split_and!; intros c; (done || simpl; lia). Qed.

Lemma silent_well_behaved : @well_behaved silent.
Proof. split_and!; intros c; (done || simpl; lia). Qed.

Lemma serve_settles_flags_witness :
  exists comp t c',
    @serve always_alloc throwing 9 7 (demo_conn [RecvData (lit "hi")]) = (Ok (comp, t), c') /\ flags comp /\
    (state_and comp Shut = false -> state_xor 7 comp = Z.ldiff 7 comp).
Proof.
  apply (@serve_settles_flags always_alloc throwing 9 7 (demo_conn [RecvData (lit "hi")])).
  - exact throwing_well_behaved.
  - unfold flags. lia.
  - vm_compute. lia.
Defined.

(** The handlers of an item whose calls all succeed report its flags as done. *)
Lemma completion_all_ok state :
  flags state -> completion state (Some true) (Some (ec_value ecOK, ec_value ecOK)) (Some tt) = state.
Proof.
  intros Hs. apply flags_in in Hs. revert state Hs. apply List.Forall_forall.
  repeat constructor; vm_compute; done.
Qed.

(** Serving a readable connection whose two calls complete. *)
Lemma serve_Read_ok `{Allocator} `{Protocol} fuel c e n c1 a m c2 :
  readBuffer fuel c = (Ok (e, n), c1) -> readSocket c1 = (Ok (a, m), c2) ->
  serve fuel Read c = (Ok (read_stage (Some (e, a)) None_, (n, m)), c2).
Proof.
  intros E1 E2. unfold serve.
  assert (serve_read fuel None_ c = (Ok (read_stage (Some (e, a)) None_, (n, m)), c2)) as Er.
  { unfold serve_read. erewrite xbind_ok; [|apply xtry_ok; erewrite xbind_ok by exact E1; cbv beta iota;
      erewrite xbind_ok by exact E2; reflexivity]. done. }
  change (state_and Read New) with false. change (state_and Read Read) with true.
  change (state_and Read Shut) with false. erewrite xbind_ok; [|reflexivity].
  erewrite xbind_ok; [|unfold stage; cbn [fst]; erewrite xbind_ok by exact Er; reflexivity]. done.
Qed.

(** C9 A readable connection on which a request of [s] waits that does not fill whole
    blocks: [readSocket] runs with the request appended to the read buffer, the traffic
    is counted, and the connection stays open exactly when [readSocket] answers ecOK or
    ecEAGAIN. *)
Theorem request_served `{Allocator} `{Protocol} fuel c l s t answer sent after :
  (forall n, alloc_ok n = true) ->
  rep (read_buffer c) l -> inbox (sock c) = RecvData s :: t ->
  (length s mod 4096 <> 0)%nat -> zlen l + zlen s < size_limit -> (length s < fuel)%nat ->
  (forall b, rep b (l ++ s) ->
     readSocket (mkConn (set_inbox t (sock c)) b) = (Ok (answer, sent), after b)) ->
  exists b, rep b (l ++ s) /\
    serve fuel Read c =
      (Ok (if acceptable answer then Read else state_or Read Shut, (zlen s, sent)), after b).
Proof.
  intros Hm Hr Hi Hs Hl Hf Hrs.
  destruct (readBuffer_delivers fuel c l s t Hm Hr Hi Hs Hl Hf) as (b & Hb & E).
  exists b. split; [done|]. rewrite (serve_Read_ok _ _ _ _ _ _ _ _ E (Hrs b Hb)).
  unfold read_stage. change (ec_value ecOK =? ecOK) with true. by destruct (acceptable answer).
Qed.

Lemma request_served_witness : exists b, rep b (lit "GET") /\
  @serve always_alloc silent 9 Read (demo_conn [RecvData (lit "GET")]) =
    (Ok (Read, (3, 0)), mkConn (test_socket []) b).
Proof.
  apply (@request_served always_alloc silent 9 (demo_conn [RecvData (lit "GET")]) [] (lit "GET") []
           (ec_value ecOK) 0 (fun b => mkConn (test_socket []) b)); (done || apply rep_new || (simpl; lia)).
Defined.

(** The same connection with a request that exactly fills its blocks of 4096 octets:
    the connection is marked for closing whatever [readSocket] answers. *)
Theorem full_block_request_closes `{Allocator} `{Protocol} fuel c l s answer sent after :
  (forall n, alloc_ok n = true) ->
  rep (read_buffer c) l -> inbox (sock c) = [RecvData s] -> s <> [] ->
  (length s mod 4096 = 0)%nat -> zlen l + zlen s < size_limit -> (length s < fuel)%nat ->
  (forall b, readSocket (mkConn (set_inbox [] (sock c)) b) = (Ok (answer, sent), after b)) ->
  exists b, rep b (l ++ s) /\
    serve fuel Read c = (Ok (state_or Read Shut, (zlen s, sent)), after b).
Proof.
  intros Hm Hr Hi Hne Hs Hl Hf Hrs.
  destruct (readBuffer_full_blocks fuel c l s Hm Hr Hi Hne Hs Hl Hf) as (b & Hb & E).
  exists b. split; [done|]. by rewrite (serve_Read_ok _ _ _ _ _ _ _ _ E (Hrs b)).
Qed.

Lemma full_block_request_closes_witness :
  exists b, rep b (replicate 4096 "x"%char) /\
    @serve always_alloc silent 5000 Read (demo_conn [RecvData (replicate 4096 "x"%char)]) =
      (Ok (6, (4096, 0)), mkConn (test_socket []) b).
Proof.
  apply (@full_block_request_closes always_alloc silent 5000
           (demo_conn [RecvData (replicate 4096 "x"%char)]) [] (replicate 4096 "x"%char)
           (ec_value ecOK) 0 (fun b => mkConn (test_socket []) b));
    (done || apply rep_new || (rewrite length_replicate; lia)).
Defined.

(** A receive error that [Socket::receive] reports as a value (the peer is not
    connected, the connection was refused) is returned as success. *)
Theorem receive_error_becomes_ok `{Allocator} fuel c e t :
  (forall n, alloc_ok n = true) -> (0 < fuel)%nat ->
  e = ec_value ecECONNREFUSED \/ e = ec_value ecENOTCONN ->
  inbox (sock c) = RecvError e :: t ->
  readBuffer fuel c = (Ok (ec_value ecOK, 0), mkConn (set_inbox t (sock c)) (read_buffer c)).
Proof.
  intros Hm Hf He Hi. destruct (reserve_scratch Hm) as (tmp & E & Ht).
  unfold readBuffer, pure_bytes. erewrite xbind_ok; [|by rewrite E].
  destruct fuel as [|f]; [lia|]. simpl xloop.
  assert (conn_receive (getSize tmp) c =
          (Ok (e, []), mkConn (set_inbox t (sock c)) (read_buffer c))) as Er.
  { unfold conn_receive, receive, sys_recv. rewrite Hi. by destruct He as [ -> | -> ]. }
  unfold xbind at 1, readBuffer_body. erewrite xbind_ok by exact Er. by destruct He as [ -> | -> ].
Qed.

Lemma receive_error_becomes_ok_witness :
  @readBuffer always_alloc 1 (demo_conn [RecvError (ec_value ecENOTCONN)]) =
    (Ok (0, 0), mkConn (test_socket []) Bytes_new).
Proof.
  apply (@receive_error_becomes_ok always_alloc 1 (demo_conn [RecvError (ec_value ecENOTCONN)])
           (ec_value ecENOTCONN) []); [done | lia | by right | done].
Defined.

(** A handshake that fails or throws.  Failing marks the connection for closing without
    a call of [shutDown]; throwing leaves it open with the flag New still set, so that
    the handshake is repeated at its next event. *)
Theorem handshake_failures `{Allocator} `{Protocol} fuel c :
  (forall received sent c', handShake c = (Ok (false, received, sent), c') ->
     serve fuel New c = (Ok (state_or New Shut, (received, sent)), c')) /\
  (forall e c', handShake c = (Throw e, c') ->
     serve fuel New c = (Ok (None_, (0, 0)), c') /\ state_xor New None_ = New).
Proof.
  assert (forall s t c', serve_new None_ c = (Ok (s, t), c') -> serve fuel New c = (Ok (s, add_traffic (0, 0) t), c')) as K.
  { intros s t c' E. unfold serve. change (state_and New New) with true. change (state_and New Read) with false.
    change (state_and New Shut) with false.
    erewrite xbind_ok; [|unfold stage; cbn [fst]; erewrite xbind_ok by exact E; reflexivity]. done. }
  split.
  - intros received sent c' E. rewrite (K (state_or New Shut) (received, sent) c'); [done|].
    unfold serve_new, xbind, xtry. by rewrite E.
  - intros e c' E. split; [|done]. rewrite (K None_ (0, 0) c'); [done|]. unfold serve_new, xbind, xtry. by rewrite E.
Qed.
