(* ===== verification/TCPListener.v ===== *)
(** * TCPListener: the state the listener and its servers share

    Models src/src/lib/network/tcplistener.cpp and src/src/include/network/tcplistener.hpp:
    parameters, statistics, the client map, the work queue, epoll registration, and the
    operations on them ([pushWork], [popWork], [releaseWork], [closeSocket], [pollAdd],
    [pollMod], [pollDel]), the server pool ([addServers], [cleanStoppedServers]) and the
    listener's own cycle ([throttle], [logStats]).  The interleaving of the listener
    thread with its servers is in the file TCPSystem.

    Memory.  BaseSocket objects live in [sockets], keyed by their address; a dead address
    is an access outside a live object.  A [SocketWork*] is the address of a node of the
    map [clients_] and is represented by the node's key: the node dies with
    [clients_.erase].  Connection data is owned by its node; [data] says whether the node
    has one.

    Kernel.  [epoll_ctl] follows its documented result: ADD of a registered descriptor is
    EEXIST, MOD or DEL of an unregistered one ENOENT, and ADD may also be refused for lack
    of resources.  Closing a descriptor removes it from the interest list.  A failing
    [close] has released the descriptor.

    The build is one with NDEBUG: log_Debug and log_Trace expand to nothing. *)

From Stdlib Require Import QArith.
From S2P Require Import Prelude.
From S2P Require Import SystemError.
From S2P Require Import TCPServer.

Local Open Scope Z_scope.

(** ** Parameters *)

Record Params : Type := mkParams {
  minservers : Z; maxservers : Z; maxconnections : Z; maxqdepth : Z;
  sendbufsz : Z; recvbufsz : Z; server_idle_ttl_s : Q; pollbatch : Z;
  listener_sleep_ms : Z; throttle_sleep_us : Z; cycle_max_throttles : Z;
  stat_trc_interval_s : Z; send_timeout_seconds : Z; receive_timeout_seconds : Z;
  tcp_keep_alive : bool;
}.

Definition Params_default : Params :=
  mkParams 8 16 6000 128 16384 32768 (300 # 1) 128 1000 4000 40 300 10 10 false.

(** yaml-cpp as the library reads it: the value a key converts to, an
    exception when the conversion fails, nothing when the key is absent. *)
Class YamlNode := {
  yaml_int : str -> option (outcome Z);
  yaml_bool : str -> option (outcome bool);
  yaml_double : str -> option (outcome Q);
}.

(** [YAML_read_key_default<T>]. *)
Definition YAML_read_key_default {T} (node : str -> option (outcome T)) (key : str) (default_value : T) : outcome T :=
  match node key with
  | Some v => v
  | None => Ok default_value
  end.

(** [YAML_read_key<T>]. *)
Definition YAML_read_key {T} (node : str -> option (outcome T)) (key : str) : outcome T :=
  match node key with
  | Some v => v
  | None => Throw (DodoException (key ++ lit " parameter missing in YAML::Node"))
  end.

Definition Params_of_yaml `{YamlNode} : outcome Params :=
  let! minservers := YAML_read_key_default yaml_int (lit "min-servers") 2 in
  let! maxservers := YAML_read_key_default yaml_int (lit "max-servers") 16 in
  let! maxconnections := YAML_read_key_default yaml_int (lit "max-connections") 500 in
  let! maxqdepth := YAML_read_key_default yaml_int (lit "max-queue-depth") 256 in
  let! sendbufsz := YAML_read_key_default yaml_int (lit "send-buffer") 16384 in
  let! recvbufsz := YAML_read_key_default yaml_int (lit "receive-buffer") 32768 in
  let! server_idle_ttl_s := YAML_read_key_default yaml_double (lit "server-idle-ttl-s") (300 # 1) in
  let! pollbatch := YAML_read_key_default yaml_int (lit "poll-batch") 128 in
  let! listener_sleep_ms := YAML_read_key_default yaml_int (lit "listener-sleep-ms") 200 in
  let! throttle_sleep_us := YAML_read_key_default yaml_int (lit "throttle-sleep-us") 4000 in
  let! cycle_max_throttles := YAML_read_key_default yaml_int (lit "cycle-max-throttles") 40 in
  let! stat_trc_interval_s := YAML_read_key_default yaml_int (lit "stat-trc-interval-s") 300 in
  let! send_timeout_seconds := YAML_read_key_default yaml_int (lit "send-timeout-seconds") 0 in
  let! receive_timeout_seconds := YAML_read_key_default yaml_int (lit "receive-timeout-seconds") 0 in
  let! tcp_keep_alive := YAML_read_key_default yaml_bool (lit "tcp-keep-alive") true in
  Ok (mkParams minservers maxservers maxconnections maxqdepth sendbufsz recvbufsz server_idle_ttl_s
        pollbatch listener_sleep_ms throttle_sleep_us cycle_max_throttles stat_trc_interval_s
        send_timeout_seconds receive_timeout_seconds tcp_keep_alive).

(** ** Statistics *)

Record Stats : Type := mkStats {
  connections : Z; requests : Z; throttles : Z; received : Z; sent : Z }.
Definition Stats_new : Stats := mkStats 0 0 0 0 0.

Definition s64 (z : Z) : Z := sext 64 z.
Definition count_connection (s : Stats) : Stats :=
  mkStats (s64 (connections s + 1)) (requests s) (throttles s) (received s) (sent s).
Definition count_request (s : Stats) : Stats :=
  mkStats (connections s) (s64 (requests s + 1)) (throttles s) (received s) (sent s).
Definition count_throttle (s : Stats) : Stats :=
  mkStats (connections s) (requests s) (s64 (throttles s + 1)) (received s) (sent s).
Definition addReceivedSentBytes (r s : Z) (t : Stats) : Stats :=
  mkStats (connections t) (requests t) (throttles t) (s64 (received t + r)) (s64 (sent t + s)).

(** ** Shared state *)

(** The flags of <sys/epoll.h> the listener uses. *)
Definition EPOLLIN : Z := 1.
Definition EPOLLPRI : Z := 2.
Definition EPOLLERR : Z := 8.
Definition EPOLLHUP : Z := 16.
Definition EPOLLRDHUP : Z := 2 ^ 13.
Definition EPOLLWAKEUP : Z := 2 ^ 29.
Definition EPOLLONESHOT : Z := 2 ^ 30.

Definition has_event (events flag : Z) : bool := negb (Z.land events flag =? 0).

Record EpollItem : Type := mkItem { item_events : Z; armed : bool }.

Record BaseSocket : Type := mkBaseSocket { fd_ : Z; blocking : bool }.
Definition isValid (o : BaseSocket) : bool := 0 <=? fd_ o.

(** The null pointer is address 0. *)
Record SocketWork : Type := mkWork { socket : Z; state : SockState; data : bool }.
Definition SocketWork_new : SocketWork := mkWork 0 New false.

Record Shared : Type := mkShared {
  clients_ : gmap Z SocketWork;
  workload_ : list Z;
  work_q_sz_ : Z;
  epoll : gmap Z EpollItem;
  sockets : gmap Z BaseSocket;
}.

Definition set_clients (c : gmap Z SocketWork) (sh : Shared) : Shared :=
  mkShared c (workload_ sh) (work_q_sz_ sh) (epoll sh) (sockets sh).
Definition set_queue (w : list Z) (n : Z) (sh : Shared) : Shared :=
  mkShared (clients_ sh) w n (epoll sh) (sockets sh).
Definition set_epoll (e : gmap Z EpollItem) (sh : Shared) : Shared :=
  mkShared (clients_ sh) (workload_ sh) (work_q_sz_ sh) e (sockets sh).
Definition set_sockets (s : gmap Z BaseSocket) (sh : Shared) : Shared :=
  mkShared (clients_ sh) (workload_ sh) (work_q_sz_ sh) (epoll sh) s.

Definition dangling {A} : X Shared A := xthrow (UndefinedBehaviour (lit "dangling pointer")).

(** [*s] for a BaseSocket pointer. *)
Definition deref_socket (s : Z) : X Shared BaseSocket := fun sh =>
  match sockets sh !! s with Some o => (Ok o, sh) | None => dangling sh end.

(** [*w] for a SocketWork pointer, the node with key [fd]. *)
Definition deref_work (fd : Z) : X Shared SocketWork := fun sh =>
  match clients_ sh !! fd with Some w => (Ok w, sh) | None => dangling sh end.

(** [clients_[fd]]: an absent key is inserted with a default value. *)
Definition client_at (fd : Z) : X Shared SocketWork := fun sh =>
  match clients_ sh !! fd with
  | Some w => (Ok w, sh)
  | None => (Ok SocketWork_new, set_clients (<[fd := SocketWork_new]> (clients_ sh)) sh)
  end.

Definition put_client (fd : Z) (w : SocketWork) : X Shared unit :=
  xmodify (fun sh => set_clients (<[fd := w]> (clients_ sh)) sh).

(** ** epoll *)

Inductive ctl : Type := EPOLL_CTL_ADD | EPOLL_CTL_MOD | EPOLL_CTL_DEL.

(** The errno of [epoll_ctl], [None] when it succeeds; [refused] is the errno of an ADD
    the kernel has no resources for. *)
Definition epoll_ctl (op : ctl) (fd events : Z) (refused : option Z) : X Shared (option Z) := fun sh =>
  match op, epoll sh !! fd, refused with
  | EPOLL_CTL_ADD, Some _, _ => (Ok (Some (ec_value ecEEXIST)), sh)
  | EPOLL_CTL_ADD, None, Some e => (Ok (Some e), sh)
  | EPOLL_CTL_ADD, None, None => (Ok None, set_epoll (<[fd := mkItem events true]> (epoll sh)) sh)
  | EPOLL_CTL_MOD, Some _, _ => (Ok None, set_epoll (<[fd := mkItem events true]> (epoll sh)) sh)
  | EPOLL_CTL_DEL, Some _, _ => (Ok None, set_epoll (delete fd (epoll sh)) sh)
  | _, None, _ => (Ok (Some (ec_value ecENOENT)), sh)
  end.

Definition poll_result (what : str) (rc : option Z) : X Shared unit :=
  match rc with
  | Some errno => xthrow (SystemException what errno)
  | None => xret tt
  end.

Definition pollAdd (s : Z) (events : Z) (refused : option Z) : X Shared unit :=
  let^ o := deref_socket s in
  let^ rc := epoll_ctl EPOLL_CTL_ADD (fd_ o) events refused in
  poll_result (lit "TCPListener::pollAdd epoll_ctl failed socket ") rc.

Definition pollMod (s : Z) (events : Z) : X Shared unit :=
  let^ o := deref_socket s in
  let^ rc := epoll_ctl EPOLL_CTL_MOD (fd_ o) events None in
  poll_result (lit "TCPListener::pollMod epoll_ctl failed socket ") rc.

Definition pollDel (s : Z) : X Shared unit :=
  let^ o := deref_socket s in
  let^ rc := epoll_ctl EPOLL_CTL_DEL (fd_ o) 0 None in
  poll_result (lit "TCPListener::pollDel epoll_ctl failed socket ") rc.

Definition read_event_mask_ : Z :=
  Z.lor EPOLLIN (Z.lor EPOLLPRI (Z.lor EPOLLONESHOT (Z.lor EPOLLRDHUP (Z.lor EPOLLERR (Z.lor EPOLLHUP EPOLLWAKEUP))))).
Definition hangup_event_mask_ : Z := 0.

(** ** The work queue *)

(** [pushWork( int fd, SockState state )]. *)
Definition pushWork_fd (fd : Z) (st : SockState) : X Shared unit :=
  let^ w := client_at fd in
  let^ _ := put_client fd (mkWork (socket w) (state_or (state w) st) (data w)) in
  let^ _ := xmodify (fun sh => set_queue (workload_ sh ++ [fd]) (u64 (work_q_sz_ sh + 1)) sh) in
  if negb (state_and st New) then pollDel (socket w) else xret tt.

(** [pushWork( const SocketWork &work )]. *)
Definition pushWork (work_socket : Z) (st : SockState) : X Shared unit :=
  let^ o := deref_socket work_socket in
  let^ w := client_at (fd_ o) in
  let^ _ := put_client (fd_ o) (mkWork (socket w) (state_or (state w) st) (data w)) in
  let^ _ := xmodify (fun sh => set_queue (workload_ sh ++ [fd_ o]) (u64 (work_q_sz_ sh + 1)) sh) in
  if negb (state_and st New) then pollDel (socket w) else xret tt.

Definition popWork : X Shared (option Z) := fun sh =>
  match workload_ sh with
  | fd :: rest => (Ok (Some fd), set_queue rest (work_q_sz_ sh) sh)
  | [] => (Ok None, sh)
  end.

(** [BaseSocket::close()]: [failed] is the errno of a failing [::close]. *)
Definition socket_close (s : Z) (failed : option Z) : X Shared unit :=
  let^ o := deref_socket s in
  if fd_ o =? -1 then xret tt
  else
    let^ _ := xmodify (fun sh => set_epoll (delete (fd_ o) (epoll sh))
                (set_sockets (<[s := mkBaseSocket (-1) (blocking o)]> (sockets sh)) sh)) in
    match failed with
    | Some errno => xthrow (SystemException (lit "socket close failed") errno)
    | None => xret tt
    end.

Definition socket_delete (s : Z) : X Shared unit :=
  xmodify (fun sh => set_sockets (delete s (sockets sh)) sh).

Definition closeSocket (s : Z) (failed : option Z) : X Shared unit :=
  let^ o := deref_socket s in
  let^ _ := client_at (fd_ o) in          (* clients_[s->getFD()].data, deleted with the node *)
  let^ _ := xmodify (fun sh => set_clients (delete (fd_ o) (clients_ sh)) sh) in
  let^ _ := socket_close s failed in
  socket_delete s.

(** [releaseWork] decrements the counter before it takes the lock. *)
Definition release_count : X Shared unit :=
  xmodify (fun sh => set_queue (workload_ sh) (u64 (work_q_sz_ sh - 1)) sh).

Definition release_locked (work_socket : Z) (st : SockState) (refused failed : option Z) : X Shared unit :=
  if state_and st Shut then closeSocket work_socket failed
  else
    let^ _ := pollAdd work_socket (Z.lor read_event_mask_ hangup_event_mask_) refused in
    let^ o := deref_socket work_socket in
    let^ w := client_at (fd_ o) in
    put_client (fd_ o) (mkWork (socket w) (state_xor (state w) st) (data w)).

Definition releaseWork (work_socket : Z) (st : SockState) (refused failed : option Z) : X Shared unit :=
  let^ _ := release_count in
  release_locked work_socket st refused failed.

(** ** The pool of servers *)

(** Where the thread of a server is in [TCPServer::run].  A stage holds the work item
    (the key of its node) and the completion state gathered so far; from [S_release] on
    it holds the socket that [releaseWork] was given. *)
Inductive ServerPC : Type :=
| S_wait                                          (** in [waitForActivity] *)
| S_pop                                           (** about to call [popWork] *)
| S_new (fd : Z) (completion : SockState)
| S_read (fd : Z) (completion : SockState)
| S_shut (fd : Z) (completion : SockState)
| S_release (fd s : Z) (completion : SockState)   (** entering [releaseWork] *)
| S_finish (fd s : Z) (completion : SockState)    (** past [work_q_sz_--] *)
| S_stopped.

Record TCPServer : Type := mkServer {
  id : Z;
  request_stop_ : bool;
  has_stopped_ : bool;
  busy_ : bool;
  last_active_ : Z;
  state_ : ServerState;
  pc : ServerPC;
}.

(** A server [addServer] created and [start] started at time [tod]. *)
Definition TCPServer_started (sid tod : Z) : TCPServer := mkServer sid false false false tod ssWait S_wait.

Definition requestStop (sv : TCPServer) : TCPServer :=
  mkServer (id sv) true (has_stopped_ sv) (busy_ sv) (last_active_ sv) (state_ sv) (pc sv).

(** What [cleanStoppedServers] reads and does: the pool with its initial server, the
    seconds every server has been idle, and the server [addServer] would return. *)
Section CleanStoppedServers.
Context (params : Params) (idle : Z -> Q) (spawn : TCPServer).

Record Pool : Type := mkPool { pool_init : Z; pool_servers : list TCPServer }.

(** The loop.  [seen] is before the iterator, [todo] from it on; [num_stopped] is a
    size_t.  Replacing the initial server erases it and appends the new one; the
    iterator, already past the erased element, is then advanced once more. *)
Fixpoint clean_loop (fuel : nat) (init : Z) (num_stopped : Z) (seen todo : list TCPServer) : outcome Pool :=
  match fuel, todo with
  | _, [] => Ok (mkPool init seen)
  | O, _ => OutOfFuel
  | S f, sv :: rest =>
      if negb (id sv =? init) then
        if has_stopped_ sv then clean_loop f init num_stopped seen rest
        else if (num_stopped =? 0) && (minservers params <? zlen (seen ++ todo)) &&
                negb (Qle_bool (idle (id sv)) (server_idle_ttl_s params)) && negb (busy_ sv)
        then clean_loop f init (u64 (num_stopped - 1)) (seen ++ [requestStop sv]) rest
        else clean_loop f init num_stopped (seen ++ [sv]) rest
      else if has_stopped_ sv then
        match rest with
        | [] => Throw (UndefinedBehaviour (lit "iterator advanced past the end"))
        | next :: rest' => clean_loop f (id spawn) num_stopped (seen ++ [next]) (rest' ++ [spawn])
        end
      else clean_loop f init num_stopped (seen ++ [sv]) rest
  end.

Definition cleanStoppedServers (pool : Pool) : outcome Pool :=
  clean_loop (length (pool_servers pool)) (pool_init pool) 0 [] (pool_servers pool).
End CleanStoppedServers.

(** The condition under which [addServers] adds one server. *)
Definition wants_server (params : Params) (work servers : Z) : bool :=
  (servers <? work) && (servers <? maxservers params).

(** [throttle]: its loop, over the values [work_q_sz_] has when the condition is
    evaluated; the result is the number of sleeps.  [c] is an unsigned int. *)
Fixpoint throttle_loop (params : Params) (last_pending c : Z) (observed : list Z) : Z :=
  match observed with
  | [] => 0
  | work :: later =>
      if (last_pending <=? work) && (c <? cycle_max_throttles params)
      then 1 + throttle_loop params last_pending (wrap 32 (c + 1)) later
      else 0
  end.

Definition throttle (params : Params) (work : Z) (observed : list Z) : Z :=
  if maxqdepth params <? work then throttle_loop params work 0 observed else 0.

(** ** Invariant of the shared state

    [lfd] is the listening descriptor, [others] the connections some thread has in its
    hands.  A connection that is queued or in someone's hands is in exactly one such
    place, is a client, and is not registered with epoll; a registered descriptor is the
    listening socket or a client; a client node points to a live socket with its own
    descriptor. *)

Definition owned (others : list Z) (sh : Shared) : list Z := workload_ sh ++ others.

Definition client_ok (lfd : Z) (sh : Shared) (fd : Z) (w : SocketWork) : Prop :=
  0 <= fd /\ fd <> lfd /\ data w = true /\ flags (state w) /\
  exists o, sockets sh !! socket w = Some o /\ fd_ o = fd.

Record shared_ok (lfd : Z) (others : list Z) (sh : Shared) : Prop := mkSharedOk {
  owned_once : NoDup (owned others sh);
  owned_client : forall fd, fd ∈ owned others sh -> is_Some (clients_ sh !! fd);
  owned_unpolled : forall fd, fd ∈ owned others sh -> epoll sh !! fd = None;
  polled_client : forall fd, is_Some (epoll sh !! fd) -> fd = lfd \/ is_Some (clients_ sh !! fd);
  clients_ok : forall fd w, clients_ sh !! fd = Some w -> client_ok lfd sh fd w;
}.

(** [sh'] differs from [sh] at connection [fd] only. *)
Record local_to (fd : Z) (sh sh' : Shared) : Prop := mkLocal {
  local_clients : forall k, k <> fd -> clients_ sh' !! k = clients_ sh !! k;
  local_epoll : forall k, k <> fd -> epoll sh' !! k = epoll sh !! k;
  local_sockets : forall s o, sockets sh !! s = Some o -> fd_ o <> fd -> sockets sh' !! s = Some o;
}.

Lemma flags_or a b : flags a -> flags b -> flags (state_or a b).
Proof.
  intros Ha Hb. apply flags_in in Ha, Hb. revert a Ha. apply List.Forall_forall.
  revert b Hb. apply List.Forall_forall. unfold flags. repeat constructor; vm_compute; done.
Qed.

Lemma flags_xor a b : flags a -> flags b -> flags (state_xor a b).
Proof.
  intros Ha Hb. apply flags_in in Ha, Hb. revert a Ha. apply List.Forall_forall.
  revert b Hb. apply List.Forall_forall. unfold flags. repeat constructor; vm_compute; done.
Qed.

Section SharedLemmas.
Context (lfd : Z).

Lemma shared_ok_perm others others' sh :
  others ≡ₚ others' -> shared_ok lfd others sh -> shared_ok lfd others' sh.
Proof.
  intros P [H1 H2 H3 H4 H5]. unfold owned in *. constructor; unfold owned; try done.
  - by rewrite <- P.
  - intros fd. rewrite <- P. apply H2.
  - intros fd. rewrite <- P. apply H3.
Qed.

(** Letting go of a connection. *)
Lemma shared_ok_drop fd others sh : shared_ok lfd (fd :: others) sh -> shared_ok lfd others sh.
Proof.
  intros [H1 H2 H3 H4 H5]. unfold owned in *. rewrite <- Permutation_middle in H1.
  apply NoDup_cons in H1 as [_ H1].
  constructor; unfold owned; try done; intros k Hin; [apply H2 | apply H3];
    apply elem_of_app; apply elem_of_app in Hin as [|]; [by left | right; by right | by left | right; by right].
Qed.

Lemma client_socket sh fd w others :
  shared_ok lfd others sh -> clients_ sh !! fd = Some w ->
  exists o, sockets sh !! socket w = Some o /\ fd_ o = fd.
Proof. intros Hok Hw. apply (clients_ok _ _ _ Hok) in Hw. by destruct Hw as (_ & _ & _ & _ & Ho). Qed.

(** Two clients never share a socket object. *)
Lemma client_socket_inj sh fd1 fd2 w1 w2 others :
  shared_ok lfd others sh -> clients_ sh !! fd1 = Some w1 -> clients_ sh !! fd2 = Some w2 ->
  socket w1 = socket w2 -> fd1 = fd2.
Proof.
  intros Hok H1 H2 E. destruct (client_socket _ _ _ _ Hok H1) as (o1 & S1 & <-).
  destruct (client_socket _ _ _ _ Hok H2) as (o2 & S2 & <-). rewrite E in S1. congruence.
Qed.

(** The connections in someone's hands are at most the clients. *)
Lemma owned_bound others sh : shared_ok lfd others sh -> zlen (owned others sh) <= Z.of_nat (size (clients_ sh)).
Proof.
  intros [H1 H2 _ _ _]. unfold zlen. apply Nat2Z.inj_le.
  rewrite <- (size_list_to_set (C := gset Z) _ H1), <- (size_dom (clients_ sh)).
  apply subseteq_size. intros k Hk. apply elem_of_dom, H2. by apply elem_of_list_to_set in Hk.
Qed.

(** Storing a client node that keeps its socket. *)
Lemma client_ok_insert sh fd w w' k v :
  client_ok lfd sh fd w -> socket w' = socket w -> data w' = data w -> flags (state w') ->
  (forall k v, clients_ sh !! k = Some v -> client_ok lfd sh k v) ->
  (<[fd := w']> (clients_ sh)) !! k = Some v -> client_ok lfd sh k v.
Proof.
  intros (A & B & C & _ & D) Es Ed Hf Hall. destruct (decide (k = fd)) as [ -> |].
  - rewrite lookup_insert_eq. intros [= <-]. unfold client_ok. rewrite Es, Ed. done.
  - rewrite lookup_insert_ne by done. apply Hall.
Qed.

Lemma client_at_ok sh fd w : clients_ sh !! fd = Some w -> client_at fd sh = (Ok w, sh).
Proof. intros E. unfold client_at. by rewrite E. Qed.

Lemma deref_socket_ok sh s o : sockets sh !! s = Some o -> deref_socket s sh = (Ok o, sh).
Proof. intros E. unfold deref_socket. by rewrite E. Qed.

(** Queueing a registered connection: its flags are joined, it leaves epoll and enters
    the queue. *)
Lemma pushWork_fd_ok others sh fd st :
  shared_ok lfd others sh -> is_Some (epoll sh !! fd) -> fd <> lfd -> state_and st New = false -> flags st ->
  exists sh', pushWork_fd fd st sh = (Ok tt, sh') /\ shared_ok lfd others sh' /\ local_to fd sh sh' /\
    workload_ sh' = workload_ sh ++ [fd] /\ work_q_sz_ sh' = u64 (work_q_sz_ sh + 1) /\
    size (clients_ sh') = size (clients_ sh).
Proof.
  intros Hok [item He] Hl Hn Hf. pose proof Hok as [H1 H2 H3 H4 H5].
  destruct (H4 fd ltac:(by eexists)) as [|[w Hw]]; [done|].
  destruct (client_socket _ _ _ _ Hok Hw) as (o & Ho & Efd).
  assert (fd ∉ owned others sh) as Hfresh by (intros Hin; specialize (H3 fd Hin); congruence).
  set (w' := mkWork (socket w) (state_or (state w) st) (data w)).
  set (sh' := mkShared (<[fd := w']> (clients_ sh)) (workload_ sh ++ [fd]) (u64 (work_q_sz_ sh + 1))
                (delete fd (epoll sh)) (sockets sh)).
  exists sh'. split_and!; try done.
  - unfold pushWork_fd. erewrite xbind_ok by (by apply client_at_ok). fold w'.
    erewrite xbind_ok by reflexivity. erewrite xbind_ok by reflexivity. rewrite Hn. cbn [negb].
    unfold pollDel. erewrite xbind_ok by (apply deref_socket_ok; exact Ho).
    unfold xbind, epoll_ctl. cbn [epoll set_queue set_clients]. by rewrite Efd, He.
  - assert (owned others sh' ≡ₚ fd :: owned others sh) as P.
    { unfold owned, sh'. cbn [workload_]. rewrite <- app_assoc. cbn. by rewrite <- Permutation_middle. }
    pose proof (H5 fd w Hw) as Hwok. assert (flags (state w')) as Hw'.
    { apply flags_or; [by destruct Hwok as (_ & _ & _ & ? & _) | done]. }
    constructor.
    + rewrite P. by apply NoDup_cons.
    + intros k. rewrite P, elem_of_cons. unfold sh'. cbn [clients_]. rewrite lookup_insert_is_Some'.
      intros [ -> | ?]; [by left | right; by apply H2].
    + intros k. rewrite P, elem_of_cons. unfold sh'. cbn [epoll]. rewrite lookup_delete_None. intros [ -> | ?]; auto.
    + intros k. unfold sh'. cbn [epoll clients_]. rewrite lookup_insert_is_Some'. intros Hk.
      destruct (H4 k); [| by left | by right; right]. revert Hk. rewrite lookup_delete_is_Some. tauto.
    + intros k v. unfold sh'. cbn [clients_]. intros Hk.
      exact (client_ok_insert sh fd w w' k v Hwok eq_refl eq_refl Hw' H5 Hk).
  - constructor; unfold sh'; cbn [clients_ epoll sockets]; intros.
    + by rewrite lookup_insert_ne.
    + by rewrite lookup_delete_ne.
    + done.
  - unfold sh'. cbn [clients_]. apply map_size_insert_Some. by eexists.
Qed.

(** Queueing a client for the first time, from the hands of the listener. *)
Lemma pushWork_new_ok others sh fd w :
  shared_ok lfd (fd :: others) sh -> clients_ sh !! fd = Some w ->
  exists sh', pushWork (socket w) New sh = (Ok tt, sh') /\ shared_ok lfd others sh' /\ local_to fd sh sh' /\
    workload_ sh' = workload_ sh ++ [fd] /\ work_q_sz_ sh' = u64 (work_q_sz_ sh + 1) /\
    size (clients_ sh') = size (clients_ sh).
Proof.
  intros Hok Hw. pose proof Hok as [H1 H2 H3 H4 H5].
  destruct (client_socket _ _ _ _ Hok Hw) as (o & Ho & Efd).
  set (w' := mkWork (socket w) (state_or (state w) New) (data w)).
  set (sh' := mkShared (<[fd := w']> (clients_ sh)) (workload_ sh ++ [fd]) (u64 (work_q_sz_ sh + 1))
                (epoll sh) (sockets sh)).
  exists sh'. split_and!; try done.
  - unfold pushWork. erewrite xbind_ok by (apply deref_socket_ok; exact Ho). rewrite Efd.
    erewrite xbind_ok by (by apply client_at_ok). done.
  - assert (owned others sh' ≡ₚ owned (fd :: others) sh) as P.
    { unfold owned, sh'. cbn [workload_]. rewrite <- app_assoc. done. }
    pose proof (H5 fd w Hw) as Hwok. assert (flags (state w')) as Hw'.
    { apply flags_or; [by destruct Hwok as (_ & _ & _ & ? & _) | done]. }
    constructor.
    + by rewrite P.
    + intros k. rewrite P. unfold sh'. cbn [clients_]. rewrite lookup_insert_is_Some'. right. by apply H2.
    + intros k. rewrite P. apply H3.
    + intros k Hk. unfold sh'. cbn [clients_]. rewrite lookup_insert_is_Some'. destruct (H4 k Hk); auto.
    + intros k v. unfold sh'. cbn [clients_]. intros Hk.
      exact (client_ok_insert sh fd w w' k v Hwok eq_refl eq_refl Hw' H5 Hk).
  - constructor; unfold sh'; cbn [clients_ epoll sockets]; intros; [by rewrite lookup_insert_ne | done | done].
  - unfold sh'. cbn [clients_]. apply map_size_insert_Some. by eexists.
Qed.

(** Popping moves the head of the queue into the hands of the caller. *)
Lemma popWork_ok others sh fd rest :
  shared_ok lfd others sh -> workload_ sh = fd :: rest ->
  exists sh', popWork sh = (Ok (Some fd), sh') /\ shared_ok lfd (fd :: others) sh' /\ local_to fd sh sh' /\
    workload_ sh' = rest /\ work_q_sz_ sh' = work_q_sz_ sh /\ clients_ sh' = clients_ sh.
Proof.
  intros [H1 H2 H3 H4 H5] Hw. unfold popWork. rewrite Hw. eexists. split; [done|].
  assert (owned (fd :: others) (set_queue rest (work_q_sz_ sh) sh) ≡ₚ owned others sh) as P.
  { unfold owned, set_queue. cbn [workload_]. rewrite Hw. cbn. by rewrite <- Permutation_middle. }
  split_and!; try done. constructor; try done.
  - by rewrite P.
  - intros k. rewrite P. apply H2.
  - intros k. rewrite P. apply H3.
Qed.

Lemma owned_drop fd others sh : shared_ok lfd (fd :: others) sh -> fd ∉ owned others sh.
Proof.
  intros [H1 _ _ _ _]. unfold owned in *. rewrite <- Permutation_middle in H1. by apply NoDup_cons in H1 as [? _].
Qed.

(** Closing a client nobody holds: its node is erased, its descriptor leaves epoll, and
    its socket object is deleted unless [::close] failed. *)
Lemma closeSocket_ok others sh fd w failed :
  shared_ok lfd others sh -> fd ∉ owned others sh -> clients_ sh !! fd = Some w ->
  exists sh', closeSocket (socket w) failed sh =
      (match failed with Some e => Throw (SystemException (lit "socket close failed") e) | None => Ok tt end, sh') /\
    shared_ok lfd others sh' /\ local_to fd sh sh' /\ workload_ sh' = workload_ sh /\
    work_q_sz_ sh' = work_q_sz_ sh /\ clients_ sh' = delete fd (clients_ sh).
Proof.
  intros Hok Hfresh Hw. pose proof Hok as [H1 H2 H3 H4 H5].
  destruct (H5 fd w Hw) as (Hpos & Hl & _ & _ & o & Ho & Efd).
  set (socks := if failed is Some _ then <[socket w := mkBaseSocket (-1) (blocking o)]> (sockets sh)
                else delete (socket w) (<[socket w := mkBaseSocket (-1) (blocking o)]> (sockets sh))).
  set (sh' := mkShared (delete fd (clients_ sh)) (workload_ sh) (work_q_sz_ sh) (delete fd (epoll sh)) socks).
  assert (forall s o', sockets sh !! s = Some o' -> fd_ o' <> fd -> socks !! s = Some o') as Hs.
  { intros s o' E1 E2. assert (s <> socket w) by (intros ->; congruence).
    unfold socks. destruct failed; rewrite ?lookup_delete_ne, lookup_insert_ne by done; done. }
  exists sh'. split_and!; try done.
  - unfold closeSocket. erewrite xbind_ok by (apply deref_socket_ok; exact Ho). rewrite Efd.
    erewrite xbind_ok by (by apply client_at_ok). erewrite xbind_ok by reflexivity.
    assert (socket_close (socket w) failed (set_clients (delete fd (clients_ sh)) sh) =
      (match failed with Some e => Throw (SystemException (lit "socket close failed") e) | None => Ok tt end,
       mkShared (delete fd (clients_ sh)) (workload_ sh) (work_q_sz_ sh) (delete fd (epoll sh))
         (<[socket w := mkBaseSocket (-1) (blocking o)]> (sockets sh)))) as E.
    { unfold socket_close. erewrite xbind_ok by (apply deref_socket_ok; exact Ho). rewrite Efd.
      destruct (Z.eqb_spec fd (-1)); [lia|]. by destruct failed. }
    unfold xbind. rewrite E. by destruct failed.
  - constructor; unfold sh'; cbn [clients_ epoll]; try done.
    + intros k Hk. rewrite lookup_delete_is_Some. split; [intros -> ; by apply Hfresh | by apply H2].
    + intros k Hk. rewrite lookup_delete_None. right. by apply H3.
    + intros k. rewrite !lookup_delete_is_Some. intros [Hne Hk]. destruct (H4 k Hk); auto.
    + intros k v Hk. apply lookup_delete_Some in Hk as [Hne Hk].
      destruct (H5 k v Hk) as (A & B & C & D & o' & Ho' & E'). unfold client_ok. split_and!; try done.
      exists o'. split; [|done]. apply Hs; [done|congruence].
  - constructor; unfold sh'; cbn [clients_ epoll sockets]; intros.
    + by rewrite lookup_delete_ne.
    + by rewrite lookup_delete_ne.
    + by apply Hs.
Qed.

(** Returning a connection to epoll: the handled flags are cleared. *)
Lemma release_add_ok others sh fd w c :
  shared_ok lfd (fd :: others) sh -> clients_ sh !! fd = Some w -> flags c -> state_and c Shut = false ->
  forall failed, exists sh', release_locked (socket w) c None failed sh = (Ok tt, sh') /\
    shared_ok lfd others sh' /\ local_to fd sh sh' /\ workload_ sh' = workload_ sh /\
    work_q_sz_ sh' = work_q_sz_ sh /\ size (clients_ sh') = size (clients_ sh) /\
    is_Some (epoll sh' !! fd) /\
    clients_ sh' !! fd = Some (mkWork (socket w) (state_xor (state w) c) (data w)).
Proof.
  intros Hok Hw Hf Hc failed. pose proof (owned_drop _ _ _ Hok) as Hfresh.
  pose proof (owned_unpolled _ _ _ Hok fd ltac:(unfold owned; apply elem_of_app; right; by left)) as He.
  apply shared_ok_drop in Hok as Hok'. destruct Hok' as [H1 H2 H3 H4 H5].
  destruct (client_socket _ _ _ _ Hok Hw) as (o & Ho & Efd).
  set (w' := mkWork (socket w) (state_xor (state w) c) (data w)).
  set (item := mkItem (Z.lor read_event_mask_ hangup_event_mask_) true).
  exists (mkShared (<[fd := w']> (clients_ sh)) (workload_ sh) (work_q_sz_ sh) (<[fd := item]> (epoll sh)) (sockets sh)).
  pose proof (H5 fd w Hw) as Hwok. assert (flags (state w')) as Hw'.
  { apply flags_xor; [by destruct Hwok as (_ & _ & _ & ? & _) | done]. }
  split_and!; try done.
  - unfold release_locked, pollAdd. rewrite Hc. unfold xbind at 1.
    erewrite xbind_ok by (apply deref_socket_ok; exact Ho). unfold epoll_ctl, xbind at 1. rewrite Efd, He.
    cbn [poll_result]. unfold xret. erewrite xbind_ok by (apply deref_socket_ok; exact Ho). rewrite Efd.
    by erewrite xbind_ok by (by apply client_at_ok).
  - constructor; cbn [clients_ epoll]; try done.
    + intros k Hk. rewrite lookup_insert_is_Some'. right. by apply H2.
    + intros k Hk. rewrite lookup_insert_ne; [by apply H3|]. intros ->. by apply Hfresh.
    + intros k. rewrite !lookup_insert_is_Some'. intros [ -> |Hk]; [by right; left|]. destruct (H4 k Hk); auto.
    + intros k v Hk. exact (client_ok_insert sh fd w w' k v Hwok eq_refl eq_refl Hw' H5 Hk).
  - constructor; cbn [clients_ epoll sockets]; intros; [by rewrite lookup_insert_ne..| done].
  - cbn [clients_]. apply map_size_insert_Some. by eexists.
  - cbn [epoll]. rewrite lookup_insert_eq. by eexists.
  - cbn [clients_]. by rewrite lookup_insert_eq.
Qed.

(** epoll refuses the registration: [releaseWork] throws and leaves everything as it was. *)
Lemma release_refused others sh fd w c e failed :
  shared_ok lfd (fd :: others) sh -> clients_ sh !! fd = Some w -> state_and c Shut = false ->
  release_locked (socket w) c (Some e) failed sh =
    (Throw (SystemException (lit "TCPListener::pollAdd epoll_ctl failed socket ") e), sh).
Proof.
  intros Hok Hw Hc.
  pose proof (owned_unpolled _ _ _ Hok fd ltac:(unfold owned; apply elem_of_app; right; by left)) as He.
  destruct (client_socket _ _ _ _ Hok Hw) as (o & Ho & Efd).
  unfold release_locked, pollAdd. rewrite Hc. unfold xbind at 1.
  erewrite xbind_ok by (apply deref_socket_ok; exact Ho). unfold epoll_ctl, xbind at 1. by rewrite Efd, He.
Qed.

(** The three ways a release ends, from the hands of a server. *)
Lemma release_locked_ok others sh fd w c refused failed :
  shared_ok lfd (fd :: others) sh -> clients_ sh !! fd = Some w -> flags c ->
  exists r sh', release_locked (socket w) c refused failed sh = (r, sh') /\
    (r = Ok tt \/ exists what e, r = Throw (SystemException what e)) /\
    shared_ok lfd others sh' /\ local_to fd sh sh' /\ workload_ sh' = workload_ sh /\
    work_q_sz_ sh' = work_q_sz_ sh /\ (size (clients_ sh') <= size (clients_ sh))%nat /\
    (refused = None -> clients_ sh' !! fd = None \/ is_Some (epoll sh' !! fd)).
Proof.
  intros Hok Hw Hf. destruct (state_and c Shut) eqn:Hc.
  - destruct (closeSocket_ok others sh fd w failed) as (sh' & E & Hok' & Hloc & E1 & E2 & E3);
      [by apply shared_ok_drop in Hok | by apply owned_drop | done |].
    exists (match failed with Some e => Throw (SystemException (lit "socket close failed") e) | None => Ok tt end), sh'.
    unfold release_locked. rewrite Hc. split_and!; try done.
    + destruct failed; eauto.
    + rewrite E3, map_size_delete, Hw. lia.
    + intros _. left. rewrite E3. apply lookup_delete_eq.
  - destruct refused as [e|].
    + eexists _, sh. split; [by eapply release_refused|]. split_and!; try done; eauto.
      by apply shared_ok_drop in Hok.
    + destruct (release_add_ok others sh fd w c Hok Hw Hf Hc failed) as (sh' & E & Hok' & Hloc & E1 & E2 & E3 & E4 & _).
      exists (Ok tt), sh'. split_and!; try done; [by left | lia | by right].
Qed.
End SharedLemmas.

(** ** The pool *)

Section PoolLemmas.
Context (params : Params) (idle : Z -> Q) (spawn : TCPServer).

(** The loop ends within one round per server. *)
Lemma clean_loop_total fuel : forall init n seen todo,
  (length todo <= fuel)%nat -> clean_loop params idle spawn fuel init n seen todo <> OutOfFuel.
Proof.
  induction fuel as [|f IH]; intros init n seen todo Hf; (destruct todo as [|sv rest]; [done|]); simpl in *; [lia|].
  repeat case_bool; try (apply IH; lia).
  destruct rest as [|next rest']; [done|]. apply IH. rewrite length_app. simpl in *. lia.
Qed.

(** What a pass preserves: any property of the servers that the new server has and a
    stop request keeps, the servers' holdings [f], the bound on their number, and the
    membership of the initial server. *)
Lemma clean_loop_keeps (P : TCPServer -> Prop) {A} (f : TCPServer -> list A) fuel : forall init n seen todo pool,
  (has_stopped_ spawn = false) ->
  (forall sv, P sv -> P (requestStop sv)) -> P spawn ->
  (forall sv, f (requestStop sv) = f sv) -> f spawn = [] ->
  (forall sv, P sv -> has_stopped_ sv = true -> f sv = []) ->
  Forall P (seen ++ todo) -> (exists sv, sv ∈ seen ++ todo /\ id sv = init) ->
  clean_loop params idle spawn fuel init n seen todo = Ok pool ->
  Forall P (pool_servers pool) /\ flat_map f (pool_servers pool) = flat_map f (seen ++ todo) /\
  (length (pool_servers pool) <= length (seen ++ todo))%nat /\
  (exists sv, sv ∈ pool_servers pool /\ id sv = pool_init pool).
Proof.
  induction fuel as [|fu IH]; intros init n seen todo pool Hsp HR HS HfR HfS HfP HP Hin;
    destruct todo as [|sv rest]; simpl clean_loop; try done.
  1,2: intros [= <-]; rewrite app_nil_r in *; cbn [pool_servers pool_init]; done.
  assert (P sv) as Hsv by (rewrite Forall_app in HP; destruct HP as [_ HP]; by inversion HP).
  destruct (Z.eqb_spec (id sv) init) as [Ei|Ei]; cbn [negb].
  - destruct (has_stopped_ sv) eqn:Hst.
    + destruct rest as [|next rest']; [done|]. intros E. eapply IH in E; try done.
      * destruct E as (E1 & E2 & E3 & E4). split_and!; try done.
        -- rewrite E2, !flat_map_app. cbn [flat_map]. rewrite HfS, (HfP sv Hsv Hst). cbn [app].
           by rewrite !app_nil_r, <- !app_assoc.
        -- etransitivity; [exact E3|]. rewrite !length_app. simpl. lia.
      * rewrite !Forall_app in *. destruct HP as [? HP]. inversion HP as [|? ? ? HP']. inversion HP'. auto.
      * exists spawn. split; [|done]. rewrite !elem_of_app. right. right. by left.
    + intros E. eapply IH in E; try done; rewrite <- app_assoc in *; done.
  - destruct (has_stopped_ sv) eqn:Hst.
    + intros E. eapply IH in E; try done.
      * destruct E as (E1 & E2 & E3 & E4). split_and!; try done.
        -- rewrite E2, !flat_map_app. cbn [flat_map]. by rewrite (HfP sv Hsv Hst).
        -- etransitivity; [exact E3|]. rewrite !length_app. simpl. lia.
      * rewrite !Forall_app in *. destruct HP as [? HP]. by inversion HP.
      * destruct Hin as (sv' & Hin & Eid). exists sv'. split; [|done]. rewrite !elem_of_app, elem_of_cons in *.
        destruct Hin as [?|[ -> |?]]; auto. done.
    + case_bool; intros E; eapply IH in E; try done; rewrite <- app_assoc in *; cbn [app] in *; try done.
      * destruct E as (E1 & E2 & E3 & E4). split_and!; try done.
        -- rewrite E2, !flat_map_app. cbn [flat_map]. by rewrite HfR.
        -- etransitivity; [exact E3|]. rewrite !length_app. simpl. lia.
      * rewrite !Forall_app in *. destruct HP as [? HP]. inversion HP. auto.
      * destruct Hin as (sv' & Hin & Eid). rewrite elem_of_app, elem_of_cons in Hin.
        destruct Hin as [?|[ -> |?]]; [exists sv' | done | exists sv']; rewrite elem_of_app, elem_of_cons; auto.
Qed.

(** Without the exception of the last initial server, every outcome is a pool. *)
Lemma clean_loop_outcome fuel : forall init n seen todo,
  (length todo <= fuel)%nat ->
  (exists pool, clean_loop params idle spawn fuel init n seen todo = Ok pool) \/
  (exists what, clean_loop params idle spawn fuel init n seen todo = Throw (UndefinedBehaviour what)).
Proof.
  induction fuel as [|f IH]; intros init n seen todo Hf; (destruct todo as [|sv rest]; [left; by eexists|]); simpl in *; [lia|].
  repeat case_bool; try (apply IH; lia).
  destruct rest as [|next rest']; [right; by eexists|]. apply IH. rewrite length_app. simpl in *. lia.
Qed.

Lemma cleanStoppedServers_keeps (P : TCPServer -> Prop) {A} (f : TCPServer -> list A) pool pool' :
  has_stopped_ spawn = false -> (forall sv, P sv -> P (requestStop sv)) -> P spawn ->
  (forall sv, f (requestStop sv) = f sv) -> f spawn = [] ->
  (forall sv, P sv -> has_stopped_ sv = true -> f sv = []) ->
  Forall P (pool_servers pool) -> (exists sv, sv ∈ pool_servers pool /\ id sv = pool_init pool) ->
  cleanStoppedServers params idle spawn pool = Ok pool' ->
  Forall P (pool_servers pool') /\ flat_map f (pool_servers pool') = flat_map f (pool_servers pool) /\
  (length (pool_servers pool') <= length (pool_servers pool))%nat /\
  (exists sv, sv ∈ pool_servers pool' /\ id sv = pool_init pool').
Proof.
  intros H1 H2 H3 H4 H5 H6 H7 H8 E.
  by eapply (clean_loop_keeps P f _ _ _ [] (pool_servers pool)).
Qed.
End PoolLemmas.
