(* ===== verification/TCPSystem.v ===== *)
(** * TCPSystem: the listener thread interleaved with its servers

    [TCPListener::run] (src/src/lib/network/tcplistener.cpp) and [TCPServer::run]
    (src/src/lib/network/tcpserver.cpp) as threads over the shared state of the file
    TCPListener.  A step is one critical section, one atomic update or one stage of a
    work item; [step] interleaves the steps of the listener, of every server, of the
    timer and of the thread that calls [stop].

    The program point of the listener is a [ListenerPC], that of a server its [pc]. A
    labelled step takes from its label what the environment decides: the answers of the
    kernel, of the allocator (fresh addresses), of the clock and of the protocol. An
    access to a dead object ends the execution in a state marked [fault]. *)

From Stdlib Require Import QArith.
From S2P Require Import Prelude.
From S2P Require Import SystemError.
From S2P Require Import TCPServer.
From S2P Require Import TCPListener.

Local Open Scope Z_scope.

(** ** State *)

(** The calls [run] makes on an accepted socket after it has queued it. *)
Inductive SockCall : Type :=
| setBlocking (b : bool) | setTCPNoDelay (b : bool) | setSendTimeout (n : Z)
| setReceiveTimeout (n : Z) | setTCPKeepAlive (b : bool).

(** The events of one [epoll_wait] still to be handled: descriptor and event mask. *)
Abbreviation batch := (list (Z * Z)).

Inductive ListenerPC : Type :=
| L_start                                   (** starting the first servers *)
| L_loop                                    (** top of the loop: [logStats] *)
| L_addServers
| L_throttle                                (** the test of [throttle] *)
| L_throttling (last_pending c : Z)
| L_wait                                    (** [epoll_wait] *)
| L_events (evs : batch)
| L_accept (evs : batch)                    (** the accept loop *)
| L_accepted (s : Z) (evs : batch)
| L_push (fd s : Z) (evs : batch)              (** in [clients_], not yet queued *)
| L_config (s : Z) (calls : list SockCall) (evs : batch)
| L_again (s : Z) (evs : batch)             (** [while ( client_sock->isValid() )] *)
| L_clean
| L_drain                                   (** stopping: waiting for pending work *)
| L_join                                    (** servers asked to stop *)
| L_close (todo : list Z)                   (** closing the client sockets *)
| L_done.

Record Listener : Type := mkListener {
  params_ : Params;
  listen_fd : Z;
  init_server_ : Z;
  stop_server_ : bool;
  last_stats_ : Stats;
  prev_stats_ : Stats;
  event_maxconnections_reached_ : Z;
  now_ : Z;
  stat_time_ : Z;
  prev_stat_time_ : Z;
  warn_queue_time_ : Z;
  server_stopped_check_time_ : Z;
}.

Record System : Type := mkSystem {
  shared : Shared;
  listener : Listener;
  servers_ : list TCPServer;
  lpc : ListenerPC;
  fault : bool;
}.

Definition set_shared (sh : Shared) (y : System) : System :=
  mkSystem sh (listener y) (servers_ y) (lpc y) (fault y).
Definition set_listener (l : Listener) (y : System) : System :=
  mkSystem (shared y) l (servers_ y) (lpc y) (fault y).
Definition set_servers (s : list TCPServer) (y : System) : System :=
  mkSystem (shared y) (listener y) s (lpc y) (fault y).
Definition goto (p : ListenerPC) (y : System) : System :=
  mkSystem (shared y) (listener y) (servers_ y) p (fault y).
Definition crash (y : System) : System :=
  mkSystem (shared y) (listener y) (servers_ y) (lpc y) true.

Definition set_last_stats (f : Stats -> Stats) (l : Listener) : Listener :=
  mkListener (params_ l) (listen_fd l) (init_server_ l) (stop_server_ l) (f (last_stats_ l)) (prev_stats_ l)
    (event_maxconnections_reached_ l) (now_ l) (stat_time_ l) (prev_stat_time_ l) (warn_queue_time_ l)
    (server_stopped_check_time_ l).
Definition stats (f : Stats -> Stats) (y : System) : System := set_listener (set_last_stats f (listener y)) y.

(** [TCPListener( address, params )] followed by [start( server )], up to the first
    statements of [run]: the listening socket is registered, the initial server runs. *)
Definition System_init (params : Params) (lfd server tod : Z) : System :=
  mkSystem
    (mkShared ∅ [] 0 {[ lfd := mkItem (Z.lor EPOLLIN EPOLLPRI) true ]} ∅)
    (mkListener params lfd server false Stats_new Stats_new 0 tod tod (tod - 1) tod tod)
    [TCPServer_started server tod] L_start false.

(** ** Steps of the listener *)

(** What the environment decides in a step of the listener. *)
Inductive LLabel : Type :=
| Run (tod : Z)                              (** [gettimeofday] *)
| Spawn (sid tod : Z)                        (** the object [addServer] returns *)
| Polled (tod : Z) (rc : batch + Z)          (** [epoll_wait]: events or errno *)
| AcceptOk (fd s : Z)                        (** a connection; the new BaseSocket *)
| AcceptAgain (s : Z)                        (** EAGAIN *)
| AcceptErr (errno s : Z)
| Closing (failed : option Z)                (** the result of [::close] *)
| Clean (tod : Z) (idle : Z -> Q) (sid : Z).

(** Run a critical section: its exceptions go to the handler, accesses to dead objects
    end the execution. *)
Definition critical {A} (m : X Shared A) (y : System) (k : A -> System -> System) (h : System -> System) : System :=
  match m (shared y) with
  | (Ok a, sh) => k a (set_shared sh y)
  | (Throw (UndefinedBehaviour _), sh) => crash (set_shared sh y)
  | (Throw _, sh) => h (set_shared sh y)
  | (OutOfFuel, sh) => crash (set_shared sh y)
  end.

(** An exception in the loop of [run] is caught and the listener stops. *)
Definition stop_run : System -> System := goto L_drain.

Definition fd_in_use (fd : Z) (sh : Shared) : bool :=
  existsb (fun p => fd_ (snd p) =? fd) (map_to_list (sockets sh)).

(** [accept] returns a descriptor that is not in use, [new] an address that is not. *)
Definition fresh_fd (fd : Z) (y : System) : bool :=
  (0 <=? fd) && negb (fd =? listen_fd (listener y)) && negb (fd_in_use fd (shared y)).
Definition fresh_address (s : Z) (y : System) : bool :=
  negb (s =? 0) && bool_decide (sockets (shared y) !! s = None).
Definition fresh_server (sid : Z) (y : System) : bool := negb (existsb (fun sv => id sv =? sid) (servers_ y)).

Definition new_socket (s fd : Z) : Shared -> Shared := fun sh =>
  set_sockets (<[s := mkBaseSocket fd true]> (sockets sh)) sh.

(** [epoll_wait] reports armed descriptors, each at most once, with the events they were
    registered for or an error; it disarms one-shot registrations. *)
Definition event_ok (sh : Shared) (ev : Z * Z) : bool :=
  match epoll sh !! fst ev with
  | Some item => armed item && negb (snd ev =? 0) &&
                 (Z.land (snd ev) (Z.lor (item_events item) (Z.lor EPOLLERR EPOLLHUP)) =? snd ev)
  | None => false
  end.

Fixpoint distinct (l : list Z) : bool :=
  match l with
  | [] => true
  | x :: r => negb (existsb (Z.eqb x) r) && distinct r
  end.

Definition events_ok (params : Params) (evs : batch) (sh : Shared) : bool :=
  (zlen evs <=? pollbatch params) && distinct (map fst evs) && forallb (event_ok sh) evs.

Definition disarm (ev : Z * Z) (sh : Shared) : Shared :=
  set_epoll (alter (fun item => if has_event (item_events item) EPOLLONESHOT
                                then mkItem (item_events item) false else item) (fst ev) (epoll sh)) sh.

(** The state the events of a client socket amount to. *)
Definition combined_state (events : Z) : SockState :=
  let c := if has_event events EPOLLIN || has_event events EPOLLPRI then state_or None_ Read else None_ in
  if has_event events EPOLLRDHUP || has_event events EPOLLERR || has_event events EPOLLHUP
  then state_or c Shut else c.

Definition config_calls (p : Params) : list SockCall :=
  [setBlocking false; setTCPNoDelay true; setSendTimeout (send_timeout_seconds p);
   setReceiveTimeout (receive_timeout_seconds p); setTCPKeepAlive (tcp_keep_alive p)].

(** A call on the accepted socket. *)
Definition sock_call (s : Z) (call : SockCall) : X Shared unit :=
  let^ o := deref_socket s in
  match call with
  | setBlocking b =>
      if isValid o then xmodify (fun sh => set_sockets (<[s := mkBaseSocket (fd_ o) b]> (sockets sh)) sh)
      else xthrow (DodoException (lit "setBlocking on invalid socket"))
  | _ => xret tt
  end.

(** [logStats]: its effect on the listener. *)
Definition logStats (tod : Z) (l : Listener) : Listener :=
  if stat_trc_interval_s (params_ l) + stat_time_ l <? now_ l then
    mkListener (params_ l) (listen_fd l) (init_server_ l) (stop_server_ l) (last_stats_ l) (last_stats_ l)
      0 (now_ l) tod (stat_time_ l) (warn_queue_time_ l) (server_stopped_check_time_ l)
  else l.

(** The warning on a full pool. *)
Definition warn_queue (tod servers work : Z) (l : Listener) : Listener :=
  if (servers =? maxservers (params_ l)) && (u64 (2 * servers) <? work) && (30 + warn_queue_time_ l <? now_ l) then
    mkListener (params_ l) (listen_fd l) (init_server_ l) (stop_server_ l) (last_stats_ l) (prev_stats_ l)
      (event_maxconnections_reached_ l) (now_ l) (stat_time_ l) (prev_stat_time_ l) tod (server_stopped_check_time_ l)
  else l.

Definition count_refused (l : Listener) : Listener :=
  mkListener (params_ l) (listen_fd l) (init_server_ l) (stop_server_ l) (last_stats_ l) (prev_stats_ l)
    (u64 (event_maxconnections_reached_ l + 1)) (now_ l) (stat_time_ l) (prev_stat_time_ l) (warn_queue_time_ l)
    (server_stopped_check_time_ l).

Definition checked_at (tod init : Z) (l : Listener) : Listener :=
  mkListener (params_ l) (listen_fd l) init (stop_server_ l) (last_stats_ l) (prev_stats_ l)
    (event_maxconnections_reached_ l) (now_ l) (stat_time_ l) (prev_stat_time_ l) (warn_queue_time_ l) tod.

(** The accepted socket [s]: refused when there are too many clients, else entered in
    [clients_].  [clients_.size()] is read just before the critical section; servers only
    erase, so the insertion finds a map no larger. *)
Definition handle_accepted (s : Z) (evs : batch) (failed : option Z) (y : System) : System :=
  if maxconnections (params_ (listener y)) <=? Z.of_nat (size (clients_ (shared y))) then
    critical (let^ _ := socket_close s failed in socket_delete s) y
      (fun _ y => goto (L_again s evs) (set_listener (count_refused (listener y)) y)) stop_run
  else
    critical (let^ o := deref_socket s in
              let^ _ := put_client (fd_ o) (mkWork s New true) in xret (fd_ o)) y
      (fun fd => goto (L_push fd s evs)) stop_run.

(** One event of a batch. *)
Definition handle_event (fd events : Z) (evs : batch) (y : System) : System :=
  if events =? 0 then goto (L_events evs) y
  else if fd =? listen_fd (listener y) then goto (L_accept evs) y
  else if 0 <=? fd then
    let y1 := if has_event events EPOLLIN || has_event events EPOLLPRI then stats count_request y else y in
    if negb (combined_state events =? None_)
    then critical (pushWork_fd fd (combined_state events)) y1 (fun _ => goto (L_events evs)) stop_run
    else goto (L_events evs) y1
  else goto (L_events evs) y.

(** [cleanStoppedServers], every five seconds, and the end of the loop body. *)
Definition clean_step (tod : Z) (idle : Z -> Q) (sid : Z) (y : System) : option System :=
  let next y := goto (if stop_server_ (listener y) then L_drain else L_loop) y in
  if server_stopped_check_time_ (listener y) <? now_ (listener y) - 4 then
    if fresh_server sid y then
      match cleanStoppedServers (params_ (listener y)) idle (TCPServer_started sid tod)
              (mkPool (init_server_ (listener y)) (servers_ y)) with
      | Ok pool => Some (next (set_servers (pool_servers pool)
                                 (set_listener (checked_at tod (pool_init pool) (listener y)) y)))
      | Throw (UndefinedBehaviour _) => Some (crash y)
      | Throw _ => Some (stop_run y)
      | OutOfFuel => None
      end
    else None
  else Some (next y).

(** The step of the listener at its program point; [None] when the label does not fit or
    the thread is blocked there. *)
Definition listener_step (l : LLabel) (y : System) : option System :=
  let p := params_ (listener y) in
  let work := work_q_sz_ (shared y) in
  let pool := zlen (servers_ y) in
  match lpc y, l with
  | L_start, Spawn sid tod =>
      if (pool <? minservers p) && fresh_server sid y
      then Some (set_servers (servers_ y ++ [TCPServer_started sid tod]) y) else None
  | L_start, Run _ => if pool <? minservers p then None else Some (goto L_loop y)
  | L_loop, Run tod => Some (goto L_addServers (set_listener (logStats tod (listener y)) y))
  | L_addServers, Spawn sid tod =>
      if wants_server p work pool && fresh_server sid y
      then Some (set_servers (servers_ y ++ [TCPServer_started sid tod]) y) else None
  | L_addServers, Run _ => if wants_server p work pool then None else Some (goto L_throttle y)
  | L_throttle, Run _ => Some (goto (if maxqdepth p <? work then L_throttling work 0 else L_wait) y)
  | L_throttling last c, Run _ =>
      if (last <=? work) && (c <? cycle_max_throttles p)
      then Some (goto (L_throttling last (wrap 32 (c + 1))) (stats count_throttle y))
      else Some (goto L_wait y)
  | L_wait, Polled tod (inr errno) =>
      let y := set_listener (warn_queue tod pool work (listener y)) y in
      Some (if errno =? ecEINTR then goto L_clean y else stop_run y)
  | L_wait, Polled tod (inl evs) =>
      let y := set_listener (warn_queue tod pool work (listener y)) y in
      if events_ok p evs (shared y)
      then Some (goto (match evs with [] => L_clean | _ => L_events evs end)
                      (set_shared (fold_right disarm (shared y) evs) y)) else None
  | L_events [], Run _ => Some (goto L_clean y)
  | L_events ((fd, events) :: evs), Run _ => Some (handle_event fd events evs y)
  | L_accept evs, AcceptOk fd s =>
      if fresh_fd fd y && fresh_address s y
      then Some (goto (L_accepted s evs) (set_shared (new_socket s fd (shared y)) y)) else None
  | L_accept evs, AcceptAgain s =>
      if fresh_address s y
      then Some (goto (L_events evs) (set_shared (new_socket s (-1) (shared y)) y)) else None
  | L_accept evs, AcceptErr errno s =>
      if negb (errno =? ecEAGAIN) && fresh_address s y
      then Some (stop_run (set_shared (new_socket s (-1) (shared y)) y)) else None
  | L_accepted s evs, Closing failed => Some (handle_accepted s evs failed y)
  | L_push fd s evs, Run _ =>
      Some (critical (pushWork s New) y
              (fun _ y => goto (L_config s (config_calls p) evs) (stats count_connection y)) stop_run)
  | L_config s (call :: calls) evs, Run _ =>
      Some (critical (sock_call s call) y (fun _ => goto (L_config s calls evs)) stop_run)
  | L_config s [] evs, Run _ => Some (goto (L_again s evs) y)
  | L_again s evs, Run _ =>
      Some (critical (deref_socket s) y
              (fun o => goto (if isValid o then L_accept evs else L_events evs)) stop_run)
  | L_clean, Clean tod idle sid => clean_step tod idle sid y
  | L_drain, Run _ =>
      if 0 <? work then None else Some (goto L_join (set_servers (map requestStop (servers_ y)) y))
  | L_join, Run _ =>
      if forallb has_stopped_ (servers_ y)
      then Some (goto (L_close (map (fun p => socket (snd p)) (map_to_list (clients_ (shared y)))))
                      (set_servers [] y)) else None
  | L_close [], Run _ => Some (goto L_done y)
  | L_close (s :: todo), Closing failed =>
      Some (critical (closeSocket s failed) y (fun _ => goto (L_close todo)) (goto L_done))
  | _, _ => None
  end.

(** ** Steps of a server *)

Inductive SLabel : Type :=
| Wake (tod : Z)                              (** [waitForActivity] returns *)
| TimedOut                                    (** it returned false *)
| Pop
| Handshake (r : option (bool * traffic))     (** [handShake]; [None]: it threw *)
| Reading (r : option (SystemError * SystemError * traffic))
| Shutting (r : option unit)
| Release
| Finish (refused failed : option Z).

Definition set_pc (p : ServerPC) (st : ServerState) (sv : TCPServer) : TCPServer :=
  mkServer (id sv) (request_stop_ sv) (has_stopped_ sv) (busy_ sv) (last_active_ sv) st p.

(** The end of the outer loop: wait again or stop. *)
Definition server_idle (sv : TCPServer) : TCPServer :=
  if request_stop_ sv
  then mkServer (id sv) true true false (last_active_ sv) ssWait S_stopped
  else mkServer (id sv) false (has_stopped_ sv) false (last_active_ sv) ssWait S_wait.

Definition server_wake (tod : Z) (sv : TCPServer) : TCPServer :=
  mkServer (id sv) (request_stop_ sv) (has_stopped_ sv) true tod ssAwoken S_pop.

(** An exception that leaves [run]. *)
Definition server_dies (sv : TCPServer) : TCPServer :=
  mkServer (id sv) (request_stop_ sv) true (busy_ sv) (last_active_ sv) (state_ sv) S_stopped.

Definition stage_traffic {A} (r : option (A * traffic)) (s : Stats) : Stats :=
  match r with
  | Some (_, (n, m)) => addReceivedSentBytes n m s
  | None => s
  end.

(** What a stage dereferences: the item, and when its flag is set the socket, which the
    handler is given; [readBuffer] is a method of the item's data. *)
Definition stage_item (fd : Z) (flag : SockState) (uses_data : bool) : X Shared SocketWork :=
  let^ w := deref_work fd in
  if state_and (state w) flag then
    let^ _ := deref_socket (socket w) in
    if uses_data && negb (data w) then dangling else xret w
  else xret w.

(** The stage of a work item guarded by [flag]: it reads the item's state, runs when the
    flag is set, and reports to the statistics. *)
Definition stage_step {A} (fd : Z) (flag : SockState) (uses_data : bool) (r : option (A * traffic))
    (completed skipped : TCPServer -> TCPServer) (sv : TCPServer) (y : System)
    (put : TCPServer -> System -> System) : System :=
  critical (stage_item fd flag uses_data) y
    (fun w y => if state_and (state w) flag then put (completed sv) (stats (stage_traffic r) y)
                else put (skipped sv) y) (put (server_dies sv)).

(** The step of server [sv]; [put] stores the server's new state. *)
Definition server_step (l : SLabel) (sv : TCPServer) (y : System) (put : TCPServer -> System -> System)
    : option System :=
  match pc sv, l with
  | S_wait, Wake tod =>
      if negb (work_q_sz_ (shared y) =? 0) || request_stop_ sv
      then Some (put (server_wake tod sv) y) else None
  | S_wait, TimedOut => if request_stop_ sv then Some (put (server_idle sv) y) else None
  | S_pop, Pop =>
      Some (critical popWork y
              (fun r => put (match r with
                             | Some fd => set_pc (S_new fd None_) (state_ sv) sv
                             | None => server_idle sv
                             end)) (put (server_dies sv)))
  | S_new fd c, Handshake r =>
      Some (stage_step fd New false r
              (set_pc (S_read fd (new_stage (fst <$> r) c))
                 (match r with Some _ => ssHandshakeDone | None => ssHandshake end))
              (set_pc (S_read fd c) (state_ sv)) sv y put)
  | S_read fd c, Reading r =>
      Some (stage_step fd Read true r
              (set_pc (S_shut fd (read_stage (fst <$> r) c)) ssReadSocketDone)
              (set_pc (S_shut fd c) (state_ sv)) sv y put)
  | S_shut fd c, Shutting r =>
      Some (critical (stage_item fd Shut false) y
              (fun w => put (set_pc (S_release fd (socket w)
                                       (if state_and (state w) Shut then shut_stage r c else c))
                               ssReleaseWork sv)) (put (server_dies sv)))
  | S_release fd s c, Release => Some (critical release_count y (fun _ => put (set_pc (S_finish fd s c) ssReleaseWork sv)) (put (server_dies sv)))
  | S_finish fd s c, Finish refused failed =>
      Some (critical (release_locked s c refused failed) y (fun _ => put (set_pc S_pop ssReleaseWorkDone sv))
              (put (server_dies sv)))
  | _, _ => None
  end.

(** ** The system *)

Inductive label : Type :=
| ListenerStep (l : LLabel)
| ServerStep (i : nat) (l : SLabel)          (** the server at position [i] of [servers_] *)
| Tick (tod : Z)                             (** TCPListenerTimer *)
| StopCalled.                                (** [stop()] *)

Definition put_server (i : nat) (sv : TCPServer) (y : System) : System :=
  set_servers (<[i := sv]> (servers_ y)) y.

Definition tick (tod : Z) (l : Listener) : Listener :=
  mkListener (params_ l) (listen_fd l) (init_server_ l) (stop_server_ l) (last_stats_ l) (prev_stats_ l)
    (event_maxconnections_reached_ l) tod (stat_time_ l) (prev_stat_time_ l) (warn_queue_time_ l)
    (server_stopped_check_time_ l).
Definition stop (l : Listener) : Listener :=
  mkListener (params_ l) (listen_fd l) (init_server_ l) true (last_stats_ l) (prev_stats_ l)
    (event_maxconnections_reached_ l) (now_ l) (stat_time_ l) (prev_stat_time_ l) (warn_queue_time_ l)
    (server_stopped_check_time_ l).

Definition exec (l : label) (y : System) : option System :=
  if fault y then None
  else match l with
       | ListenerStep l => listener_step l y
       | ServerStep i l => match servers_ y !! i with
                           | Some sv => server_step l sv y (put_server i)
                           | None => None
                           end
       | Tick tod => Some (set_listener (tick tod (listener y)) y)
       | StopCalled => Some (set_listener (stop (listener y)) y)
       end.

(** One interleaved step, and the states an initial state reaches. *)
Inductive step (y : System) : label -> System -> Prop :=
| step_exec l y' : exec l y = Some y' -> step y l y'.

Inductive reachable (y0 : System) : System -> Prop :=
| reachable_refl : reachable y0 y0
| reachable_step y l y' : reachable y0 y -> step y l y' -> reachable y0 y'.

Fixpoint execs (ls : list label) (y : System) : option System :=
  match ls with
  | [] => Some y
  | l :: r => match exec l y with Some y' => execs r y' | None => None end
  end.

Lemma execs_reachable y0 ls : forall y y', reachable y0 y -> execs ls y = Some y' -> reachable y0 y'.
Proof.
  induction ls as [|l r IH]; intros y y' Hr; simpl; [by intros [= <-]|].
  destruct (exec l y) as [y1|] eqn:E; [|done]. apply IH. eapply reachable_step; [done|]. by constructor.
Qed.

(** ** The invariant of the system *)

(** The connection a server has in its hands, and whether the counter includes it. *)
Definition held (sv : TCPServer) : list Z :=
  match pc sv with
  | S_new fd _ | S_read fd _ | S_shut fd _ | S_release fd _ _ | S_finish fd _ _ => [fd]
  | _ => []
  end.
Definition counted (sv : TCPServer) : list Z :=
  match pc sv with
  | S_finish _ _ _ => []
  | _ => held sv
  end.
(** The connection the listener has entered among the clients and not yet queued.  Once it
    is queued the listener still calls on its socket ([L_config]): these calls are accesses
    from outside, with no claim on the connection ([accepted_socket_used_after_delete]). *)
Definition not_yet_queued (p : ListenerPC) : list Z :=
  match p with L_push fd _ _ => [fd] | _ => [] end.

Definition in_hands (y : System) : list Z := flat_map held (servers_ y) ++ not_yet_queued (lpc y).

Definition server_ok (sh : Shared) (sv : TCPServer) : Prop :=
  (has_stopped_ sv = true -> pc sv = S_stopped) /\
  match pc sv with
  | S_new _ c | S_read _ c | S_shut _ c => flags c
  | S_release fd s c | S_finish fd s c => flags c /\ exists w, clients_ sh !! fd = Some w /\ socket w = s
  | _ => True
  end.

(** A batch of events: distinct descriptors, all still registered. *)
Definition batch_ok (sh : Shared) (evs : batch) : Prop :=
  NoDup (map fst evs) /\ forall fd, fd ∈ map fst evs -> is_Some (epoll sh !! fd).

Definition listener_ok (lfd : Z) (sh : Shared) (p : ListenerPC) : Prop :=
  match p with
  | L_events evs | L_accept evs | L_config _ _ evs | L_again _ evs => batch_ok sh evs
  | L_accepted s evs =>
      batch_ok sh evs /\
      exists o, sockets sh !! s = Some o /\ 0 <= fd_ o /\ fd_ o <> lfd /\ clients_ sh !! fd_ o = None
  | L_push fd s evs => batch_ok sh evs /\ exists w, clients_ sh !! fd = Some w /\ socket w = s
  | L_join => workload_ sh = []
  | L_close todo =>
      workload_ sh = [] /\ NoDup todo /\
      forall s, s ∈ todo -> exists fd w, clients_ sh !! fd = Some w /\ socket w = s
  | _ => True
  end.

(** The most servers there can be. *)
Definition pool_bound (p : Params) : Z := Z.max (Z.max 1 (minservers p)) (maxservers p).

Definition running (p : ListenerPC) : bool := match p with L_close _ | L_done => false | _ => true end.

Record inv (p : Params) (lfd : Z) (y : System) : Prop := mkInv {
  inv_params : params_ (listener y) = p /\ listen_fd (listener y) = lfd;
  inv_shared : shared_ok lfd (in_hands y) (shared y);
  inv_count : work_q_sz_ (shared y) = zlen (workload_ (shared y)) + zlen (flat_map counted (servers_ y));
  inv_clients : Z.of_nat (size (clients_ (shared y))) <= maxconnections p;
  inv_servers : Forall (server_ok (shared y)) (servers_ y);
  inv_listener : listener_ok lfd (shared y) (lpc y);
  inv_pool : zlen (servers_ y) <= pool_bound p;
  inv_init : running (lpc y) = true -> exists sv, sv ∈ servers_ y /\ id sv = init_server_ (listener y);
  inv_over : running (lpc y) = false -> servers_ y = [];
}.

Section Invariant.
Context (p : Params) (lfd : Z) (Hmax : 0 <= maxconnections p < 2 ^ 64).

Lemma inv_initial server tod : inv p lfd (System_init p lfd server tod).
Proof.
  constructor; try done.
  - constructor; unfold owned, in_hands; cbn; try done.
    + apply NoDup_nil_2.
    + intros fd Hin. by apply elem_of_nil in Hin.
    + intros fd Hin. by apply elem_of_nil in Hin.
    + intros fd [item Hi]. left. apply lookup_singleton_Some in Hi. symmetry. tauto.
  - cbn [System_init shared clients_]. rewrite map_size_empty. lia.
  - repeat constructor; done.
  - unfold pool_bound, zlen. simpl. lia.
  - intros _. eexists. split; [by left|done].
Qed.

(** ** Frames: a step at connection [fd] leaves the others' knowledge intact *)

Lemma counted_held sv : (length (counted sv) <= length (held sv))%nat.
Proof. unfold counted, held. destruct (pc sv); simpl; lia. Qed.

Lemma counted_le servers : (length (flat_map counted servers) <= length (flat_map held servers))%nat.
Proof.
  induction servers as [|sv r IH]; [done|]. cbn [flat_map]. rewrite !length_app.
  pose proof (counted_held sv). lia.
Qed.

Lemma server_ok_local fd sh sh' sv : local_to fd sh sh' -> fd ∉ held sv -> server_ok sh sv -> server_ok sh' sv.
Proof.
  intros Hl Hn [H1 H2]. split; [done|]. revert Hn H2. unfold held.
  destruct (pc sv); try done; (intros Hn (Hf & w & Hw & Es); split; [done|]; exists w;
    rewrite (local_clients _ _ _ Hl); [done | intros ->; apply Hn; by left]).
Qed.

Lemma servers_ok_local fd sh sh' servers :
  local_to fd sh sh' -> fd ∉ flat_map held servers -> Forall (server_ok sh) servers -> Forall (server_ok sh') servers.
Proof.
  intros Hl. induction servers as [|sv r IH]; intros Hn Hf; [constructor|].
  cbn [flat_map] in Hn. apply not_elem_of_app in Hn as [Hn1 Hn2]. inversion_clear Hf.
  constructor; [by eapply server_ok_local | by apply IH].
Qed.

Lemma batch_ok_local fd sh sh' evs : local_to fd sh sh' -> fd ∉ map fst evs -> batch_ok sh evs -> batch_ok sh' evs.
Proof.
  intros Hl Hn [H1 H2]. split; [done|]. intros k Hk. rewrite (local_epoll _ _ _ Hl); [by apply H2|].
  intros ->. by apply Hn.
Qed.

(** A connection outside epoll is in no batch. *)
Lemma batch_unpolled sh evs fd : batch_ok sh evs -> epoll sh !! fd = None -> fd ∉ map fst evs.
Proof. intros [_ H] He Hin. apply H in Hin as [? Hin]. congruence. Qed.

(** A step of a server at a connection it holds, or takes from the queue. *)
Lemma listener_ok_local fd sh sh' others q :
  shared_ok lfd others sh -> fd ∈ owned others sh -> fd ∉ not_yet_queued q -> running q = true ->
  (workload_ sh = [] -> workload_ sh' = []) ->
  local_to fd sh sh' -> listener_ok lfd sh q -> listener_ok lfd sh' q.
Proof.
  intros Hok Hin Hn Hrun Hw Hl. pose proof (owned_unpolled _ _ _ Hok fd Hin) as He.
  destruct (owned_client _ _ _ Hok fd Hin) as [w Hc].
  assert (forall evs, batch_ok sh evs -> batch_ok sh' evs) as HB.
  { intros evs Hb. eapply batch_ok_local; [done| |done]. by eapply batch_unpolled. }
  destruct q; try done; simpl; auto.
  - intros (Hb & o & Ho & H1 & H2 & H3). split; [auto|]. exists o.
    assert (fd_ o <> fd) by (intros E; rewrite E in H3; congruence).
    split_and!; [by apply (local_sockets _ _ _ Hl) | done | done | by rewrite (local_clients _ _ _ Hl)].
  - intros (Hb & w' & Hw' & Es). split; [auto|]. exists w'.
    rewrite (local_clients _ _ _ Hl); [done|]. intros ->. apply Hn. by left.
Qed.

Lemma delete_insert_list {A} (l : list A) i x : delete i (<[i := x]> l) = delete i l.
Proof. revert i. induction l as [|y r IH]; intros [|i]; simpl; [done..|]. f_equal. apply IH. Qed.

(** What server [i] contributes, apart from the others. *)
Lemma flat_map_split {B} (f : TCPServer -> list B) servers i sv :
  servers !! i = Some sv -> flat_map f servers ≡ₚ f sv ++ flat_map f (delete i servers).
Proof. intros Hi. by rewrite (delete_Permutation _ _ _ Hi) at 1. Qed.

Lemma put_perm (servers : list TCPServer) i sv sv' :
  servers !! i = Some sv -> (<[i := sv']> servers) ≡ₚ sv' :: delete i servers.
Proof.
  intros Hi. rewrite (delete_Permutation (<[i := sv']> servers) i sv'); [by rewrite delete_insert_list|].
  apply list_lookup_insert_eq. by eapply lookup_lt_Some.
Qed.

Lemma flat_map_put {B} (f : TCPServer -> list B) servers i sv sv' :
  servers !! i = Some sv -> flat_map f (<[i := sv']> servers) ≡ₚ f sv' ++ flat_map f (delete i servers).
Proof. intros Hi. by rewrite (put_perm _ _ _ sv' Hi). Qed.

Lemma zlen_perm {A} (l k : list A) : l ≡ₚ k -> zlen l = zlen k.
Proof. intros P. unfold zlen. by rewrite P. Qed.

Lemma inv_running y i sv : inv p lfd y -> servers_ y !! i = Some sv -> running (lpc y) = true.
Proof.
  intros Hi Hs. destruct (running (lpc y)) eqn:E; [done|]. rewrite (inv_over _ _ _ Hi E) in Hs. done.
Qed.

(** The hands of the system seen from server [i]. *)
Definition rest_hands (i : nat) (y : System) : list Z :=
  flat_map held (delete i (servers_ y)) ++ not_yet_queued (lpc y).

Lemma in_hands_split y i sv : servers_ y !! i = Some sv -> in_hands y ≡ₚ (held sv ++ rest_hands i y).
Proof. intros Hi. unfold in_hands, rest_hands. by rewrite (flat_map_split held _ _ _ Hi), app_assoc. Qed.

Lemma inv_server_step y i sv sv' sh' :
  inv p lfd y -> servers_ y !! i = Some sv ->
  (sh' = shared y \/ exists fd, fd ∈ workload_ (shared y) ++ held sv /\ local_to fd (shared y) sh') ->
  shared_ok lfd (held sv' ++ rest_hands i y) sh' ->
  (workload_ (shared y) = [] -> workload_ sh' = []) ->
  server_ok sh' sv' -> id sv' = id sv ->
  work_q_sz_ sh' - zlen (workload_ sh') - zlen (counted sv') =
    work_q_sz_ (shared y) - zlen (workload_ (shared y)) - zlen (counted sv) ->
  (size (clients_ sh') <= size (clients_ (shared y)))%nat ->
  inv p lfd (put_server i sv' (set_shared sh' y)).
Proof.
  intros Hinv Hi Hfr Hok Hw Hsv Hid Hcnt Hsz. pose proof (inv_running _ _ _ Hinv Hi) as Hrun.
  pose proof (in_hands_split _ _ _ Hi) as P. destruct Hinv as [J1 J2 J3 J4 J5 J6 J7 J8 J9].
  assert (sh' = shared y \/ exists fd, fd ∈ owned (in_hands y) (shared y) /\ (fd ∉ rest_hands i y) /\
            local_to fd (shared y) sh') as Hfr'.
  { destruct Hfr as [|(fd & Hin & Hl)]; [by left|]. right. exists fd.
    pose proof (owned_once _ _ _ J2) as Hnd. unfold owned in *. rewrite P, app_assoc in Hnd.
    apply NoDup_app in Hnd as (_ & Hnd & _). split_and!; [|by apply Hnd | done].
    rewrite P, app_assoc. apply elem_of_app. by left. }
  constructor; cbn [put_server set_servers set_shared shared listener servers_ lpc].
  - done.
  - eapply shared_ok_perm; [|exact Hok]. unfold in_hands, rest_hands. cbn [servers_ lpc].
    by rewrite (flat_map_put held _ _ _ sv' Hi), <- app_assoc.
  - rewrite (zlen_perm _ _ (flat_map_put counted _ _ _ sv' Hi)), zlen_app.
    rewrite (zlen_perm _ _ (flat_map_split counted _ _ _ Hi)), zlen_app in J3. lia.
  - lia.
  - rewrite (put_perm _ _ _ sv' Hi). rewrite (delete_Permutation _ _ _ Hi) in J5. inversion_clear J5 as [|? ? _ J5'].
    constructor; [done|]. destruct Hfr' as [ -> |(fd & _ & Hn & Hl)]; [done|].
    unfold rest_hands in Hn. apply not_elem_of_app in Hn as [Hn _]. by eapply servers_ok_local.
  - destruct Hfr' as [ -> |(fd & Hin & Hn & Hl)]; [done|].
    unfold rest_hands in Hn. apply not_elem_of_app in Hn as [_ Hn]. by apply (listener_ok_local fd (shared y) sh' (in_hands y) (lpc y)).
  - unfold zlen. rewrite length_insert. exact J7.
  - intros _. destruct (J8 Hrun) as (v & Hv & Eid). rewrite (delete_Permutation _ _ _ Hi), elem_of_cons in Hv.
    destruct Hv as [ -> |Hv]; [exists sv' | exists v]; rewrite (put_perm _ _ _ sv' Hi), elem_of_cons; split; auto; congruence.
  - congruence.
Qed.

Lemma inv_stats f y : inv p lfd y -> inv p lfd (stats f y).
Proof. intros [J1 J2 J3 J4 J5 J6 J7 J8 J9]. by constructor. Qed.

(** A server that moves without touching the shared state. *)
Lemma inv_server_moves y i sv sv' :
  inv p lfd y -> servers_ y !! i = Some sv -> held sv' = held sv -> counted sv' = counted sv ->
  server_ok (shared y) sv' -> id sv' = id sv -> inv p lfd (put_server i sv' y).
Proof.
  intros Hinv Hi Hh Hc Hok Hid.
  replace y with (set_shared (shared y) y) by (by destruct y).
  eapply inv_server_step; try done; [by left | | by rewrite Hc].
  rewrite Hh. eapply shared_ok_perm; [by apply in_hands_split|]. apply (inv_shared _ _ _ Hinv).
Qed.

Lemma server_of y i sv : inv p lfd y -> servers_ y !! i = Some sv -> server_ok (shared y) sv.
Proof. intros Hinv Hi. by apply (Forall_lookup_1 _ _ _ _ (inv_servers _ _ _ Hinv) Hi). Qed.

(** The item a server holds is a live client with a live socket, outside epoll. *)
Lemma held_client y i sv fd :
  inv p lfd y -> servers_ y !! i = Some sv -> fd ∈ held sv ->
  exists w, clients_ (shared y) !! fd = Some w /\ client_ok lfd (shared y) fd w.
Proof.
  intros Hinv Hi Hin. pose proof (inv_shared _ _ _ Hinv) as Hok.
  destruct (owned_client _ _ _ Hok fd) as [w Hw].
  { unfold owned. rewrite (in_hands_split _ _ _ Hi), !elem_of_app. auto. }
  exists w. split; [done|]. by apply (clients_ok _ _ _ Hok).
Qed.

Lemma stage_item_ok sh fd w flag b :
  clients_ sh !! fd = Some w -> client_ok lfd sh fd w -> stage_item fd flag b sh = (Ok w, sh).
Proof.
  intros Hw (_ & _ & Hd & _ & o & Ho & _). unfold stage_item, deref_work, xbind. rewrite Hw.
  destruct (state_and (state w) flag); [|done]. unfold deref_socket. rewrite Ho, Hd. by rewrite andb_false_r.
Qed.

Lemma server_idle_held sv : held (server_idle sv) = [] /\ counted (server_idle sv) = [].
Proof. unfold server_idle, held, counted. by destruct (request_stop_ sv). Qed.

Lemma server_idle_ok sh sv : server_ok sh sv -> pc sv <> S_stopped -> server_ok sh (server_idle sv).
Proof.
  intros [H1 _] Hn. unfold server_idle, server_ok. destruct (request_stop_ sv); simpl; [done|].
  split; [|done]. intros E. by apply H1 in E.
Qed.

Lemma flags_new r c : flags c -> flags (new_stage r c).
Proof. intros Hc. destruct r as [[]|]; simpl; [by apply flags_or | by repeat apply flags_or | done]. Qed.

Lemma flags_read r c : flags c -> flags (read_stage r c).
Proof.
  intros Hc. destruct (read_stage_bool r c) as [b ->].
  destruct b as [[]|]; [by apply flags_or | by repeat apply flags_or | done].
Qed.

Lemma flags_shut r c : flags c -> flags (shut_stage r c).
Proof. intros Hc. destruct r; simpl; [by apply flags_or | done]. Qed.

(** The stages of an item. *)
Lemma stage_step_inv {A} y i sv fd flag b (r : option (A * traffic)) completed skipped :
  inv p lfd y -> fault y = false -> servers_ y !! i = Some sv -> fd ∈ held sv ->
  (forall c, c = completed sv \/ c = skipped sv ->
     held c = held sv /\ counted c = counted sv /\ server_ok (shared y) c /\ id c = id sv) ->
  let y' := stage_step fd flag b r completed skipped sv y (put_server i) in
  inv p lfd y' /\ fault y' = false.
Proof.
  intros Hinv Hf Hi Hin Hc. destruct (held_client _ _ _ _ Hinv Hi Hin) as (w & Hw & Hwok).
  cbv zeta. unfold stage_step, critical. rewrite (stage_item_ok _ _ _ flag b Hw Hwok).
  replace (set_shared (shared y) y) with y by (by destruct y).
  destruct (state_and (state w) flag); (split; [|done]).
  - change (put_server i (completed sv) (stats (stage_traffic r) y))
      with (stats (stage_traffic r) (put_server i (completed sv) y)).
    apply inv_stats. destruct (Hc _ (or_introl eq_refl)) as (? & ? & ? & ?). by eapply inv_server_moves.
  - destruct (Hc _ (or_intror eq_refl)) as (? & ? & ? & ?). by eapply inv_server_moves.
Qed.

Lemma pop_inv y i sv :
  inv p lfd y -> fault y = false -> servers_ y !! i = Some sv -> pc sv = S_pop ->
  let y' := critical popWork y
              (fun r => put_server i (match r with
                                      | Some fd => set_pc (S_new fd None_) (state_ sv) sv
                                      | None => server_idle sv
                                      end)) (put_server i (server_dies sv)) in
  inv p lfd y' /\ fault y' = false.
Proof.
  intros Hinv Hf Hi Hpc. cbv zeta. unfold critical. pose proof (server_of _ _ _ Hinv Hi) as Hsv.
  assert (held sv = [] /\ counted sv = []) as [Hh Hc] by (unfold held, counted, held; by rewrite Hpc).
  destruct (workload_ (shared y)) as [|fd rest] eqn:Hw.
  - unfold popWork. rewrite Hw. split; [|done]. replace (set_shared (shared y) y) with y by (by destruct y).
    destruct (server_idle_held sv) as [E1 E2]. eapply inv_server_moves; try done; [congruence..| |].
    + apply server_idle_ok; [done|congruence].
    + unfold server_idle. by destruct (request_stop_ sv).
  - pose proof (inv_shared _ _ _ Hinv) as Hok. apply (shared_ok_perm _ _ _ _ (in_hands_split _ _ _ Hi)) in Hok.
    rewrite Hh in Hok. destruct (popWork_ok lfd _ _ _ _ Hok Hw) as (sh' & -> & Hok' & Hl & E1 & E2 & E3).
    split; [|done]. eapply inv_server_step; try done.
    + right. exists fd. split; [|done]. rewrite Hw. by left.
    + by rewrite Hw.
    + unfold server_ok. cbn. split; [|done]. intros E. apply (proj1 Hsv) in E. congruence.
    + rewrite E1, E2, Hc, Hw. unfold zlen. cbn. lia.
    + by rewrite E3.
Qed.

Lemma finish_inv y i sv fd s c refused failed :
  inv p lfd y -> fault y = false -> servers_ y !! i = Some sv -> pc sv = S_finish fd s c ->
  let y' := critical (release_locked s c refused failed) y (fun _ => put_server i (set_pc S_pop ssReleaseWorkDone sv))
              (put_server i (server_dies sv)) in
  inv p lfd y' /\ fault y' = false.
Proof.
  intros Hinv Hf Hi Hpc. cbv zeta. unfold critical. pose proof (server_of _ _ _ Hinv Hi) as Hsv.
  assert (held sv = [fd] /\ counted sv = []) as [Hh Hc] by (unfold held, counted, held; by rewrite Hpc).
  pose proof (inv_shared _ _ _ Hinv) as Hok. apply (shared_ok_perm _ _ _ _ (in_hands_split _ _ _ Hi)) in Hok.
  rewrite Hh in Hok. destruct Hsv as [Hst Hsv]. rewrite Hpc in Hsv. destruct Hsv as (Hfl & w & Hw & <-).
  destruct (release_locked_ok lfd _ _ _ _ _ refused failed Hok Hw Hfl)
    as (r & sh' & -> & Hr & Hok' & Hl & E1 & E2 & E3 & _).
  assert (forall sv', held sv' = [] -> counted sv' = [] -> server_ok sh' sv' -> id sv' = id sv ->
            inv p lfd (put_server i sv' (set_shared sh' y))) as K.
  { intros sv' E4 E5 Hok'' Hid. eapply inv_server_step; try done.
    - right. exists fd. split; [|done]. rewrite Hh. apply elem_of_app. right. by left.
    - by rewrite E4.
    - by rewrite E1.
    - by rewrite E1, E2, E5, Hc. }
  destruct Hr as [ -> |(what & e & ->)]; (split; [|done]); apply K; try done.
  - unfold server_ok. cbn. split; [|done]. intros E. apply Hst in E. congruence.
Qed.

(** The counter counts connections, so it is bounded by the client limit. *)
Lemma work_bound y : inv p lfd y -> 0 <= work_q_sz_ (shared y) <= maxconnections p.
Proof.
  intros [J1 J2 J3 J4 J5 J6 J7 J8 J9]. pose proof (owned_bound _ _ _ J2) as Hb. rewrite J3.
  unfold owned, in_hands, zlen in *. rewrite !length_app in Hb. pose proof (counted_le (servers_ y)). lia.
Qed.

Lemma release_inv y i sv fd s c :
  inv p lfd y -> fault y = false -> servers_ y !! i = Some sv -> pc sv = S_release fd s c ->
  let y' := critical release_count y (fun _ => put_server i (set_pc (S_finish fd s c) ssReleaseWork sv))
              (put_server i (server_dies sv)) in
  inv p lfd y' /\ fault y' = false.
Proof.
  intros Hinv Hf Hi Hpc. cbv zeta. unfold critical, release_count, xmodify. split; [|done].
  pose proof (server_of _ _ _ Hinv Hi) as Hsv. pose proof (work_bound _ Hinv) as Hb.
  assert (held sv = [fd] /\ counted sv = [fd]) as [Hh Hc] by (unfold held, counted, held; by rewrite Hpc).
  pose proof (inv_shared _ _ _ Hinv) as Hok. apply (shared_ok_perm _ _ _ _ (in_hands_split _ _ _ Hi)) in Hok.
  assert (1 <= work_q_sz_ (shared y)) as H1.
  { rewrite (inv_count _ _ _ Hinv), (zlen_perm _ _ (flat_map_split counted _ _ _ Hi)), Hc.
    rewrite zlen_app. pose proof (zlen_nonneg (workload_ (shared y))).
    pose proof (zlen_nonneg (flat_map counted (delete i (servers_ y)))). unfold zlen at 2. cbn. lia. }
  eapply inv_server_step; try done.
  - right. exists fd. split; [rewrite Hh; apply elem_of_app; right; by left | by constructor].
  - rewrite Hh in Hok. destruct Hok as [K1 K2 K3 K4 K5]. by constructor.
  - destruct Hsv as [Hst Hsv]. rewrite Hpc in Hsv. split; [|exact Hsv]. cbn. intros E. apply Hst in E. congruence.
  - cbn [set_queue work_q_sz_ workload_ counted set_pc pc]. rewrite u64_small by lia. rewrite Hc.
    unfold zlen at 2 4. cbn. lia.
Qed.

Lemma closeSocket_gone s failed sh sh' : closeSocket s failed sh = (Ok tt, sh') -> sockets sh' !! s = None.
Proof.
  unfold closeSocket, xbind. destruct (deref_socket s sh) as [[o|e|] sh1]; [|done|done].
  destruct (client_at (fd_ o) sh1) as [[w|e|] sh2]; [|done|done]. cbn [xmodify].
  destruct (socket_close s failed _) as [[u|e|] sh3]; [|done|done]. intros [= <-]. apply lookup_delete_eq.
Qed.

(** A server that releases a connection as one to close deletes its socket. *)
Lemma finish_closes y i sv fd s c : inv p lfd y -> servers_ y !! i = Some sv -> pc sv = S_finish fd s c -> state_and c Shut = true ->
  exists sh', release_locked s c None None (shared y) = (Ok tt, sh') /\ sockets sh' !! s = None.
Proof.
  intros Hinv Hi Hpc Hc. pose proof (server_of _ _ _ Hinv Hi) as Hsv.
  assert (held sv = [fd]) as Hh by (unfold held; by rewrite Hpc).
  pose proof (inv_shared _ _ _ Hinv) as Hok. apply (shared_ok_perm _ _ _ _ (in_hands_split _ _ _ Hi)) in Hok.
  rewrite Hh in Hok. destruct Hsv as [_ Hsv]. rewrite Hpc in Hsv. destruct Hsv as (_ & w & Hw & <-).
  destruct (closeSocket_ok lfd _ _ fd w None (shared_ok_drop _ _ _ _ Hok) (owned_drop _ _ _ _ Hok) Hw) as (sh' & E & _).
  exists sh'. unfold release_locked. rewrite Hc. split; [done|]. by eapply closeSocket_gone.
Qed.

(** A step of a server preserves the invariant and touches no dead object. *)
Lemma server_step_inv y i sv l y' :
  inv p lfd y -> fault y = false -> servers_ y !! i = Some sv ->
  server_step l sv y (put_server i) = Some y' -> inv p lfd y' /\ fault y' = false.
Proof.
  intros Hinv Hf Hi. pose proof (server_of _ _ _ Hinv Hi) as Hsv. unfold server_step.
  assert (pc sv <> S_stopped -> has_stopped_ sv = true -> False) as Hst by (intros ? E; by apply (proj1 Hsv) in E).
  destruct (pc sv) as [| |fd c|fd c|fd c|fd s c|fd s c|] eqn:Hpc; destruct l; try done.
  - case_bool; [|done]. intros [= <-]. split; [|done]. eapply inv_server_moves; try done.
    + unfold held. by rewrite Hpc.
    + unfold counted, held. by rewrite Hpc.
    + split; [|done]. cbn. intros E. by apply Hst in E.
  - case_bool; [|done]. intros [= <-]. split; [|done]. destruct (server_idle_held sv) as [E1 E2].
    eapply inv_server_moves; try done.
    + unfold held at 2. by rewrite Hpc.
    + unfold counted at 2, held. by rewrite Hpc.
    + apply server_idle_ok; [done|congruence].
    + unfold server_idle. by destruct (request_stop_ sv).
  - intros [= <-]. by apply pop_inv.
  - intros [= <-]. apply stage_step_inv; try done; [unfold held; rewrite Hpc; by left|].
    assert (flags c) as Hc by (destruct Hsv as [_ Hsv]; by rewrite Hpc in Hsv).
    intros v [ -> | -> ]; unfold held, counted, held, server_ok; rewrite Hpc; cbn; split_and!; try done;
      (intros E; by apply Hst in E) || by apply flags_new.
  - intros [= <-]. apply stage_step_inv; try done; [unfold held; rewrite Hpc; by left|].
    assert (flags c) as Hc by (destruct Hsv as [_ Hsv]; by rewrite Hpc in Hsv).
    intros v [ -> | -> ]; unfold held, counted, held, server_ok; rewrite Hpc; cbn; split_and!; try done;
      (intros E; by apply Hst in E) || by apply flags_read.
  - intros [= <-]. destruct (held_client y i sv fd Hinv Hi) as (w & Hw & Hwok); [unfold held; rewrite Hpc; by left|].
    assert (flags c) as Hc by (destruct Hsv as [_ Hsv]; by rewrite Hpc in Hsv).
    unfold critical. rewrite (stage_item_ok _ _ _ Shut false Hw Hwok).
    replace (set_shared (shared y) y) with y by (by destruct y). split; [|done].
    eapply inv_server_moves; try done; unfold held, counted, held, server_ok; rewrite ?Hpc; cbn; try done.
    split; [intros E; by apply Hst in E|]. split; [case_bool; [by apply flags_shut|done] | by exists w].
  - intros [= <-]. by eapply release_inv.
  - intros [= <-]. by eapply finish_inv.
Qed.

(** ** Steps of the listener *)

Lemma inv_crash y : inv p lfd y -> inv p lfd (crash y).
Proof. intros [J1 J2 J3 J4 J5 J6 J7 J8 J9]. by constructor. Qed.

(** The fields the invariant reads of a listener. *)
Definition same_listener (l l' : Listener) : Prop :=
  params_ l' = params_ l /\ listen_fd l' = listen_fd l /\ init_server_ l' = init_server_ l.

Lemma inv_set_listener y l : inv p lfd y -> same_listener (listener y) l -> inv p lfd (set_listener l y).
Proof.
  intros [J1 J2 J3 J4 J5 J6 J7 J8 J9] (E1 & E2 & E3). constructor; try done.
  - cbn. by rewrite E1, E2.
  - intros Hr. cbn in *. rewrite E3. by apply J8.
Qed.

(** A step of the running listener to point [q] with shared state [sh']. *)
Lemma inv_listener_step y q sh' :
  inv p lfd y -> running (lpc y) = true -> running q = true ->
  shared_ok lfd (flat_map held (servers_ y) ++ not_yet_queued q) sh' ->
  Forall (server_ok sh') (servers_ y) ->
  work_q_sz_ sh' - zlen (workload_ sh') = work_q_sz_ (shared y) - zlen (workload_ (shared y)) ->
  Z.of_nat (size (clients_ sh')) <= maxconnections p ->
  listener_ok lfd sh' q ->
  inv p lfd (goto q (set_shared sh' y)).
Proof.
  intros [J1 J2 J3 J4 J5 J6 J7 J8 J9] Hr Hq Hok Hs Hc Hsz Hl. constructor; try done; cbn.
  - lia.
  - intros _. by apply J8.
  - congruence.
Qed.

Lemma inv_goto y q :
  inv p lfd y -> running (lpc y) = true -> running q = true ->
  not_yet_queued q = not_yet_queued (lpc y) -> listener_ok lfd (shared y) q -> inv p lfd (goto q y).
Proof.
  intros Hinv Hr Hq Hh Hl. replace y with (set_shared (shared y) y) by (by destruct y).
  pose proof Hinv as [J1 J2 J3 J4 J5 J6 J7 J8 J9]. apply inv_listener_step; try done.
  cbn. rewrite Hh. exact J2.
Qed.

(** An exception: whatever the listener held is let go. *)
Lemma inv_stop_run y : inv p lfd y -> running (lpc y) = true -> inv p lfd (stop_run y).
Proof.
  intros Hinv Hr. unfold stop_run. replace y with (set_shared (shared y) y) by (by destruct y).
  pose proof Hinv as [J1 J2 J3 J4 J5 J6 J7 J8 J9]. apply inv_listener_step; try done. cbn.
  unfold in_hands in J2. destruct (lpc y); try done. cbn [not_yet_queued] in *. rewrite app_nil_r.
  eapply shared_ok_drop, shared_ok_perm; [|exact J2]. symmetry. apply Permutation_cons_append.
Qed.

Lemma inv_spawn y sid tod :
  inv p lfd y -> running (lpc y) = true -> zlen (servers_ y) + 1 <= pool_bound p ->
  inv p lfd (set_servers (servers_ y ++ [TCPServer_started sid tod]) y).
Proof.
  intros [J1 J2 J3 J4 J5 J6 J7 J8 J9] Hr Hb. constructor; try done; cbn [set_servers servers_ shared lpc listener].
  - unfold in_hands in *. cbn [set_servers servers_ lpc]. rewrite flat_map_app. cbn. by rewrite app_nil_r.
  - rewrite flat_map_app. cbn. by rewrite app_nil_r.
  - apply Forall_app. split; [done|]. by repeat constructor.
  - rewrite zlen_app. done.
  - intros _. destruct (J8 Hr) as (sv & Hin & E). exists sv. split; [|done]. apply elem_of_app. by left.
  - congruence.
Qed.

(** A critical section that the invariant shows to succeed, with its continuation. *)
Lemma critical_ok {A} (m : X Shared A) y k h a sh' :
  m (shared y) = (Ok a, sh') -> critical m y k h = k a (set_shared sh' y).
Proof. intros E. unfold critical. by rewrite E. Qed.

Lemma disarm_ok others evs sh :
  shared_ok lfd others sh ->
  shared_ok lfd others (fold_right disarm sh evs) /\ clients_ (fold_right disarm sh evs) = clients_ sh /\
  workload_ (fold_right disarm sh evs) = workload_ sh /\ work_q_sz_ (fold_right disarm sh evs) = work_q_sz_ sh /\
  forall fd, is_Some (epoll (fold_right disarm sh evs) !! fd) <-> is_Some (epoll sh !! fd).
Proof.
  intros Hok. induction evs as [|ev evs IH]; [done|]. cbn [fold_right].
  destruct IH as (Hok' & E1 & E2 & E3 & E4). remember (fold_right disarm sh evs) as s1 eqn:E0. clear E0.
  assert (forall fd, is_Some (epoll (disarm ev s1) !! fd) <-> is_Some (epoll s1 !! fd)) as Hd.
  { intros fd. unfold disarm. cbn. rewrite lookup_alter. case_decide; [|done]. subst. by rewrite fmap_is_Some. }
  split_and!; try done; [|intros fd; by rewrite Hd].
  destruct Hok' as [H1 H2 H3 H4 H5]. constructor; try done.
  - intros fd Hin. apply eq_None_not_Some. rewrite Hd. apply eq_None_not_Some. by apply H3.
  - intros fd Hin. apply Hd in Hin. by apply H4.
Qed.

Lemma events_ok_batch evs sh : events_ok p evs sh = true -> batch_ok sh evs.
Proof.
  unfold events_ok. intros H. apply andb_true_iff in H as [H Hev]. apply andb_true_iff in H as [_ Hd]. split.
  - clear Hev. induction (map fst evs) as [|x l IH]; [apply NoDup_nil_2|]. cbn in Hd.
    apply andb_true_iff in Hd as [Hx Hd]. apply NoDup_cons. split; [|by apply IH].
    apply negb_true_iff in Hx. intros Hin. apply list_elem_of_In in Hin.
    rewrite (proj2 (existsb_exists (Z.eqb x) l)) in Hx; [done|]. exists x. split; [done|apply Z.eqb_refl].
  - intros fd Hin. apply list_elem_of_In, in_map_iff in Hin as (ev & <- & Hin).
    rewrite forallb_forall in Hev. apply Hev in Hin. unfold event_ok in Hin.
    by destruct (epoll sh !! fst ev).
Qed.

Lemma server_ok_clients sh sh' sv : clients_ sh' = clients_ sh -> server_ok sh sv -> server_ok sh' sv.
Proof. intros E. unfold server_ok. by rewrite E. Qed.

Lemma servers_ok_clients sh sh' servers :
  clients_ sh' = clients_ sh -> Forall (server_ok sh) servers -> Forall (server_ok sh') servers.
Proof. intros E H. eapply Forall_impl; [exact H|]. intros sv. by apply server_ok_clients. Qed.

Lemma poll_inv y evs tod :
  inv p lfd y -> lpc y = L_wait -> events_ok p evs (shared y) = true ->
  let y1 := set_listener (warn_queue tod (zlen (servers_ y)) (work_q_sz_ (shared y)) (listener y)) y in
  inv p lfd (goto (match evs with [] => L_clean | _ => L_events evs end)
               (set_shared (fold_right disarm (shared y1) evs) y1)).
Proof.
  intros Hinv Hpc Hev. cbv zeta. set (y1 := set_listener _ y).
  assert (inv p lfd y1) as Hinv1.
  { apply inv_set_listener; [done|]. unfold same_listener, warn_queue. by case_bool. }
  pose proof Hinv1 as [J1 J2 J3 J4 J5 J6 J7 J8 J9].
  destruct (disarm_ok _ evs _ J2) as (Hok & E1 & E2 & E3 & E4).
  assert (not_yet_queued (lpc y1) = []) as Hh by (cbn; by rewrite Hpc).
  unfold in_hands in Hok. rewrite Hh in Hok.
  apply inv_listener_step; try done.
  - cbn. by rewrite Hpc.
  - by destruct evs.
  - by destruct evs.
  - by eapply servers_ok_clients.
  - by rewrite E2, E3.
  - by rewrite E1.
  - apply events_ok_batch in Hev as [B1 B2].
    destruct evs as [|ev evs]; [done|]. split; [done|]. intros fd Hin. apply E4. by apply B2.
Qed.

Lemma combined_state_ok events : flags (combined_state events) /\ state_and (combined_state events) New = false.
Proof. unfold combined_state. by repeat case_bool. Qed.

Lemma event_inv y fd events evs :
  inv p lfd y -> fault y = false -> lpc y = L_events ((fd, events) :: evs) ->
  inv p lfd (handle_event fd events evs y) /\ fault (handle_event fd events evs y) = false.
Proof.
  intros Hinv Hf Hpc. pose proof Hinv as [J1 J2 J3 J4 J5 J6 J7 J8 J9].
  pose proof J6 as Hb. rewrite Hpc in Hb. destruct Hb as [Hnd Hreg].
  cbn [map fst] in Hnd, Hreg. apply NoDup_cons in Hnd as [Hn Hnd].
  assert (batch_ok (shared y) evs) as Hb' by (split; [done|]; intros k Hk; apply Hreg; by right).
  assert (running (lpc y) = true) as Hrun by (by rewrite Hpc).
  assert (not_yet_queued (lpc y) = []) as Hh by (by rewrite Hpc).
  assert (forall q, not_yet_queued q = [] -> running q = true -> listener_ok lfd (shared y) q ->
            inv p lfd (goto q y)) as G by (intros q E1 E2 E3; apply inv_goto; congruence).
  unfold handle_event. case_bool; [split; [by apply G|done]|].
  destruct (Z.eqb_spec fd (listen_fd (listener y))) as [|Hne]; [split; [by apply G|done]|].
  case_bool; [|split; [by apply G|done]].
  set (y1 := if has_event events EPOLLIN || has_event events EPOLLPRI then stats count_request y else y).
  assert (inv p lfd y1 /\ fault y1 = false /\ lpc y1 = lpc y /\ shared y1 = shared y /\ servers_ y1 = servers_ y)
    as (Hinv1 & Hf1 & E1 & E2 & E3).
  { unfold y1. destruct (has_event events EPOLLIN || has_event events EPOLLPRI); split_and!; (done || by apply inv_stats). }
  case_bool.
  - destruct J1 as [_ Jl]. rewrite Jl in Hne. destruct (combined_state_ok events) as [Hfl Hnew].
    unfold in_hands in J2. rewrite Hh in J2.
    destruct (pushWork_fd_ok lfd _ _ fd (combined_state events) J2 (Hreg fd ltac:(by left)) Hne Hnew Hfl)
      as (sh' & E & Hok & Hl & W1 & W2 & W3).
    rewrite (critical_ok _ _ _ _ tt sh') by (by rewrite E2). split; [|done].
    pose proof (owned_bound _ _ _ Hok) as Hbd. unfold owned in Hbd. rewrite W1, !zlen_app in Hbd.
    pose proof (zlen_nonneg (flat_map held (servers_ y) ++ [])) as Hz. rewrite zlen_app in Hz.
    pose proof (work_bound _ Hinv) as Hw. unfold zlen at 2 in Hbd. cbn [length] in Hbd.
    pose proof (counted_le (servers_ y)) as Hcl.
    assert (work_q_sz_ (shared y) + 1 <= maxconnections p) as Hle.
    { rewrite J3. unfold zlen in *. rewrite W3 in Hbd. cbn [length] in *. lia. }
    apply inv_listener_step; try done.
    + by rewrite E1.
    + by rewrite E3.
    + rewrite E3. eapply servers_ok_local; [exact Hl| |done].
      intros Hin. pose proof (owned_unpolled _ _ _ J2 fd) as Hu. rewrite app_nil_r in Hu.
      destruct (Hreg fd ltac:(by left)) as [? Hs]. rewrite Hu in Hs; [done|]. apply elem_of_app. by right.
    + rewrite E2, W1, W2, u64_small, zlen_app by lia. unfold zlen at 2. cbn. lia.
    + rewrite W3. done.
    + by eapply batch_ok_local.
  - split; [|done]. unfold y1. case_bool; [|by apply G].
    change (goto (L_events evs) (stats count_request y)) with (stats count_request (goto (L_events evs) y)).
    apply inv_stats. by apply G.
Qed.

Lemma fd_in_use_false fd sh s o : fd_in_use fd sh = false -> sockets sh !! s = Some o -> fd_ o <> fd.
Proof.
  intros H Ho E. unfold fd_in_use in H.
  rewrite (proj2 (existsb_exists _ _)) in H; [done|]. exists (s, o). split; [|by apply Z.eqb_eq].
  apply list_elem_of_In. by apply elem_of_map_to_list.
Qed.

(** A new socket object at an unused address. *)
Lemma shared_ok_new_socket others sh s fd :
  shared_ok lfd others sh -> sockets sh !! s = None -> shared_ok lfd others (new_socket s fd sh).
Proof.
  intros [H1 H2 H3 H4 H5] Hs. constructor; try done. intros k w Hw.
  destruct (H5 k w Hw) as (A & B & C & D & o & Ho & E). unfold client_ok. split_and!; try done.
  exists o. split; [|done]. cbn. rewrite lookup_insert_ne; [done|]. intros ->. congruence.
Qed.

(** [accept] returned: a new object, and the listener goes to [q]. *)
Lemma accept_inv y q s fd :
  inv p lfd y -> running (lpc y) = true -> running q = true -> not_yet_queued (lpc y) = [] -> not_yet_queued q = [] ->
  sockets (shared y) !! s = None -> listener_ok lfd (new_socket s fd (shared y)) q ->
  inv p lfd (goto q (set_shared (new_socket s fd (shared y)) y)).
Proof.
  intros Hinv Hr Hq Hh Hh' Hs Hl. pose proof Hinv as [J1 J2 J3 J4 J5 J6 J7 J8 J9]. apply inv_listener_step; try done.
  apply shared_ok_new_socket; [|done]. rewrite Hh'. unfold in_hands in J2. by rewrite Hh in J2.
Qed.

(** A socket object outside [clients_] is closed and deleted, or closed only. *)
Lemma shared_ok_refuse others sh s o failed :
  shared_ok lfd others sh -> sockets sh !! s = Some o -> 0 <= fd_ o -> fd_ o <> lfd -> clients_ sh !! fd_ o = None ->
  exists sh', (let^ _ := socket_close s failed in socket_delete s) sh =
      (match failed with Some e => Throw (SystemException (lit "socket close failed") e) | None => Ok tt end, sh') /\
    shared_ok lfd others sh' /\ clients_ sh' = clients_ sh /\ epoll sh' = epoll sh /\
    workload_ sh' = workload_ sh /\ work_q_sz_ sh' = work_q_sz_ sh.
Proof.
  intros Hok Ho Hpos Hne Hc. pose proof Hok as [H1 H2 H3 H4 H5].
  assert (epoll sh !! fd_ o = None) as He.
  { apply eq_None_not_Some. intros Hs. destruct (H4 _ Hs) as [|[? Hs']]; congruence. }
  set (closed := <[s := mkBaseSocket (-1) (blocking o)]> (sockets sh)).
  set (socks := if failed is Some _ then closed else delete s closed).
  exists (mkShared (clients_ sh) (workload_ sh) (work_q_sz_ sh) (epoll sh) socks).
  split_and!; try done.
  - unfold socket_close, xbind at 1. erewrite xbind_ok by (apply deref_socket_ok; exact Ho).
    destruct (Z.eqb_spec (fd_ o) (-1)); [lia|]. unfold xbind, xmodify. cbn [epoll set_sockets].
    rewrite (delete_id (epoll sh) (fd_ o)) by done. by destruct failed.
  - constructor; try done. intros k w Hw. change (clients_ sh !! k = Some w) in Hw.
    destruct (H5 k w Hw) as (A & B & C & D & o' & Ho' & E).
    unfold client_ok. split_and!; try done. exists o'. split; [|done]. cbn.
    assert (socket w <> s) by (intros Es; rewrite Es in Ho'; congruence).
    unfold socks, closed. destruct failed; rewrite ?lookup_delete_ne, lookup_insert_ne by done; done.
Qed.

Lemma accepted_inv y s evs failed :
  inv p lfd y -> fault y = false -> lpc y = L_accepted s evs ->
  inv p lfd (handle_accepted s evs failed y) /\ fault (handle_accepted s evs failed y) = false.
Proof.
  intros Hinv Hf Hpc. pose proof Hinv as [J1 J2 J3 J4 J5 J6 J7 J8 J9].
  pose proof J6 as Hl. rewrite Hpc in Hl. destruct Hl as (Hb & o & Ho & H1 & H2 & H3).
  unfold in_hands in J2. rewrite Hpc in J2. cbn [not_yet_queued] in J2.
  assert (running (lpc y) = true) as Hrun by (by rewrite Hpc).
  unfold handle_accepted. rewrite (proj1 J1). case_bool; breflect.
  - destruct (shared_ok_refuse _ _ s o failed J2 Ho H1 H2 H3) as (sh' & E & Hok & E1 & E2 & E3 & E4).
    unfold critical. rewrite E.
    assert (forall q, running q = true -> not_yet_queued q = [] -> listener_ok lfd sh' q ->
              inv p lfd (goto q (set_shared sh' y))) as K.
    { intros q Hq Hh Hl. apply inv_listener_step; try done; [by rewrite Hh | by eapply servers_ok_clients | by rewrite E3, E4 | by rewrite E1]. }
    destruct failed as [e|]; (split; [|done]).
    + by apply K.
    + change (goto (L_again s evs) (set_listener (count_refused (listener (set_shared sh' y))) (set_shared sh' y)))
        with (set_listener (count_refused (listener y)) (goto (L_again s evs) (set_shared sh' y))).
      apply inv_set_listener; [|done]. apply K; try done. destruct Hb as [B1 B2]. split; [done|]. by rewrite E2.
  - set (sh' := set_clients (<[fd_ o := mkWork s New true]> (clients_ (shared y))) (shared y)).
    rewrite (critical_ok _ _ _ _ (fd_ o) sh'); [split; [|done]|].
    + assert (local_to (fd_ o) (shared y) sh') as Hloc.
      { constructor; try done. intros k Hk. cbn. by rewrite lookup_insert_ne. }
      rewrite app_nil_r in J2. pose proof J2 as [K1 K2 K3 K4 K5].
      assert (fd_ o ∉ owned (flat_map held (servers_ y)) (shared y)) as Hn.
      { intros Hin. destruct (K2 _ Hin). congruence. }
      apply inv_listener_step; try done.
      * eapply shared_ok_perm; [symmetry; apply Permutation_app_comm|]. cbn [not_yet_queued app].
        assert (owned (fd_ o :: flat_map held (servers_ y)) sh' ≡ₚ fd_ o :: owned (flat_map held (servers_ y)) (shared y)) as P.
        { unfold owned, sh'. cbn. by rewrite <- Permutation_middle. }
        constructor.
        -- rewrite P. by apply NoDup_cons.
        -- intros k. rewrite P, elem_of_cons. cbn. rewrite lookup_insert_is_Some'. intros [ -> |?]; auto.
        -- intros k. rewrite P, elem_of_cons. intros [ -> |?]; [|by apply K3]. cbn.
           apply eq_None_not_Some. intros Hs. destruct (K4 _ Hs) as [|[? Hs']]; congruence.
        -- intros k Hk. cbn. rewrite lookup_insert_is_Some'. destruct (K4 k Hk); auto.
        -- intros k w. cbn. destruct (decide (k = fd_ o)) as [ -> |].
           ++ rewrite lookup_insert_eq. intros [= <-]. unfold client_ok. split_and!; try done. by exists o.
           ++ rewrite lookup_insert_ne by done. apply K5.
      * eapply servers_ok_local; [exact Hloc| |done]. intros Hin. apply Hn, elem_of_app. by right.
      * cbn. rewrite map_size_insert_None by done. lia.
      * cbn [listener_ok]. split.
        -- destruct Hb as [B1 B2]. by split.
        -- eexists. cbn. rewrite lookup_insert_eq. done.
    + erewrite xbind_ok by (apply deref_socket_ok; exact Ho). done.
Qed.

Lemma push_inv y fd s evs :
  inv p lfd y -> fault y = false -> lpc y = L_push fd s evs ->
  let y' := critical (pushWork s New) y
              (fun _ y => goto (L_config s (config_calls p) evs) (stats count_connection y)) stop_run in
  inv p lfd y' /\ fault y' = false.
Proof.
  intros Hinv Hf Hpc. cbv zeta. pose proof Hinv as [J1 J2 J3 J4 J5 J6 J7 J8 J9].
  pose proof J6 as Hl. rewrite Hpc in Hl. destruct Hl as (Hb & w & Hw & <-).
  unfold in_hands in J2. rewrite Hpc in J2. cbn [not_yet_queued] in J2.
  apply (shared_ok_perm lfd _ (fd :: flat_map held (servers_ y))) in J2; [|symmetry; apply Permutation_cons_append].
  destruct (pushWork_new_ok lfd _ _ fd w J2 Hw) as (sh' & E & Hok & Hloc & W1 & W2 & W3).
  rewrite (critical_ok _ _ _ _ tt sh' E). split; [|done].
  change (goto ?q (stats count_connection ?z)) with (stats count_connection (goto q z)). apply inv_stats.
  pose proof (owned_bound _ _ _ Hok) as Hbd. unfold owned in Hbd. rewrite W1, !zlen_app in Hbd.
  pose proof (work_bound _ Hinv) as Hwb. unfold zlen at 2 in Hbd. cbn [length] in Hbd.
  pose proof (counted_le (servers_ y)) as Hcl.
  assert (work_q_sz_ (shared y) + 1 <= maxconnections p) as Hle.
  { rewrite J3. unfold zlen in *. rewrite W3 in Hbd. lia. }
  apply inv_listener_step; try done.
  - by rewrite Hpc.
  - cbn. by rewrite app_nil_r.
  - eapply servers_ok_local; [exact Hloc| |done].
    pose proof (owned_drop _ _ _ _ J2) as Hn. intros Hin. apply Hn, elem_of_app. by right.
  - rewrite W1, W2, u64_small, zlen_app by lia. unfold zlen at 2. cbn. lia.
  - by rewrite W3.
  - eapply batch_ok_local; [exact Hloc| |done]. eapply batch_unpolled; [done|].
    apply (owned_unpolled _ _ _ J2). unfold owned. apply elem_of_app. right. by left.
Qed.

(** The calls on the accepted socket: only they, and the test that ends the accept loop,
    can find it deleted. *)
Lemma config_inv y s call calls evs :
  inv p lfd y -> lpc y = L_config s (call :: calls) evs ->
  inv p lfd (critical (sock_call s call) y (fun _ => goto (L_config s calls evs)) stop_run).
Proof.
  intros Hinv Hpc. pose proof Hinv as [J1 J2 J3 J4 J5 J6 J7 J8 J9].
  pose proof J6 as Hb. rewrite Hpc in Hb. cbn in Hb.
  assert (running (lpc y) = true) as Hrun by (by rewrite Hpc).
  assert (not_yet_queued (lpc y) = []) as Hh by (by rewrite Hpc).
  assert (set_shared (shared y) y = y) as Ey by (by destruct y).
  unfold critical, sock_call, deref_socket, xbind. destruct (sockets (shared y) !! s) as [o|] eqn:Ho.
  2: { cbn. rewrite Ey. by apply inv_crash. }
  destruct call; try (cbn; rewrite Ey; apply inv_goto; try done; congruence).
  destruct (isValid o); [|cbn; rewrite Ey; by apply inv_stop_run].
  unfold xmodify. apply inv_listener_step; try done.
  cbn [not_yet_queued]. unfold in_hands in J2. rewrite Hh in J2. destruct J2 as [K1 K2 K3 K4 K5].
  constructor; try done. intros k w Hw. destruct (K5 k w Hw) as (A & B & C & D & o' & Ho' & E).
  unfold client_ok. split_and!; try done. cbn. destruct (decide (socket w = s)) as [Es|].
  - rewrite Es, lookup_insert_eq. eexists. split; [done|]. cbn. rewrite Es in Ho'. congruence.
  - exists o'. by rewrite lookup_insert_ne.
Qed.

Lemma again_inv y s evs :
  inv p lfd y -> lpc y = L_again s evs ->
  inv p lfd (critical (deref_socket s) y (fun o => goto (if isValid o then L_accept evs else L_events evs)) stop_run).
Proof.
  intros Hinv Hpc. pose proof (inv_listener _ _ _ Hinv) as Hb. rewrite Hpc in Hb. cbn in Hb.
  assert (set_shared (shared y) y = y) as Ey by (by destruct y).
  unfold critical, deref_socket. destruct (sockets (shared y) !! s) as [o|]; cbn; rewrite Ey.
  - apply inv_goto; try done; [by rewrite Hpc | by destruct (isValid o) | | by destruct (isValid o)].
    rewrite Hpc. by destruct (isValid o).
  - by apply inv_crash.
Qed.

(** A pass over the pool keeps what the servers hold and the invariant of each. *)
Lemma clean_inv y y' tod idle sid :
  inv p lfd y -> lpc y = L_clean -> clean_step tod idle sid y = Some y' -> inv p lfd y'.
Proof.
  intros Hinv Hpc. pose proof Hinv as [J1 J2 J3 J4 J5 J6 J7 J8 J9]. unfold clean_step.
  assert (running (lpc y) = true) as Hrun by (by rewrite Hpc).
  assert (forall z, inv p lfd z -> lpc z = L_clean ->
            inv p lfd (goto (if stop_server_ (listener z) then L_drain else L_loop) z)) as G.
  { intros z Hz Hp. apply inv_goto; try done; rewrite ?Hp; by destruct (stop_server_ (listener z)). }
  case_bool; [|intros [= <-]; by apply G]. case_bool; [|done].
  destruct (cleanStoppedServers _ _ _ _) as [pool|e|] eqn:Ec; [|destruct e; intros [= <-]; (by apply inv_stop_run) || by apply inv_crash|done].
  intros [= <-].
  assert (forall sv, server_ok (shared y) sv -> has_stopped_ sv = true -> held sv = [] /\ counted sv = []) as Hst.
  { intros sv [Hs _] E. apply Hs in E. unfold held, counted, held. by rewrite E. }
  assert (forall f : TCPServer -> list Z, (forall sv, f (requestStop sv) = f sv) -> f (TCPServer_started sid tod) = [] ->
            (forall sv, server_ok (shared y) sv -> has_stopped_ sv = true -> f sv = []) ->
            Forall (server_ok (shared y)) (pool_servers pool) /\
            flat_map f (pool_servers pool) = flat_map f (servers_ y) /\
            (length (pool_servers pool) <= length (servers_ y))%nat /\
            (exists sv, sv ∈ pool_servers pool /\ id sv = pool_init pool)) as K.
  { intros f F1 F2 F3.
    by apply (cleanStoppedServers_keeps (params_ (listener y)) idle (TCPServer_started sid tod)
             (server_ok (shared y)) f (mkPool (init_server_ (listener y)) (servers_ y)) pool); try apply (J8 Hrun). }
  destruct (K held) as (P1 & P2 & P3 & P4); [done | done | intros; by apply Hst |].
  destruct (K counted) as (_ & P5 & _ & _); [done | done | intros; by apply Hst |].
  apply (G (set_servers (pool_servers pool) (set_listener (checked_at tod (pool_init pool) (listener y)) y))); [|done].
  constructor; cbn [set_servers set_listener shared listener servers_ lpc]; try done.
  - unfold in_hands in *. cbn [set_servers set_listener servers_ lpc]. by rewrite P2.
  - by rewrite P5.
  - unfold zlen in *. cbn [app pool_servers] in P3. lia.
  - rewrite Hpc. done.
Qed.

Lemma drain_inv y :
  inv p lfd y -> lpc y = L_drain -> work_q_sz_ (shared y) <= 0 ->
  inv p lfd (goto L_join (set_servers (map requestStop (servers_ y)) y)).
Proof.
  intros [J1 J2 J3 J4 J5 J6 J7 J8 J9] Hpc Hw.
  assert (forall f : TCPServer -> list Z, (forall sv, f (requestStop sv) = f sv) ->
            flat_map f (map requestStop (servers_ y)) = flat_map f (servers_ y)) as Hm.
  { intros f Hf. clear -Hf. induction (servers_ y) as [|sv r IH]; [done|]. cbn. by rewrite Hf, IH. }
  assert (workload_ (shared y) = []) as Hwl.
  { apply zlen_nil. pose proof (zlen_nonneg (workload_ (shared y))).
    pose proof (zlen_nonneg (flat_map counted (servers_ y))). lia. }
  constructor; try done; cbn [goto set_servers shared listener servers_ lpc].
  - unfold in_hands in *. cbn [goto set_servers servers_ lpc]. rewrite (Hm held) by done. rewrite Hpc in J2. exact J2.
  - by rewrite (Hm counted).
  - clear -J5. induction (servers_ y) as [|sv r IH]; [constructor|]. inversion_clear J5 as [|? ? Hs Hr].
    constructor; [exact Hs | by apply IH].
  - unfold zlen. by rewrite length_map.
  - intros _. rewrite Hpc in J8. destruct (J8 eq_refl) as (sv & Hin & E). exists (requestStop sv).
    split; [|done]. apply list_elem_of_In, in_map, list_elem_of_In, Hin.
Qed.

Lemma stopped_hands servers sh :
  Forall (server_ok sh) servers -> forallb has_stopped_ servers = true ->
  flat_map held servers = [] /\ flat_map counted servers = [].
Proof.
  induction 1 as [|sv r [Hs _] _ IH]; [done|]. cbn. intros H. apply andb_true_iff in H as [H1 H2].
  destruct (IH H2) as [-> ->]. unfold held, counted, held. by rewrite (Hs H1).
Qed.

Lemma join_inv y :
  inv p lfd y -> lpc y = L_join -> forallb has_stopped_ (servers_ y) = true ->
  inv p lfd (goto (L_close (map (fun c => socket (snd c)) (map_to_list (clients_ (shared y))))) (set_servers [] y)).
Proof.
  intros [J1 J2 J3 J4 J5 J6 J7 J8 J9] Hpc Hst. destruct (stopped_hands _ _ J5 Hst) as [E1 E2].
  unfold in_hands in J2. rewrite E1, Hpc in J2. rewrite Hpc in J6. cbn in J6.
  constructor; try done; cbn [goto set_servers shared listener servers_ lpc].
  - by rewrite J3, E2.
  - split_and!; [done| |].
    + apply (NoDup_fmap_2_strong (fun c => socket (snd c))); [|apply NoDup_map_to_list].
      intros [k1 w1] [k2 w2] H1 H2 E. apply elem_of_map_to_list in H1, H2. cbn in E.
      pose proof (client_socket_inj _ _ _ _ _ _ _ J2 H1 H2 E) as ->. congruence.
    + intros s Hin. apply list_elem_of_In, in_map_iff in Hin as ([k w] & <- & Hin).
      exists k, w. split; [|done]. by apply elem_of_map_to_list, list_elem_of_In.
  - unfold pool_bound, zlen. cbn. lia.
Qed.

Lemma close_inv y s todo failed :
  inv p lfd y -> fault y = false -> lpc y = L_close (s :: todo) ->
  let y' := critical (closeSocket s failed) y (fun _ => goto (L_close todo)) (goto L_done) in
  inv p lfd y' /\ fault y' = false.
Proof.
  intros [J1 J2 J3 J4 J5 J6 J7 J8 J9] Hf Hpc. cbv zeta. rewrite Hpc in J6. destruct J6 as (Hw & Hnd & Hall).
  assert (servers_ y = []) as Es by (apply J9; by rewrite Hpc).
  apply NoDup_cons in Hnd as [Hn Hnd]. destruct (Hall s ltac:(by left)) as (fd & w & Hc & <-).
  assert (in_hands y = []) as Eh by (unfold in_hands; by rewrite Es, Hpc). rewrite Eh in J2.
  assert (fd ∉ owned [] (shared y)) as Hfd by (unfold owned; rewrite Hw; apply not_elem_of_nil).
  destruct (closeSocket_ok lfd [] _ fd w failed J2 Hfd Hc) as (sh' & E & Hok & Hloc & W1 & W2 & W3).
  assert (forall q, running q = false -> not_yet_queued q = [] -> listener_ok lfd sh' q ->
            inv p lfd (goto q (set_shared sh' y))) as K.
  { intros q Hq Hh Hl. constructor; try done; cbn [goto set_shared shared listener servers_ lpc].
    - unfold in_hands. cbn [goto set_shared servers_ lpc]. by rewrite Es, Hh.
    - rewrite W1, W2. done.
    - rewrite W3, map_size_delete, Hc. lia.
    - rewrite Es. constructor.
    - congruence. }
  unfold critical. rewrite E. destruct failed as [e|]; (split; [|done]); apply K; try done.
  split_and!; [by rewrite W1 | done |]. intros s Hin. destruct (Hall s ltac:(by right)) as (fd' & w' & Hc' & <-).
  exists fd', w'. split; [|done]. rewrite W3, lookup_delete_ne; [done|]. intros ->. rewrite Hc' in Hc.
  injection Hc as ->. done.
Qed.

Lemma wants_server_bound work pool : wants_server p work pool = true -> pool + 1 <= pool_bound p.
Proof. unfold wants_server, pool_bound. intros H. breflect. lia. Qed.

Lemma same_logStats tod l : same_listener l (logStats tod l).
Proof. unfold logStats, same_listener. by case_bool. Qed.

Lemma same_warn_queue tod n w l : same_listener l (warn_queue tod n w l).
Proof. unfold warn_queue, same_listener. by case_bool. Qed.

(** A step of the listener preserves the invariant, also when it touches a dead object. *)
Lemma listener_step_inv y l y' :
  inv p lfd y -> fault y = false -> listener_step l y = Some y' -> inv p lfd y'.
Proof.
  intros Hinv Hf. pose proof Hinv as [[J1 J1'] J2 J3 J4 J5 J6 J7 J8 J9]. unfold listener_step. rewrite J1.
  assert (forall z q, inv p lfd z -> lpc z = lpc y -> not_yet_queued q = not_yet_queued (lpc y) ->
            running q = true -> running (lpc y) = true -> listener_ok lfd (shared z) q ->
            inv p lfd (goto q z)) as G by (intros z q Hz Ez E1 E2 E3 E4; apply inv_goto; congruence).
  assert (forall z, inv p lfd z -> lpc z = lpc y -> running (lpc y) = true -> inv p lfd (stop_run z)) as SR
    by (intros z Hz Ez Er; apply inv_stop_run; congruence).
  destruct (lpc y) as [| | | |last c| |[|[fd events] evs]|evs|s evs|fd s evs|s [|call calls] evs|s evs| | | |[|s todo]|] eqn:Hpc;
    destruct l as [tod|sid tod|tod [evs'|errno]|fd' s'|s'|errno s'|failed|tod idle sid]; try done.
  - case_bool; [done|]. intros [= <-]. by apply G.
  - case_bool; [|done]. intros [= <-]. breflect. apply inv_spawn; [done| by rewrite Hpc |]. unfold pool_bound. lia.
  - intros [= <-]. apply G; try done. apply inv_set_listener; [done|apply same_logStats].
  - case_bool; [done|]. intros [= <-]. by apply G.
  - case_bool; [|done]. intros [= <-]. breflect. apply inv_spawn; [done| by rewrite Hpc |]. by eapply wants_server_bound.
  - intros [= <-]. apply G; try done; by case_bool.
  - case_bool; intros [= <-]; apply G; try done. by apply inv_stats.
  - cbv zeta. cbn [set_listener shared]. case_bool; [|done]. intros [= <-]. by apply poll_inv.
  - cbv zeta. intros [= <-]. case_bool; [apply G | apply SR]; try done; (apply inv_set_listener; [done|apply same_warn_queue]).
  - intros [= <-]. by apply G.
  - intros [= <-]. by apply event_inv.
  - case_bool; [|done]. intros [= <-]. apply andb_true_iff in Heqb as [Hfd Hs].
    unfold fresh_fd in Hfd. apply andb_true_iff in Hfd as [Hfd Hu]. breflect.
    unfold fresh_address in Hs. apply andb_true_iff in Hs as [_ Hs]. apply bool_decide_eq_true in Hs.
    apply accept_inv; try done; try (by rewrite Hpc). split; [done|]. exists (mkBaseSocket fd' true). cbn.
    rewrite lookup_insert_eq. split_and!; [done | lia | congruence |].
    apply eq_None_not_Some. intros [w Hw]. apply (clients_ok _ _ _ J2) in Hw as (_ & _ & _ & _ & o & Ho & E).
    by apply (fd_in_use_false _ _ _ _ Hu Ho).
  - case_bool; [|done]. intros [= <-]. apply andb_true_iff in Heqb as [_ Hs]. apply bool_decide_eq_true in Hs.
    by apply accept_inv; try (by rewrite Hpc).
  - case_bool; [|done]. intros [= <-]. apply andb_true_iff in Heqb as [_ Hs].
    apply andb_true_iff in Hs as [_ Hs]. apply bool_decide_eq_true in Hs.
    by apply accept_inv; try (by rewrite Hpc).
  - intros [= <-]. by apply accepted_inv.
  - intros [= <-]. by apply push_inv with fd.
  - intros [= <-]. by apply G.
  - intros [= <-]. by apply config_inv.
  - intros [= <-]. by apply again_inv.
  - by apply clean_inv.
  - case_bool; [done|]. intros [= <-]. breflect. by apply drain_inv.
  - case_bool; [|done]. intros [= <-]. by apply join_inv.
  - intros [= <-]. constructor; try done. unfold in_hands in *. by rewrite Hpc in J2.
  - intros [= <-]. by apply close_inv.
Qed.

(** ** Every reachable state satisfies the invariant *)

Lemma exec_inv y l y' : inv p lfd y -> exec l y = Some y' -> inv p lfd y'.
Proof.
  intros Hinv. unfold exec. destruct (fault y) eqn:Hf; [done|]. destruct l as [l|i l|tod|].
  - by apply listener_step_inv.
  - destruct (servers_ y !! i) as [sv|] eqn:Hi; [|done]. intros E. by eapply server_step_inv.
  - intros [= <-]. by apply inv_set_listener.
  - intros [= <-]. by apply inv_set_listener.
Qed.

Lemma reachable_inv server tod y : reachable (System_init p lfd server tod) y -> inv p lfd y.
Proof.
  induction 1 as [|y l y' _ IH Hs]; [apply inv_initial|]. destruct Hs as [l y' E]. by eapply exec_inv.
Qed.
End Invariant.

(** ** Theorems *)

Definition limits_ok (p : Params) : Prop := 0 <= maxconnections p < 2 ^ 64.

(** C3 At every point of every interleaving, a connection is in at most one place: queued
    once, or in the hands of one server, or entered by the listener and not yet queued, or
    registered with epoll; and wherever it is, it is a client.  The listener's calls on an
    accepted socket behind its queueing are not a place. *)
Theorem connection_in_at_most_one_place p lfd server tod y :
  limits_ok p -> reachable (System_init p lfd server tod) y ->
  NoDup (workload_ (shared y) ++ flat_map held (servers_ y) ++ not_yet_queued (lpc y)) /\
  (forall fd, fd ∈ workload_ (shared y) ++ flat_map held (servers_ y) ++ not_yet_queued (lpc y) ->
     is_Some (clients_ (shared y) !! fd) /\ epoll (shared y) !! fd = None) /\
  (forall fd, is_Some (epoll (shared y) !! fd) -> fd = lfd \/ is_Some (clients_ (shared y) !! fd)).
Proof.
  intros Hp Hr. destruct (inv_shared _ _ _ (reachable_inv p lfd Hp _ _ _ Hr)) as [H1 H2 H3 H4 H5].
  split; [exact H1|]. split; [|exact H4]. intros fd Hin. by split; [apply H2 | apply H3].
Qed.

Definition demo_params : Params := mkParams 2 4 3 128 16384 32768 (300 # 1) 16 200 4000 40 300 0 0 true.
Definition demo_init : System := System_init demo_params 3 100 0.

(** A connection accepted as descriptor 7, queued, and popped by the first server. *)
Definition demo_accept : list label :=
  map ListenerStep
    [Spawn 101 0; Run 0; Run 0; Run 0; Run 0; Polled 0 (inl [(3, 1)]); Run 0; AcceptOk 7 5000; Closing None; Run 0].
Definition demo_popped : list label := demo_accept ++ [ServerStep 0 (Wake 1); ServerStep 0 Pop].
Definition after (ls : list label) : System := default demo_init (execs ls demo_init).

Lemma after_reachable ls : is_Some (execs ls demo_init) -> reachable demo_init (after ls).
Proof.
  intros [y E]. unfold after. rewrite E. cbn [default]. eapply execs_reachable; [apply reachable_refl | exact E].
Qed.

Lemma connection_in_at_most_one_place_witness :
  flat_map held (servers_ (after demo_popped)) = [7] /\
  (7 ∈ workload_ (shared (after demo_popped)) ++ flat_map held (servers_ (after demo_popped)) ++
     not_yet_queued (lpc (after demo_popped)) ->
   is_Some (clients_ (shared (after demo_popped)) !! 7) /\ epoll (shared (after demo_popped)) !! 7 = None).
Proof.
  split; [by vm_compute|].
  apply (connection_in_at_most_one_place demo_params 3 100 0 (after demo_popped)).
  - vm_compute. split; congruence.
  - apply after_reachable. vm_compute. by eexists.
Defined.

(** C4 No step of a server touches a freed work item, connection data or socket: in a
    reachable state without fault, the step leaves no fault. *)
Theorem servers_touch_live_objects p lfd server tod y i l y' :
  limits_ok p -> reachable (System_init p lfd server tod) y ->
  step y (ServerStep i l) y' -> fault y' = false.
Proof.
  intros Hp Hr Hs. pose proof (reachable_inv p lfd Hp _ _ _ Hr) as Hinv.
  inversion Hs as [l' y'' E]. subst. unfold exec in E. destruct (fault y) eqn:Hf; [done|].
  destruct (servers_ y !! i) as [sv|] eqn:Hi; [|done]. by eapply server_step_inv.
Qed.

Lemma servers_touch_live_objects_witness :
  fault (after (demo_popped ++ [ServerStep 0 (Handshake (Some (true, (0, 0))))])) = false.
Proof.
  apply (servers_touch_live_objects demo_params 3 100 0 (after demo_popped) 0 (Handshake (Some (true, (0, 0))))).
  - vm_compute. split; congruence.
  - apply after_reachable. vm_compute. by eexists.
  - constructor. vm_compute. reflexivity.
Defined.

(** C20 The atomic counter [work_q_sz_] is exactly the number of connections queued plus
    those a server has popped and not begun to release; it never exceeds the client
    limit and so never wraps. *)
Theorem work_counter_exact p lfd server tod y :
  limits_ok p -> reachable (System_init p lfd server tod) y ->
  work_q_sz_ (shared y) = zlen (workload_ (shared y)) + zlen (flat_map counted (servers_ y)) /\
  0 <= work_q_sz_ (shared y) <= maxconnections p.
Proof.
  intros Hp Hr. pose proof (reachable_inv p lfd Hp _ _ _ Hr) as Hinv.
  split; [by apply (inv_count _ _ _ Hinv) | by eapply work_bound].
Qed.

Lemma work_counter_exact_witness :
  work_q_sz_ (shared (after demo_popped)) = 1 /\ workload_ (shared (after demo_popped)) = [] /\
  0 <= work_q_sz_ (shared (after demo_popped)) <= 3.
Proof.
  split; [by vm_compute|]. split; [by vm_compute|].
  apply (work_counter_exact demo_params 3 100 0 (after demo_popped)).
  - vm_compute. split; congruence.
  - apply after_reachable. vm_compute. by eexists.
Defined.

(** C21 The configured limits hold throughout: at most [maxconnections] clients, at most
    max(1, minservers, maxservers) servers, and as long as the listener has not shut
    down its pool, the initial server is one of them. *)
Theorem limits_respected p lfd server tod y :
  limits_ok p -> reachable (System_init p lfd server tod) y ->
  Z.of_nat (size (clients_ (shared y))) <= maxconnections p /\
  zlen (servers_ y) <= pool_bound p /\
  (running (lpc y) = true -> exists sv, sv ∈ servers_ y /\ id sv = init_server_ (listener y)).
Proof.
  intros Hp Hr. pose proof (reachable_inv p lfd Hp _ _ _ Hr) as [J1 J2 J3 J4 J5 J6 J7 J8 J9]. done.
Qed.

Lemma limits_respected_witness :
  size (clients_ (shared (after demo_popped))) = 1%nat /\ zlen (servers_ (after demo_popped)) <= 4.
Proof.
  split; [by vm_compute|].
  apply (limits_respected demo_params 3 100 0 (after demo_popped)).
  - vm_compute. split; congruence.
  - apply after_reachable. vm_compute. by eexists.
Defined.

Lemma server_step_lpc l sv y i y' : server_step l sv y (put_server i) = Some y' -> lpc y' = lpc y.
Proof.
  assert (forall A (m : X Shared A) k h, (forall a z, lpc (k a z) = lpc z) -> (forall z, lpc (h z) = lpc z) ->
            lpc (critical m y k h) = lpc y) as C.
  { intros A m k h Hk Hh. unfold critical. destruct (m (shared y)) as [[a|[]|] sh]; by rewrite ?Hk, ?Hh. }
  unfold server_step. destruct (pc sv), l; try done; try (case_bool; [|done]); intros [= <-]; try done;
    try (unfold stage_step); apply C; try done; intros; by try case_bool.
Qed.

(** *** A deleted socket stays deleted until the listener accepts again *)

Definition keeps_gone (s : Z) {A} (m : X Shared A) : Prop :=
  forall sh, sockets sh !! s = None -> sockets (snd (m sh)) !! s = None.

Lemma keeps_chain_bind s {A B} (m : X Shared A) (k : A -> X Shared B) :
  keeps_gone s m -> (forall a, keeps_gone s (k a)) -> keeps_gone s (xbind m k).
Proof.
  intros Hm Hk sh Hs. unfold xbind. specialize (Hm sh Hs). destruct (m sh) as [[a|e|] sh']; cbn in *; [by apply Hk | done | done].
Qed.

Lemma keeps_same s {A} (m : X Shared A) : (forall sh, sockets (snd (m sh)) = sockets sh) -> keeps_gone s m.
Proof. intros Hm sh Hs. by rewrite Hm. Qed.

Lemma deref_socket_same s sh : sockets (snd (deref_socket s sh)) = sockets sh.
Proof. unfold deref_socket. by destruct (sockets sh !! s). Qed.
Lemma client_at_same fd sh : sockets (snd (client_at fd sh)) = sockets sh.
Proof. unfold client_at. by destruct (clients_ sh !! fd). Qed.

Lemma keeps_close s s' failed : keeps_gone s (socket_close s' failed).
Proof.
  intros sh Hs. unfold socket_close, xbind, deref_socket. destruct (sockets sh !! s') as [o|] eqn:Ho; [|done].
  assert (Hne : s' <> s) by congruence. destruct (fd_ o =? -1); [done|]. destruct failed; cbn; by rewrite lookup_insert_ne.
Qed.

Lemma keeps_closeSocket s s' failed : keeps_gone s (closeSocket s' failed).
Proof.
  apply keeps_chain_bind; [apply keeps_same, deref_socket_same | intros o]. apply keeps_chain_bind; [apply keeps_same, client_at_same | intros _].
  apply keeps_chain_bind; [by apply keeps_same | intros _]. apply keeps_chain_bind; [apply keeps_close | intros _].
  intros sh Hs. cbn. by rewrite lookup_delete_None; right.
Qed.

Lemma keeps_release s s' c refused failed : keeps_gone s (release_locked s' c refused failed).
Proof.
  unfold release_locked. destruct (state_and c Shut); [apply keeps_closeSocket|].
  apply keeps_chain_bind; [|intros _; apply keeps_chain_bind; [apply keeps_same, deref_socket_same|]; intros o;
                      apply keeps_chain_bind; [apply keeps_same, client_at_same|]; intros w; by apply keeps_same].
  unfold pollAdd. apply keeps_chain_bind; [apply keeps_same, deref_socket_same|]. intros o. apply keeps_same. intros sh.
  unfold xbind, epoll_ctl. by destruct (epoll sh !! fd_ o), refused.
Qed.

Lemma critical_keeps s {A} (m : X Shared A) y k h : keeps_gone s m -> sockets (shared y) !! s = None ->
  (forall a z, shared (k a z) = shared z) -> (forall z, shared (h z) = shared z) -> sockets (shared (critical m y k h)) !! s = None.
Proof.
  intros Hm Hs Hk Hh. unfold critical. specialize (Hm _ Hs). destruct (m (shared y)) as [[a|[]|] sh]; by rewrite ?Hk, ?Hh.
Qed.

Lemma stage_item_same fd flag d sh : sockets (snd (stage_item fd flag d sh)) = sockets sh.
Proof.
  unfold stage_item, xbind, deref_work, deref_socket. destruct (clients_ sh !! fd) as [w|]; [|done].
  destruct (state_and (state w) flag); [|done]. destruct (sockets sh !! socket w); [|done]. by destruct (d && negb (data w)).
Qed.

Lemma server_step_gone s l sv y i y' : sockets (shared y) !! s = None ->
  server_step l sv y (put_server i) = Some y' -> sockets (shared y') !! s = None.
Proof.
  intros Hs. unfold server_step. destruct (pc sv), l; try done; try (case_bool; [|done]); intros [= <-]; try done; try (unfold stage_step);
    (apply critical_keeps; [|done|intros; by try case_bool|done]);
    first [ apply keeps_release | apply keeps_same, stage_item_same | apply keeps_same; intros sh; unfold popWork, release_count; by try case_match ].
Qed.

(** A step of a server, of the timer or of [stop()]. *)
Definition others_step (y y' : System) : Prop := exists l, (forall k, l <> ListenerStep k) /\ step y l y'.

Lemma others_gone p lfd server tod s y y' : limits_ok p -> reachable (System_init p lfd server tod) y ->
  others_step y y' -> fault y = false -> sockets (shared y) !! s = None ->
  reachable (System_init p lfd server tod) y' /\ fault y' = false /\ sockets (shared y') !! s = None /\ lpc y' = lpc y.
Proof.
  intros Hp Hr (l & Hl & Hs) Hf Hgone. split; [by eapply reachable_step|]. inversion Hs as [l' z E]. subst. unfold exec in E. rewrite Hf in E.
  destruct l as [l|i l|t|]; [by destruct (Hl l) | | by injection E as <- | by injection E as <-].
  destruct (servers_ y !! i) as [sv|] eqn:Hi; [|done]. split; [|by split; [eapply server_step_gone | eapply server_step_lpc]].
  by eapply (server_step_inv p lfd Hp y i sv l y' (reachable_inv p lfd Hp _ _ _ Hr)).
Qed.

(** The server's answer to a failed handshake, up to the release of the connection. *)
Definition demo_failing : list label :=
  demo_popped ++ map (ServerStep 0) [Handshake (Some (false, (0, 0))); Reading None; Shutting None; Release].

(** C39 The listener configures an accepted socket after it has queued it.  In every
    reachable state in which calls of the configuration are left to make and a server is
    about to release that connection as one to close (its handshake failed, or its peer
    left), the server's step closes and deletes the socket without fault; whatever the
    servers and the timer do from there on, the next step of the listener is its call on
    the deleted object. *)
Theorem accepted_socket_used_after_delete p lfd server tod y i sv fd s c call calls evs :
  limits_ok p -> reachable (System_init p lfd server tod) y -> fault y = false ->
  lpc y = L_config s (call :: calls) evs ->
  servers_ y !! i = Some sv -> pc sv = S_finish fd s c -> state_and c Shut = true ->
  exists y1, step y (ServerStep i (Finish None None)) y1 /\ fault y1 = false /\ sockets (shared y1) !! s = None /\
    forall y2, rtc others_step y1 y2 -> fault y2 = false /\
      (exists l y3, step y2 (ListenerStep l) y3) /\ (forall l y3, step y2 (ListenerStep l) y3 -> fault y3 = true).
Proof.
  intros Hp Hr Hf Hpc Hi Hsv Hc. pose proof (reachable_inv p lfd Hp _ _ _ Hr) as Hinv.
  destruct (finish_closes p lfd y i sv fd s c Hinv Hi Hsv Hc) as (sh' & Hrun & Hgone).
  set (y1 := put_server i (set_pc S_pop ssReleaseWorkDone sv) (set_shared sh' y)). exists y1.
  assert (Hs1 : step y (ServerStep i (Finish None None)) y1).
  { constructor. unfold exec, server_step. rewrite Hf, Hi, Hsv. by erewrite critical_ok. }
  split; [done|]. split; [done|]. split; [done|]. intros y2 Hothers.
  assert (Hy2 : reachable (System_init p lfd server tod) y2 /\ fault y2 = false /\ sockets (shared y2) !! s = None /\ lpc y2 = lpc y).
  { assert (Hy1 : reachable (System_init p lfd server tod) y1 /\ fault y1 = false /\ sockets (shared y1) !! s = None /\ lpc y1 = lpc y)
      by (by split; [eapply reachable_step|]).
    clearbody y1. clear Hs1. revert Hy1. induction Hothers as [|z1 z2 z3 Hz _ IH]; [done|]. intros (Hr1 & Hf1 & Hg1 & Hl1). apply IH.
    destruct (others_gone _ _ _ _ s _ _ Hp Hr1 Hz Hf1 Hg1) as (Hr2 & Hf2 & Hg2 & Hl2). by rewrite Hl2. }
  destruct Hy2 as (_ & Hf2 & Hg2 & Hl2). rewrite Hpc in Hl2. split; [done|].
  assert (Hcrash : critical (sock_call s call) y2 (fun _ => goto (L_config s calls evs)) stop_run = crash (set_shared (shared y2) y2)).
  { unfold critical, sock_call, xbind, deref_socket. by rewrite Hg2. }
  split.
  - exists (Run 0). eexists. constructor. unfold exec, listener_step. by rewrite Hf2, Hl2, Hcrash.
  - intros l y3 Hs3. inversion Hs3 as [l' z E]. subst. unfold exec, listener_step in E. rewrite Hf2, Hl2 in E.
    destruct l; try done. rewrite Hcrash in E. by injection E as <-.
Qed.

Lemma accepted_socket_used_after_delete_witness :
  lpc (after demo_failing) = L_config 5000 (config_calls demo_params) [] /\
  exists y1, step (after demo_failing) (ServerStep 0 (Finish None None)) y1 /\ fault y1 = false /\ sockets (shared y1) !! 5000 = None /\
    forall y2, rtc others_step y1 y2 -> fault y2 = false /\
      (exists l y3, step y2 (ListenerStep l) y3) /\ (forall l y3, step y2 (ListenerStep l) y3 -> fault y3 = true).
Proof.
  split; [by vm_compute|].
  refine (accepted_socket_used_after_delete demo_params 3 100 0 (after demo_failing) 0 _ 7 5000 _ _ _ _ _ _ _ _ _ _ _).
  - vm_compute. split; congruence.
  - apply after_reachable. vm_compute. by eexists.
  - by vm_compute.
  - vm_compute. reflexivity.
  - vm_compute. reflexivity.
  - vm_compute. reflexivity.
  - vm_compute. reflexivity.
Defined.

(** A connection beyond the limit: the listener closes and deletes the accepted socket
    and then evaluates the condition of the accept loop on it. *)
Theorem connection_limit_reads_deleted_socket p lfd server tod y s evs :
  limits_ok p -> reachable (System_init p lfd server tod) y -> fault y = false ->
  lpc y = L_accepted s evs -> maxconnections p <= Z.of_nat (size (clients_ (shared y))) ->
  exists y1 y2, step y (ListenerStep (Closing None)) y1 /\ fault y1 = false /\
    step y1 (ListenerStep (Run 0)) y2 /\ fault y2 = true.
Proof.
  intros Hp Hr Hf Hpc Hsz. pose proof (reachable_inv p lfd Hp _ _ _ Hr) as [[J1 _] J2 J3 J4 J5 J6 J7 J8 J9].
  rewrite Hpc in J6. destruct J6 as (_ & o & Ho & Hpos & _).
  set (sh' := mkShared (clients_ (shared y)) (workload_ (shared y)) (work_q_sz_ (shared y))
                (delete (fd_ o) (epoll (shared y)))
                (delete s (<[s := mkBaseSocket (-1) (blocking o)]> (sockets (shared y))))).
  set (y1 := goto (L_again s evs) (set_listener (count_refused (listener y)) (set_shared sh' y))).
  exists y1, (crash y1). split_and!; try done.
  - constructor. unfold exec, listener_step. rewrite Hf, Hpc. unfold handle_accepted. rewrite J1.
    rewrite (proj2 (Z.leb_le _ _) Hsz). erewrite critical_ok; [reflexivity|].
    unfold socket_close, xbind at 1. erewrite xbind_ok by (apply deref_socket_ok; exact Ho).
    destruct (Z.eqb_spec (fd_ o) (-1)); [lia|]. done.
  - constructor. unfold exec, listener_step, y1. cbn [fault goto set_listener set_shared lpc]. rewrite Hf.
    unfold critical, deref_socket. cbn. by rewrite lookup_delete_eq.
Qed.

(** One connection is allowed; a second one arrives. *)
Definition small_params : Params := mkParams 1 1 1 128 16384 32768 (300 # 1) 16 200 4000 40 300 0 0 true.
Definition small_init : System := System_init small_params 3 100 0.
Definition small_trace : list label :=
  map ListenerStep [Run 0; Run 0; Run 0; Run 0; Polled 0 (inl [(3, 1)]); Run 0; AcceptOk 7 5000; Closing None;
                    Run 0; Run 0; Run 0; Run 0; Run 0; Run 0; Run 0; Run 0; AcceptOk 8 6000].

Lemma connection_limit_reads_deleted_socket_witness :
  exists y1 y2, step (default small_init (execs small_trace small_init)) (ListenerStep (Closing None)) y1 /\
    fault y1 = false /\ step y1 (ListenerStep (Run 0)) y2 /\ fault y2 = true.
Proof.
  apply (connection_limit_reads_deleted_socket small_params 3 100 0 _ 6000 []).
  - vm_compute. split; congruence.
  - apply (execs_reachable small_init small_trace small_init); [apply reachable_refl | by vm_compute].
  - by vm_compute.
  - by vm_compute.
  - vm_compute. congruence.
Defined.

(** The points of [run] after its loop. *)
Definition stopping (q : ListenerPC) : bool :=
  match q with L_drain | L_join | L_close _ | L_done => true | _ => false end.

Lemma stopping_step y l y' : stopping (lpc y) = true -> exec l y = Some y' -> stopping (lpc y') = true.
Proof.
  intros Hs. unfold exec. destruct (fault y); [done|]. destruct l as [l|i l|tod|].
  - unfold listener_step. destruct (lpc y) as [| | | | | | | | | | | | | | |[|s todo]|] eqn:Hpc; try done; destruct l; try done.
    + case_bool; [done|]. by intros [= <-].
    + case_bool; [|done]. by intros [= <-].
    + by intros [= <-].
    + intros [= <-]. unfold critical. destruct (closeSocket s failed (shared y)) as [[u|[]|] sh]; cbn; by rewrite ?Hpc.
  - destruct (servers_ y !! i); [|done]. intros E. apply server_step_lpc in E. congruence.
  - by intros [= <-].
  - by intros [= <-].
Qed.

(** An error of [accept] other than EAGAIN (the peer reset the connection, the process is
    out of descriptors) ends the loop of [run]: whatever happens afterwards, the listener
    never polls or accepts again. *)
Theorem accept_error_ends_service y evs errno s y1 y2 :
  lpc y = L_accept evs -> step y (ListenerStep (AcceptErr errno s)) y1 -> reachable y1 y2 ->
  stopping (lpc y2) = true.
Proof.
  intros Hpc Hs Hr. inversion Hs as [l z E]. subst. induction Hr as [|y2 l y3 _ IH Hs'].
  - unfold exec, listener_step in E. destruct (fault y); [done|]. rewrite Hpc in E.
    destruct (negb (errno =? ecEAGAIN) && fresh_address s y); [|done]. by injection E as <-.
  - inversion Hs' as [l' z E']. subst. by eapply stopping_step.
Qed.

Definition demo_accepting : list label :=
  map ListenerStep [Spawn 101 0; Run 0; Run 0; Run 0; Run 0; Polled 0 (inl [(3, 1)]); Run 0].

Lemma accept_error_ends_service_witness :
  stopping (lpc (after (demo_accepting ++ [ListenerStep (AcceptErr (ec_value ecECONNABORTED) 5000)]))) = true.
Proof.
  apply (accept_error_ends_service (after demo_accepting) [] (ec_value ecECONNABORTED) 5000
           (after (demo_accepting ++ [ListenerStep (AcceptErr (ec_value ecECONNABORTED) 5000)]))).
  - by vm_compute.
  - constructor. by vm_compute.
  - apply reachable_refl.
Defined.

(** While a connection is being served and nothing is queued, an idle server does not
    sleep: it wakes, finds no work and returns to waiting, with the shared state as it
    was and its time of last activity renewed. *)
Theorem idle_server_spins y i sv tod :
  fault y = false -> servers_ y !! i = Some sv -> pc sv = S_wait -> request_stop_ sv = false ->
  workload_ (shared y) = [] -> work_q_sz_ (shared y) <> 0 ->
  exists y', execs [ServerStep i (Wake tod); ServerStep i Pop] y = Some y' /\ shared y' = shared y /\
    servers_ y' !! i = Some (mkServer (id sv) false (has_stopped_ sv) false tod ssWait S_wait).
Proof.
  intros Hf Hi Hpc Hrs Hw Hq. cbn [execs]. unfold exec at 1. rewrite Hf, Hi. unfold server_step. rewrite Hpc.
  rewrite (proj2 (Z.eqb_neq _ _) Hq). cbn [negb orb].
  assert (servers_ (put_server i (server_wake tod sv) y) !! i = Some (server_wake tod sv)) as Hi'.
  { apply list_lookup_insert_eq. by eapply lookup_lt_Some. }
  unfold exec. change (fault (put_server i (server_wake tod sv) y)) with (fault y). rewrite Hf, Hi'.
  unfold server_step. cbn [server_wake pc]. erewrite critical_ok; [|unfold popWork; cbn; rewrite Hw; reflexivity].
  eexists. split; [reflexivity|]. split; [by destruct y as [[]]|]. cbn. unfold server_idle. cbn. rewrite Hrs.
  rewrite list_insert_insert_eq. apply list_lookup_insert_eq. by eapply lookup_lt_Some.
Qed.

Lemma idle_server_spins_witness :
  exists y', execs [ServerStep 1 (Wake 9); ServerStep 1 Pop] (after demo_popped) = Some y' /\
    shared y' = shared (after demo_popped) /\
    servers_ y' !! 1%nat = Some (mkServer 101 false false false 9 ssWait S_wait).
Proof.
  apply (idle_server_spins (after demo_popped) 1 (mkServer 101 false false false 0 ssWait S_wait) 9);
    (by vm_compute) || (vm_compute; congruence).
Defined.
