(* ===== verification/TCPProgress.v ===== *)
(** * TCPProgress: no connection is forgotten; the pool and the throttle

    Over the system of the file TCPSystem: as long as epoll refuses no registration,
    every client is registered with epoll, queued, or in the hands of a thread, so that
    its next event or its current work item is handled.  Then the sequential properties
    of [cleanStoppedServers] and [throttle] (src/src/lib/network/tcplistener.cpp). *)

From Stdlib Require Import QArith.
From S2P Require Import Prelude.
From S2P Require Import SystemError.
From S2P Require Import TCPServer.
From S2P Require Import TCPListener.
From S2P Require Import TCPSystem.

Local Open Scope Z_scope.

(** ** Coverage *)

(** Every client is polled or in someone's hands. *)
Definition covers (others : list Z) (sh : Shared) : Prop :=
  forall fd, is_Some (clients_ sh !! fd) -> is_Some (epoll sh !! fd) \/ fd ∈ owned others sh.

Definition covered (y : System) : Prop := covers (in_hands y) (shared y).

(** A step in which epoll refuses to register a connection. *)
Definition refusal (l : label) : bool :=
  match l with ServerStep _ (Finish (Some _) _) => true | _ => false end.

Inductive reachable_served (y0 : System) : System -> Prop :=
| served_refl : reachable_served y0 y0
| served_step y l y' : reachable_served y0 y -> step y l y' -> refusal l = false -> reachable_served y0 y'.

Lemma served_reachable y0 y : reachable_served y0 y -> reachable y0 y.
Proof. induction 1 as [|y l y' _ IH Hs _]; [apply reachable_refl | by eapply reachable_step]. Qed.

Lemma covers_perm others others' sh : others ≡ₚ others' -> covers others sh -> covers others' sh.
Proof. intros P H fd Hfd. unfold owned in *. rewrite <- P. by apply H. Qed.

Lemma covers_local fd others others' sh sh' :
  covers others sh -> local_to fd sh sh' ->
  (forall k, k <> fd -> k ∈ owned others sh -> k ∈ owned others' sh') ->
  (is_Some (clients_ sh' !! fd) -> is_Some (epoll sh' !! fd) \/ fd ∈ owned others' sh') ->
  covers others' sh'.
Proof.
  intros Hc Hl Ho Hfd k Hk. destruct (decide (k = fd)) as [ -> |Hne]; [by apply Hfd|].
  rewrite (local_clients _ _ _ Hl) in Hk by done. rewrite (local_epoll _ _ _ Hl) by done.
  destruct (Hc k Hk); [by left | right; by apply Ho].
Qed.

Section Coverage.
Context (p : Params) (lfd : Z) (Hmax : limits_ok p).

Lemma covered_split y i sv : servers_ y !! i = Some sv -> covered y -> covers (held sv ++ rest_hands i y) (shared y).
Proof. intros Hi. apply covers_perm. by apply in_hands_split. Qed.

Lemma covered_put y i sv sv' sh' :
  servers_ y !! i = Some sv -> covers (held sv' ++ rest_hands i y) sh' -> covered (put_server i sv' (set_shared sh' y)).
Proof.
  intros Hi. apply covers_perm. unfold in_hands, rest_hands. cbn [put_server set_servers set_shared servers_ lpc].
  by rewrite (flat_map_put held _ _ _ sv' Hi), <- app_assoc.
Qed.

Lemma covered_moves y i sv sv' :
  servers_ y !! i = Some sv -> held sv' = held sv -> covered y -> covered (put_server i sv' y).
Proof.
  intros Hi Hh Hc. replace y with (set_shared (shared y) y) by (by destruct y).
  eapply covered_put; [exact Hi|]. rewrite Hh. by apply covered_split.
Qed.

Lemma covered_stage {A} y i sv fd flag b (r : option (A * traffic)) completed skipped :
  inv p lfd y -> servers_ y !! i = Some sv -> fd ∈ held sv ->
  held (completed sv) = held sv -> held (skipped sv) = held sv -> covered y ->
  covered (stage_step fd flag b r completed skipped sv y (put_server i)).
Proof.
  intros Hinv Hi Hin H1 H2 Hc. destruct (held_client p lfd _ _ _ _ Hinv Hi Hin) as (w & Hw & Hwok).
  unfold stage_step, critical. rewrite (stage_item_ok _ _ _ _ flag b Hw Hwok).
  replace (set_shared (shared y) y) with y by (by destruct y).
  destruct (state_and (state w) flag); [|by eapply covered_moves].
  exact (covered_moves y i sv (completed sv) Hi H1 Hc).
Qed.

Lemma covered_server y i sv l y' :
  inv p lfd y -> servers_ y !! i = Some sv -> refusal (ServerStep i l) = false ->
  covered y -> server_step l sv y (put_server i) = Some y' -> covered y'.
Proof.
  intros Hinv Hi Href Hc. unfold server_step.
  pose proof (server_of p lfd _ _ _ Hinv Hi) as Hsv. pose proof (inv_shared _ _ _ Hinv) as Hok.
  destruct (pc sv) as [| |fd c|fd c|fd c|fd s c|fd s c|] eqn:Hpc; destruct l; try done.
  - case_bool; [|done]. intros [= <-]. eapply covered_moves; [done| |done]. unfold held. by rewrite Hpc.
  - case_bool; [|done]. intros [= <-]. eapply covered_moves; [done| |done].
    rewrite (proj1 (server_idle_held sv)). unfold held. by rewrite Hpc.
  - intros [= <-]. assert (held sv = []) as Hh by (unfold held; by rewrite Hpc).
    pose proof (covered_split _ _ _ Hi Hc) as Hc'. rewrite Hh in Hc'.
    unfold critical, popWork. destruct (workload_ (shared y)) as [|fd rest] eqn:Hw.
    + eapply covered_put; [done|]. rewrite (proj1 (server_idle_held sv)). exact Hc'.
    + eapply covered_put; [done|]. cbn [held set_pc pc app].
      intros k Hk. destruct (Hc' k Hk) as [|Hin]; [by left|]. right. unfold owned in *. cbn in *.
      rewrite Hw in Hin. by rewrite <- Permutation_middle.
  - intros [= <-]. eapply covered_stage; try done; unfold held; rewrite Hpc; (done || by left).
  - intros [= <-]. eapply covered_stage; try done; unfold held; rewrite Hpc; (done || by left).
  - intros [= <-]. destruct (held_client p lfd y i sv fd Hinv Hi) as (w & Hw & Hwok); [unfold held; rewrite Hpc; by left|].
    unfold critical. rewrite (stage_item_ok _ _ _ _ Shut false Hw Hwok).
    replace (set_shared (shared y) y) with y by (by destruct y).
    eapply covered_moves; [done| |done]. unfold held. by rewrite Hpc.
  - intros [= <-]. unfold critical, release_count, xmodify. eapply covered_put; [done|].
    pose proof (covered_split _ _ _ Hi Hc) as Hc'. unfold held in *. rewrite Hpc in Hc'. exact Hc'.
  - intros [= <-]. destruct refused as [e|]; [done|]. destruct Hsv as [_ Hsv]. rewrite Hpc in Hsv.
    destruct Hsv as (Hfl & w & Hw & <-).
    assert (held sv = [fd]) as Hh by (unfold held; by rewrite Hpc).
    apply (shared_ok_perm _ _ _ _ (in_hands_split _ _ _ Hi)) in Hok. rewrite Hh in Hok.
    pose proof (covered_split _ _ _ Hi Hc) as Hc'. rewrite Hh in Hc'.
    destruct (release_locked_ok lfd _ _ _ _ _ None failed Hok Hw Hfl)
      as (r & sh' & E & Hr & _ & Hloc & E1 & _ & _ & E2).
    assert (covers (rest_hands i y) sh') as K.
    { eapply covers_local; [exact Hc'|exact Hloc| |].
      - intros k Hk Hin. unfold owned in *. rewrite E1. rewrite !elem_of_app in *.
        rewrite list_elem_of_singleton in Hin. destruct Hin as [?|[?|?]]; [by left | done | by right].
      - intros [v Hv]. left. destruct (E2 eq_refl) as [E3|]; [congruence|done]. }
    unfold critical. rewrite E. destruct Hr as [ -> |(what & e & ->)]; by eapply covered_put.
Qed.

(** The queue takes what the listener or epoll lets go of. *)
Lemma covers_push fd others others' sh sh' :
  covers others sh -> local_to fd sh sh' -> workload_ sh' = workload_ sh ++ [fd] ->
  (forall k, k <> fd -> k ∈ others -> k ∈ others') -> covers others' sh'.
Proof.
  intros Hc Hl Hw Ho. eapply covers_local; [exact Hc|exact Hl| |].
  - intros k Hk Hin. unfold owned in *. rewrite Hw, !elem_of_app in *. destruct Hin; [by left; left | right; by apply Ho].
  - intros _. right. unfold owned. rewrite Hw, !elem_of_app, list_elem_of_singleton. by left; right.
Qed.

Lemma covered_event y fd events evs :
  inv p lfd y -> lpc y = L_events ((fd, events) :: evs) -> covered y -> covered (handle_event fd events evs y).
Proof.
  intros Hinv Hpc Hc. pose proof Hinv as [[J1 J1'] J2 J3 J4 J5 J6 J7 J8 J9].
  unfold covered, in_hands in *. rewrite Hpc in *. destruct J6 as [_ Hreg].
  unfold handle_event. case_bool; [done|].
  destruct (Z.eqb_spec fd (listen_fd (listener y))) as [|Hne]; [done|]. case_bool; [|done].
  set (y1 := if has_event events EPOLLIN || has_event events EPOLLPRI then stats count_request y else y).
  assert (servers_ y1 = servers_ y /\ shared y1 = shared y) as [E1 E2] by (unfold y1; by case_bool).
  case_bool; [|by rewrite <- E1, <- E2 in Hc].
  rewrite J1' in Hne. destruct (combined_state_ok events) as [Hfl Hnew].
  destruct (pushWork_fd_ok lfd _ _ fd (combined_state events) J2 (Hreg fd ltac:(by left)) Hne Hnew Hfl)
    as (sh' & E & _ & Hl & W1 & _).
  rewrite (critical_ok _ _ _ _ tt sh') by (by rewrite E2). cbn. rewrite E1. by eapply covers_push.
Qed.

Lemma covered_accepted y s evs failed :
  inv p lfd y -> lpc y = L_accepted s evs -> covered y -> covered (handle_accepted s evs failed y).
Proof.
  intros Hinv Hpc Hc. pose proof Hinv as [[J1 J1'] J2 J3 J4 J5 J6 J7 J8 J9].
  unfold covered, in_hands in *. rewrite Hpc in *. destruct J6 as (_ & o & Ho & H1 & H2 & H3).
  unfold handle_accepted. case_bool.
  - destruct (shared_ok_refuse lfd _ _ s o failed J2 Ho H1 H2 H3) as (sh' & E & _ & E1 & E2 & E3 & E4).
    assert (covers (flat_map held (servers_ y) ++ []) sh') as K by (unfold covers, owned; by rewrite E1, E2, E3).
    unfold critical. rewrite E. by destruct failed.
  - erewrite critical_ok; [|erewrite xbind_ok by (apply deref_socket_ok; exact Ho); reflexivity]. cbn.
    intros k. unfold owned. cbn. rewrite lookup_insert_is_Some', !elem_of_app, list_elem_of_singleton.
    intros [ -> |Hk]; [by right; right; right|]. specialize (Hc k Hk). unfold owned in Hc.
    rewrite !elem_of_app in Hc. destruct Hc as [|[|[|Hk']]]; auto. by apply elem_of_nil in Hk'.
Qed.

Lemma covered_push y fd s evs q :
  inv p lfd y -> lpc y = L_push fd s evs -> not_yet_queued q = [] -> covered y ->
  covered (critical (pushWork s New) y (fun _ y => goto q (stats count_connection y)) stop_run).
Proof.
  intros Hinv Hpc Hq Hc. pose proof Hinv as [[J1 J1'] J2 J3 J4 J5 J6 J7 J8 J9].
  unfold covered, in_hands in *. rewrite Hpc in *. destruct J6 as (_ & w & Hw & <-). cbn [not_yet_queued] in *.
  apply (shared_ok_perm lfd _ (fd :: flat_map held (servers_ y))) in J2; [|symmetry; apply Permutation_cons_append].
  destruct (pushWork_new_ok lfd _ _ fd w J2 Hw) as (sh' & E & _ & Hloc & W1 & _).
  rewrite (critical_ok _ _ _ _ tt sh' E). cbn. rewrite Hq. eapply covers_push; [exact Hc|exact Hloc|done|].
  intros k Hk. rewrite !elem_of_app, list_elem_of_singleton. tauto.
Qed.

Lemma covered_config y s call calls evs :
  lpc y = L_config s (call :: calls) evs -> covered y ->
  covered (critical (sock_call s call) y (fun _ => goto (L_config s calls evs)) stop_run).
Proof.
  intros Hpc Hc. unfold covered, in_hands in *. rewrite Hpc in Hc. cbn [not_yet_queued] in Hc.
  unfold critical, sock_call, deref_socket, xbind. destruct (sockets (shared y) !! s) as [o|]; [|cbn; by rewrite Hpc].
  destruct call; try done. by destruct (isValid o).
Qed.

Lemma covered_clean y tod idle sid y' :
  inv p lfd y -> lpc y = L_clean -> covered y -> clean_step tod idle sid y = Some y' -> covered y'.
Proof.
  intros Hinv Hpc Hc. pose proof Hinv as [[J1 J1'] J2 J3 J4 J5 J6 J7 J8 J9].
  unfold covered, in_hands in *. rewrite Hpc in Hc. cbn [not_yet_queued] in Hc. unfold clean_step.
  case_bool; [|intros [= <-]; cbn; by case_bool]. case_bool; [|done].
  destruct (cleanStoppedServers _ _ _ _) as [pool|e|] eqn:Ec; [| |done].
  2: { destruct e; intros [= <-]; cbn; by rewrite ?Hpc. }
  intros [= <-]. rewrite Hpc in J8.
  destruct (cleanStoppedServers_keeps (params_ (listener y)) idle (TCPServer_started sid tod)
              (server_ok (shared y)) held (mkPool (init_server_ (listener y)) (servers_ y)) pool)
    as (_ & P2 & _ & _); try done; [|by apply J8|].
  - intros sv [Hs _] E. apply Hs in E. unfold held. by rewrite E.
  - cbn in P2 |- *. rewrite P2. by case_bool.
Qed.

Lemma covered_close y s todo failed :
  inv p lfd y -> lpc y = L_close (s :: todo) -> covered y ->
  covered (critical (closeSocket s failed) y (fun _ => goto (L_close todo)) (goto L_done)).
Proof.
  intros [J1 J2 J3 J4 J5 J6 J7 J8 J9] Hpc Hc. rewrite Hpc in J6. destruct J6 as (Hw & _ & Hall).
  assert (servers_ y = []) as Es by (apply J9; by rewrite Hpc).
  destruct (Hall s ltac:(by left)) as (fd & w & Hcl & <-).
  assert (in_hands y = []) as Eh by (unfold in_hands; by rewrite Es, Hpc).
  unfold covered in Hc. rewrite Eh in J2, Hc.
  assert (fd ∉ owned [] (shared y)) as Hfd by (unfold owned; rewrite Hw; apply not_elem_of_nil).
  destruct (closeSocket_ok lfd [] _ fd w failed J2 Hfd Hcl) as (sh' & E & _ & Hloc & W1 & _ & W3).
  assert (covers [] sh') as K.
  { eapply covers_local; [exact Hc|exact Hloc| |].
    - intros k _. unfold owned. by rewrite W1.
    - rewrite W3, lookup_delete_eq. by intros [? ?]. }
  unfold critical. rewrite E. unfold covered, in_hands. destruct failed; cbn; by rewrite Es.
Qed.

Lemma covered_listener y l y' :
  inv p lfd y -> fault y = false -> covered y -> listener_step l y = Some y' -> covered y'.
Proof.
  intros Hinv Hf Hc. pose proof Hinv as [[J1 J1'] J2 J3 J4 J5 J6 J7 J8 J9]. unfold listener_step. rewrite J1.
  pose proof Hc as Hcov. unfold covered, in_hands in Hc.
  assert (forall q l0, not_yet_queued (lpc y) = [] -> not_yet_queued q = [] -> covered (goto q (set_listener l0 y))) as G.
  { intros q l0 E1 E2. unfold covered, in_hands. cbn. rewrite E2. by rewrite E1 in Hc. }
  assert (forall sh', clients_ sh' = clients_ (shared y) -> epoll sh' = epoll (shared y) ->
            workload_ sh' = workload_ (shared y) -> not_yet_queued (lpc y) = [] ->
            covers (flat_map held (servers_ y)) sh') as Same.
  { intros sh' E1 E2 E3 E4. rewrite E4, app_nil_r in Hc. unfold covers, owned. by rewrite E1, E2, E3. }
  destruct (lpc y) as [| | | |last c| |[|[fd events] evs]|evs|s evs|fd s evs|s [|call calls] evs|s evs| | | |[|s todo]|] eqn:Hpc;
    destruct l as [tod|sid tod|tod [evs'|errno]|fd' s'|s'|errno s'|failed|tod idle sid]; try done.
  all: cbn [not_yet_queued] in *; rewrite ?app_nil_r in Hc.
  - case_bool; [done|]. intros [= <-]. apply (G L_loop (listener y)); done.
  - case_bool; [|done]. intros [= <-]. unfold covered, in_hands. cbn. rewrite flat_map_app, Hpc. cbn. by rewrite !app_nil_r.
  - intros [= <-]. by apply G.
  - case_bool; [done|]. intros [= <-]. by apply (G _ (listener y)).
  - case_bool; [|done]. intros [= <-]. unfold covered, in_hands. cbn. rewrite flat_map_app, Hpc. cbn. by rewrite !app_nil_r.
  - intros [= <-]. apply (G _ (listener y)); [done|]. by case_bool.
  - case_bool; intros [= <-]; [apply (G _ (set_last_stats count_throttle (listener y))) | apply (G _ (listener y))]; done.
  - cbv zeta. cbn [set_listener shared]. case_bool; [|done]. intros [= <-].
    destruct (disarm_ok lfd _ evs' _ J2) as (_ & E1 & E2 & E3 & E4).
    unfold covered, in_hands. cbn [goto set_shared servers_ shared lpc set_listener].
    replace (not_yet_queued match evs' with [] => L_clean | _ :: _ => L_events evs' end) with (@nil Z) by (by destruct evs').
    rewrite app_nil_r. intros k. unfold owned. rewrite E1, E2, E4. apply Hc.
  - cbv zeta. intros [= <-]. case_bool; by apply G.
  - intros [= <-]. by apply (G _ (listener y)).
  - intros [= <-]. by apply covered_event.
  - case_bool; [|done]. intros [= <-]. unfold covered, in_hands. cbn. rewrite app_nil_r. by apply Same.
  - case_bool; [|done]. intros [= <-]. unfold covered, in_hands. cbn. rewrite app_nil_r. by apply Same.
  - case_bool; [|done]. intros [= <-]. unfold covered, in_hands. cbn. rewrite app_nil_r. by apply Same.
  - intros [= <-]. by apply covered_accepted.
  - intros [= <-]. by apply covered_push with fd evs.
  - intros [= <-]. by apply (G _ (listener y)).
  - intros [= <-]. by apply covered_config.
  - intros [= <-]. unfold critical, deref_socket, covered, in_hands.
    destruct (sockets (shared y) !! s) as [o|]; [destruct (isValid o)|];
      cbn; rewrite ?Hpc; cbn; rewrite app_nil_r; by apply Same.
  - by apply covered_clean.
  - case_bool; [done|]. intros [= <-]. unfold covered, in_hands. cbn.
    replace (flat_map held (map requestStop (servers_ y))) with (flat_map held (servers_ y)); [by rewrite app_nil_r|].
    clear. induction (servers_ y) as [|sv r IH]; [done|]. cbn. by rewrite IH.
  - case_bool; [|done]. intros [= <-]. destruct (stopped_hands _ _ J5 Heqb) as [E1 _].
    unfold covered, in_hands. cbn. by rewrite <- E1.
  - intros [= <-]. by apply (G _ (listener y)).
  - intros [= <-]. by apply covered_close.
Qed.

Lemma served_covered server tod y : reachable_served (System_init p lfd server tod) y -> covered y.
Proof.
  induction 1 as [|y l y' Hr IH Hs Href].
  - intros fd [w Hw]. cbn in Hw. by rewrite lookup_empty in Hw.
  - pose proof (reachable_inv p lfd Hmax _ _ _ (served_reachable _ _ Hr)) as Hinv.
    inversion Hs as [l' z E]. subst. unfold exec in E. destruct (fault y) eqn:Hf; [done|].
    destruct l as [l|i l|t|].
    + by eapply covered_listener.
    + destruct (servers_ y !! i) as [sv|] eqn:Hi; [|done]. by eapply covered_server.
    + by injection E as <-.
    + by injection E as <-.
Qed.
End Coverage.

(** ** The pool *)

Definition requested (servers : list TCPServer) : nat := length (List.filter request_stop_ servers).

Lemma requested_app a b : requested (a ++ b) = (requested a + requested b)%nat.
Proof. unfold requested. by rewrite List.filter_app, length_app. Qed.

Lemma requested_cons sv r : requested (sv :: r) = ((if request_stop_ sv then 1 else 0) + requested r)%nat.
Proof. unfold requested. cbn. by destruct (request_stop_ sv). Qed.

Section Clean.
Context (params : Params) (idle : Z -> Q) (spawn : TCPServer) (Hspawn : request_stop_ spawn = false).

(** Once [num_stopped] has wrapped, a pass makes no further request. *)
Lemma clean_loop_requests fuel : forall init n seen todo pool,
  n = 0 \/ n = 2 ^ 64 - 1 ->
  clean_loop params idle spawn fuel init n seen todo = Ok pool ->
  (requested (pool_servers pool) <= requested (seen ++ todo) +
     (if (n =? 0)%Z && (minservers params <? zlen (seen ++ todo))%Z then 1 else 0))%nat.
Proof.
  induction fuel as [|f IH]; intros init n seen todo pool Hn; destruct todo as [|sv rest]; simpl clean_loop; try done.
  1,2: intros [= <-]; cbn [pool_servers]; rewrite app_nil_r; lia.
  assert (forall seen' todo', (requested (seen' ++ todo') <= requested (seen ++ sv :: rest))%nat ->
            zlen (seen' ++ todo') <= zlen (seen ++ sv :: rest) ->
            clean_loop params idle spawn f init n seen' todo' = Ok pool ->
            (requested (pool_servers pool) <= requested (seen ++ sv :: rest) +
              (if (n =? 0)%Z && (minservers params <? zlen (seen ++ sv :: rest))%Z then 1 else 0))%nat) as K.
  { intros seen' todo' H1 H2 E. apply IH in E; [|done]. revert E.
    destruct (Z.eqb_spec n 0); cbn [andb]; [|lia].
    destruct (Z.ltb_spec (minservers params) (zlen (seen' ++ todo')));
      destruct (Z.ltb_spec (minservers params) (zlen (seen ++ sv :: rest))); lia. }
  destruct (negb (id sv =? init)).
  - destruct (has_stopped_ sv).
    + apply K; rewrite ?requested_app, ?requested_cons, ?zlen_app, ?zlen_cons; lia.
    + case_bool.
      * intros E. apply andb_true_iff in Heqb as [Heqb _]. apply andb_true_iff in Heqb as [Heqb _].
        apply andb_true_iff in Heqb as [Hn0 Hm]. breflect. subst n. apply IH in E; [|by right].
        rewrite (proj2 (Z.ltb_lt _ _) Hm). cbn [Z.eqb andb]. change (u64 (0 - 1) =? 0) with false in E. cbn [andb] in E.
        rewrite !requested_app in *. rewrite !requested_cons in *. cbn [requestStop request_stop_] in E.
        change (requested []) with 0%nat in E. lia.
      * apply K; rewrite <- app_assoc; cbn [app]; lia.
  - destruct (has_stopped_ sv).
    + destruct rest as [|next rest']; [done|]. intros E. apply IH in E; [|done].
      assert (zlen ((seen ++ [next]) ++ rest' ++ [spawn]) = zlen (seen ++ sv :: next :: rest')) as Ez.
      { rewrite !zlen_app, !zlen_cons. unfold zlen. cbn. lia. }
      rewrite Ez in E. rewrite !requested_app, !requested_cons, Hspawn in *. change (requested []) with 0%nat in *. lia.
    + apply K; rewrite <- app_assoc; cbn [app]; lia.
Qed.

Lemma clean_loop_last_init fuel sv : has_stopped_ sv = true ->
  forall n seen todo, Forall (fun v => id v <> id sv) todo -> (length todo < fuel)%nat ->
  clean_loop params idle spawn fuel (id sv) n seen (todo ++ [sv]) =
    Throw (UndefinedBehaviour (lit "iterator advanced past the end")).
Proof.
  intros Hst. induction fuel as [|f IH]; intros n seen todo Hall Hf; [lia|].
  destruct todo as [|v r]; simpl clean_loop; [by rewrite Z.eqb_refl, Hst|].
  inversion_clear Hall as [|? ? Hv Hr]. rewrite (proj2 (Z.eqb_neq _ _) Hv). cbn [negb length] in *.
  repeat case_bool; apply IH; (done || lia).
Qed.
End Clean.

(** ** Theorems *)

(** C8 As long as epoll refuses no registration, no connection is ever forgotten: each client
    is registered with epoll, waits in the queue, or is in the hands of a server or of
    the listener. *)
Theorem no_connection_forgotten p lfd server tod y fd :
  limits_ok p -> reachable_served (System_init p lfd server tod) y ->
  is_Some (clients_ (shared y) !! fd) ->
  is_Some (epoll (shared y) !! fd) \/
  fd ∈ workload_ (shared y) \/ (exists sv, sv ∈ servers_ y /\ fd ∈ held sv) \/ fd ∈ not_yet_queued (lpc y).
Proof.
  intros Hp Hr Hfd. pose proof (served_covered p lfd Hp _ _ _ Hr fd Hfd) as [|Hin]; [by left|]. right.
  unfold owned, in_hands in Hin. rewrite !elem_of_app in Hin. destruct Hin as [|[Hin|]]; auto.
  right. left. apply list_elem_of_In, in_flat_map in Hin as (sv & Hsv & Hin). exists sv. by rewrite !list_elem_of_In.
Qed.

Fixpoint no_refusal (ls : list label) : bool :=
  match ls with [] => true | l :: r => negb (refusal l) && no_refusal r end.

Lemma execs_served y0 ls : forall y y',
  reachable_served y0 y -> no_refusal ls = true -> execs ls y = Some y' -> reachable_served y0 y'.
Proof.
  induction ls as [|l r IH]; intros y y' Hr Hn; simpl; [by intros [= <-]|].
  simpl in Hn. breflect. destruct (exec l y) as [y1|] eqn:E; [|done]. apply IH; [|done].
  eapply served_step; [done | by constructor | done].
Qed.

Lemma no_connection_forgotten_witness :
  is_Some (epoll (shared (after demo_popped)) !! 7) \/
  7 ∈ workload_ (shared (after demo_popped)) \/
  (exists sv, sv ∈ servers_ (after demo_popped) /\ 7 ∈ held sv) \/ 7 ∈ not_yet_queued (lpc (after demo_popped)).
Proof.
  apply (no_connection_forgotten demo_params 3 100 0 (after demo_popped) 7).
  - vm_compute. split; congruence.
  - apply (execs_served demo_init demo_popped demo_init); [apply served_refl | done | by vm_compute].
  - vm_compute. by eexists.
Defined.

(** A pass of [cleanStoppedServers] visits every server once and returns a pool or runs
    into the defect below; it asks at most one server to stop, and none when the pool is
    not above [minservers]. *)
Theorem clean_stops_at_most_one params idle spawn pool :
  request_stop_ spawn = false ->
  (exists pool', cleanStoppedServers params idle spawn pool = Ok pool' /\
     (requested (pool_servers pool') <= requested (pool_servers pool) +
        (if (minservers params <? zlen (pool_servers pool))%Z then 1 else 0))%nat) \/
  (exists what, cleanStoppedServers params idle spawn pool = Throw (UndefinedBehaviour what)).
Proof.
  intros Hs. unfold cleanStoppedServers.
  destruct (clean_loop_outcome params idle spawn (length (pool_servers pool)) (pool_init pool) 0 []
              (pool_servers pool) ltac:(lia)) as [[pool' E]|[what E]]; [left|right; by exists what].
  exists pool'. split; [done|]. exact (clean_loop_requests params idle spawn Hs _ _ 0 [] (pool_servers pool) pool' (or_introl eq_refl) E).
Qed.

Lemma clean_stops_at_most_one_witness :
  (exists pool', cleanStoppedServers demo_params (fun _ => 1000 # 1) (TCPServer_started 9 0)
                   (mkPool 1 (map (fun i => TCPServer_started i 0) [1; 2; 3; 4])) = Ok pool' /\
     (requested (pool_servers pool') <= 1)%nat) \/
  (exists what, cleanStoppedServers demo_params (fun _ => 1000 # 1) (TCPServer_started 9 0)
                   (mkPool 1 (map (fun i => TCPServer_started i 0) [1; 2; 3; 4])) = Throw (UndefinedBehaviour what)).
Proof.
  exact (clean_stops_at_most_one demo_params (fun _ => 1000 # 1) (TCPServer_started 9 0)
           (mkPool 1 (map (fun i => TCPServer_started i 0) [1; 2; 3; 4])) eq_refl).
Defined.

(** The initial server as the last of the list (a pool of one, or after it has been
    replaced once): when it has stopped, the iterator is advanced past the end. *)
Theorem last_initial_server_overruns params idle spawn servers sv :
  has_stopped_ sv = true -> Forall (fun v => id v <> id sv) servers ->
  cleanStoppedServers params idle spawn (mkPool (id sv) (servers ++ [sv])) =
    Throw (UndefinedBehaviour (lit "iterator advanced past the end")).
Proof.
  intros Hst Hall. unfold cleanStoppedServers. cbn [pool_servers pool_init].
  apply clean_loop_last_init; [done|done|]. rewrite length_app. cbn. lia.
Qed.

Lemma last_initial_server_overruns_witness :
  cleanStoppedServers demo_params (fun _ => 0 # 1) (TCPServer_started 9 0)
    (mkPool 2 [TCPServer_started 1 0; server_dies (TCPServer_started 2 0)]) =
  Throw (UndefinedBehaviour (lit "iterator advanced past the end")).
Proof.
  apply (last_initial_server_overruns demo_params (fun _ => 0 # 1) (TCPServer_started 9 0)
           [TCPServer_started 1 0] (server_dies (TCPServer_started 2 0))); [done|].
  constructor; [done|constructor].
Defined.

Lemma throttle_loop_bound params last observed : forall c,
  0 <= c <= cycle_max_throttles params -> cycle_max_throttles params < 2 ^ 32 ->
  0 <= throttle_loop params last c observed <= cycle_max_throttles params - c.
Proof.
  induction observed as [|work later IH]; intros c Hc Hm; simpl; [lia|].
  case_bool; [|lia]. breflect. specialize (IH (wrap 32 (c + 1))). unfold wrap in *.
  rewrite Z.mod_small in * by lia. lia.
Qed.

(** Whatever the servers do in the meantime, one cycle of the listener sleeps at most
    [cycle_max_throttles] times in [throttle]. *)
Theorem throttle_bounded params work observed :
  0 <= cycle_max_throttles params < 2 ^ 32 ->
  0 <= throttle params work observed <= cycle_max_throttles params.
Proof.
  intros Hp. unfold throttle. case_bool; [|lia].
  pose proof (throttle_loop_bound params work observed 0). lia.
Qed.

Lemma throttle_bounded_witness :
  throttle Params_default 200 (repeat 200 100) = 40 /\
  0 <= throttle Params_default 200 (repeat 200 100) <= 40.
Proof.
  split; [by vm_compute|]. apply (throttle_bounded Params_default 200 (repeat 200 100)).
  vm_compute. split; congruence.
Defined.
