(* ===== verification/SQLite.v ===== *)
(** * SQLite: the wrapper classes of persist::sqlite

    Models src/src/lib/persist/sqlite/sqlite.cpp and
    src/src/include/persist/sqlite/sqlite.hpp: [Database], [Statement], [DDL], [DML] and
    [Query].  The SQLite library is a parameter, the class [SQLite]: its functions over a
    connection of an abstract type [conn], with handles of prepared statements as integers
    (0 is the null pointer).  What the library documents about statements is stated in
    KVEngine.v, as far as the store uses it.

    The member functions of a statement object that do not replace its handle take the
    handle; [prepare], [close] and the destructor work on the pair of connection and
    handle.  An exception that leaves a destructor calls [std::terminate]: the value
    [terminate], which no handler catches. *)

From S2P Require Import Prelude.
From S2P Require Import Bytes.
From S2P Require Import TCPServer.

Local Open Scope Z_scope.

(** ** The library *)

Inductive SqlValue (double : Type) : Type :=
| SNull
| SInteger (z : Z)
| SFloat (d : double)
| SText (s : str)
| SBlob (s : str).
Arguments SNull {double}.
Arguments SInteger {double} z.
Arguments SFloat {double} d.
Arguments SText {double} s.
Arguments SBlob {double} s.

(** Result codes. *)
Definition SQLITE_OK : Z := 0.
Definition SQLITE_ERROR : Z := 1.
Definition SQLITE_CONSTRAINT : Z := 19.
Definition SQLITE_MISUSE : Z := 21.
Definition SQLITE_ROW : Z := 100.
Definition SQLITE_DONE : Z := 101.

(** The type of a value, as [sqlite3_column_type] reports it. *)
Definition SQLITE_INTEGER : Z := 1.
Definition SQLITE_FLOAT : Z := 2.
Definition SQLITE3_TEXT : Z := 3.
Definition SQLITE_BLOB : Z := 4.
Definition SQLITE_NULL : Z := 5.

(** Options of the connection. *)
Definition SQLITE_DBCONFIG_ENABLE_FKEY : Z := 1002.
Definition SQLITE_DBCONFIG_ENABLE_TRIGGER : Z := 1003.
Definition SQLITE_CHECKPOINT_PASSIVE : Z := 0.
Definition SQLITE_CHECKPOINT_FULL : Z := 1.
Definition SQLITE_CHECKPOINT_RESTART : Z := 2.

Class SQLite (double : Type) := {
  conn : Type;
  sqlite3_open_v2 : str -> Z * conn;
  sqlite3_create_function : str -> Z -> conn -> Z * conn;
  sqlite3_close_v2 : conn -> Z;
  sqlite3_prepare_v2 : str -> conn -> Z * Z * str * conn;      (** rc, handle, tail *)
  sqlite3_finalize : Z -> conn -> Z * conn;
  sqlite3_clear_bindings : Z -> conn -> Z * conn;
  sqlite3_reset : Z -> conn -> Z * conn;
  sqlite3_step : Z -> conn -> Z * conn;
  sqlite3_changes : conn -> Z;
  sqlite3_bind_double : Z -> Z -> double -> conn -> Z * conn;
  sqlite3_bind_int : Z -> Z -> Z -> conn -> Z * conn;
  sqlite3_bind_int64 : Z -> Z -> Z -> conn -> Z * conn;
  sqlite3_bind_text : Z -> Z -> str -> conn -> Z * conn;
  sqlite3_bind_blob64 : Z -> Z -> option str -> conn -> Z * conn;   (** [None]: a null pointer *)
  sqlite3_bind_parameter_index : Z -> str -> conn -> Z;
  sqlite3_column_type : Z -> Z -> conn -> Z;
  sqlite3_column_int : Z -> Z -> conn -> Z;
  sqlite3_column_int64 : Z -> Z -> conn -> Z;
  sqlite3_column_double : Z -> Z -> conn -> double;
  sqlite3_column_text : Z -> Z -> conn -> option str;               (** [None]: a null pointer *)
  sqlite3_column_blob : Z -> Z -> conn -> str;
  sqlite3_column_count : Z -> conn -> Z;
  sqlite3_errmsg : conn -> str;
  sqlite3_db_config : Z -> Z -> conn -> Z * conn;
  sqlite3_wal_checkpoint_v2 : Z -> conn -> Z * conn;
  sqlite3_last_insert_rowid : conn -> Z;
  sqlite3_db_release_memory : conn -> conn;
}.

Definition terminate : exn := UndefinedBehaviour (lit "std::terminate").

Section Wrappers.
Context {double : Type} `{SQLite double} `{Allocator}.

(** [if ( r != expected ) throw_Exception( sqlite3_errmsg( database_ ) )] *)
Definition check_rc (expected : Z) (r : Z * conn) : outcome unit * conn :=
  let (rc, c) := r in
  if rc =? expected then (Ok tt, c) else (Throw (DodoException (sqlite3_errmsg c)), c).

Definition call (expected : Z) (f : conn -> Z * conn) : X conn unit := fun c => check_rc expected (f c).

(** ** Statement *)

(** A statement object: the connection it works on, and its handle. *)
Abbreviation Obj := (conn * Z)%type.

Definition with_handle {A} (m : Z -> X conn A) : X Obj A := fun o =>
  let (r, c) := m (snd o) (fst o) in (r, (c, snd o)).

Definition close : X Obj unit := fun o =>
  let (rc, c) := sqlite3_finalize (snd o) (fst o) in
  if rc =? SQLITE_OK then (Ok tt, (c, 0)) else (Throw (DodoException (sqlite3_errmsg c)), (c, 0)).

Definition prepare (sql : str) : X Obj unit :=
  let^ _ := (fun o => if snd o =? 0 then (Ok tt, o) else close o) in
  fun o =>
    let '(rc, stmt, err, c) := sqlite3_prepare_v2 (c_string sql) (fst o) in
    if rc =? SQLITE_OK then (Ok tt, (c, stmt))
    else (Throw (DodoException (sqlite3_errmsg c ++ lit " at '" ++ err ++ lit "' sql='" ++ sql ++ lit "'")), (c, stmt)).

(** [~Statement()], run when the scope of a statement object ends, also by an exception. *)
Definition destroy (o : Obj) : outcome unit * conn :=
  if snd o =? 0 then (Ok tt, fst o)
  else match close o with
       | (Ok _, (c, _)) => (Ok tt, c)
       | (_, (c, _)) => (Throw terminate, c)
       end.

(** A block with a local statement object. *)
Definition scoped {A} (body : X Obj A) : X conn A := fun c =>
  let (r, o) := body (c, 0) in
  match destroy o with
  | (Ok _, c') => (r, c')
  | (_, c') => (Throw terminate, c')
  end.

Definition reset (stmt : Z) (clear : bool) : X conn unit :=
  let^ _ := (if clear then call SQLITE_OK (sqlite3_clear_bindings stmt) else xret tt) in
  call SQLITE_OK (sqlite3_reset stmt).

(** ** DDL *)

Definition ddl_execute (stmt : Z) : X conn unit := call SQLITE_DONE (sqlite3_step stmt).
Definition execute_r (stmt : Z) : X conn Z := fun c => let (rc, c') := sqlite3_step stmt c in (Ok rc, c').

(** [DDL ddl( *this ); ddl.prepare( sql ); ddl.execute();] *)
Definition run_ddl (sql : str) : X conn unit :=
  scoped (let^ _ := prepare sql in with_handle ddl_execute).

(** ** DML *)

Definition execute (stmt : Z) : X conn Z :=
  let^ _ := call SQLITE_DONE (sqlite3_step stmt) in
  fun c => (Ok (sqlite3_changes c), c).

Definition bind_double (stmt position : Z) (value : double) : X conn unit :=
  call SQLITE_OK (sqlite3_bind_double stmt position value).
Definition bind_int (stmt position value : Z) : X conn unit :=
  call SQLITE_OK (sqlite3_bind_int stmt position value).
Definition bind_int64 (stmt position value : Z) : X conn unit :=
  call SQLITE_OK (sqlite3_bind_int64 stmt position value).
(** [value.c_str()] with [static_cast<int>( value.length() )]: a negative length makes the
    library read up to the first zero. *)
Definition text_argument (value : str) : str :=
  let n := int_of (zlen value) in
  if n <? 0 then c_string value else take (Z.to_nat n) value.
Definition bind_text (stmt position : Z) (value : str) : X conn unit :=
  call SQLITE_OK (sqlite3_bind_text stmt position (text_argument value)).

(** [value.getArray()] with [value.getSize()]: a null array is a null pointer. *)
Definition blob_argument (value : Bytes) : outcome (option str) :=
  match array_ value with
  | Some mem =>
      match determinate (take (Z.to_nat (size_ value)) mem) with
      | Some s => Ok (Some s)
      | None => Throw (UndefinedBehaviour (lit "read of an indeterminate octet"))
      end
  | None => Ok None
  end.
Definition bind_bytes (stmt position : Z) (value : Bytes) : X conn unit :=
  let^ data := (fun c => (blob_argument value, c)) in
  call SQLITE_OK (sqlite3_bind_blob64 stmt position data).

(** The overloads that bind by name. *)
Definition bind_named (bind : Z -> X conn unit) (stmt : Z) (name : str) : X conn unit := fun c =>
  let rc := sqlite3_bind_parameter_index stmt (c_string name) c in
  if rc =? 0 then (Throw (DodoException (lit "parameter " ++ name ++ lit " not found i ")), c)
  else bind rc c.
Definition bind_named_double (stmt : Z) (name : str) (v : double) := bind_named (fun i => bind_double stmt i v) stmt name.
Definition bind_named_int (stmt : Z) (name : str) (v : Z) := bind_named (fun i => bind_int stmt i v) stmt name.
Definition bind_named_int64 (stmt : Z) (name : str) (v : Z) := bind_named (fun i => bind_int64 stmt i v) stmt name.
Definition bind_named_text (stmt : Z) (name : str) (v : str) := bind_named (fun i => bind_text stmt i v) stmt name.
Definition bind_named_bytes (stmt : Z) (name : str) (v : Bytes) := bind_named (fun i => bind_bytes stmt i v) stmt name.

(** ** Query *)

Definition step (stmt : Z) : X conn bool := fun c =>
  let (rc, c') := sqlite3_step stmt c in
  if (rc =? SQLITE_DONE) || (rc =? SQLITE_ROW) then (Ok (rc =? SQLITE_ROW), c')
  else (Throw (DodoException (sqlite3_errmsg c')), c').

(** [DataType]: the values of the library and one of the wrapper's own. *)
Definition dtUnknown : Z := 91.

Definition reading {A} (f : conn -> A) : X conn A := fun c => (Ok (f c), c).
Definition isNull (stmt col : Z) : X conn bool := reading (fun c => sqlite3_column_type stmt col c =? SQLITE_NULL).
Definition getDataType (stmt col : Z) : X conn Z := reading (sqlite3_column_type stmt col).
Definition getInt (stmt col : Z) : X conn Z := reading (sqlite3_column_int stmt col).
Definition getInt64 (stmt col : Z) : X conn Z := reading (sqlite3_column_int64 stmt col).
Definition getDouble (stmt col : Z) : X conn double := reading (sqlite3_column_double stmt col).

Definition getText (stmt col : Z) : X conn str :=
  reading (fun c => match sqlite3_column_text stmt col c with Some s => c_string s | None => [] end).

(** [getBytes]: the result is the Bytes argument after the call. *)
Definition getBytes (stmt col : Z) (bytes : Bytes) : X conn Bytes := fun c =>
  let data := sqlite3_column_blob stmt col c in
  (completed (append_mem (map Some data) (zlen data) (free bytes)), c).
Definition getColumnCount (stmt : Z) : X conn Z := reading (sqlite3_column_count stmt).

(** ** Database *)

Definition Database_new (filename : str) : outcome unit * conn :=
  match check_rc SQLITE_OK (sqlite3_open_v2 filename) with
  | (Ok _, c) =>
      (let^ _ := call SQLITE_OK (sqlite3_create_function (lit "power") 2) in
       let^ _ := call SQLITE_OK (sqlite3_create_function (lit "ceil") 1) in
       let^ _ := call SQLITE_OK (sqlite3_create_function (lit "floor") 1) in
       call SQLITE_OK (sqlite3_create_function (lit "log2") 1)) c
  | r => r
  end.

Definition enableForeignKeys : X conn unit := call SQLITE_OK (sqlite3_db_config SQLITE_DBCONFIG_ENABLE_FKEY 1).
Definition disableForeignKeys : X conn unit := call SQLITE_OK (sqlite3_db_config SQLITE_DBCONFIG_ENABLE_FKEY 0).
Definition enableTriggers : X conn unit := call SQLITE_OK (sqlite3_db_config SQLITE_DBCONFIG_ENABLE_TRIGGER 1).

Definition beginTransaction : X conn unit := run_ddl (lit "BEGIN").
Definition beginImmediateTransaction : X conn unit := run_ddl (lit "BEGIN IMMEDIATE").
Definition beginExclusiveTransaction : X conn unit := run_ddl (lit "BEGIN EXCLUSIVE").
Definition commit : X conn unit := run_ddl (lit "COMMIT").
Definition rollback : X conn unit := run_ddl (lit "ROLLBACK").
Definition createSavepoint (sp : str) : X conn unit := run_ddl (lit "SAVEPOINT " ++ sp).
Definition releaseSavepoint (sp : str) : X conn unit := run_ddl (lit "RELEASE " ++ sp).
Definition rollback_to (sp : str) : X conn unit := run_ddl (lit "ROLLBACK TO SAVEPOINT " ++ sp).

Definition lastInsertRowid : X conn Z := fun c =>
  let r := sqlite3_last_insert_rowid c in
  if r =? 0 then (Throw (DodoException (lit "lastInsertRowid failed")), c) else (Ok r, c).

Definition checkPointFull : X conn unit := call SQLITE_OK (sqlite3_wal_checkpoint_v2 SQLITE_CHECKPOINT_FULL).
Definition checkPointPassive : X conn unit := call SQLITE_OK (sqlite3_wal_checkpoint_v2 SQLITE_CHECKPOINT_PASSIVE).
(** The version test of the source (30080303, one digit too many) selects RESTART. *)
Definition checkPointTruncate : X conn unit := call SQLITE_OK (sqlite3_wal_checkpoint_v2 SQLITE_CHECKPOINT_RESTART).

Definition setUserVersion (version : Z) : X conn unit :=
  run_ddl (lit "PRAGMA user_version=" ++ (if version <? 0 then "-"%char :: print_dec (- version) else print_dec version)).

Definition getUserVersion : X conn Z :=
  scoped (let^ _ := prepare (lit "PRAGMA user_version") in
          let^ row := with_handle step in
          if row then with_handle (fun s => getInt s 0)
          else fun o => (Throw (DodoException (sqlite3_errmsg (fst o))), o)).

Definition releaseMemory : X conn unit := fun c => (Ok tt, sqlite3_db_release_memory c).
End Wrappers.

(** ** The SQL functions [power], [ceil], [floor] and [log2] *)

Section Functions.
Context {double : Type}.

(** The mathematical functions of the C library, each with the [errno] it leaves, and the
    text of an error; [value_double] is SQLite's conversion of a value. *)
Variables (pow_ : double -> double -> double * Z) (log2_ ceil_ floor_ : double -> double * Z) (error_text : Z -> str) (value_double : SqlValue double -> double).

(** [sqlite3_result_error( context, text, n )]: the first [n] octets at [text], which ends
    with a zero. *)
Definition result_error (text : str) (n : Z) : outcome str :=
  if zlen text + 1 <? n then Throw (UndefinedBehaviour (lit "read behind the end of a string")) else Ok (take (Z.to_nat n) (text ++ [chr 0])).

(** What the function call yields in SQL: a value or an error. *)
Definition function_result (r : double * Z) : outcome (SqlValue double + str) :=
  let (v, errno) := r in
  if errno =? 0 then Ok (inl (SFloat v)) else let! t := result_error (error_text errno) errno in Ok (inr t).

Definition sqlite_ext_unary (f : double -> double * Z) (a : SqlValue double) : outcome (SqlValue double + str) :=
  match a with SNull => Ok (inl SNull) | _ => function_result (f (value_double a)) end.
Definition sqlite_ext_log2 : SqlValue double -> outcome (SqlValue double + str) := sqlite_ext_unary log2_.
Definition sqlite_ext_ceil : SqlValue double -> outcome (SqlValue double + str) := sqlite_ext_unary ceil_.
Definition sqlite_ext_floor : SqlValue double -> outcome (SqlValue double + str) := sqlite_ext_unary floor_.
Definition sqlite_ext_pow (a b : SqlValue double) : outcome (SqlValue double + str) :=
  match a, b with SNull, _ | _, SNull => Ok (inl SNull) | _, _ => function_result (pow_ (value_double a) (value_double b)) end.

(** The number of the error is passed where the length of its text is expected: a text that
    is shorter than the number, such as that of ERANGE, is read behind its end. *)
Lemma error_number_is_length a b v errno : a <> SNull -> b <> SNull -> pow_ (value_double a) (value_double b) = (v, errno) -> errno <> 0 ->
  zlen (error_text errno) + 1 < errno -> sqlite_ext_pow a b = Throw (UndefinedBehaviour (lit "read behind the end of a string")).
Proof.
  intros Ha Hb Hp He Hl. assert (Hr : function_result (pow_ (value_double a) (value_double b)) = Throw (UndefinedBehaviour (lit "read behind the end of a string"))).
  { unfold function_result. rewrite Hp. destruct (Z.eqb_spec errno 0); [ done | ]. unfold result_error. by rewrite (proj2 (Z.ltb_lt _ _) Hl). }
  unfold sqlite_ext_pow. destruct a, b; done.
Qed.
End Functions.
