(* ===== verification/KVStore.v ===== *)
(** * KVStore: the key-value store over SQLite

    Models src/src/lib/persist/kvstore/kvstore.cpp and
    src/src/include/persist/kvstore/kvstore.hpp over the wrappers of SQLite.v.  The object
    is its eight statement handles; the connection is the state of the computations.  The
    overloads of [insertKey] and [setKey] are one definition over the type [Value] of
    their second argument; those of [getValue] are one definition over the function that
    reads the column.  What the SQL statements do is in KVEngine.v. *)

From S2P Require Import Prelude.
From S2P Require Import Bytes.
From S2P Require Import TCPServer.
From S2P Require Import SQLite.

Local Open Scope Z_scope.

(** ** The SQL of the store *)

Definition sql_journal : str := lit "PRAGMA journal_mode=WAL;".
Definition sql_create : str :=
  lit "CREATE TABLE IF NOT EXISTS kvstore ( " ++
  lit "key TEXT NOT NULL PRIMARY KEY, " ++
  lit "value NOT NULL, " ++
  lit "modified NUMBER NOT NULL DEFAULT ((julianday('now') - 2440587.5) * 86400.0), " ++
  lit "updates INTEGER NOT NULL DEFAULT 0" ++
  lit " )".
Definition sql_case : str := lit "PRAGMA case_sensitive_like=ON;".
Definition sql_optimize : str := lit "PRAGMA optimize;".
Definition sql_begin : str := lit "BEGIN TRANSACTION".
Definition sql_vacuum : str := lit "VACUUM;".
Definition sql_exists : str := lit "SELECT COUNT(1) FROM kvstore WHERE key = ?".
Definition sql_getvalue : str := lit "SELECT value FROM kvstore WHERE key = ?".
Definition sql_insert : str := lit "INSERT INTO kvstore ( key, value ) VALUES ( ?, ? )".
Definition sql_delete : str := lit "DELETE FROM kvstore WHERE key = ?".
Definition sql_update : str :=
  lit "UPDATE kvstore SET value = ?, modified = ((julianday('now') - 2440587.5) * 86400.0), updates = updates + 1 WHERE key = ?".
Definition sql_key_filter : str := lit "SELECT key FROM kvstore WHERE key LIKE ? ORDER BY key".
Definition sql_key_value_filter : str := lit "SELECT key, value FROM kvstore WHERE key LIKE ? ORDER BY key".
Definition sql_metadata : str := lit "SELECT modified, updates, value FROM kvstore WHERE key = ?".

(** ** The object *)

Record KVStore : Type := mkKVStore {
  stmt_exists_ : Z;
  stmt_getvalue_ : Z;
  stmt_insert_ : Z;
  stmt_delete_ : Z;
  stmt_update_ : Z;
  stmt_key_filter_ : Z;
  stmt_key_value_filter_ : Z;
  stmt_metadata_ : Z;
}.

(** [type] has no initialiser: [None] is an indeterminate value. *)
Record MetaData (double : Type) : Type := mkMetaData {
  last_modified : double;
  update_count : Z;
  type : option Z;
}.
Arguments mkMetaData {double} _ _ _.
Arguments last_modified {double} _.
Arguments update_count {double} _.
Arguments type {double} _.

(** The second argument of the overloads of [insertKey] and [setKey]. *)
Inductive Value (double : Type) : Type :=
| VText (s : str)
| VDouble (d : double)
| VInt64 (z : Z)
| VBytes (b : Bytes).
Arguments VText {double} s.
Arguments VDouble {double} d.
Arguments VInt64 {double} z.
Arguments VBytes {double} b.

Section Store.
Context {double : Type} `{SQLite double} `{Allocator} (double_zero : double).

Definition bind_value (stmt position : Z) (v : Value double) : X conn unit :=
  match v with
  | VText s => bind_text stmt position s
  | VDouble d => bind_double stmt position d
  | VInt64 z => bind_int64 stmt position z
  | VBytes b => bind_bytes stmt position b
  end.

(** ** Constructor and destructor *)

Definition createSchema : X conn unit :=
  let^ _ := scoped (let^ _ := prepare sql_journal in with_handle step) in
  run_ddl sql_create.

(** [prepare] of a statement object whose handle is null; the value is its new handle. *)
Definition prepare_member (sql : str) : X conn Z := fun c =>
  match prepare sql (c, 0) with
  | (Ok _, (c', h)) => (Ok h, c')
  | (Throw e, (c', _)) => (Throw e, c')
  | (OutOfFuel, (c', _)) => (OutOfFuel, c')
  end.

(** The local [ddl] lives until the end of the function. *)
Definition prepareSQL : X conn KVStore :=
  scoped
    (let^ _ := prepare sql_case in
     let^ _ := with_handle ddl_execute in
     with_handle (fun _ =>
       let^ exists_ := prepare_member sql_exists in
       let^ getvalue_ := prepare_member sql_getvalue in
       let^ insert_ := prepare_member sql_insert in
       let^ delete_ := prepare_member sql_delete in
       let^ update_ := prepare_member sql_update in
       let^ key_filter_ := prepare_member sql_key_filter in
       let^ key_value_filter_ := prepare_member sql_key_value_filter in
       let^ metadata_ := prepare_member sql_metadata in
       xret (mkKVStore exists_ getvalue_ insert_ delete_ update_ key_filter_ key_value_filter_ metadata_))).

Definition KVStore_new (path : str) : outcome KVStore * conn :=
  match Database_new path with
  | (Ok _, c) => (let^ _ := createSchema in prepareSQL) c
  | (Throw e, c) => (Throw e, c)
  | (OutOfFuel, c) => (OutOfFuel, c)
  end.

Definition checkpoint : X conn unit := checkPointFull.
Definition optimize : X conn unit := run_ddl sql_optimize.
Definition vacuum : X conn unit := run_ddl sql_vacuum.
Definition startTransaction : X conn unit := run_ddl sql_begin.
Definition commitTransaction : X conn unit := commit.
Definition rollbackTransaction : X conn unit := rollback.

(** An exception that leaves the body of a destructor. *)
Definition in_destructor (m : X conn unit) : X conn unit := fun c =>
  match m c with
  | (Throw _, c') => (Throw terminate, c')
  | r => r
  end.

Definition delete_statement (stmt : Z) : X conn unit := fun c => destroy (c, stmt).

Definition KVStore_delete (kv : KVStore) : X conn unit :=
  in_destructor
    (let^ _ := delete_statement (stmt_metadata_ kv) in
     let^ _ := delete_statement (stmt_key_value_filter_ kv) in
     let^ _ := delete_statement (stmt_key_filter_ kv) in
     let^ _ := delete_statement (stmt_update_ kv) in
     let^ _ := delete_statement (stmt_delete_ kv) in
     let^ _ := delete_statement (stmt_insert_ kv) in
     let^ _ := delete_statement (stmt_getvalue_ kv) in
     let^ _ := delete_statement (stmt_exists_ kv) in
     let^ _ := optimize in
     checkpoint).

(** ** Operations *)

Definition deleteKey (kv : KVStore) (key : str) : X conn bool :=
  let^ _ := bind_text (stmt_delete_ kv) 1 key in
  let^ affected := execute (stmt_delete_ kv) in
  let^ _ := reset (stmt_delete_ kv) true in
  xret (affected =? 1).

Definition exists_ (kv : KVStore) (key : str) : X conn bool :=
  let^ _ := bind_text (stmt_exists_ kv) 1 key in
  let^ _ := step (stmt_exists_ kv) in
  let^ count := getInt (stmt_exists_ kv) 0 in
  let^ _ := reset (stmt_exists_ kv) true in
  xret (count =? 1).

Definition filterKeys (fuel : nat) (kv : KVStore) (filter : str) : X conn (list str) :=
  let^ _ := bind_text (stmt_key_filter_ kv) 1 filter in
  let^ keys := xloop fuel (fun keys =>
                 let^ row := step (stmt_key_filter_ kv) in
                 if row then
                   let^ key := getText (stmt_key_filter_ kv) 0 in
                   xret (inl (keys ++ [key]))
                 else xret (inr keys)) [] in
  let^ _ := reset (stmt_key_filter_ kv) true in
  xret keys.

Definition getMetaData (kv : KVStore) (key : str) : X conn (MetaData double) :=
  let data := mkMetaData double_zero 0 None in
  let^ _ := bind_text (stmt_metadata_ kv) 1 key in
  let^ row := step (stmt_metadata_ kv) in
  let^ data := (if row then
                  let^ m := getDouble (stmt_metadata_ kv) 0 in
                  let^ n := getInt64 (stmt_metadata_ kv) 1 in
                  let^ t := getDataType (stmt_metadata_ kv) 2 in
                  xret (mkMetaData m n (Some t))
                else xret data) in
  let^ _ := reset (stmt_metadata_ kv) true in
  xret data.

(** [getValue]: [Some] is true with the value read, [None] is false with the reference
    parameter as it was. *)
Definition get_value {A} (read : Z -> X conn A) (kv : KVStore) (key : str) : X conn (option A) :=
  let^ _ := bind_text (stmt_getvalue_ kv) 1 key in
  let^ row := step (stmt_getvalue_ kv) in
  let^ result := (if row then let^ value := read (stmt_getvalue_ kv) in xret (Some value)
                  else xret None) in
  let^ _ := reset (stmt_getvalue_ kv) true in
  xret result.
Definition getValue_string (kv : KVStore) (key : str) := get_value (fun s => getText s 0) kv key.
Definition getValue_double (kv : KVStore) (key : str) := get_value (fun s => getDouble s 0) kv key.
Definition getValue_int64 (kv : KVStore) (key : str) := get_value (fun s => getInt64 s 0) kv key.
Definition getValue_bytes (kv : KVStore) (key : str) (value : Bytes) :=
  get_value (fun s => getBytes s 0 value) kv key.

(** Only the overload for strings looks at the count. *)
Definition insertKey (kv : KVStore) (key : str) (value : Value double) : X conn bool :=
  let^ _ := bind_text (stmt_insert_ kv) 1 key in
  let^ _ := bind_value (stmt_insert_ kv) 2 value in
  let^ count := execute (stmt_insert_ kv) in
  let^ _ := reset (stmt_insert_ kv) true in
  xret (match value with VText _ => count =? 1 | _ => true end).

Definition setKey (kv : KVStore) (key : str) (value : Value double) : X conn bool :=
  let^ _ := bind_value (stmt_update_ kv) 1 value in
  let^ _ := bind_text (stmt_update_ kv) 2 key in
  let^ rows := execute (stmt_update_ kv) in
  let^ _ := reset (stmt_update_ kv) true in
  xret (rows =? 1).

Definition ensure {A} (read : Z -> X conn A) (inject : A -> Value double) (kv : KVStore) (key : str) (def : A) : X conn A :=
  let^ r := get_value read kv key in
  match r with
  | Some result => xret result
  | None => let^ _ := insertKey kv key (inject def) in xret def
  end.
Definition ensureWithDefault_string := ensure (fun s => getText s 0) VText.
Definition ensureWithDefault_double := ensure (fun s => getDouble s 0) VDouble.
Definition ensureWithDefault_int64 := ensure (fun s => getInt64 s 0) VInt64.
End Store.
