(* ===== verification/KVEngine.v ===== *)
(** * KVEngine: what the store relies on of SQLite

    The SQLite library is a parameter of the model (class [SQLite]).  This file states
    what its documentation says of the statements KVStore prepares: an abstract view of a
    connection ([View]: the table, the open transaction, the prepared statements with
    their bindings and their phase), the meaning of each statement on it ([evaluate]), the
    rules of [sqlite3_bind], [sqlite3_step], [sqlite3_reset] and [sqlite3_finalize], and the
    class [SQLiteLaws]: a connection that works behaves as its view.  [works] excludes I/O
    errors, a full disk and locks held by other connections.

    A calculus of weakest preconditions over views ([wp]) reasons on the wrappers of
    SQLite.v.  [Toy] is an instance of the library that satisfies the laws; the witnesses
    of KVRefinement.v run on it. *)

From S2P Require Import Prelude.
From S2P Require Import Bytes.
From S2P Require Import TCPServer.
From S2P Require Import SQLite.
From S2P Require Import KVStore.
From stdpp Require Import sorting.

Local Open Scope Z_scope.

(** ** Statements *)

(** The eight statements the store keeps, and those it runs once. *)
Inductive Role : Type := RExists | RGetvalue | RInsert | RDelete | RUpdate | RKeyFilter | RKeyValueFilter | RMetadata.
Inductive Once : Type := OJournal | OCreate | OCase | OOptimize | OBegin | OCommit | ORollback | OVacuum.
Inductive Sql : Type := Prepared (r : Role) | Single (o : Once).

#[export] Instance Role_eq_dec : EqDecision Role.
Proof. solve_decision. Defined.

Definition sql_text (q : Sql) : str :=
  match q with
  | Prepared RExists => sql_exists
  | Prepared RGetvalue => sql_getvalue
  | Prepared RInsert => sql_insert
  | Prepared RDelete => sql_delete
  | Prepared RUpdate => sql_update
  | Prepared RKeyFilter => sql_key_filter
  | Prepared RKeyValueFilter => sql_key_value_filter
  | Prepared RMetadata => sql_metadata
  | Single OJournal => sql_journal
  | Single OCreate => sql_create
  | Single OCase => sql_case
  | Single OOptimize => sql_optimize
  | Single OBegin => sql_begin
  | Single OCommit => lit "COMMIT"
  | Single ORollback => lit "ROLLBACK"
  | Single OVacuum => sql_vacuum
  end.

Definition parameters (q : Sql) : Z :=
  match q with
  | Prepared RInsert | Prepared RUpdate => 2
  | Prepared _ => 1
  | Single _ => 0
  end.

(** ** Values: conversions and comparisons the library documents *)

Class SqlFunctions (double : Type) := {
  as_int : SqlValue double -> Z;
  as_int64 : SqlValue double -> Z;
  as_double : SqlValue double -> double;
  as_text : SqlValue double -> option str;
  as_blob : SqlValue double -> str;
  of_double : double -> SqlValue double;        (** NULL for a NaN *)
  next_count : SqlValue double -> SqlValue double;   (** [updates + 1] *)
  like : bool -> str -> str -> bool;            (** case sensitive, pattern, text *)
  max_length : Z;       (** of a text or blob; a row with a key and a value of it is accepted *)
  as_int_integer : forall z, - 2 ^ 31 <= z < 2 ^ 31 -> as_int (SInteger z) = z;
  as_int64_integer : forall z, as_int64 (SInteger z) = z;
  as_double_float : forall d, as_double (SFloat d) = d;
  as_text_text : forall s, as_text (SText s) = Some s;
  as_blob_blob : forall s, as_blob (SBlob s) = s;
  of_double_cases : forall d, of_double d = SFloat d \/ of_double d = SNull;
  next_count_integer : forall n, - 2 ^ 63 <= n < 2 ^ 63 - 1 -> next_count (SInteger n) = SInteger (n + 1);
  max_length_int : 0 < max_length < 2 ^ 31;
}.

Definition is_null {double} (x : SqlValue double) : bool := match x with SNull => true | _ => false end.

Definition type_code {double} (x : SqlValue double) : Z :=
  match x with
  | SInteger _ => SQLITE_INTEGER
  | SFloat _ => SQLITE_FLOAT
  | SText _ => SQLITE3_TEXT
  | SBlob _ => SQLITE_BLOB
  | SNull => SQLITE_NULL
  end.

(** ** The view of a connection *)

Record Row (double : Type) : Type := mkRow { value : SqlValue double; modified : SqlValue double; updates : SqlValue double }.
Arguments mkRow {double} _ _ _.
Arguments value {double} _.
Arguments modified {double} _.
Arguments updates {double} _.

Abbreviation Table double := (gmap str (Row double)).

(** The database: the table [kvstore] if it exists, what a rollback restores if a
    transaction is open, [sqlite3_changes], and the pragma case_sensitive_like. *)
Record Db (double : Type) : Type := mkDb {
  table : option (Table double);
  saved : option (option (Table double));
  changes : Z;
  case_like : bool;
}.
Arguments mkDb {double} _ _ _ _.
Arguments table {double} _.
Arguments saved {double} _.
Arguments changes {double} _.
Arguments case_like {double} _.

Inductive Phase (double : Type) : Type :=
| Ready
| OnRow (row : list (SqlValue double)) (rest : list (list (SqlValue double)))
| Finished
| Failed (rc : Z).
Arguments Ready {double}.
Arguments OnRow {double} row rest.
Arguments Finished {double}.
Arguments Failed {double} rc.

Record Stmt (double : Type) : Type := mkStmt { kind : Sql; binds : gmap Z (SqlValue double); phase : Phase double }.
Arguments mkStmt {double} _ _ _.
Arguments kind {double} _.
Arguments binds {double} _.
Arguments phase {double} _.

Record View (double : Type) : Type := mkView { db : Db double; stmts : gmap Z (Stmt double) }.
Arguments mkView {double} _ _.
Arguments db {double} _.
Arguments stmts {double} _.

Section Engine.
Context {double : Type} `{SqlFunctions double}.

Definition bound (s : Stmt double) (i : Z) : SqlValue double := default SNull (binds s !! i).

(** ** The meaning of the statements *)

Inductive Evaluation : Type :=
| Rows (rows : list (list (SqlValue double)))
| Changed (d : Db double)
| Refused (rc : Z).

Definition with_table (t : Table double) (n : Z) (d : Db double) : Db double := mkDb (Some t) (saved d) n (case_like d).

Definition matching (sensitive : bool) (pattern : str) (t : Table double) : list str :=
  merge_sort str_le (filter (fun k => like sensitive pattern k = true) (map fst (map_to_list t))).

(** [env]: what the statement takes from outside, the time or the journal mode. *)
Definition eval_role (env : SqlValue double) (r : Role) (arg : Z -> SqlValue double) (t : Table double) (d : Db double) : option Evaluation :=
  match r, arg 1, arg 2 with
  | RExists, SText k, _ => Some (Rows [[SInteger (if t !! k is Some _ then 1 else 0)]])
  | RGetvalue, SText k, _ => Some (Rows (match t !! k with Some x => [[value x]] | None => [] end))
  | RInsert, SText k, x =>
      Some (if t !! k is Some _ then Refused SQLITE_CONSTRAINT
            else if is_null x then Refused SQLITE_CONSTRAINT
            else Changed (with_table (<[k := mkRow x env (SInteger 0)]> t) 1 d))
  | RDelete, SText k, _ =>
      Some (Changed (with_table (delete k t) (if t !! k is Some _ then 1 else 0) d))
  | RUpdate, x, SText k =>
      Some (match t !! k with
            | None => Changed (with_table t 0 d)
            | Some row =>
                if is_null x then Refused SQLITE_CONSTRAINT
                else Changed (with_table (<[k := mkRow x env (next_count (updates row))]> t) 1 d)
            end)
  | RKeyFilter, SText p, _ => Some (Rows (map (fun k => [SText k]) (matching (case_like d) p t)))
  | RKeyValueFilter, SText p, _ =>
      Some (Rows (map (fun k => [SText k; match t !! k with Some x => value x | None => SNull end])
                      (matching (case_like d) p t)))
  | RMetadata, SText k, _ =>
      Some (Rows (match t !! k with Some x => [[modified x; updates x; value x]] | None => [] end))
  | _, _, _ => None
  end.

Definition eval_once (env : SqlValue double) (o : Once) (d : Db double) : Evaluation :=
  match o with
  | OJournal => Rows [[env]]
  | OCreate => Changed (mkDb (Some (default ∅ (table d))) (saved d) (changes d) (case_like d))
  | OCase => Changed (mkDb (table d) (saved d) (changes d) true)
  | OOptimize => Changed d
  | OBegin =>
      match saved d with
      | Some _ => Refused SQLITE_ERROR
      | None => Changed (mkDb (table d) (Some (table d)) (changes d) (case_like d))
      end
  | OCommit =>
      match saved d with
      | Some _ => Changed (mkDb (table d) None (changes d) (case_like d))
      | None => Refused SQLITE_ERROR
      end
  | ORollback =>
      match saved d with
      | Some t => Changed (mkDb t None (changes d) (case_like d))
      | None => Refused SQLITE_ERROR
      end
  | OVacuum => if saved d is Some _ then Refused SQLITE_ERROR else Changed d
  end.

(** [None]: a case these rules do not describe. *)
Definition evaluate (env : SqlValue double) (s : Stmt double) (d : Db double) : option Evaluation :=
  match kind s with
  | Prepared r => match table d with Some t => eval_role env r (bound s) t d | None => None end
  | Single o => Some (eval_once env o d)
  end.

(** ** The rules of prepared statements *)

Definition set_phase (p : Phase double) (s : Stmt double) : Stmt double := mkStmt (kind s) (binds s) p.
Definition set_stmt (h : Z) (s : Stmt double) (v : View double) : View double := mkView (db v) (<[h := s]> (stmts v)).
Definition drop_stmt (h : Z) (v : View double) : View double := mkView (db v) (delete h (stmts v)).
Definition set_db (d : Db double) (v : View double) : View double := mkView d (stmts v).

Definition next_row (rows : list (list (SqlValue double))) : Z * Phase double :=
  match rows with
  | [] => (SQLITE_DONE, Finished)
  | r :: rest => (SQLITE_ROW, OnRow r rest)
  end.

Definition e_step (env : SqlValue double) (h : Z) (s : Stmt double) (v : View double) : option (Z * View double) :=
  match phase s with
  | Ready =>
      match evaluate env s (db v) with
      | Some (Rows rows) => Some (fst (next_row rows), set_stmt h (set_phase (snd (next_row rows)) s) v)
      | Some (Changed d) => Some (SQLITE_DONE, set_db d (set_stmt h (set_phase Finished s) v))
      | Some (Refused rc) => Some (rc, set_stmt h (set_phase (Failed rc) s) v)
      | None => None
      end
  | OnRow _ rest => Some (fst (next_row rest), set_stmt h (set_phase (snd (next_row rest)) s) v)
  | _ => None
  end.

Definition e_bind (h : Z) (s : Stmt double) (i : Z) (x : SqlValue double) (v : View double) : Z * View double :=
  match phase s with
  | Ready => (SQLITE_OK, set_stmt h (mkStmt (kind s) (<[i := x]> (binds s)) Ready) v)
  | _ => (SQLITE_MISUSE, v)
  end.

(** [sqlite3_reset] and [sqlite3_finalize] answer the error of the last evaluation. *)
Definition last_error (s : Stmt double) : Z := match phase s with Failed rc => rc | _ => SQLITE_OK end.

(** No statement but [h] is in the middle of its rows. *)
Definition others_quiet (h : Z) (v : View double) : Prop :=
  forall h' s, h' <> h -> stmts v !! h' = Some s -> forall row rest, phase s <> OnRow row rest.

Definition fits_length (s : str) : Prop := zlen s <= max_length.

Definition needs_table (q : Sql) : bool := match q with Prepared _ => true | Single _ => false end.
End Engine.

(** ** The laws *)

Class SQLiteLaws (double : Type) `{SQLite double} `{SqlFunctions double} := {
  works : conn -> View double -> Prop;
  agrees (r : Z * conn) (e : Z * View double) : Prop := fst r = fst e /\ works (snd r) (snd e);
  law_create_function c v name n : works c v -> agrees (sqlite3_create_function name n c) (SQLITE_OK, v);
  law_prepare c v q : works c v -> (needs_table q = true -> is_Some (table (db v))) ->
    exists h tail c', sqlite3_prepare_v2 (sql_text q) c = (SQLITE_OK, h, tail, c') /\ h <> 0 /\
      stmts v !! h = None /\ works c' (set_stmt h (mkStmt q ∅ Ready) v);
  law_finalize c v h s : works c v -> stmts v !! h = Some s ->
    agrees (sqlite3_finalize h c) (last_error s, drop_stmt h v);
  law_clear_bindings c v h s : works c v -> stmts v !! h = Some s ->
    agrees (sqlite3_clear_bindings h c) (SQLITE_OK, set_stmt h (mkStmt (kind s) ∅ (phase s)) v);
  law_reset c v h s : works c v -> stmts v !! h = Some s ->
    agrees (sqlite3_reset h c) (last_error s, set_stmt h (set_phase Ready s) v);
  law_step c v h s : works c v -> stmts v !! h = Some s -> others_quiet h v ->
    exists env, forall e, e_step env h s v = Some e -> agrees (sqlite3_step h c) e;
  law_bind_text c v h s i t : works c v -> stmts v !! h = Some s -> 1 <= i <= parameters (kind s) ->
    fits_length t -> agrees (sqlite3_bind_text h i t c) (e_bind h s i (SText t) v);
  law_bind_blob c v h s i t : works c v -> stmts v !! h = Some s -> 1 <= i <= parameters (kind s) ->
    fits_length (default [] t) ->
    agrees (sqlite3_bind_blob64 h i t c) (e_bind h s i (match t with Some x => SBlob x | None => SNull end) v);
  law_bind_double c v h s i d : works c v -> stmts v !! h = Some s -> 1 <= i <= parameters (kind s) ->
    agrees (sqlite3_bind_double h i d c) (e_bind h s i (of_double d) v);
  law_bind_int64 c v h s i z : works c v -> stmts v !! h = Some s -> 1 <= i <= parameters (kind s) ->
    agrees (sqlite3_bind_int64 h i z c) (e_bind h s i (SInteger z) v);
  law_changes c v : works c v -> sqlite3_changes c = changes (db v);
  law_column c v h s i row rest x : works c v -> stmts v !! h = Some s -> phase s = OnRow row rest ->
    0 <= i -> row !! Z.to_nat i = Some x ->
    sqlite3_column_int h i c = as_int x /\ sqlite3_column_int64 h i c = as_int64 x /\
    sqlite3_column_double h i c = as_double x /\ sqlite3_column_text h i c = as_text x /\
    sqlite3_column_blob h i c = as_blob x /\ sqlite3_column_type h i c = type_code x;
  law_checkpoint c v mode : works c v -> saved (db v) = None -> others_quiet 0 v ->
    agrees (sqlite3_wal_checkpoint_v2 mode c) (SQLITE_OK, v);
}.

(** ** Weakest preconditions over views

    [wp m Φ v]: run on any connection whose view is [v], [m] ends with an outcome and a
    view that satisfy [Φ]; [wpo] is the same for a computation on a statement object. *)

Section WP.
Context {double : Type} `{SQLiteLaws double} `{Allocator}.
Implicit Types (v : View double) (s : Stmt double) (h : Z).

Definition wp {A} (m : X conn A) (Φ : outcome A -> View double -> Prop) (v : View double) : Prop :=
  forall c, works c v -> exists v', works (snd (m c)) v' /\ Φ (fst (m c)) v'.

Definition wpo {A} (m : X (conn * Z) A) (Φ : outcome A -> Z -> View double -> Prop) (v : View double) (h : Z) : Prop :=
  forall c, works c v -> exists v', works (fst (snd (m (c, h)))) v' /\ Φ (fst (m (c, h))) (snd (snd (m (c, h)))) v'.

Definition continues {A B} (k : A -> X conn B) (Φ : outcome B -> View double -> Prop) (r : outcome A) (v : View double) : Prop :=
  match r with
  | Ok a => wp (k a) Φ v
  | Throw e => Φ (Throw e) v
  | OutOfFuel => Φ OutOfFuel v
  end.

Lemma wpx_ret {A} (a : A) Φ v : Φ (Ok a) v -> wp (xret a) Φ v.
Proof. intros HΦ c Hc. by exists v. Qed.

Lemma wpx_mono {A} (m : X conn A) (Φ Ψ : outcome A -> View double -> Prop) v :
  (forall r v', Φ r v' -> Ψ r v') -> wp m Φ v -> wp m Ψ v.
Proof. intros Himp Hm c Hc. destruct (Hm c Hc) as (v' & Hv & HΦ). eauto. Qed.

Lemma wpx_bind {A B} (m : X conn A) (k : A -> X conn B) Φ v :
  wp m (continues k Φ) v -> wp (xbind m k) Φ v.
Proof.
  intros Hm c Hc. destruct (Hm c Hc) as (v' & Hv & HΦ). unfold xbind.
  destruct (m c) as [ [ a | e | ] c' ]; cbn in *; eauto.
Qed.

Lemma wpo_bind {A B} (m : X (conn * Z) A) (k : A -> X (conn * Z) B) Φ v h :
  wpo m (fun r h' v' => match r with
                        | Ok a => wpo (k a) Φ v' h'
                        | Throw e => Φ (Throw e) h' v'
                        | OutOfFuel => Φ OutOfFuel h' v'
                        end) v h ->
  wpo (xbind m k) Φ v h.
Proof.
  intros Hm c Hc. destruct (Hm c Hc) as (v' & Hv & HΦ). unfold xbind.
  destruct (m (c, h)) as [ [ a | e | ] [ c' h' ] ]; cbn in *; eauto.
Qed.

Lemma wpo_with_handle {A} (m : Z -> X conn A) Φ v h :
  wp (m h) (fun r v' => Φ r h v') v -> wpo (with_handle m) Φ v h.
Proof.
  intros Hm c Hc. destruct (Hm c Hc) as (v' & Hv & HΦ). exists v'. unfold with_handle. cbn.
  by destruct (m h c).
Qed.

Lemma c_string_sql q : c_string (sql_text q) = sql_text q.
Proof. by destruct q as [ [] | [] ]; vm_compute. Qed.

(** A statement object that has no handle yet. *)
Lemma wpo_prepare q Φ v :
  (needs_table q = true -> is_Some (table (db v))) ->
  (forall h, h <> 0 -> stmts v !! h = None -> Φ (Ok tt) h (set_stmt h (mkStmt q ∅ Ready) v)) ->
  wpo (prepare (sql_text q)) Φ v 0.
Proof.
  intros Ht HΦ c Hc. unfold prepare, xbind. cbn [fst snd]. rewrite Z.eqb_refl, c_string_sql. cbn [fst].
  destruct (law_prepare c v q Hc Ht) as (h & tail & c' & -> & Hh & Hn & Hw).
  cbn. eauto.
Qed.

Lemma wp_prepare_member q Φ v :
  (needs_table q = true -> is_Some (table (db v))) ->
  (forall h, h <> 0 -> stmts v !! h = None -> Φ (Ok h) (set_stmt h (mkStmt q ∅ Ready) v)) ->
  wp (prepare_member (sql_text q)) Φ v.
Proof.
  intros Ht HΦ c Hc. unfold prepare_member.
  destruct (wpo_prepare q (fun r h v' => match r with Ok _ => Φ (Ok h) v' | _ => False end) v Ht HΦ c Hc) as (v' & Hv & HΦ').
  destruct (prepare (sql_text q) (c, 0)) as [ [ [] | e | ] [ c' h ] ]; cbn in *; [ eauto | done | done ].
Qed.

Lemma destroy_agrees c v h s : works c v -> stmts v !! h = Some s -> h <> 0 ->
  exists c', destroy (c, h) = ((if last_error s =? SQLITE_OK then Ok tt else Throw terminate), c') /\
    works c' (drop_stmt h v).
Proof.
  intros Hc Hs Hh. destruct (law_finalize c v h s Hc Hs) as [ Hrc Hw ].
  unfold destroy. cbn [fst snd]. rewrite (proj2 (Z.eqb_neq h 0) Hh). unfold close. cbn [fst snd].
  destruct (sqlite3_finalize h c) as [ rc c' ]. cbn in *. subst rc.
  exists c'. by destruct (last_error s =? SQLITE_OK).
Qed.

Lemma wp_delete_statement v h s Φ : stmts v !! h = Some s -> h <> 0 ->
  Φ (if last_error s =? SQLITE_OK then Ok tt else Throw terminate) (drop_stmt h v) ->
  wp (delete_statement h) Φ v.
Proof.
  intros Hs Hh HΦ c Hc. destruct (destroy_agrees c v h s Hc Hs Hh) as (c' & Hd & Hw).
  exists (drop_stmt h v). unfold delete_statement. by rewrite Hd.
Qed.

Lemma wp_scoped {A} (body : X (conn * Z) A) (Φ : outcome A -> View double -> Prop) v :
  wpo body (fun r h v' => h <> 0 /\ exists s, stmts v' !! h = Some s /\
     Φ (if last_error s =? SQLITE_OK then r else Throw terminate) (drop_stmt h v')) v 0 ->
  wp (scoped body) Φ v.
Proof.
  intros Hb c Hc. destruct (Hb c Hc) as (v' & Hv & Hh & s & Hs & HΦ). unfold scoped.
  destruct (body (c, 0)) as [ r [ c' h ] ]. cbn in *.
  destruct (destroy_agrees c' v' h s Hv Hs Hh) as (c2 & -> & Hw).
  exists (drop_stmt h v'). by destruct (last_error s =? SQLITE_OK).
Qed.

(** *** Calls that answer a code *)

Lemma agrees_call expected (f : conn -> Z * conn) v rc v' Φ :
  (forall c, works c v -> agrees (f c) (rc, v')) ->
  (if rc =? expected then Φ (Ok tt) v' else forall m, Φ (Throw (DodoException m)) v') ->
  wp (call expected f) Φ v.
Proof.
  intros Hf HΦ c Hc. destruct (Hf c Hc) as [ Hrc Hw ]. unfold call, check_rc.
  destruct (f c) as [ rc' c' ]. cbn in *. subst rc'. exists v'.
  by destruct (rc =? expected); cbn.
Qed.

Lemma wp_reset v h s Φ : stmts v !! h = Some s -> last_error s = SQLITE_OK ->
  Φ (Ok tt) (set_stmt h (mkStmt (kind s) ∅ Ready) v) ->
  wp (reset h true) Φ v.
Proof.
  intros Hs He HΦ. unfold reset. apply wpx_bind.
  eapply (agrees_call _ _ _ SQLITE_OK); [ intros c Hc; by eapply law_clear_bindings | ].
  cbn [continues Z.eqb SQLITE_OK].
  set (s1 := mkStmt (kind s) ∅ (phase s)).
  eapply (agrees_call _ _ _ SQLITE_OK (set_stmt h (set_phase Ready s1) (set_stmt h s1 v))).
  - intros c Hc. replace SQLITE_OK with (last_error s1).
    apply law_reset; [ done | apply lookup_insert_eq ].
  - cbn. unfold set_stmt. cbn. by rewrite insert_insert_eq.
Qed.

Section Bind.
Variables (v : View double) (h : Z) (s : Stmt double) (i : Z).
Hypothesis Hs : stmts v !! h = Some s.
Hypothesis Hi : 1 <= i <= parameters (kind s).

(** What binding [x] does to the outcome and the view. *)
Definition bind_post (x : SqlValue double) (Φ : outcome unit -> View double -> Prop) : Prop :=
  if fst (e_bind h s i x v) =? SQLITE_OK then Φ (Ok tt) (snd (e_bind h s i x v))
  else forall m, Φ (Throw (DodoException m)) (snd (e_bind h s i x v)).

Lemma wp_bind_call f x Φ :
  (forall c, works c v -> agrees (f c) (e_bind h s i x v)) ->
  bind_post x Φ -> wp (call SQLITE_OK f) Φ v.
Proof using Type.
  intros Hf HΦ. eapply (agrees_call _ _ _ (fst (e_bind h s i x v)) (snd (e_bind h s i x v))); [ | done ].
  intros c Hc. rewrite <- surjective_pairing. by apply Hf.
Qed.

Lemma text_argument_fits t : fits_length t -> text_argument t = t.
Proof using Type.
  unfold fits_length, text_argument. intros Hl. pose proof max_length_int. pose proof (zlen_nonneg t).
  rewrite int_of_small by lia. destruct (Z.ltb_spec (zlen t) 0); [ lia | ].
  apply take_ge. unfold zlen in *. lia.
Qed.

Lemma wp_bind_text t Φ : fits_length t -> bind_post (SText t) Φ -> wp (bind_text h i t) Φ v.
Proof using Hs Hi.
  intros Hl HΦ. unfold bind_text. rewrite text_argument_fits by done.
  eapply wp_bind_call; [ | done ]. intros c Hc. by apply law_bind_text.
Qed.

(** What the overloads store, and the arguments they are described for. *)
Definition sql_value (x : Value double) : SqlValue double :=
  match x with
  | VText t => SText t
  | VDouble d => of_double d
  | VInt64 z => SInteger z
  | VBytes b => match blob_argument b with Ok (Some t) => SBlob t | _ => SNull end
  end.

Definition value_fits (x : Value double) : Prop :=
  match x with
  | VText t => fits_length t
  | VBytes b => match blob_argument b with Ok t => fits_length (default [] t) | _ => False end
  | _ => True
  end.

Lemma wp_bind_value x Φ : value_fits x -> bind_post (sql_value x) Φ -> wp (bind_value h i x) Φ v.
Proof using Hs Hi.
  intros Hx HΦ. destruct x as [ t | d | z | b ]; cbn in *.
  - by apply wp_bind_text.
  - eapply wp_bind_call; [ | done ]. intros c Hc. by apply law_bind_double.
  - eapply wp_bind_call; [ | done ]. intros c Hc. by apply law_bind_int64.
  - unfold bind_bytes. destruct (blob_argument b) as [ t | e | ] eqn:Hb; [ | done | done ].
    intros c Hc. unfold xbind. eapply wp_bind_call; [ | done | done ].
    intros c' Hc'. destruct t as [ t | ]; [ by apply (law_bind_blob c' v h s i (Some t)) | by apply (law_bind_blob c' v h s i None) ].
Qed.
End Bind.

(** *** Evaluation *)

Lemma step_agrees c v h s : works c v -> stmts v !! h = Some s -> others_quiet h v ->
  exists env, forall rc v', e_step env h s v = Some (rc, v') ->
    exists c', sqlite3_step h c = (rc, c') /\ works c' v'.
Proof.
  intros Hc Hs Hq. destruct (law_step c v h s Hc Hs Hq) as [ env Henv ]. exists env. intros rc v' He.
  destruct (Henv _ He) as [ Hrc Hw ]. destruct (sqlite3_step h c) as [ rc' c' ]. cbn in *. subst. eauto.
Qed.

(** The environment of the evaluation is not known: the postcondition holds for any. *)
Definition step_post (h : Z) (s : Stmt double) (v : View double) (Ψ : Z -> View double -> Prop) : Prop :=
  forall env, exists rc v', e_step env h s v = Some (rc, v') /\ Ψ rc v'.

Lemma wp_execute v h s Φ : stmts v !! h = Some s -> others_quiet h v ->
  step_post h s v (fun rc v' => if rc =? SQLITE_DONE then Φ (Ok (changes (db v'))) v'
                                else forall m, Φ (Throw (DodoException m)) v') ->
  wp (execute h) Φ v.
Proof.
  intros Hs Hq HΦ c Hc. destruct (step_agrees c v h s Hc Hs Hq) as [ env Henv ].
  destruct (HΦ env) as (rc & v' & He & HΦ'). destruct (Henv _ _ He) as (c' & Hc' & Hw).
  exists v'. unfold execute, call, check_rc, xbind. rewrite Hc'. destruct (rc =? SQLITE_DONE); cbn; [ | eauto ].
  by rewrite (law_changes _ _ Hw).
Qed.

Lemma wp_ddl_execute v h s Φ : stmts v !! h = Some s -> others_quiet h v ->
  step_post h s v (fun rc v' => if rc =? SQLITE_DONE then Φ (Ok tt) v'
                                else forall m, Φ (Throw (DodoException m)) v') ->
  wp (ddl_execute h) Φ v.
Proof.
  intros Hs Hq HΦ c Hc. destruct (step_agrees c v h s Hc Hs Hq) as [ env Henv ].
  destruct (HΦ env) as (rc & v' & He & HΦ'). destruct (Henv _ _ He) as (c' & Hc' & Hw).
  exists v'. unfold ddl_execute, call, check_rc. rewrite Hc'. by destruct (rc =? SQLITE_DONE); cbn.
Qed.

Lemma wp_step v h s Φ : stmts v !! h = Some s -> others_quiet h v ->
  step_post h s v (fun rc v' => if (rc =? SQLITE_DONE) || (rc =? SQLITE_ROW) then Φ (Ok (rc =? SQLITE_ROW)) v'
                                else forall m, Φ (Throw (DodoException m)) v') ->
  wp (step h) Φ v.
Proof.
  intros Hs Hq HΦ c Hc. destruct (step_agrees c v h s Hc Hs Hq) as [ env Henv ].
  destruct (HΦ env) as (rc & v' & He & HΦ'). destruct (Henv _ _ He) as (c' & Hc' & Hw).
  exists v'. unfold step. rewrite Hc'. by destruct ((rc =? SQLITE_DONE) || (rc =? SQLITE_ROW)); cbn.
Qed.

(** A column of the current row, read by any of the accessors. *)
Lemma wp_reading {A} (f : conn -> A) a v Φ :
  (forall c, works c v -> f c = a) -> Φ (Ok a) v -> wp (reading f) Φ v.
Proof. intros Hf HΦ c Hc. exists v. unfold reading. cbn. by rewrite Hf. Qed.
End WP.

(** ** An instance: the rules themselves as a library, with integers for doubles *)

Module Toy.
Definition last_handle (m : gmap Z (Stmt Z)) : Z := foldr Z.max 0 (map fst (map_to_list m)).

Lemma last_handle_bound m h s : m !! h = Some s -> h <= last_handle m.
Proof.
  intros Hm. unfold last_handle. assert (Hin : In h (map fst (map_to_list m))).
  { apply in_map_iff. exists (h, s). split; [ done | ]. apply list_elem_of_In. by apply elem_of_map_to_list. }
  clear Hm. induction (map fst (map_to_list m)) as [ | x l IH ]; cbn in *; [ done | ].
  destruct Hin as [ -> | Hin ]; [ lia | ]. specialize (IH Hin). lia.
Qed.

Lemma last_handle_nonneg m : 0 <= last_handle m.
Proof. unfold last_handle. induction (map fst (map_to_list m)); cbn; lia. Qed.

Lemma last_handle_fresh m : m !! (last_handle m + 1) = None.
Proof.
  destruct (m !! (last_handle m + 1)) eqn:Hm; [ | done ]. pose proof (last_handle_bound _ _ _ Hm). lia.
Qed.

#[export, program] Instance functions : SqlFunctions Z := {
  as_int x := match x with SInteger z => z | _ => 0 end;
  as_int64 x := match x with SInteger z => z | _ => 0 end;
  as_double x := match x with SFloat d => d | _ => 0 end;
  as_text x := match x with SText s => Some s | _ => None end;
  as_blob x := match x with SBlob s => s | _ => [] end;
  of_double d := SFloat d;
  next_count x := match x with SInteger n => SInteger (n + 1) | _ => x end;
  like _ p k := bool_decide (p = lit "%") || bool_decide (p = k);
  max_length := 1000000;
}.
Solve Obligations with naive_solver lia.

Definition all_sql : list Sql :=
  map Prepared [RExists; RGetvalue; RInsert; RDelete; RUpdate; RKeyFilter; RKeyValueFilter; RMetadata] ++
  map Single [OJournal; OCreate; OCase; OOptimize; OBegin; OCommit; ORollback; OVacuum].

Definition parse (text : str) : option Sql := find (fun q => bool_decide (sql_text q = text)) all_sql.

Lemma parse_text q : parse (sql_text q) = Some q.
Proof. by destruct q as [ [] | [] ]; vm_compute. Qed.

Definition on (h : Z) (f : Stmt Z -> Z * View Z) (v : View Z) : Z * View Z :=
  match stmts v !! h with Some s => f s | None => (SQLITE_MISUSE, v) end.

Definition column {A} (none : A) (f : SqlValue Z -> A) (h i : Z) (v : View Z) : A :=
  match stmts v !! h with
  | Some s => match phase s with
              | OnRow row _ => match row !! Z.to_nat i with Some x => f x | None => none end
              | _ => none
              end
  | None => none
  end.

Definition opened : View Z := mkView (mkDb None None 0 false) ∅.

#[export] Instance library : SQLite Z := {
  conn := View Z;
  sqlite3_open_v2 _ := (SQLITE_OK, opened);
  sqlite3_create_function _ _ v := (SQLITE_OK, v);
  sqlite3_close_v2 _ := SQLITE_OK;
  sqlite3_prepare_v2 text v :=
    let h := last_handle (stmts v) + 1 in
    match parse text with
    | Some q => (SQLITE_OK, h, [], set_stmt h (mkStmt q ∅ Ready) v)
    | None => (SQLITE_ERROR, 0, text, v)
    end;
  sqlite3_finalize h v := on h (fun s => (last_error s, drop_stmt h v)) v;
  sqlite3_clear_bindings h v := on h (fun s => (SQLITE_OK, set_stmt h (mkStmt (kind s) ∅ (phase s)) v)) v;
  sqlite3_reset h v := on h (fun s => (last_error s, set_stmt h (set_phase Ready s) v)) v;
  sqlite3_step h v := on h (fun s => default (SQLITE_MISUSE, v) (e_step (SInteger 7) h s v)) v;
  sqlite3_changes v := changes (db v);
  sqlite3_bind_double h i d v := on h (fun s => e_bind h s i (SFloat d) v) v;
  sqlite3_bind_int h i z v := on h (fun s => e_bind h s i (SInteger z) v) v;
  sqlite3_bind_int64 h i z v := on h (fun s => e_bind h s i (SInteger z) v) v;
  sqlite3_bind_text h i t v := on h (fun s => e_bind h s i (SText t) v) v;
  sqlite3_bind_blob64 h i t v := on h (fun s => e_bind h s i (match t with Some x => SBlob x | None => SNull end) v) v;
  sqlite3_bind_parameter_index _ _ _ := 0;
  sqlite3_column_type := column SQLITE_NULL type_code;
  sqlite3_column_int := column 0 as_int;
  sqlite3_column_int64 := column 0 as_int64;
  sqlite3_column_double := column 0 as_double;
  sqlite3_column_text := column None as_text;
  sqlite3_column_blob := column [] as_blob;
  sqlite3_column_count _ _ := 0;
  sqlite3_errmsg _ := lit "error";
  sqlite3_db_config _ _ v := (SQLITE_OK, v);
  sqlite3_wal_checkpoint_v2 _ v := (SQLITE_OK, v);
  sqlite3_last_insert_rowid _ := 0;
  sqlite3_db_release_memory v := v;
}.

#[export] Instance laws : SQLiteLaws Z.
Proof.
  refine (Build_SQLiteLaws Z library functions (fun c v => c = v) _ _ _ _ _ _ _ _ _ _ _ _ _); intros; cbn [conn library] in *; subst; try done;
    try (cbn; unfold on; by simplify_option_eq).
  - exists (last_handle (stmts v) + 1), [], (set_stmt (last_handle (stmts v) + 1) (mkStmt q ∅ Ready) v).
    cbn [sqlite3_prepare_v2 library]. rewrite parse_text. pose proof (last_handle_nonneg (stmts v)). pose proof (last_handle_fresh (stmts v)).
    repeat split; [ lia | done ].
  - exists (SInteger 7). intros e He. cbn. unfold on. by simplify_option_eq.
  - cbn. unfold column. repeat match goal with Hx : _ = _ |- _ => rewrite Hx end. by repeat split.
Defined.
End Toy.
