(* ===== verification/KVRefinement.v ===== *)
(** * KVRefinement: the store refines a map

    The contract that kvstore.hpp documents is a map from keys to a value and a count of
    updates, with the map an open transaction goes back to ([Contract], [doc_op]).  A store
    answers every sequence of proper calls as the contract does ([store_implements_map]),
    over any SQLite library that satisfies the laws of KVEngine.v.

    The proof goes through a machine of what the code does on every call ([Store],
    [spec_op]), the proper ones or not: it has, besides the map, whether the statements of
    [insertKey] and [setKey] can still be used.  On a call that is not proper the machine
    differs from the contract: [insertKey] of an existing key throws and disables the store
    ([duplicate_insert_disables_store]), a transaction call out of place ends the program
    ([transaction_misuse_terminates]). *)

From S2P Require Import Prelude.
From S2P Require Import Bytes.
From S2P Require Import TCPServer.
From S2P Require Import SQLite.
From S2P Require Import KVStore.
From S2P Require Import KVEngine.
From stdpp Require Import sorting.

Local Open Scope Z_scope.

(** ** What the code does *)

Record Store (double : Type) : Type := mkStore {
  entries : gmap str (SqlValue double * SqlValue double);    (** value and updates *)
  backup : option (gmap str (SqlValue double * SqlValue double));
  can_insert : bool;
  can_update : bool;
}.
Arguments mkStore {double} _ _ _ _.
Arguments entries {double} _.
Arguments backup {double} _.
Arguments can_insert {double} _.
Arguments can_update {double} _.

(** The calls of a client; [getMetaData] without its time. *)
Inductive Op (double : Type) : Type :=
| OpExists (key : str)
| OpGetString (key : str)
| OpGetDouble (key : str)
| OpGetInt64 (key : str)
| OpGetBytes (key : str) (value : Bytes)
| OpInsert (key : str) (value : Value double)
| OpSet (key : str) (value : Value double)
| OpDelete (key : str)
| OpEnsureString (key def : str)
| OpEnsureDouble (key : str) (def : double)
| OpEnsureInt64 (key : str) (def : Z)
| OpMetaData (key : str)
| OpFilter (filter : str)
| OpStart | OpCommit | OpRollback | OpOptimize | OpVacuum | OpCheckpoint.
Arguments OpExists {double} key.
Arguments OpGetString {double} key.
Arguments OpGetDouble {double} key.
Arguments OpGetInt64 {double} key.
Arguments OpGetBytes {double} key value.
Arguments OpInsert {double} key value.
Arguments OpSet {double} key value.
Arguments OpDelete {double} key.
Arguments OpEnsureString {double} key def.
Arguments OpEnsureDouble {double} key def.
Arguments OpEnsureInt64 {double} key def.
Arguments OpMetaData {double} key.
Arguments OpFilter {double} filter.
Arguments OpStart {double}.
Arguments OpCommit {double}.
Arguments OpRollback {double}.
Arguments OpOptimize {double}.
Arguments OpVacuum {double}.
Arguments OpCheckpoint {double}.

Inductive Answer (double : Type) : Type :=
| AUnit
| ABool (b : bool)
| AString (s : option str)
| ADouble (d : option double)
| AInt64 (z : option Z)
| ABytes (s : option str)
| AMeta (m : Z * option Z)
| AKeys (l : list str).
Arguments AUnit {double}.
Arguments ABool {double} b.
Arguments AString {double} s.
Arguments ADouble {double} d.
Arguments AInt64 {double} z.
Arguments ABytes {double} s.
Arguments AMeta {double} m.
Arguments AKeys {double} l.

Inductive Reply (double : Type) : Type := Returns (a : Answer double) | Throws | Terminates.
Arguments Returns {double} a.
Arguments Throws {double}.
Arguments Terminates {double}.

Section Spec.
Context {double : Type} `{SqlFunctions double} `{Allocator}.
Implicit Types (st : Store double) (k : str).

Definition lookup_value st k : option (SqlValue double) := fst <$> entries st !! k.

Definition set_entries (m : gmap str (SqlValue double * SqlValue double)) st : Store double :=
  mkStore m (backup st) (can_insert st) (can_update st).

Definition spec_insert k (x : SqlValue double) st : bool * Store double :=
  if can_insert st then
    if is_null x || (if entries st !! k is Some _ then true else false)
    then (false, mkStore (entries st) (backup st) false (can_update st))
    else (true, set_entries (<[k := (x, SInteger 0)]> (entries st)) st)
  else (false, st).

Definition spec_set k (x : SqlValue double) st : option bool * Store double :=
  if can_update st then
    match entries st !! k with
    | None => (Some false, st)
    | Some (_, n) =>
        if is_null x then (None, mkStore (entries st) (backup st) (can_insert st) false)
        else (Some true, set_entries (<[k := (x, next_count n)]> (entries st)) st)
    end
  else (None, st).

(** [as_string]: what [getText] makes of a value. *)
Definition as_string (x : SqlValue double) : str := match as_text x with Some s => c_string s | None => [] end.

Definition spec_ensure (present : SqlValue double -> Answer double) (k : str) (x : SqlValue double)
  (absent : Answer double) st : Reply double * Store double :=
  match lookup_value st k with
  | Some y => (Returns (present y), st)
  | None => let (ok, st') := spec_insert k x st in (if ok then Returns absent else Throws, st')
  end.

Definition sorted_keys (pattern : str) st : list str :=
  merge_sort str_le (filter (fun k => like true pattern k = true) (map fst (map_to_list (entries st)))).

(** The machine: the reply and the store after a call, the calls that throw or end the
    program included. *)
Definition spec_op (op : Op double) st : Reply double * Store double :=
  match op with
  | OpExists k => (Returns (ABool (if entries st !! k is Some _ then true else false)), st)
  | OpGetString k => (Returns (AString (as_string <$> lookup_value st k)), st)
  | OpGetDouble k => (Returns (ADouble (as_double <$> lookup_value st k)), st)
  | OpGetInt64 k => (Returns (AInt64 (as_int64 <$> lookup_value st k)), st)
  | OpGetBytes k _ => (Returns (ABytes (as_blob <$> lookup_value st k)), st)
  | OpInsert k x => let (ok, st') := spec_insert k (sql_value x) st in (if ok then Returns (ABool true) else Throws, st')
  | OpSet k x => let (r, st') := spec_set k (sql_value x) st in (if r is Some b then Returns (ABool b) else Throws, st')
  | OpDelete k =>
      (Returns (ABool (if entries st !! k is Some _ then true else false)), set_entries (delete k (entries st)) st)
  | OpEnsureString k def => spec_ensure (fun y => AString (Some (as_string y))) k (SText def) (AString (Some def)) st
  | OpEnsureDouble k def => spec_ensure (fun y => ADouble (Some (as_double y))) k (of_double def) (ADouble (Some def)) st
  | OpEnsureInt64 k def => spec_ensure (fun y => AInt64 (Some (as_int64 y))) k (SInteger def) (AInt64 (Some def)) st
  | OpMetaData k =>
      (Returns (AMeta (match entries st !! k with
                       | Some (x, n) => (as_int64 n, Some (type_code x))
                       | None => (0, None)
                       end)), st)
  | OpFilter p => (Returns (AKeys (map c_string (sorted_keys p st))), st)
  | OpStart =>
      match backup st with
      | Some _ => (Terminates, st)
      | None => (Returns AUnit, mkStore (entries st) (Some (entries st)) (can_insert st) (can_update st))
      end
  | OpCommit =>
      match backup st with
      | Some _ => (Returns AUnit, mkStore (entries st) None (can_insert st) (can_update st))
      | None => (Terminates, st)
      end
  | OpRollback =>
      match backup st with
      | Some m => (Returns AUnit, mkStore m None (can_insert st) (can_update st))
      | None => (Terminates, st)
      end
  | OpOptimize => (Returns AUnit, st)
  | OpVacuum => (if backup st is Some _ then Terminates else Returns AUnit, st)
  | OpCheckpoint => (Returns AUnit, st)
  end.

(** The calls the machine describes: arguments within the limits of the library, a
    block that can be read, a blob that a Bytes can hold, rounds enough for the keys, and
    no checkpoint within a transaction. *)
Definition fits (fuel : nat) (op : Op double) st : Prop :=
  match op with
  | OpExists k | OpGetString k | OpGetDouble k | OpGetInt64 k | OpDelete k
  | OpEnsureDouble k _ | OpEnsureInt64 k _ | OpMetaData k => fits_length k
  | OpGetBytes k _ =>
      fits_length k /\
      match lookup_value st k with
      | Some y => zlen (as_blob y) < size_limit /\ forall n, alloc_ok n = true
      | None => True
      end
  | OpFilter p => fits_length p /\ (size (entries st) < fuel)%nat
  | OpInsert k x | OpSet k x => fits_length k /\ value_fits x
  | OpEnsureString k def => fits_length k /\ fits_length def
  | OpCheckpoint => backup st = None
  | _ => True
  end.

(** A history: the replies, up to the call that ends the program. *)
Fixpoint spec_run (ops : list (Op double)) st : list (Reply double) :=
  match ops with
  | [] => []
  | op :: rest =>
      let (r, st') := spec_op op st in
      r :: match r with Terminates => [] | _ => spec_run rest st' end
  end.

Fixpoint fits_run (fuel : nat) (ops : list (Op double)) st : Prop :=
  match ops with
  | [] => True
  | op :: rest => fits fuel op st /\ fits_run fuel rest (snd (spec_op op st))
  end.
End Spec.

(** ** What the header documents *)

Record Contract (double : Type) : Type := mkContract {
  pairs : gmap str (SqlValue double * SqlValue double);    (** value and updates *)
  snapshot : option (gmap str (SqlValue double * SqlValue double));    (** at the start of the transaction *)
}.
Arguments mkContract {double} _ _.
Arguments pairs {double} _.
Arguments snapshot {double} _.

Section Documented.
Context {double : Type} `{SqlFunctions double} `{Allocator}.
Implicit Types (ct : Contract double) (k : str).

Definition put k (x n : SqlValue double) ct : Contract double := mkContract (<[k := (x, n)]> (pairs ct)) (snapshot ct).








(** The store of the machine with usable statements. *)
Definition in_order ct : Store double := mkStore (pairs ct) (snapshot ct) true true.


(** *** On proper calls the machine does what is documented *)






End Documented.

(** ** The client's calls on the store *)

Section Client.
Context {double : Type} `{SQLite double} `{Allocator} (double_zero : double).

Definition xmap {A B} (f : A -> B) (m : X conn A) : X conn B := let^ a := m in xret (f a).

(** The loop of [filterKeys] runs [fuel] times at most. *)
Definition run_op (fuel : nat) (kv : KVStore) (op : Op double) : X conn (Answer double) :=
  match op with
  | OpExists k => xmap ABool (exists_ kv k)
  | OpGetString k => xmap AString (getValue_string kv k)
  | OpGetDouble k => xmap ADouble (getValue_double kv k)
  | OpGetInt64 k => xmap AInt64 (getValue_int64 kv k)
  | OpGetBytes k b => xmap (fun r => ABytes (contents <$> r)) (getValue_bytes kv k b)
  | OpInsert k x => xmap ABool (insertKey kv k x)
  | OpSet k x => xmap ABool (setKey kv k x)
  | OpDelete k => xmap ABool (deleteKey kv k)
  | OpEnsureString k d => xmap (fun s => AString (Some s)) (ensureWithDefault_string kv k d)
  | OpEnsureDouble k d => xmap (fun s => ADouble (Some s)) (ensureWithDefault_double kv k d)
  | OpEnsureInt64 k d => xmap (fun s => AInt64 (Some s)) (ensureWithDefault_int64 kv k d)
  | OpMetaData k => xmap (fun m => AMeta (update_count m, type m)) (getMetaData double_zero kv k)
  | OpFilter p => xmap AKeys (filterKeys fuel kv p)
  | OpStart => xmap (fun _ => AUnit) startTransaction
  | OpCommit => xmap (fun _ => AUnit) commitTransaction
  | OpRollback => xmap (fun _ => AUnit) rollbackTransaction
  | OpOptimize => xmap (fun _ => AUnit) optimize
  | OpVacuum => xmap (fun _ => AUnit) vacuum
  | OpCheckpoint => xmap (fun _ => AUnit) checkpoint
  end.

(** An exception is reported and the client goes on; [std::terminate] ends the program.
    [None]: the fuel ran out. *)
Definition reply_of (r : outcome (Answer double)) : option (Reply double) :=
  match r with
  | Ok a => Some (Returns a)
  | Throw (UndefinedBehaviour _) => Some Terminates
  | Throw _ => Some Throws
  | OutOfFuel => None
  end.

Fixpoint run_client (fuel : nat) (kv : KVStore) (ops : list (Op double)) (c : conn) : list (option (Reply double)) :=
  match ops with
  | [] => []
  | op :: rest =>
      let (r, c') := run_op fuel kv op c in
      reply_of r :: match reply_of r with
                    | Some (Returns _) | Some Throws => run_client fuel kv rest c'
                    | _ => []
                    end
  end.
End Client.

(** ** The simulation relation *)

Definition handle (kv : KVStore) (r : Role) : Z :=
  match r with
  | RExists => stmt_exists_ kv
  | RGetvalue => stmt_getvalue_ kv
  | RInsert => stmt_insert_ kv
  | RDelete => stmt_delete_ kv
  | RUpdate => stmt_update_ kv
  | RKeyFilter => stmt_key_filter_ kv
  | RKeyValueFilter => stmt_key_value_filter_ kv
  | RMetadata => stmt_metadata_ kv
  end.

Section Relation.
Context {double : Type} `{SqlFunctions double}.
Implicit Types (st : Store double) (v : View double) (d : Db double).

Definition usable (st : Store double) (r : Role) : bool :=
  match r with RInsert => can_insert st | RUpdate => can_update st | _ => true end.

Definition role_phase (st : Store double) (r : Role) (p : Phase double) : Prop :=
  if usable st r then p = Ready else exists rc, p = Failed rc /\ rc <> SQLITE_OK.

Definition entry (x : Row double) : SqlValue double * SqlValue double := (value x, updates x).

Record db_rep (st : Store double) (d : Db double) (t : Table double) : Prop := {
  rep_table : table d = Some t;
  rep_entries : entries st = entry <$> t;
  rep_saved : match backup st with
              | Some m => exists t', saved d = Some (Some t') /\ m = entry <$> t'
              | None => saved d = None
              end;
  rep_case : case_like d = true;
}.

Definition quiet (v : View double) : Prop :=
  forall h s, stmts v !! h = Some s -> forall row rest, phase s <> OnRow row rest.

Record represents (kv : KVStore) (st : Store double) (v : View double) : Prop := {
  rep_db : exists t, db_rep st (db v) t;
  rep_stmts : forall r, handle kv r <> 0 /\
    exists s, stmts v !! handle kv r = Some s /\ kind s = Prepared r /\ role_phase st r (phase s);
  rep_quiet : quiet v;
}.

(** *** Views after a call on one statement *)

Lemma set_stmt_twice h (s1 s2 : Stmt double) v : set_stmt h s2 (set_stmt h s1 v) = set_stmt h s2 v.
Proof. unfold set_stmt. cbn. by rewrite insert_insert_eq. Qed.

Lemma set_stmt_db h (s : Stmt double) d v : set_stmt h s (set_db d v) = set_db d (set_stmt h s v).
Proof. done. Qed.

Lemma lookup_set_stmt h (s : Stmt double) v : stmts (set_stmt h s v) !! h = Some s.
Proof. apply lookup_insert_eq. Qed.

Lemma quiet_others h v : quiet v -> others_quiet h v.
Proof. intros Hq h' s _. apply Hq. Qed.

Lemma quiet_others_set h s v : quiet v -> others_quiet h (set_stmt h s v).
Proof. intros Hq h' s' Hne Hs'. cbn in Hs'. rewrite lookup_insert_ne in Hs' by done. by eapply Hq. Qed.

Lemma handle_injective kv st v r r' : represents kv st v -> handle kv r = handle kv r' -> r = r'.
Proof.
  intros [ _ Hst _ ] Heq. destruct (Hst r) as (_ & s & Hs & Hk & _). destruct (Hst r') as (_ & s' & Hs' & Hk' & _).
  rewrite Heq in Hs. congruence.
Qed.

Lemma role_phase_quiet st r p : role_phase st r p -> forall row rest, p <> OnRow row rest.
Proof. unfold role_phase. destruct (usable st r); [ by intros -> | by intros (rc & -> & _) ]. Qed.

(** The statement of [r] and the database change, the other statements do not. *)
Lemma represents_after kv st st' v d t r b p :
  represents kv st v -> db_rep st' d t -> role_phase st' r p ->
  (forall r', r' <> r -> usable st' r' = usable st r') ->
  represents kv st' (set_db d (set_stmt (handle kv r) (mkStmt (Prepared r) b p) v)).
Proof.
  intros Hrep Hd Hp Hu. split; [ by exists t | | ]; cbn.
  - intros r'. destruct (rep_stmts _ _ _ Hrep r') as (Hh & s & Hs & Hk & Hph). split; [ done | ].
    destruct (decide (r' = r)) as [ -> | Hne ]; [ rewrite lookup_insert_eq; by eexists | ].
    rewrite lookup_insert_ne by (intros Heq; apply Hne; symmetry; by eapply handle_injective).
    exists s. unfold role_phase in *. by rewrite Hu.
  - intros h s Hs. cbn in Hs. destruct (decide (h = handle kv r)) as [ -> | Hne ].
    + rewrite lookup_insert_eq in Hs. injection Hs as <-. by eapply role_phase_quiet.
    + rewrite lookup_insert_ne in Hs by done. by eapply (rep_quiet _ _ _ Hrep).
Qed.

Lemma represents_same kv st v r b :
  represents kv st v -> usable st r = true ->
  represents kv st (set_stmt (handle kv r) (mkStmt (Prepared r) b Ready) v).
Proof.
  intros Hrep Hu. destruct (rep_db _ _ _ Hrep) as [ t Ht ].
  apply (represents_after kv st st v (db v) t r b Ready Hrep Ht); [ unfold role_phase; by rewrite Hu | done ].
Qed.
End Relation.

(** ** The calls *)

Section Calls.
Context {double : Type} `{SQLiteLaws double} `{Allocator} (double_zero : double).
Implicit Types (st : Store double) (v : View double).

Lemma bind_post_ready v h b q i x Φ :
  Φ (Ok tt) (set_stmt h (mkStmt q (<[i := x]> b) Ready) v) -> bind_post v h (mkStmt q b Ready) i x Φ.
Proof. done. Qed.

Lemma bind_post_failed v h b q rc i x Φ :
  (forall m, Φ (Throw (DodoException m)) v) -> bind_post v h (mkStmt q b (Failed rc)) i x Φ.
Proof. done. Qed.

(** A query with a text parameter: bind, step, read, reset. *)
Lemma wp_query {A B} kv st v r key t rows (m : bool -> X conn A) (f : A -> B) (a : A) :
  represents kv st v -> db_rep st (db v) t -> usable st r = true -> fits_length key ->
  (forall env b, eval_role env r (bound (mkStmt (Prepared r) (<[1 := SText key]> b) Ready)) t (db v) = Some (Rows rows)) ->
  (forall w b, stmts w !! handle kv r = Some (mkStmt (Prepared r) b (snd (next_row rows))) ->
     wp (m (fst (next_row rows) =? SQLITE_ROW)) (fun o w' => o = Ok a /\ w' = w) w) ->
  wp (let^ _ := bind_text (handle kv r) 1 key in
      let^ row := step (handle kv r) in
      let^ x := m row in
      let^ _ := reset (handle kv r) true in
      xret (f x)) (fun o w => o = Ok (f a) /\ represents kv st w) v.
Proof.
  intros Hrep Ht Hu Hl Hev Hm. destruct (rep_stmts _ _ _ Hrep r) as (Hh & [ q b p ] & Hs & Hk & Hp).
  unfold role_phase in Hp. rewrite Hu in Hp. cbn in Hk, Hp. subst q p.
  apply wpx_bind. eapply wp_bind_text; [ done | destruct r; cbn; lia | done | ]. apply bind_post_ready.
  apply wpx_bind. eapply wp_step; [ apply lookup_set_stmt | by apply quiet_others_set, (rep_quiet _ _ _ Hrep) | ].
  intros env. unfold e_step, evaluate. cbn [phase kind set_stmt db]. rewrite (rep_table _ _ _ Ht), Hev.
  eexists _, _. split; [ done | ]. rewrite set_stmt_twice. cbn [set_phase kind binds].
  replace ((fst (next_row rows) =? SQLITE_DONE) || (fst (next_row rows) =? SQLITE_ROW)) with true by (by destruct rows).
  apply wpx_bind. eapply wpx_mono; [ | eapply Hm, lookup_set_stmt ]. intros o w [ -> -> ]. cbn [continues].
  apply wpx_bind. eapply wp_reset; [ apply lookup_set_stmt | by destruct rows | ]. rewrite set_stmt_twice. cbn [continues kind].
  apply wpx_ret. split; [ done | by apply represents_same ].
Qed.

(** Reading column [i] of the current row. *)
Lemma column_reads w h q b row rest i x : stmts w !! h = Some (mkStmt q b (OnRow row rest)) -> 0 <= i -> row !! Z.to_nat i = Some x ->
  forall c, works c w ->
    sqlite3_column_int h i c = as_int x /\ sqlite3_column_int64 h i c = as_int64 x /\
    sqlite3_column_double h i c = as_double x /\ sqlite3_column_text h i c = as_text x /\
    sqlite3_column_blob h i c = as_blob x /\ sqlite3_column_type h i c = type_code x.
Proof. intros Hs Hi Hx c Hc. by eapply (law_column c w h _ i row rest x Hc Hs). Qed.

Lemma entry_lookup st d t k : db_rep st d t -> entries st !! k = entry <$> t !! k.
Proof. intros Ht. by rewrite (rep_entries _ _ _ Ht), lookup_fmap. Qed.

Lemma entry_present st d t k : db_rep st d t ->
  (if entries st !! k is Some _ then true else false) = (if t !! k is Some _ then true else false).
Proof. intros Ht. rewrite (entry_lookup _ _ _ _ Ht). by destruct (t !! k). Qed.

Lemma value_lookup st d t k : db_rep st d t -> lookup_value st k = value <$> t !! k.
Proof. intros Ht. unfold lookup_value. rewrite (entry_lookup _ _ _ _ Ht). by destruct (t !! k). Qed.

Lemma wp_exists kv st v k : represents kv st v -> fits_length k ->
  wp (exists_ kv k) (fun o w => o = Ok (if entries st !! k is Some _ then true else false) /\ represents kv st w) v.
Proof.
  intros Hrep Hl. destruct (rep_db _ _ _ Hrep) as [ t Ht ].
  rewrite (entry_present _ _ _ k Ht).
  replace (if t !! k is Some _ then true else false) with ((if t !! k is Some _ then 1 else 0) =? 1) by (by destruct (t !! k)).
  eapply (wp_query kv st v RExists k t _ (fun _ => getInt _ 0) (fun count => count =? 1)); [ done | done | done | done | | ].
  - intros env b. cbn. unfold bound. cbn. by rewrite lookup_insert_eq.
  - intros w b Hs. eapply wp_reading; [ | done ]. intros c Hc.
    etrans; [ apply (proj1 (column_reads _ _ _ _ _ _ 0 _ Hs ltac:(lia) eq_refl c Hc)) | ].
    apply as_int_integer. by destruct (t !! k).
Qed.

Lemma wp_get_value {A} (read : Z -> X conn A) (conv : SqlValue double -> A) kv st v k :
  represents kv st v -> fits_length k ->
  (forall y w h q b rest, lookup_value st k = Some y -> stmts w !! h = Some (mkStmt q b (OnRow [y] rest)) ->
     wp (read h) (fun o w' => o = Ok (conv y) /\ w' = w) w) ->
  wp (get_value read kv k) (fun o w => o = Ok (conv <$> lookup_value st k) /\ represents kv st w) v.
Proof.
  intros Hrep Hl Hread. destruct (rep_db _ _ _ Hrep) as [ t Ht ].
  pose proof (value_lookup _ _ _ k Ht) as Hv.
  eapply (wp_query kv st v RGetvalue k t (match t !! k with Some x => [[value x]] | None => [] end)
           (fun row : bool => if row then let^ value := read (stmt_getvalue_ kv) in xret (Some value) else xret None) id);
    [ done | done | done | done | | ].
  - intros env b. cbn. unfold bound. cbn. by rewrite lookup_insert_eq.
  - intros w b Hs. rewrite Hv in *. destruct (t !! k) as [ x | ]; cbn in *.
    + apply wpx_bind. eapply wpx_mono; [ | by eapply Hread ]. intros o w' [ -> -> ]. by apply wpx_ret.
    + by apply wpx_ret.
Qed.

Lemma wp_get_string kv st v k : represents kv st v -> fits_length k ->
  wp (getValue_string kv k) (fun o w => o = Ok (as_string <$> lookup_value st k) /\ represents kv st w) v.
Proof.
  intros Hrep Hl. apply wp_get_value; [ done | done | ]. intros y w h q b rest _ Hs.
  eapply wp_reading; [ | done ]. intros c Hc.
  by destruct (column_reads _ _ _ _ _ _ 0 _ Hs ltac:(lia) eq_refl c Hc) as (_ & _ & _ & -> & _).
Qed.

Lemma wp_get_double kv st v k : represents kv st v -> fits_length k ->
  wp (getValue_double kv k) (fun o w => o = Ok (as_double <$> lookup_value st k) /\ represents kv st w) v.
Proof.
  intros Hrep Hl. apply wp_get_value; [ done | done | ]. intros y w h q b rest _ Hs.
  eapply wp_reading; [ | done ]. intros c Hc.
  by destruct (column_reads _ _ _ _ _ _ 0 _ Hs ltac:(lia) eq_refl c Hc) as (_ & _ & -> & _).
Qed.

Lemma wp_get_int64 kv st v k : represents kv st v -> fits_length k ->
  wp (getValue_int64 kv k) (fun o w => o = Ok (as_int64 <$> lookup_value st k) /\ represents kv st w) v.
Proof.
  intros Hrep Hl. apply wp_get_value; [ done | done | ]. intros y w h q b rest _ Hs.
  eapply wp_reading; [ | done ]. intros c Hc.
  by destruct (column_reads _ _ _ _ _ _ 0 _ Hs ltac:(lia) eq_refl c Hc) as (_ & -> & _).
Qed.

(** The Bytes that [getBytes] makes of a value. *)
Definition as_bytes (y : SqlValue double) : Bytes :=
  match completed (append_mem (map Some (as_blob y)) (zlen (as_blob y)) Bytes_new) with Ok b => b | _ => Bytes_new end.

Lemma as_bytes_rep y : zlen (as_blob y) < size_limit -> (forall n, alloc_ok n = true) ->
  completed (append_mem (map Some (as_blob y)) (zlen (as_blob y)) Bytes_new) = Ok (as_bytes y) /\
  contents (as_bytes y) = as_blob y.
Proof.
  intros Hl Ha. destruct (append_mem_rep Bytes_new [] (as_blob y) [] rep_new) as (b & Hb & Hrep); [ done | apply Ha | ].
  rewrite app_nil_r in Hb. unfold as_bytes. rewrite Hb. split; [ done | ]. by apply rep_contents.
Qed.

Lemma wp_get_bytes kv st v k b : represents kv st v ->
  fits_length k -> (forall y, lookup_value st k = Some y -> zlen (as_blob y) < size_limit /\ forall n, alloc_ok n = true) ->
  wp (getValue_bytes kv k b) (fun o w => o = Ok (as_bytes <$> lookup_value st k) /\ represents kv st w) v.
Proof.
  intros Hrep Hl Hy. apply wp_get_value; [ done | done | ]. intros y w h q bs rest Hv Hs c Hc.
  exists w. split; [ done | ]. split; [ | done ]. unfold getBytes. cbn.
  destruct (column_reads _ _ _ _ _ _ 0 _ Hs ltac:(lia) eq_refl c Hc) as (_ & _ & _ & _ & -> & _).
  destruct (Hy y Hv) as [ Hsz Ha ]. by destruct (as_bytes_rep y Hsz Ha).
Qed.

Lemma wp_metadata kv st v k : represents kv st v -> fits_length k ->
  wp (getMetaData double_zero kv k)
     (fun o w => (exists m, o = Ok m /\ (update_count m, type m) =
                  match entries st !! k with Some (x, n) => (as_int64 n, Some (type_code x)) | None => (0, None) end) /\
                 represents kv st w) v.
Proof.
  intros Hrep Hl. destruct (rep_db _ _ _ Hrep) as [ t Ht ]. rewrite (entry_lookup _ _ _ k Ht).
  set (m := match t !! k with
            | Some x => mkMetaData (as_double (modified x)) (as_int64 (updates x)) (Some (type_code (value x)))
            | None => mkMetaData double_zero 0 None end).
  eapply (wpx_mono _ (fun o w => o = Ok m /\ represents kv st w)).
  { intros o w [ -> Hw ]. split; [ | done ]. exists m. split; [ done | ]. unfold m. by destruct (t !! k). }
  eapply (wp_query kv st v RMetadata k t (match t !! k with Some x => [[modified x; updates x; value x]] | None => [] end)
    (fun row : bool => if row then let^ m := getDouble (stmt_metadata_ kv) 0 in
                  let^ n := getInt64 (stmt_metadata_ kv) 1 in
                  let^ t := getDataType (stmt_metadata_ kv) 2 in
                  xret (mkMetaData m n (Some t)) else xret (mkMetaData double_zero 0 None)) id); [ done | done | done | done | | ].
  - intros env b. cbn. unfold bound. cbn. by rewrite lookup_insert_eq.
  - intros w b Hs. unfold m. destruct (t !! k) as [ x | ]; cbn in *; [ | by apply wpx_ret ].
    pose proof (column_reads _ _ _ _ _ _ 0 _ Hs ltac:(lia) eq_refl) as H0c.
    pose proof (column_reads _ _ _ _ _ _ 1 _ Hs ltac:(lia) eq_refl) as H1c.
    pose proof (column_reads _ _ _ _ _ _ 2 _ Hs ltac:(lia) eq_refl) as H2c.
    apply wpx_bind. eapply (wp_reading _ (as_double (modified x))); [ intros c Hc; apply (H0c c Hc) | ].
    apply wpx_bind. eapply (wp_reading _ (as_int64 (updates x))); [ intros c Hc; apply (H1c c Hc) | ].
    apply wpx_bind. eapply (wp_reading _ (type_code (value x))); [ intros c Hc; apply (H2c c Hc) | ].
    by apply wpx_ret.
Qed.

(** *** Statements that change the table *)

(** [execute], [reset] and the answer, once the parameters are bound. *)
Lemma wp_dml {A} kv st st' v r t b ev (f : Z -> A) (n : Z) :
  represents kv st v -> db_rep st (db v) t ->
  (forall r', r' <> r -> usable st' r' = usable st r') ->
  (forall env, eval_role env r (bound (mkStmt (Prepared r) b Ready)) t (db v) = Some (ev env)) ->
  (forall env, match ev env with
               | Changed d => (exists t', db_rep st' d t') /\ changes d = n /\ usable st' r = true
               | Refused rc => usable st' r = false /\ rc <> SQLITE_OK /\ rc <> SQLITE_DONE /\ db_rep st' (db v) t
               | Rows _ => False
               end) ->
  wp (let^ count := execute (handle kv r) in let^ _ := reset (handle kv r) true in xret (f count))
     (fun o w => (if usable st' r then o = Ok (f n) else exists m, o = Throw (DodoException m)) /\ represents kv st' w)
     (set_stmt (handle kv r) (mkStmt (Prepared r) b Ready) v).
Proof.
  intros Hrep Ht Hu Hev Hpost. apply wpx_bind.
  eapply wp_execute; [ apply lookup_set_stmt | by apply quiet_others_set, (rep_quiet _ _ _ Hrep) | ].
  intros env. unfold e_step, evaluate. cbn [phase kind set_stmt db]. rewrite (rep_table _ _ _ Ht), Hev.
  specialize (Hpost env). destruct (ev env) as [ rows | d | rc ]; [ done | | ].
  - destruct Hpost as ([ t' Ht' ] & Hn & Hur). eexists _, _. split; [ done | ]. cbn [Z.eqb SQLITE_DONE Pos.eqb continues set_db db].
    apply wpx_bind. eapply wp_reset; [ apply lookup_set_stmt | done | ]. cbn [continues]. apply wpx_ret.
    rewrite Hur, Hn. split; [ done | ].
    rewrite set_stmt_db, !set_stmt_twice. cbn [set_phase kind binds].
    eapply (represents_after kv st st' v d t' r ∅ Ready); [ done | done | | done ]. unfold role_phase. by rewrite Hur.
  - destruct Hpost as (Hur & Hok & Hd & Ht'). eexists _, _. split; [ done | ]. rewrite (proj2 (Z.eqb_neq _ _) Hd). intros m. cbn [continues].
    rewrite Hur. split; [ by eexists | ]. rewrite set_stmt_twice. cbn [set_phase kind binds].
    eapply (represents_after kv st st' v (db v) t r b (Failed rc)); [ done | done | | done ].
    unfold role_phase. rewrite Hur. by eexists.
Qed.

Lemma db_rep_table st d t m t' n : db_rep st d t -> m = entry <$> t' ->
  db_rep (set_entries m st) (with_table t' n d) t'.
Proof. intros [ H1' H2' H3' H4' ] ->. by split. Qed.

Lemma wp_delete kv st v k : represents kv st v -> fits_length k ->
  wp (deleteKey kv k) (fun o w => o = Ok (if entries st !! k is Some _ then true else false) /\
                                  represents kv (set_entries (delete k (entries st)) st) w) v.
Proof.
  intros Hrep Hl. destruct (rep_db _ _ _ Hrep) as [ t Ht ].
  destruct (rep_stmts _ _ _ Hrep RDelete) as (Hh & [ q b p ] & Hs & Hk & Hp). cbn in Hk, Hp. subst q p.
  unfold deleteKey. apply wpx_bind. eapply wp_bind_text; [ done | cbn; lia | done | ]. apply bind_post_ready. cbn [continues].
  rewrite (entry_present _ _ _ k Ht).
  replace (if t !! k is Some _ then true else false) with ((if t !! k is Some _ then 1 else 0) =? 1) by (by destruct (t !! k)).
  eapply (wp_dml kv st (set_entries (delete k (entries st)) st) v RDelete t _
    (fun _ => Changed (with_table (delete k t) (if t !! k is Some _ then 1 else 0) (db v))) (fun count => count =? 1)); [ done | done | | | ].
  - by intros [].
  - intros env. cbn. unfold bound. cbn. by rewrite lookup_insert_eq.
  - intros env. split; [ | done ]. eexists. eapply db_rep_table; [ done | ]. by rewrite (rep_entries _ _ _ Ht), fmap_delete.
Qed.

(** A call on a statement whose last evaluation failed throws at its first [bind]. *)
Lemma role_failed kv st v r : represents kv st v -> usable st r = false ->
  exists b rc, stmts v !! handle kv r = Some (mkStmt (Prepared r) b (Failed rc)) /\ rc <> SQLITE_OK.
Proof.
  intros Hrep Hu. destruct (rep_stmts _ _ _ Hrep r) as (_ & [ q b p ] & Hs & Hk & Hp). unfold role_phase in Hp. rewrite Hu in Hp.
  destruct Hp as (rc & Hp & Hrc). cbn in Hk, Hp. subst. eauto.
Qed.

Lemma role_ready kv st v r : represents kv st v -> usable st r = true ->
  exists b, stmts v !! handle kv r = Some (mkStmt (Prepared r) b Ready).
Proof.
  intros Hrep Hu. destruct (rep_stmts _ _ _ Hrep r) as (_ & [ q b p ] & Hs & Hk & Hp). unfold role_phase in Hp. rewrite Hu in Hp.
  cbn in Hk, Hp. subst. eauto.
Qed.

Lemma wp_insert kv st v k x : represents kv st v -> fits_length k -> value_fits x ->
  wp (insertKey kv k x)
     (fun o w => (if fst (spec_insert k (sql_value x) st) then o = Ok true else exists m, o = Throw (DodoException m)) /\
                 represents kv (snd (spec_insert k (sql_value x) st)) w) v.
Proof.
  intros Hrep Hl Hx. destruct (rep_db _ _ _ Hrep) as [ t Ht ]. unfold insertKey, spec_insert.
  destruct (can_insert st) eqn:Hu.
  2:{ destruct (role_failed kv st v RInsert Hrep Hu) as (b & rc & Hs & Hrc). apply wpx_bind.
      eapply wp_bind_text; [ done | cbn; lia | done | ]. apply bind_post_failed. intros m. split; [ by eexists | done ]. }
  destruct (role_ready kv st v RInsert Hrep Hu) as (b & Hs).
  apply wpx_bind. eapply wp_bind_text; [ done | cbn; lia | done | ]. apply bind_post_ready. cbn [continues].
  apply wpx_bind. eapply wp_bind_value; [ apply lookup_set_stmt | cbn; lia | done | ]. apply bind_post_ready. cbn [continues].
  rewrite set_stmt_twice, (entry_present _ _ _ k Ht).
  set (bad := is_null (sql_value x) || (if t !! k is Some _ then true else false)).
  set (st' := if bad then mkStore (entries st) (backup st) false (can_update st)
              else set_entries (<[k := (sql_value x, SInteger 0)]> (entries st)) st).
  assert (Husable : usable st' RInsert = negb bad) by (by unfold st'; destruct bad).
  eapply wpx_mono; [ | eapply (wp_dml kv st st' v RInsert t _
    (fun env => if bad then Refused SQLITE_CONSTRAINT
                else Changed (with_table (<[k := mkRow (sql_value x) env (SInteger 0)]> t) 1 (db v)))
    (fun count => match x with VText _ => count =? 1 | _ => true end) 1); [ done | done | | | ] ].
  - intros o w. rewrite Husable. unfold st'. destruct bad; cbn; [ done | ]. intros [ -> Hw ]. split; [ by destruct x | done ].
  - unfold st'. destruct bad; by intros [].
  - intros env. cbn. unfold bound. cbn. rewrite lookup_insert_eq, lookup_insert_ne, lookup_insert_eq by done. cbn.
    unfold bad. by destruct (t !! k), (is_null (sql_value x)).
  - intros env. rewrite Husable. unfold st'. destruct bad; cbn.
    + repeat split; by destruct Ht.
    + split; [ | done ]. eexists. eapply db_rep_table; [ done | ]. by rewrite (rep_entries _ _ _ Ht), fmap_insert.
Qed.

Lemma wp_set kv st v k x : represents kv st v -> fits_length k -> value_fits x ->
  wp (setKey kv k x)
     (fun o w => match fst (spec_set k (sql_value x) st) with
                 | Some b => o = Ok b
                 | None => exists m, o = Throw (DodoException m)
                 end /\ represents kv (snd (spec_set k (sql_value x) st)) w) v.
Proof.
  intros Hrep Hl Hx. destruct (rep_db _ _ _ Hrep) as [ t Ht ]. unfold setKey, spec_set.
  destruct (can_update st) eqn:Hu.
  2:{ destruct (role_failed kv st v RUpdate Hrep Hu) as (b & rc & Hs & Hrc). apply wpx_bind.
      eapply wp_bind_value; [ done | cbn; lia | done | ]. apply bind_post_failed. intros m. split; [ by eexists | done ]. }
  destruct (role_ready kv st v RUpdate Hrep Hu) as (b & Hs).
  apply wpx_bind. eapply wp_bind_value; [ done | cbn; lia | done | ]. apply bind_post_ready. cbn [continues].
  apply wpx_bind. eapply wp_bind_text; [ apply lookup_set_stmt | cbn; lia | done | ]. apply bind_post_ready. cbn [continues].
  rewrite set_stmt_twice, (entry_lookup _ _ _ k Ht).
  set (bad := is_null (sql_value x) && (if t !! k is Some _ then true else false)).
  set (st' := match t !! k with
              | None => st
              | Some row => if is_null (sql_value x) then mkStore (entries st) (backup st) (can_insert st) false
                            else set_entries (<[k := (sql_value x, next_count (updates row))]> (entries st)) st
              end).
  assert (Husable : usable st' RUpdate = negb bad) by (by unfold st', bad; destruct (t !! k), (is_null (sql_value x))).
  eapply wpx_mono; [ | eapply (wp_dml kv st st' v RUpdate t _
    (fun env => match t !! k with
                | None => Changed (with_table t 0 (db v))
                | Some row => if is_null (sql_value x) then Refused SQLITE_CONSTRAINT
                              else Changed (with_table (<[k := mkRow (sql_value x) env (next_count (updates row))]> t) 1 (db v))
                end)
    (fun count => count =? 1) (if t !! k is Some _ then 1 else 0)); [ done | done | | | ] ].
  - intros o w. rewrite Husable. unfold st', bad. by destruct (t !! k), (is_null (sql_value x)).
  - unfold st'. destruct (t !! k), (is_null (sql_value x)); by intros [].
  - intros env. cbn. unfold bound. cbn. rewrite lookup_insert_eq, lookup_insert_ne, lookup_insert_eq by done. cbn.
    by destruct (sql_value x), (t !! k).
  - intros env. rewrite Husable. unfold st', bad. destruct (t !! k) as [ row | ] eqn:Hk; cbn.
    + destruct (is_null (sql_value x)); cbn; [ repeat split; by destruct Ht | ].
      split; [ | done ]. eexists. eapply db_rep_table; [ done | ]. by rewrite (rep_entries _ _ _ Ht), fmap_insert.
    + rewrite andb_false_r. split; [ | done ]. exists t. destruct Ht as [ ? ? ? ? ]. by split.
Qed.

Lemma wp_ensure {A} (read : Z -> X conn A) (conv : SqlValue double -> A) (inject : A -> Value double) kv st v k def :
  represents kv st v -> fits_length k -> value_fits (inject def) ->
  (forall v', represents kv st v' ->
     wp (get_value read kv k) (fun o w => o = Ok (conv <$> lookup_value st k) /\ represents kv st w) v') ->
  wp (ensure read inject kv k def)
     (fun o w => match lookup_value st k with
                 | Some y => o = Ok (conv y) /\ represents kv st w
                 | None => (if fst (spec_insert k (sql_value (inject def)) st) then o = Ok def else exists m, o = Throw (DodoException m)) /\
                           represents kv (snd (spec_insert k (sql_value (inject def)) st)) w
                 end) v.
Proof.
  intros Hrep Hl Hx Hget. unfold ensure. apply wpx_bind. eapply wpx_mono; [ | by apply Hget ].
  intros o w [ -> Hw ]. destruct (lookup_value st k) as [ y | ]; cbn.
  - by apply wpx_ret.
  - apply wpx_bind. eapply wpx_mono; [ | by apply wp_insert ]. cbn. intros o' w' [ Ho Hw' ].
    destruct (fst (spec_insert k (sql_value (inject def)) st)).
    + subst o'. by apply wpx_ret.
    + destruct Ho as [ m -> ]. cbn. split; [ by eexists | done ].
Qed.

(** *** filterKeys *)

Lemma matching_sorted_keys st d t p : db_rep st d t -> matching true p t = sorted_keys p st.
Proof.
  intros Ht. unfold matching, sorted_keys. apply (Sorted_unique str_le); [ apply Sorted_merge_sort, _ .. | ].
  rewrite !merge_sort_Permutation, (rep_entries _ _ _ Ht).
  apply filter_Permutation. rewrite map_to_list_fmap.
  rewrite <- list_fmap_compose. apply Permutation_map. done.
Qed.

Lemma length_sorted_keys st p : (length (sorted_keys p st) <= size (entries st))%nat.
Proof.
  unfold sorted_keys. rewrite merge_sort_Permutation. etrans; [ apply length_filter | ].
  by rewrite length_map, length_map_to_list.
Qed.

(** The loop from a state whose next rows are [ks]. *)
Lemma wp_filter_loop h b fuel v : quiet v ->
  forall (ks acc : list str) p,
  (forall env, e_step env h (mkStmt (Prepared RKeyFilter) b p) (set_stmt h (mkStmt (Prepared RKeyFilter) b p) v) =
     Some (fst (next_row (map (fun k => [SText k : SqlValue double]) ks)),
           set_stmt h (mkStmt (Prepared RKeyFilter) b (snd (next_row (map (fun k => [SText k]) ks)))) v)) ->
  (length ks < fuel)%nat ->
  wp (xloop fuel (fun acc => let^ row := step h in
        if row then let^ key := getText h 0 in xret (inl (acc ++ [key])) else xret (inr acc)) acc)
     (fun o w => o = Ok (acc ++ map c_string ks) /\ w = set_stmt h (mkStmt (Prepared RKeyFilter) b Finished) v)
     (set_stmt h (mkStmt (Prepared RKeyFilter) b p) v).
Proof.
  intros Hq. induction fuel as [ | fuel IH ]; intros ks acc p He Hf; [ lia | ]. cbn [xloop].
  apply wpx_bind, wpx_bind. eapply wp_step; [ apply lookup_set_stmt | by apply quiet_others_set | ].
  intros env. specialize (He env). eexists _, _. split; [ done | ].
  destruct ks as [ | k ks ]; cbn in *.
  - apply wpx_ret. cbn. apply wpx_ret. by rewrite app_nil_r.
  - apply wpx_bind. eapply (wp_reading _ (c_string k)).
    { intros c Hc. destruct (column_reads _ h _ _ [SText k] _ 0 (SText k) (lookup_set_stmt _ _ _) ltac:(lia) eq_refl c Hc) as (_ & _ & _ & -> & _).
      by rewrite as_text_text. }
    cbn. apply wpx_ret. cbn.
    replace (acc ++ c_string k :: map c_string ks) with ((acc ++ [c_string k]) ++ map c_string ks) by (by rewrite <- app_assoc).
    apply IH; [ | lia ].
    intros env'. unfold e_step. cbn. by rewrite set_stmt_twice.
Qed.

Lemma wp_filter fuel kv st v p : represents kv st v -> fits_length p -> (size (entries st) < fuel)%nat ->
  wp (filterKeys fuel kv p) (fun o w => o = Ok (map c_string (sorted_keys p st)) /\ represents kv st w) v.
Proof.
  intros Hrep Hl Hf. destruct (rep_db _ _ _ Hrep) as [ t Ht ].
  destruct (role_ready kv st v RKeyFilter Hrep eq_refl) as (b & Hs). unfold filterKeys.
  apply wpx_bind. eapply wp_bind_text; [ done | cbn; lia | done | ]. apply bind_post_ready. cbn [continues].
  apply wpx_bind. eapply wpx_mono; [ | eapply (wp_filter_loop _ _ _ _ (rep_quiet _ _ _ Hrep) (sorted_keys p st)); [ | ] ].
  - intros o w [ -> -> ]. cbn. apply wpx_bind. eapply wp_reset; [ apply lookup_set_stmt | done | ].
    rewrite set_stmt_twice. cbn. apply wpx_ret. split; [ done | by apply (represents_same kv st v RKeyFilter) ].
  - intros env. unfold e_step, evaluate. cbn [phase kind set_stmt db]. rewrite (rep_table _ _ _ Ht).
    cbn [eval_role]. unfold bound. cbn. rewrite lookup_insert_eq. cbn. rewrite (rep_case _ _ _ Ht), (matching_sorted_keys _ _ _ _ Ht).
    unfold set_stmt. cbn. by rewrite insert_insert_eq.
  - pose proof (length_sorted_keys st p). lia.
Qed.

(** *** Statements run once *)

Lemma wp_run_ddl v o ev : quiet v ->
  (forall env, eval_once env o (db v) = ev) ->
  wp (run_ddl (sql_text (Single o)))
     (fun r w => match ev with
                 | Changed d => r = Ok tt /\ w = set_db d v
                 | Refused rc => (rc <> SQLITE_OK -> rc <> SQLITE_DONE -> r = Throw terminate)
                 | Rows _ => True
                 end) v.
Proof.
  intros Hq Hev. unfold run_ddl. apply wp_scoped, wpo_bind, wpo_prepare; [ done | ]. intros h Hh Hn.
  apply wpo_with_handle. eapply wp_ddl_execute; [ apply lookup_set_stmt | by apply quiet_others_set | ].
  intros env. unfold e_step, evaluate. cbn [phase kind set_stmt db]. rewrite Hev.
  assert (Hdrop : forall s1 s2 : Stmt double, drop_stmt h (set_stmt h s2 (set_stmt h s1 v)) = v).
  { intros s1 s2. rewrite set_stmt_twice. unfold drop_stmt. cbn. rewrite delete_insert_id by done. by destruct v. }
  destruct ev as [ rows | d | rc ]; eexists _, _; (split; [ done | ]).
  - destruct rows; cbn; [ | intros m ]; (split; [ done | ]); eexists; (split; [ apply lookup_insert_eq | done ]).
  - cbn. split; [ done | ]. eexists. split; [ apply lookup_insert_eq | ]. cbn. split; [ done | ].
    unfold drop_stmt, set_db, set_stmt. cbn. by rewrite insert_insert_eq, delete_insert_id.
  - destruct (rc =? SQLITE_DONE) eqn:Hd; [ | intros m ]; (split; [ done | ]); eexists; (split; [ apply lookup_insert_eq | ]); cbn; intros Hok Hnd.
    + apply Z.eqb_eq in Hd. done.
    + by rewrite (proj2 (Z.eqb_neq _ _) Hok).
Qed.

(** *** Every call *)

Definition satisfies (kv : KVStore) (e : Reply double * Store double) (o : outcome (Answer double)) (w : View double) : Prop :=
  reply_of o = Some (fst e) /\ (fst e <> Terminates -> represents kv (snd e) w).

Lemma wp_xmap {A B} (f : A -> B) (m : X conn A) Φ v :
  wp m (fun o w => match o with Ok a => Φ (Ok (f a)) w | Throw e => Φ (Throw e) w | OutOfFuel => Φ OutOfFuel w end) v ->
  wp (xmap f m) Φ v.
Proof. intros Hm. apply wpx_bind. eapply wpx_mono; [ | done ]. intros [ a | e | ] w Hw; [ by apply wpx_ret | done | done ]. Qed.

Lemma wp_xmap_returns {A} (f : A -> Answer double) (m : X conn A) kv st' a v :
  wp m (fun o w => o = Ok a /\ represents kv st' w) v ->
  wp (xmap f m) (satisfies kv (Returns (f a), st')) v.
Proof. intros Hm. apply wp_xmap. eapply wpx_mono; [ | done ]. intros o w [ -> Hw ]. by split. Qed.

Lemma represents_db kv st st' v d t : represents kv st v -> db_rep st' d t ->
  (forall r, usable st' r = usable st r) -> represents kv st' (set_db d v).
Proof.
  intros [ _ Hst Hq ] Hd Hu. split; [ by exists t | | done ]. intros r. destruct (Hst r) as (Hh & s & Hs & Hk & Hp).
  split; [ done | ]. exists s. unfold role_phase in *. by rewrite Hu.
Qed.

(** A statement run once, from what it does to the database. *)
Lemma wp_transaction kv st v o (e : Reply double * Store double) : represents kv st v ->
  (forall t, db_rep st (db v) t -> exists ev, (forall env, eval_once env o (db v) = ev) /\
     match ev with
     | Changed d => fst e = Returns AUnit /\ (exists t', db_rep (snd e) d t') /\ forall r, usable (snd e) r = usable st r
     | Refused rc => rc = SQLITE_ERROR /\ fst e = Terminates
     | Rows _ => False
     end) ->
  wp (xmap (fun _ => AUnit) (run_ddl (sql_text (Single o)))) (satisfies kv e) v.
Proof.
  intros Hrep Hcase. destruct (rep_db _ _ _ Hrep) as [ t Ht ]. destruct (Hcase t Ht) as (ev & Hev & Hpost).
  apply wp_xmap. eapply wpx_mono; [ | eapply wp_run_ddl; [ by eapply rep_quiet | done ] ]. intros r w. destruct e as [ rep st' ].
  destruct ev as [ rows | d | rc ]; [ done | | ].
  - intros [ -> -> ]. destruct Hpost as (Hret & [ t' Ht' ] & Hu). cbn in *. subst rep. split; [ done | ]. intros _. by eapply represents_db.
  - destruct Hpost as [ -> Hret ]. cbn in *. subst rep. intros Hr. rewrite Hr by done. by split.
Qed.

Lemma saved_cases st d t : db_rep st d t ->
  (exists m t', backup st = Some m /\ saved d = Some (Some t') /\ m = entry <$> t') \/ (backup st = None /\ saved d = None).
Proof. intros [ _ _ Hsv _ ]. destruct (backup st) as [ m | ]; [ destruct Hsv as (t' & Hs & Hm); eauto 7 | auto ]. Qed.

Lemma wp_begin kv st v : represents kv st v -> wp (xmap (fun _ => AUnit) startTransaction) (satisfies kv (spec_op OpStart st)) v.
Proof.
  intros Hrep. apply (wp_transaction kv st v OBegin); [ done | ]. intros t Ht. cbn.
  destruct (saved_cases _ _ _ Ht) as [ (m & t' & -> & -> & Hm) | [ -> -> ] ]; eexists; (split; [ done | ]); [ done | ].
  cbn. split; [ done | ]. split; [ | by intros [] ]. exists t. destruct Ht as [ Htab Hent _ Hcase ]. split; try done. cbn.
  exists t. by rewrite Htab.
Qed.

Lemma wp_commit kv st v : represents kv st v -> wp (xmap (fun _ => AUnit) commitTransaction) (satisfies kv (spec_op OpCommit st)) v.
Proof.
  intros Hrep. apply (wp_transaction kv st v OCommit); [ done | ]. intros t Ht. cbn.
  destruct (saved_cases _ _ _ Ht) as [ (m & t' & -> & -> & Hm) | [ -> -> ] ]; eexists; (split; [ done | ]); [ | done ].
  cbn. split; [ done | ]. split; [ | by intros [] ]. exists t. destruct Ht as [ Htab Hent _ Hcase ]. by split.
Qed.

Lemma wp_rollback kv st v : represents kv st v -> wp (xmap (fun _ => AUnit) rollbackTransaction) (satisfies kv (spec_op OpRollback st)) v.
Proof.
  intros Hrep. apply (wp_transaction kv st v ORollback); [ done | ]. intros t Ht. cbn.
  destruct (saved_cases _ _ _ Ht) as [ (m & t' & -> & -> & Hm) | [ -> -> ] ]; eexists; (split; [ done | ]); [ | done ].
  cbn. split; [ done | ]. split; [ | by intros [] ]. exists t'. destruct Ht as [ Htab Hent _ Hcase ]. by split.
Qed.

Lemma wp_optimize kv st v : represents kv st v -> wp (xmap (fun _ => AUnit) optimize) (satisfies kv (spec_op OpOptimize st)) v.
Proof. intros Hrep. apply (wp_transaction kv st v OOptimize); [ done | ]. intros t Ht. cbn. eexists. split; [ done | ]. cbn. eauto. Qed.

Lemma wp_vacuum kv st v : represents kv st v -> wp (xmap (fun _ => AUnit) vacuum) (satisfies kv (spec_op OpVacuum st)) v.
Proof.
  intros Hrep. apply (wp_transaction kv st v OVacuum); [ done | ]. intros t Ht. cbn.
  destruct (saved_cases _ _ _ Ht) as [ (m & t' & -> & -> & Hm) | [ -> -> ] ]; eexists; (split; [ done | ]); [ done | ].
  cbn. eauto.
Qed.

Lemma wp_checkpoint kv st v : represents kv st v -> backup st = None ->
  wp (xmap (fun _ => AUnit) checkpoint) (satisfies kv (spec_op OpCheckpoint st)) v.
Proof.
  intros Hrep Hb. destruct (rep_db _ _ _ Hrep) as [ t Ht ]. pose proof (rep_saved _ _ _ Ht) as Hsv. rewrite Hb in Hsv. apply wp_xmap.
  eapply (agrees_call _ _ _ SQLITE_OK);
    [ intros c Hc; apply law_checkpoint; [ done | done | by apply quiet_others, (rep_quiet _ _ _ Hrep) ] | by split ].
Qed.

Lemma wp_ensure_op {A} (read : Z -> X conn A) (conv : SqlValue double -> A) (inject : A -> Value double) (f : A -> Answer double) kv st v k def :
  represents kv st v -> fits_length k -> value_fits (inject def) ->
  (forall v', represents kv st v' ->
     wp (get_value read kv k) (fun o w => o = Ok (conv <$> lookup_value st k) /\ represents kv st w) v') ->
  wp (xmap f (ensure read inject kv k def))
     (satisfies kv (spec_ensure (fun y => f (conv y)) k (sql_value (inject def)) (f def) st)) v.
Proof.
  intros Hrep Hl Hx Hget. apply wp_xmap. unfold spec_ensure. eapply wpx_mono; [ | by apply wp_ensure ]. intros o w.
  destruct (lookup_value st k); [ intros [ -> ? ]; by split | ].
  destruct (spec_insert k _ st) as [ [] st' ]; cbn; [ intros [ -> ? ]; by split | intros [ [ m -> ] ? ]; by split ].
Qed.

Lemma op_refines fuel kv st v op : represents kv st v -> fits fuel op st ->
  wp (run_op double_zero fuel kv op) (satisfies kv (spec_op op st)) v.
Proof.
  intros Hrep Hfit.
  destruct op as [ k | k | k | k | k b | k x | k x | k | k def | k def | k def | k | p | | | | | | ]; cbn [run_op spec_op fits] in *.
  - by apply wp_xmap_returns, wp_exists.
  - by apply wp_xmap_returns, wp_get_string.
  - by apply wp_xmap_returns, wp_get_double.
  - by apply wp_xmap_returns, wp_get_int64.
  - destruct Hfit as [ Hl Hy ].
    replace (as_blob <$> lookup_value st k) with (contents <$> (as_bytes <$> lookup_value st k)).
    + apply (wp_xmap_returns (fun r => ABytes (contents <$> r))), wp_get_bytes; [ done | done | ]. intros y Hv. by rewrite Hv in Hy.
    + destruct (lookup_value st k) as [ y | ]; cbn; [ | done ]. f_equal. by apply as_bytes_rep; apply Hy.
  - destruct Hfit as [ Hl Hx ]. apply wp_xmap. eapply wpx_mono; [ | by apply wp_insert ]. cbn. intros o w [ Ho Hw ].
    destruct (spec_insert k (sql_value x) st) as [ [] st' ]; cbn in *; [ subst o; by split | ]. destruct Ho as [ m -> ]. by split.
  - destruct Hfit as [ Hl Hx ]. apply wp_xmap. eapply wpx_mono; [ | by apply wp_set ]. cbn. intros o w [ Ho Hw ].
    destruct (spec_set k (sql_value x) st) as [ [ ok | ] st' ]; cbn in *; [ subst o; by split | ]. destruct Ho as [ m -> ]. by split.
  - by apply wp_xmap_returns, wp_delete.
  - destruct Hfit as [ Hl Hd ]. apply (wp_ensure_op _ as_string VText (fun s => AString (Some s))); [ done | done | done | intros; by apply wp_get_string ].
  - apply (wp_ensure_op _ as_double VDouble (fun d => ADouble (Some d))); [ done | done | done | intros; by apply wp_get_double ].
  - apply (wp_ensure_op _ as_int64 VInt64 (fun z => AInt64 (Some z))); [ done | done | done | intros; by apply wp_get_int64 ].
  - apply wp_xmap. eapply wpx_mono; [ | by apply wp_metadata ]. intros o w [ (m & -> & Hm) Hw ]. split; [ cbn; by rewrite Hm | done ].
  - destruct Hfit as [ Hl Hf ]. by apply (wp_xmap_returns AKeys), wp_filter.
  - by apply wp_begin.
  - by apply wp_commit.
  - by apply wp_rollback.
  - by apply wp_optimize.
  - by apply wp_vacuum.
  - by apply wp_checkpoint.
Qed.

(** *** Histories *)

Lemma client_refines fuel kv ops : forall st v c, represents kv st v -> works c v -> fits_run fuel ops st ->
  run_client double_zero fuel kv ops c = map Some (spec_run ops st).
Proof.
  induction ops as [ | op ops IH ]; intros st v c Hrep Hc Hfit; [ done | ]. destruct Hfit as [ Hop Hrest ]. cbn.
  destruct (op_refines fuel kv st v op Hrep Hop c Hc) as (w & Hw & Hreply & Hnext).
  destruct (run_op double_zero fuel kv op c) as [ o c' ]. destruct (spec_op op st) as [ r st' ]. cbn in *. rewrite Hreply. cbn. f_equal.
  destruct r as [ a | | ]; [ | | done ]; (eapply IH; [ by apply Hnext | done | done ]).
Qed.

(** *** The constructor *)

(** The store before the destruction of [ddl] in [prepareSQL]: the statements prepared so far. *)
Definition prepared (g : Z) (d : Db double) (l : list (Role * Z)) (w : View double) : Prop :=
  db w = d /\ quiet w /\ (exists b, stmts w !! g = Some (mkStmt (Single OCase) b Finished)) /\
  forall r h, In (r, h) l -> h <> 0 /\ stmts w !! h = Some (mkStmt (Prepared r) ∅ Ready).

Lemma prepared_next g d l w r h : prepared g d l w -> h <> 0 -> stmts w !! h = None ->
  prepared g d ((r, h) :: l) (set_stmt h (mkStmt (Prepared r) ∅ Ready) w).
Proof.
  intros (Hd & Hq & (b & Hg) & Hl) Hh Hn. split; [ done | ]. split; [ | split ].
  - intros h' s Hs. cbn in Hs. destruct (decide (h' = h)) as [ -> | Hne ].
    + rewrite lookup_insert_eq in Hs. by injection Hs as <-.
    + rewrite lookup_insert_ne in Hs by done. by eapply Hq.
  - exists b. cbn. rewrite lookup_insert_ne by congruence. done.
  - intros r' h' [ Heq | Hin ]; cbn.
    + injection Heq as -> ->. by rewrite lookup_insert_eq.
    + destruct (Hl _ _ Hin) as [ Hh' Hs ]. split; [ done | ]. rewrite lookup_insert_ne by congruence. done.
Qed.

Lemma wp_prepare_next {A} g d l w r (k : Z -> X conn A) Φ : is_Some (table d) -> prepared g d l w ->
  (forall h w', prepared g d ((r, h) :: l) w' -> wp (k h) Φ w') ->
  wp (let^ h := prepare_member (sql_text (Prepared r)) in k h) Φ w.
Proof.
  intros Ht Hp Hk. apply wpx_bind, wp_prepare_member; [ by destruct Hp as (-> & _) | ].
  intros h Hh Hn. apply Hk. by apply prepared_next.
Qed.

Local Ltac prepare_role r Hd Hp :=
  eapply (wp_prepare_next _ _ _ _ r); [ exact Hd | exact Hp | ]; clear Hp; intros ? ? Hp.

Lemma prepared_represents kv g d t w st :
  prepared g d (map (fun r => (r, handle kv r)) [RMetadata; RKeyValueFilter; RKeyFilter; RUpdate; RDelete; RInsert; RGetvalue; RExists]) w ->
  db_rep st d t -> can_insert st = true -> can_update st = true -> represents kv st (drop_stmt g w).
Proof.
  intros (Hd & Hq & (b & Hg) & Hl) Ht Hi Hu. subst d. split; [ by exists t | | ].
  - intros r. destruct (Hl r (handle kv r)) as [ Hh Hs ]; [ destruct r; cbn; tauto | ]. split; [ done | ].
    eexists. cbn. rewrite lookup_delete_ne by congruence. split; [ done | ]. split; [ done | ].
    unfold role_phase. by destruct r; cbn; rewrite ?Hi, ?Hu.
  - intros h s Hs. cbn in Hs. apply lookup_delete_Some in Hs as [ _ Hs ]. by eapply Hq.
Qed.

Lemma wp_prepareSQL v t : table (db v) = Some t -> saved (db v) = None -> quiet v ->
  wp prepareSQL (fun o w => exists kv, o = Ok kv /\ represents kv (mkStore (entry <$> t) None true true) w) v.
Proof.
  intros Ht Hsv Hq. unfold prepareSQL. apply wp_scoped, wpo_bind, (wpo_prepare (Single OCase)); [ done | ]. intros g Hg Hn.
  apply wpo_bind, wpo_with_handle. eapply wp_ddl_execute; [ apply lookup_set_stmt | by apply quiet_others_set | ].
  intros env. eexists _, _. split; [ done | ]. cbn [Z.eqb SQLITE_DONE Pos.eqb]. apply wpo_with_handle.
  set (d := mkDb _ _ _ true). match goal with |- wp _ _ ?w => assert (Hp : prepared g d [] w) end.
  { split; [ done | ]. split; [ | split; [ eexists; apply lookup_insert_eq | by intros ? ? [] ] ].
    intros h s Hs. cbn in Hs. rewrite insert_insert_eq in Hs. destruct (decide (h = g)) as [ -> | Hne ].
    - rewrite lookup_insert_eq in Hs. by injection Hs as <-.
    - rewrite lookup_insert_ne in Hs by done. by eapply Hq. }
  assert (Hd : is_Some (table d)) by (cbn; by rewrite Ht).
  prepare_role RExists Hd Hp. prepare_role RGetvalue Hd Hp. prepare_role RInsert Hd Hp. prepare_role RDelete Hd Hp.
  prepare_role RUpdate Hd Hp. prepare_role RKeyFilter Hd Hp. prepare_role RKeyValueFilter Hd Hp. prepare_role RMetadata Hd Hp.
  apply wpx_ret. split; [ done | ]. destruct Hp as (Hdb & Hq' & (b & Hs) & Hl). eexists. split; [ exact Hs | ]. cbn [last_error phase Z.eqb SQLITE_OK].
  eexists. split; [ done | ]. eapply (prepared_represents _ g d t); [ | split; by cbn | done | done ]. split; [ done | eauto ].
Qed.

Lemma wp_createSchema v : saved (db v) = None -> quiet v ->
  wp createSchema (fun o w => o = Ok tt /\ table (db w) = Some (default ∅ (table (db v))) /\ saved (db w) = None /\ quiet w) v.
Proof.
  intros Hsv Hq. unfold createSchema. apply wpx_bind.
  apply wp_scoped, wpo_bind, (wpo_prepare (Single OJournal)); [ done | ]. intros g Hg Hn.
  apply wpo_with_handle. eapply wp_step; [ apply lookup_set_stmt | by apply quiet_others_set | ].
  intros env. eexists _, _. split; [ done | ]. cbn [fst snd next_row orb Z.eqb Pos.eqb SQLITE_DONE SQLITE_ROW].
  split; [ done | ]. eexists. split; [ apply lookup_insert_eq | ]. cbn [last_error phase set_phase Z.eqb SQLITE_OK continues].
  rewrite set_stmt_twice. replace (drop_stmt g _) with v.
  2:{ unfold drop_stmt, set_stmt. cbn. rewrite delete_insert_id by done. by destruct v. }
  eapply wpx_mono; [ | apply (wp_run_ddl v OCreate (eval_once SNull OCreate (db v))); [ done | done ] ]. cbn. intros o w [ -> -> ]. done.
Qed.

(** *** The destructor *)

(** The view once the statements of [gone] are destroyed. *)
Definition remaining (kv : KVStore) (v : View double) (gone : list Role) (w : View double) : Prop :=
  db w = db v /\ quiet w /\ forall r, ~ In r gone -> stmts w !! handle kv r = stmts v !! handle kv r.

Lemma wp_delete_role kv st v gone w r m (Φ : outcome unit -> View double -> Prop) :
  represents kv st v -> remaining kv v gone w -> ~ In r gone ->
  (usable st r = true -> forall w', remaining kv v (r :: gone) w' -> wp m Φ w') ->
  (usable st r = false -> forall w', Φ (Throw terminate) w') ->
  wp (let^ _ := delete_statement (handle kv r) in m) Φ w.
Proof.
  intros Hrep (Hd & Hq & Hs) Hr Hok Hbad. destruct (rep_stmts _ _ _ Hrep r) as (Hh & s & Hsr & _ & Hp).
  apply wpx_bind. eapply wp_delete_statement; [ rewrite Hs; done | done | ].
  unfold role_phase in Hp. destruct (usable st r) eqn:Hu.
  - unfold last_error. rewrite Hp. cbn. apply Hok; [ done | ]. split; [ done | ]. split.
    + intros h' s' Hs'. cbn in Hs'. apply lookup_delete_Some in Hs' as [ _ Hs' ]. by eapply Hq.
    + intros r' Hr'. cbn. rewrite lookup_delete_ne.
      * apply Hs. intros Hin. apply Hr'. by right.
      * intros Heq. apply Hr'. left. by eapply handle_injective.
  - destruct Hp as (rc & Hp & Hrc). unfold last_error. rewrite Hp, (proj2 (Z.eqb_neq _ _) Hrc). by apply Hbad.
Qed.

Lemma wp_in_destructor (m : X conn unit) (Φ : outcome unit -> View double -> Prop) v :
  wp m (fun o w => Φ (match o with Throw _ => Throw terminate | _ => o end) w) v -> wp (in_destructor m) Φ v.
Proof.
  intros Hm c Hc. destruct (Hm c Hc) as (w & Hw & HΦ). exists w. unfold in_destructor.
  destruct (m c) as [ [ a | e | ] c' ]; cbn in *; done.
Qed.

Local Ltac destroy_role r Hrep Hr :=
  eapply (wp_delete_role _ _ _ _ _ r);
    [ exact Hrep | exact Hr | cbn; intuition discriminate | let Hu := fresh "Hok" in intros Hu; clear Hr; intros ? Hr | ].

Lemma wp_KVStore_delete kv st v : represents kv st v -> backup st = None ->
  wp (KVStore_delete kv) (fun o _ => o = if can_insert st && can_update st then Ok tt else Throw terminate) v.
Proof.
  intros Hrep Hb. apply wp_in_destructor.
  assert (Hr : remaining kv v [] v) by (split; [ done | split; [ by eapply rep_quiet | done ] ]).
  destroy_role RMetadata Hrep Hr; [ | done ]. destroy_role RKeyValueFilter Hrep Hr; [ | done ]. destroy_role RKeyFilter Hrep Hr; [ | done ].
  destroy_role RUpdate Hrep Hr; [ | intros Hu ?; cbn in Hu; by rewrite Hu, andb_false_r ].
  destroy_role RDelete Hrep Hr; [ | done ].
  destroy_role RInsert Hrep Hr; [ | intros Hi ?; cbn in Hi; by rewrite Hi ].
  destroy_role RGetvalue Hrep Hr; [ | done ]. destroy_role RExists Hrep Hr; [ | done ].
  destruct Hr as (Hd & Hq & _). destruct (rep_db _ _ _ Hrep) as [ t Ht ].
  apply wpx_bind. eapply wpx_mono; [ | apply (wp_run_ddl _ OOptimize (Changed (db v))); [ done | cbn; by rewrite Hd ] ].
  cbn. intros o w [ -> -> ]. cbn. pose proof (rep_saved _ _ _ Ht) as Hsv. rewrite Hb in Hsv.
  eapply (agrees_call _ _ _ SQLITE_OK); [ intros c Hc; apply law_checkpoint; [ done | done | by apply quiet_others ] | ].
  cbn. by repeat match goal with Hx : usable st _ = true |- _ => cbn in Hx; rewrite ?Hx; clear Hx end.
Qed.
End Calls.

(** ** Theorems *)

Section Theorems.
Context {double : Type} `{SQLiteLaws double} `{Allocator} (double_zero : double).

Definition initial_contract (v : View double) : Contract double := mkContract (entry <$> default ∅ (table (db v))) None.
Definition initial_store (v : View double) : Store double := in_order (initial_contract v).

Lemma KVStore_new_represents path c v :
  sqlite3_open_v2 path = (SQLITE_OK, c) -> works c v -> saved (db v) = None -> quiet v ->
  exists kv c' w, KVStore_new path = (Ok kv, c') /\ works c' w /\ represents kv (initial_store v) w.
Proof.
  intros Hopen Hc Hsv Hq. unfold KVStore_new, Database_new. rewrite Hopen. cbn [check_rc Z.eqb SQLITE_OK].
  set (functions := (let^ _ := call SQLITE_OK (sqlite3_create_function (lit "power") 2) in _)).
  assert (Hf : wp functions (fun o w => o = Ok tt /\ w = v) v).
  { repeat first [ apply wpx_bind | eapply (agrees_call _ _ _ SQLITE_OK v); [ intros c0 Hc0; by apply law_create_function | cbn ] ].
    done. }
  destruct (Hf c Hc) as (v' & Hw & Ho & ->). destruct (functions c) as [ o c1 ]. cbn in *. subst o.
  assert (Hall : wp (let^ _ := createSchema in prepareSQL)
                    (fun o w => exists kv, o = Ok kv /\ represents kv (initial_store v) w) v).
  { apply wpx_bind. eapply wpx_mono; [ | by apply wp_createSchema ]. intros o w (-> & Ht & Hs & Hqw). cbn. by apply wp_prepareSQL. }
  destruct (Hall c1 Hw) as (w & Hw' & kv & Hkv & Hrep).
  destruct (xbind _ _ c1) as [ o c2 ]. cbn in *. subst o. eauto 6.
Qed.


(** C37 insertKey of a key that exists throws, and its statement is never reset: from then
    on every insertKey throws, also for keys that do not exist, and the destruction of the
    store calls std::terminate. *)
Theorem duplicate_insert_disables_store kv st v c k x e :
  represents kv st v -> works c v -> can_insert st = true -> backup st = None ->
  entries st !! k = Some e -> fits_length k -> value_fits x ->
  exists c1, (exists m, insertKey kv k x c = (Throw (DodoException m), c1)) /\
    (forall k' x', fits_length k' -> value_fits x' -> exists m, fst (insertKey kv k' x' c1) = Throw (DodoException m)) /\
    fst (KVStore_delete kv c1) = Throw terminate.
Proof.
  intros Hrep Hc Hi Hb Hk Hl Hx. destruct (wp_insert kv st v k x Hrep Hl Hx c Hc) as (w & Hw & Ho & Hrep1).
  unfold spec_insert in Ho, Hrep1. rewrite Hi, Hk, orb_true_r in Ho, Hrep1. cbn in Ho, Hrep1.
  destruct (insertKey kv k x c) as [ o c1 ]. cbn in *. exists c1. destruct Ho as [ m -> ]. split; [ by exists m | ]. split.
  - intros k' x' Hl' Hx'. destruct (wp_insert kv _ w k' x' Hrep1 Hl' Hx' c1 Hw) as (w2 & _ & Ho & _). by cbn in Ho.
  - by destruct (wp_KVStore_delete kv _ w Hrep1 Hb c1 Hw) as (w2 & _ & Ho).
Qed.

(** The store's destructor completes, after the optimisation and the checkpoint, exactly
    when no insertKey or setKey failed before; otherwise it ends the program. *)
Theorem destructor_completes kv st v c :
  represents kv st v -> works c v -> backup st = None ->
  fst (KVStore_delete kv c) = (if can_insert st && can_update st then Ok tt else Throw terminate).
Proof. intros Hrep Hc Hb. by destruct (wp_KVStore_delete kv st v Hrep Hb c Hc) as (w & _ & Ho). Qed.

(** A transaction call out of place, committing or rolling back without a transaction,
    starting one within another or a vacuum within one, does not reach its caller as the
    documented exception: the destructor of the local statement throws while the exception
    is in flight, and the program ends. *)
Theorem transaction_misuse_terminates kv st v c :
  represents kv st v -> works c v ->
  if backup st is Some _ then fst (startTransaction c) = Throw terminate /\ fst (vacuum c) = Throw terminate
  else fst (commitTransaction c) = Throw terminate /\ fst (rollbackTransaction c) = Throw terminate.
Proof.
  intros Hrep Hc. destruct (rep_db _ _ _ Hrep) as [ t Ht ]. pose proof (rep_quiet _ _ _ Hrep) as Hq.
  assert (Href : forall o, (forall env, eval_once env o (db v) = Refused SQLITE_ERROR) -> fst (run_ddl (sql_text (Single o)) c) = Throw terminate).
  { intros o Ho. destruct (wp_run_ddl v o (Refused SQLITE_ERROR) Hq Ho c Hc) as (w & _ & Hr). by apply Hr. }
  destruct (saved_cases _ _ _ Ht) as [ (m & t' & -> & Hs & _) | [ -> Hs ] ]; split;
    [ apply (Href OBegin) | apply (Href OVacuum) | apply (Href OCommit) | apply (Href ORollback) ]; intros env; cbn; by rewrite Hs.
Qed.

(** filterKeys answers exactly the keys that match the pattern, each once, in the order
    of their octets; a key with a zero octet appears up to that octet. *)
Theorem filterKeys_sorted fuel kv st v c p :
  represents kv st v -> works c v -> fits_length p -> (size (entries st) < fuel)%nat ->
  exists l, fst (filterKeys fuel kv p c) = Ok (map c_string l) /\ Sorted str_le l /\ NoDup l /\
    forall k, k ∈ l <-> is_Some (entries st !! k) /\ like true p k = true.
Proof.
  intros Hrep Hc Hl Hf. destruct (wp_filter fuel kv st v p Hrep Hl Hf c Hc) as (w & _ & Ho & _).
  exists (sorted_keys p st). split; [ done | ]. unfold sorted_keys. split; [ apply Sorted_merge_sort, _ | ].
  assert (Hperm := merge_sort_Permutation str_le (filter (fun k => like true p k = true) (map fst (map_to_list (entries st))))).
  split; [ rewrite Hperm; apply NoDup_filter, NoDup_fst_map_to_list | ]. intros k. rewrite Hperm, list_elem_of_filter.
  assert (Hin : k ∈ map fst (map_to_list (entries st)) <-> is_Some (entries st !! k)); [ | tauto ].
  change (k ∈ (map_to_list (entries st)).*1 <-> is_Some (entries st !! k)). rewrite list_elem_of_fmap. split.
  - intros ([ k' e ] & -> & He). exists e. by apply elem_of_map_to_list.
  - intros [ e He ]. exists (k, e). split; [ done | by apply elem_of_map_to_list ].
Qed.

Lemma c_string_no_zero s : Forall (fun a => octet a <> 0) s -> c_string s = s.
Proof. induction 1 as [ | a s Ha _ IH ]; cbn; [ done | ]. by rewrite (proj2 (Z.eqb_neq _ _) Ha), IH. Qed.

(** The abstract store after an insertion that succeeds. *)
Lemma spec_insert_fresh k x (st : Store double) :
  can_insert st = true -> entries st !! k = None -> is_null x = false ->
  exists st', spec_insert k x st = (true, st') /\ lookup_value st' k = Some x.
Proof.
  intros Hi Hk Hx. unfold spec_insert. rewrite Hi, Hk, Hx. eexists. split; [ done | ]. unfold lookup_value. cbn. by rewrite lookup_insert_eq.
Qed.

Lemma insert_then_read {A} fuel kv st v c k x op (f : A -> Answer double) a :
  represents kv st v -> works c v -> can_insert st = true -> entries st !! k = None ->
  fits_length k -> value_fits x -> is_null (sql_value x) = false ->
  (forall st', lookup_value st' k = Some (sql_value x) -> fits fuel op st' /\ spec_op op st' = (Returns (f a), st')) ->
  run_client double_zero fuel kv [OpInsert k x; op] c = [Some (Returns (ABool true)); Some (Returns (f a))].
Proof.
  intros Hrep Hc Hi Hk Hl Hx Hn Hop. destruct (spec_insert_fresh k (sql_value x) st Hi Hk Hn) as (st' & Hst & Hv).
  destruct (Hop st' Hv) as [ Hf He ]. rewrite (client_refines double_zero fuel kv _ st v c Hrep Hc).
  - cbn. by rewrite Hst, He.
  - cbn. rewrite Hst. by repeat split.
Qed.

(** What insertKey stores under a new key getValue of the same type reads back: texts
    without zero octets, doubles that are not NaN, 64-bit integers, and every Bytes object
    that has an array, octet for octet. *)
Theorem insert_get_roundtrip fuel kv st v c k :
  represents kv st v -> works c v -> can_insert st = true -> entries st !! k = None -> fits_length k ->
  (forall n, alloc_ok n = true) ->
  (forall s, fits_length s -> Forall (fun a => octet a <> 0) s ->
     run_client double_zero fuel kv [OpInsert k (VText s); OpGetString k] c = [Some (Returns (ABool true)); Some (Returns (AString (Some s)))]) /\
  (forall d, of_double d <> SNull ->
     run_client double_zero fuel kv [OpInsert k (VDouble d); OpGetDouble k] c = [Some (Returns (ABool true)); Some (Returns (ADouble (Some d)))]) /\
  (forall z, run_client double_zero fuel kv [OpInsert k (VInt64 z); OpGetInt64 k] c = [Some (Returns (ABool true)); Some (Returns (AInt64 (Some z)))]) /\
  (forall b s b', rep b s -> array_ b <> None -> fits_length s ->
     run_client double_zero fuel kv [OpInsert k (VBytes b); OpGetBytes k b'] c = [Some (Returns (ABool true)); Some (Returns (ABytes (Some s)))]).
Proof.
  intros Hrep Hc Hi Hk Hl Ha. split; [ | split; [ | split ] ].
  - intros s Hs Hz. apply (insert_then_read fuel kv st v c k (VText s) _ (fun s => AString (Some s))); try done.
    intros st' Hv. split; [ done | ]. cbn. rewrite Hv. cbn. unfold as_string. by rewrite as_text_text, c_string_no_zero.
  - intros d Hd. destruct (of_double_cases d) as [ Hf | ]; [ | done ].
    apply (insert_then_read fuel kv st v c k (VDouble d) _ (fun s => ADouble (Some s))); try done; [ cbn; by rewrite Hf | ].
    intros st' Hv. split; [ done | ]. cbn. rewrite Hv. cbn. by rewrite Hf, as_double_float.
  - intros z. apply (insert_then_read fuel kv st v c k (VInt64 z) _ (fun s => AInt64 (Some s))); try done.
    intros st' Hv. split; [ done | ]. cbn. rewrite Hv. cbn. by rewrite as_int64_integer.
  - intros b s b' Hb Harr Hs.
    assert (Harg : blob_argument b = Ok (Some s)).
    { unfold blob_argument. pose proof (rep_take _ _ Hb) as Ht. unfold cells in Ht. destruct (array_ b); [ | done ].
      cbn in Ht. by rewrite Ht, determinate_map. }
    assert (Hval : sql_value (VBytes b) = SBlob s) by (cbn; by rewrite Harg).
    apply (insert_then_read fuel kv st v c k (VBytes b) _ (fun s => ABytes (Some s))); try done.
    + cbn. by rewrite Harg.
    + by rewrite Hval.
    + intros st' Hv. rewrite Hval in Hv. cbn. rewrite Hv. cbn. rewrite as_blob_blob. split; [ | done ]. split; [ done | ]. split; [ | done ].
      unfold fits_length in Hs. pose proof max_length_int. unfold size_limit. lia.
Qed.
End Theorems.

(** ** Witnesses: a store over the toy library *)

Module Example.
Local Existing Instance Toy.library.
Local Existing Instance Toy.functions.
Local Existing Instance Toy.laws.
Local Existing Instance always_alloc.

Definition kv0 : KVStore := Eval vm_compute in match fst (KVStore_new (lit "db")) with Ok kv => kv | _ => mkKVStore 0 0 0 0 0 0 0 0 end.
Definition opened : @conn Z Toy.library := Toy.opened.
Definition c0 : @conn Z Toy.library := Eval vm_compute in snd (KVStore_new (lit "db")).
Definition st0 : Store Z := initial_store Toy.opened.

Lemma quiet_opened : quiet Toy.opened.
Proof. intros h s Hs. cbn in Hs. by rewrite lookup_empty in Hs. Qed.

Lemma kv0_represents : represents kv0 st0 c0.
Proof.
  destruct (KVStore_new_represents (lit "db") opened Toy.opened) as (kv & c & w & Hnew & Hw & Hrep);
    [ done | done | done | apply quiet_opened | ].
  cbn in Hw. subst w. assert (Heq : KVStore_new (lit "db") = (Ok kv0, c0)) by (by vm_compute).
  rewrite Heq in Hnew. injection Hnew as <- <-. exact Hrep.
Qed.

(** The view after a call. *)
Lemma represents_call fuel st (v : @conn Z Toy.library) op : represents kv0 st v -> fits fuel op st -> fst (spec_op op st) <> Terminates ->
  represents kv0 (snd (spec_op op st)) (snd (run_op 0 fuel kv0 op v)).
Proof.
  intros Hrep Hfit Hne. assert (Hv : works v v) by reflexivity.
  destruct (op_refines 0 fuel kv0 st v op Hrep Hfit v Hv) as (w & Hw & _ & Hnext).
  cbn in Hw. subst w. by apply Hnext.
Qed.

Definition put : Op Z := OpInsert (lit "a") (VInt64 1).
Definition c1 : @conn Z Toy.library := snd (run_op 0 9 kv0 put c0).
Definition st1 : Store Z := snd (spec_op put st0).

Lemma kv1_represents : represents kv0 st1 c1.
Proof. apply represents_call; [ apply kv0_represents | by vm_compute | by vm_compute ]. Qed.



Lemma duplicate_insert_disables_store_witness :
  exists c2, (exists m, insertKey kv0 (lit "a") (VInt64 2) c1 = (Throw (DodoException m), c2)) /\
    (forall k' x', fits_length k' -> value_fits x' -> exists m, fst (insertKey kv0 k' x' c2) = Throw (DodoException m)) /\
    fst (KVStore_delete kv0 c2) = Throw terminate.
Proof.
  by apply (duplicate_insert_disables_store kv0 st1 c1 c1 (lit "a") (VInt64 2) (SInteger 1, SInteger 0) kv1_represents).
Defined.

Lemma destructor_completes_witness : fst (KVStore_delete kv0 c1) = Ok tt.
Proof. by apply (destructor_completes kv0 st1 c1 c1 kv1_represents). Defined.

Lemma transaction_misuse_terminates_witness :
  fst (commitTransaction c1) = Throw terminate /\ fst (rollbackTransaction c1) = Throw terminate.
Proof. by apply (transaction_misuse_terminates kv0 st1 c1 c1 kv1_represents). Defined.

Lemma insert_get_roundtrip_witness :
  run_client 0 9 kv0 [OpInsert (lit "b") (VText (lit "xy")); OpGetString (lit "b")] c1 =
    [Some (Returns (ABool true)); Some (Returns (AString (Some (lit "xy"))))].
Proof.
  assert (Hw : works c1 c1) by reflexivity.
  assert (Hn : entries st1 !! lit "b" = None) by (by vm_compute).
  assert (Hl : fits_length (lit "b")) by (by vm_compute).
  refine (proj1 (insert_get_roundtrip 0 9 kv0 st1 c1 c1 (lit "b") kv1_represents Hw eq_refl Hn Hl (fun _ => eq_refl)) (lit "xy") _ _).
  - by vm_compute.
  - by repeat constructor.
Defined.

Lemma filterKeys_sorted_witness :
  exists l, fst (filterKeys 9 kv0 (lit "%") c1) = Ok (map c_string l) /\ Sorted str_le l /\ NoDup l /\
    forall k, k ∈ l <-> is_Some (entries st1 !! k) /\ like true (lit "%") k = true.
Proof. apply (filterKeys_sorted 9 kv0 st1 c1 c1 (lit "%") kv1_represents); [ done | done | vm_compute; lia ]. Defined.
End Example.
