(* ===== verification/Address.v ===== *)
(** * Address: socket parameters and network addresses

    Models src/src/include/network/socketparams.hpp (the enumerations with their Linux
    values and texts), src/src/include/network/address.hpp and
    src/src/lib/network/address.cpp.  An Address is its sockaddr_storage: the family, and
    the 126 octets behind it, where sockaddr_in keeps port (0), address (2) and padding (6)
    and sockaddr_in6 keeps port (0), flow information (2), address (6) and scope (22).  The
    two overlap, and a cell that was never written is indeterminate.

    The C library is a parameter: [inet_pton] and [inet_ntop] (class [Inet] with its
    documented behaviour [InetLaws]), [getaddrinfo] and [getnameinfo] (class [Resolver]). *)

From S2P Require Import Prelude.
From S2P Require Import SystemError.
From S2P Require Import Bytes.

Local Open Scope Z_scope.

(** ** SocketParams *)

Inductive AddressFamily : Type :=
| afLOCAL | afINET | afINET6 | afIPX | afNETLINK | afX25 | afAX25 | afATMPVC | afAPPLETALK | afPACKET | afALG | afUNSPEC.
Inductive SocketType : Type := stSTREAM | stDGRAM | stSEQPACKET | stRAW | stRDM | stPACKET.

Definition AF_UNSPEC : Z := 0.
Definition AF_INET : Z := 2.
Definition AF_INET6 : Z := 10.
Definition SOCK_STREAM : Z := 1.
Definition pnHOPOPT : Z := 0.
Definition pnTCP : Z := 6.

Definition family_value (f : AddressFamily) : Z :=
  match f with
  | afLOCAL => 1 | afINET => 2 | afINET6 => 10 | afIPX => 4 | afNETLINK => 16 | afX25 => 9 | afAX25 => 3
  | afATMPVC => 8 | afAPPLETALK => 5 | afPACKET => 17 | afALG => 38 | afUNSPEC => 0
  end.
Definition sockettype_value (t : SocketType) : Z :=
  match t with stSTREAM => 1 | stDGRAM => 2 | stSEQPACKET => 5 | stRAW => 3 | stRDM => 4 | stPACKET => 10 end.

(** The members may hold any value an int was cast to. *)
Record SocketParams : Type := mkSocketParams { family_ : Z; sockettype_ : Z; protocol_ : Z }.
Definition SocketParams_default : SocketParams := mkSocketParams AF_INET6 SOCK_STREAM pnHOPOPT.
Definition setAddressFamily (f : Z) (p : SocketParams) : SocketParams := mkSocketParams f (sockettype_ p) (protocol_ p).
Definition setSocketType (t : Z) (p : SocketParams) : SocketParams := mkSocketParams (family_ p) t (protocol_ p).
Definition setProtocol (n : Z) (p : SocketParams) : SocketParams := mkSocketParams (family_ p) (sockettype_ p) n.

Definition family_names : list (Z * str) :=
  [(1, lit "AF_LOCAL"); (2, lit "AF_INET"); (10, lit "AF_INET6"); (4, lit "AF_IPX"); (16, lit "AF_NETLINK"); (9, lit "AF_X25");
   (3, lit "AF_AX25"); (8, lit "AF_ATMPVC"); (5, lit "AF_APPLETALK"); (17, lit "AF_PACKET"); (38, lit "AF_ALG"); (0, lit "AF_UNSPEC")].
Definition sockettype_names : list (Z * str) :=
  [(1, lit "SOCK_STREAM"); (2, lit "SOCK_DGRAM"); (5, lit "SOCK_SEQPACKET"); (3, lit "SOCK_RAW"); (4, lit "SOCK_RDM"); (10, lit "SOCK_PACKET")].
Definition protocol_names : list (Z * str) :=
  [(0, lit "HOPOPT"); (1, lit "ICMP"); (2, lit "IGMP"); (3, lit "GGP"); (4, lit "IPv4"); (5, lit "ST"); (6, lit "TCP"); (7, lit "CBT");
   (8, lit "EGP"); (9, lit "IGP"); (10, lit "BBN-RCC-MON"); (11, lit "NVP-II"); (12, lit "PUP"); (13, lit "ARGUS"); (14, lit "EMCON");
   (15, lit "XNET"); (16, lit "CHAOS"); (17, lit "UDP"); (18, lit "MUX"); (19, lit "DCN_MEAS"); (20, lit "HMP")].

Definition name_of (table : list (Z * str)) (otherwise : str) (z : Z) : str :=
  match find (fun p => fst p =? z) table with Some p => snd p | None => otherwise end.
Definition familyString : Z -> str := name_of family_names (lit "unhandled protocol family").
Definition socketTypeString : Z -> str := name_of sockettype_names (lit "unhandled socket type").
Definition protocolString : Z -> str := name_of protocol_names (lit "unknown").
Definition params_asString (p : SocketParams) : str :=
  familyString (family_ p) ++ lit " " ++ socketTypeString (sockettype_ p) ++ lit " " ++ protocolString (protocol_ p).

(** ** Address *)

Record Address : Type := mkAddress { ss_family : Z; ss_data : list cell }.

Definition storage_octets : nat := 126.
Definition put_cells (off : nat) (vals : list cell) (d : list cell) : list cell := take off d ++ vals ++ drop (off + length vals) d.
Definition get_cells (off n : nat) (d : list cell) : list cell := take n (drop off d).

(** Reading memory that was not written is undefined. *)
Definition read_cells (off n : nat) (d : list cell) : outcome str :=
  match determinate (get_cells off n d) with
  | Some s => Ok s
  | None => Throw (UndefinedBehaviour (lit "read of an indeterminate octet"))
  end.

Class Inet := {
  inet_pton4 : str -> option str;
  inet_pton6 : str -> option str;
  inet_ntop4 : str -> str;
  inet_ntop6 : str -> str;
}.

Definition zeros : list cell := replicate storage_octets (Some "000"%char).
Definition htons (port : Z) : str := [chr (port / 256); chr (port mod 256)].
Definition ntohs (s : str) : Z := match s with [a; b] => octet a * 256 + octet b | _ => 0 end.

Definition Address_invalid : Address := mkAddress AF_UNSPEC (replicate storage_octets None).
Definition init : Address := mkAddress AF_UNSPEC zeros.

(** [Address( const sockaddr*, socklen_t )]: [octets] are those behind the family. *)
Definition Address_of_sockaddr (family : Z) (octets : str) : Address :=
  mkAddress family (put_cells 0 (map Some octets) (replicate storage_octets None)).

Definition address_isValid (a : Address) : bool := negb (ss_family a =? AF_UNSPEC).
Definition getAddressFamily (a : Address) : Z := ss_family a.

Definition setPort (port : Z) (a : Address) : Address :=
  if (ss_family a =? AF_INET) || (ss_family a =? AF_INET6)
  then mkAddress (ss_family a) (put_cells 0 (map Some (htons port)) (ss_data a)) else a.

Definition getPort (a : Address) : outcome Z :=
  if (ss_family a =? AF_INET) || (ss_family a =? AF_INET6)
  then let! s := read_cells 0 2 (ss_data a) in Ok (ntohs s) else Ok 0.

(** [operator==]: memcmp of the two sockaddr_in, or sockaddr_in6. *)
Definition address_eqb (a b : Address) : outcome bool :=
  let compare n := let! x := read_cells 0 n (ss_data a) in
                   let! y := read_cells 0 n (ss_data b) in Ok (bool_decide (x = y)) in
  if ss_family a =? ss_family b then
    if ss_family a =? AF_INET then compare 14%nat
    else if ss_family a =? AF_INET6 then compare 26%nat
    else Ok false
  else Ok false.

Section Text.
Context `{Inet}.

(** [operator=( const std::string& )]: an assignment keeps what it does not write. *)
Definition address_assign (text : str) (a : Address) : Address :=
  match inet_pton4 (c_string text) with
  | Some ip => mkAddress AF_INET (put_cells 2 (map Some ip) (ss_data a))
  | None =>
      match inet_pton6 (c_string text) with
      | Some ip => mkAddress AF_INET6 (put_cells 6 (map Some ip) (ss_data a))
      | None => mkAddress AF_UNSPEC zeros
      end
  end.

Definition Address_of_text (text : str) : Address := address_assign text init.
Definition Address_of_text_port (text : str) (port : Z) : Address := setPort port (address_assign text init).

Definition address_asString (withport : bool) (a : Address) : outcome str :=
  let suffix ip := if withport then let! port := getPort a in
                                    Ok (if negb (port =? 0) then ip ++ lit ":" ++ print_dec port else ip)
                   else Ok ip in
  if ss_family a =? AF_INET then let! ip := read_cells 2 4 (ss_data a) in suffix (inet_ntop4 ip)
  else if ss_family a =? AF_INET6 then let! ip := read_cells 6 16 (ss_data a) in suffix (inet_ntop6 ip)
  else if ss_family a =? AF_UNSPEC then Ok (lit "invalid address")
  else Ok (lit "unhandled address family").
End Text.

(** ** Name resolution *)

Record addrinfo : Type := mkAddrinfo {
  ai_family : Z; ai_socktype : Z; ai_protocol : Z; ai_addr : str; ai_canonname : option str }.

Class Resolver := {
  getaddrinfo : str -> Z * list addrinfo;
  getnameinfo : Address -> Z -> Z * str * str * Z;      (** result, host, service, errno *)
}.

Record AddrInfoItem : Type := mkItem { address : Address; params : SocketParams }.
Record AddrInfo : Type := mkAddrInfo { canonicalname : str; items : list AddrInfoItem }.
Definition AddrInfo_new : AddrInfo := mkAddrInfo [] [].

Section Resolution.
Context `{Resolver}.

(** The loop over the results; every canonical name replaces the one before. *)
Fixpoint add_items (l : list addrinfo) (info : AddrInfo) : AddrInfo :=
  match l with
  | [] => info
  | rp :: rest =>
      let item := mkItem (Address_of_sockaddr (ai_family rp) (ai_addr rp))
                         (mkSocketParams (ai_family rp) (ai_socktype rp) (ai_protocol rp)) in
      let name := match ai_canonname rp with Some n => n | None => canonicalname info end in
      add_items rest (mkAddrInfo name (items info ++ [item]))
  end.

Definition no_address (rc : SystemError) : bool :=
  (rc =? ecEAI_ADDRFAMILY) || (rc =? ecEAI_NODATA) || (rc =? ecEAI_NONAME).

Definition getHostAddrInfo (hostname : str) (info : AddrInfo) : outcome (SystemError * AddrInfo) :=
  let (rc, l) := getaddrinfo (c_string hostname) in
  if rc =? ecOK then Ok (rc, add_items l info)
  else if no_address rc then Ok (rc, info)
  else Throw (SystemException (lit "Address::getHostAddrInfo failed") rc).

Definition fits_params (p : SocketParams) (item : AddrInfoItem) : bool :=
  ((family_ (params item) =? family_ p) || (family_ p =? AF_UNSPEC)) &&
  (sockettype_ (params item) =? sockettype_ p) && (protocol_ (params item) =? protocol_ p).

(** The loop over the items, which returns at the first that fits. *)
Fixpoint first_fit (p : SocketParams) (l : list AddrInfoItem) : option AddrInfoItem :=
  match l with
  | [] => None
  | item :: rest => if fits_params p item then Some item else first_fit p rest
  end.

(** The result: error, and the parameters, address and canonical name afterwards. *)
Definition getHostAddrInfo_first (hostname : str) (p : SocketParams) : outcome (SystemError * (SocketParams * Address * str)) :=
  let! (error, info) := getHostAddrInfo hostname AddrInfo_new in
  if error =? ecOK then
    match items info with
    | [] => Ok (ec_value ecEAI_NODATA, (p, Address_invalid, []))
    | l =>
        match first_fit p l with
        | Some item => Ok (ec_value ecOK, (setAddressFamily (getAddressFamily (address item)) p, address item, canonicalname info))
        | None => Ok (ec_value ecEAI_NODATA, (p, Address_invalid, []))
        end
    end
  else Ok (error, (p, Address_invalid, [])).

Definition NI_NUMERICSERV : Z := 2.
Definition NI_NAMEREQD : Z := 8.

Definition name_lookup (flags : Z) (a : Address) : SystemError * str * str :=
  let '(rc, host, service, errno) := getnameinfo a flags in
  (if rc =? ecEAI_SYSTEM then errno else rc, host, service).

Definition getNameInfo (a : Address) : SystemError * str :=
  let '(error, host, _) := name_lookup NI_NAMEREQD a in (error, if error =? 0 then c_string host else []).

(** The overload with a service does not set it. *)
Definition getNameInfo_service (service : str) (a : Address) : SystemError * str * str :=
  let '(error, host, _) := name_lookup NI_NAMEREQD a in (error, if error =? 0 then c_string host else [], service).

Definition getNameInfo_port (atoi : str -> Z) (a : Address) : SystemError * str * Z :=
  let '(error, host, service) := name_lookup (Z.lor NI_NAMEREQD NI_NUMERICSERV) a in
  if error =? 0 then (error, c_string host, wrap 16 (atoi service)) else (error, [], 0).
End Resolution.

(** ** What the C library documents *)

Class InetLaws `{Inet} := {
  pton4_length : forall t ip, inet_pton4 t = Some ip -> length ip = 4%nat;
  pton6_length : forall t ip, inet_pton6 t = Some ip -> length ip = 16%nat;
  pton_ntop4 : forall ip, length ip = 4%nat -> inet_pton4 (inet_ntop4 ip) = Some ip;
  pton_ntop6 : forall ip, length ip = 16%nat -> inet_pton4 (inet_ntop6 ip) = None /\ inet_pton6 (inet_ntop6 ip) = Some ip;
  ntop4_no_zero : forall ip, c_string (inet_ntop4 ip) = inet_ntop4 ip;
  ntop6_no_zero : forall ip, c_string (inet_ntop6 ip) = inet_ntop6 ip;
}.

(** ** Lemmas on the storage *)

Definition nul : ascii := "000"%char.

(** The sockaddr_in of an address that was assigned once, and the sockaddr_in6. *)
Lemma fresh_ipv4 ip : length ip = 4%nat ->
  read_cells 0 14 (put_cells 2 (map Some ip) zeros) = Ok ([nul; nul] ++ ip ++ replicate 8 nul).
Proof. intros Hl. do 4 (destruct ip as [ | ? ip ]; [ done | ]). by destruct ip. Qed.

Lemma fresh_ipv6 ip : length ip = 16%nat ->
  read_cells 0 26 (put_cells 6 (map Some ip) zeros) = Ok (replicate 6 nul ++ ip ++ replicate 4 nul).
Proof. intros Hl. do 16 (destruct ip as [ | ? ip ]; [ done | ]). by destruct ip. Qed.

Lemma read_ipv4 ip d : length ip = 4%nat -> length d = storage_octets -> read_cells 2 4 (put_cells 2 (map Some ip) d) = Ok ip.
Proof.
  intros Hl Hd. unfold read_cells, get_cells, put_cells.
  rewrite drop_app_length' by (rewrite length_take, Hd; unfold storage_octets; lia).
  rewrite take_app_length' by (rewrite length_map; lia). by rewrite determinate_map.
Qed.

Lemma read_ipv6 ip d : length ip = 16%nat -> length d = storage_octets -> read_cells 6 16 (put_cells 6 (map Some ip) d) = Ok ip.
Proof.
  intros Hl Hd. unfold read_cells, get_cells, put_cells.
  rewrite drop_app_length' by (rewrite length_take, Hd; unfold storage_octets; lia).
  rewrite take_app_length' by (rewrite length_map; lia). by rewrite determinate_map.
Qed.

Lemma ntohs_htons port : 0 <= port < 2 ^ 16 -> ntohs (htons port) = port.
Proof.
  intros Hp. cbn. rewrite !octet_chr; [ pose proof (Z.div_mod port 256 ltac:(lia)); lia | apply Z.mod_pos_bound; lia | ].
  split; [ apply Z.div_pos; lia | apply Z.div_lt_upper_bound; lia ].
Qed.

Section Theorems.
Context `{InetLaws}.

(** What a text denotes: the family and the octets of the address. *)
Definition denotes (t : str) : option (Z * str) :=
  match inet_pton4 (c_string t) with
  | Some ip => Some (AF_INET, ip)
  | None => match inet_pton6 (c_string t) with Some ip => Some (AF_INET6, ip) | None => None end
  end.

(** Addresses made from texts are equal exactly when both texts denote the same address
    of the same family, whatever their spelling; a text that denotes none is equal to
    nothing. *)
Theorem address_equality_is_by_value t u :
  address_eqb (Address_of_text t) (Address_of_text u) =
    Ok (if denotes t is Some x then bool_decide (denotes u = Some x) else false).
Proof.
  unfold Address_of_text, address_assign, denotes, address_eqb. cbn [ss_data init].
  destruct (inet_pton4 (c_string t)) as [ x | ] eqn:Hx; [ | destruct (inet_pton6 (c_string t)) as [ x | ] eqn:Hx6 ];
  (destruct (inet_pton4 (c_string u)) as [ y | ] eqn:Hy; [ | destruct (inet_pton6 (c_string u)) as [ y | ] eqn:Hy6 ]);
  cbn [ss_family ss_data]; try done.
  - change (AF_INET =? AF_INET) with true. cbn [obind]. rewrite !fresh_ipv4 by (by eapply pton4_length). cbn [obind].
    f_equal. apply bool_decide_ext. split; [ | naive_solver ]. intros Heq. apply app_inv_head, app_inv_tail in Heq. by subst.
  - change (AF_INET6 =? AF_INET6) with true. change (AF_INET6 =? AF_INET) with false. cbn [obind].
    rewrite !fresh_ipv6 by (by eapply pton6_length). cbn [obind].
    f_equal. apply bool_decide_ext. split; [ | naive_solver ]. intros Heq. apply app_inv_head, app_inv_tail in Heq. by subst.
Qed.

(** C29 A valid address printed and read again is equal to itself. *)
Theorem address_text_roundtrip t : address_isValid (Address_of_text t) = true ->
  exists u, address_asString false (Address_of_text t) = Ok u /\
    address_eqb (Address_of_text u) (Address_of_text t) = Ok true.
Proof.
  intros Hv. unfold address_isValid, Address_of_text, address_assign in *. cbn [ss_data init] in *. unfold address_asString.
  destruct (inet_pton4 (c_string t)) as [ x | ] eqn:Hx; [ | destruct (inet_pton6 (c_string t)) as [ x | ] eqn:Hx6; [ | done ] ];
    cbn [ss_family ss_data].
  - pose proof (pton4_length _ _ Hx) as Hl. change (AF_INET =? AF_INET) with true. cbv iota. rewrite read_ipv4 by done. cbn [obind].
    eexists. split; [ done | ]. rewrite ntop4_no_zero, pton_ntop4 by done. unfold address_eqb. cbn [ss_family ss_data].
    change (AF_INET =? AF_INET) with true. cbv iota zeta. rewrite fresh_ipv4 by done. cbn [obind]. by rewrite bool_decide_true.
  - pose proof (pton6_length _ _ Hx6) as Hl. change (AF_INET6 =? AF_INET) with false. change (AF_INET6 =? AF_INET6) with true. cbv iota.
    rewrite read_ipv6 by done. cbn [obind]. eexists. split; [ done | ].
    rewrite ntop6_no_zero. destruct (pton_ntop6 x Hl) as [ -> -> ]. unfold address_eqb. cbn [ss_family ss_data].
    change (AF_INET6 =? AF_INET) with false. change (AF_INET6 =? AF_INET6) with true. cbv iota zeta. rewrite fresh_ipv6 by done. cbn [obind].
    by rewrite bool_decide_true.
Qed.

(** An address that held an IPv6 address and is assigned an IPv4 address prints as that
    address and is not equal to it: the assignment leaves the octets behind the IPv4
    address as they were, and the comparison covers them. *)
Theorem reassigned_address_differs t u ip4 ip6 :
  inet_pton4 (c_string u) = Some ip4 -> inet_pton4 (c_string t) = None -> inet_pton6 (c_string t) = Some ip6 ->
  take 8 ip6 <> replicate 8 nul ->
  let a := address_assign u (Address_of_text t) in
  address_asString false a = address_asString false (Address_of_text u) /\
  address_eqb a (Address_of_text u) = Ok false.
Proof.
  intros Hu Ht4 Ht6 Hne. cbn zeta. unfold Address_of_text, address_assign. rewrite Hu, Ht4, Ht6. cbn [ss_data init].
  pose proof (pton4_length _ _ Hu) as Hl4. pose proof (pton6_length _ _ Ht6) as Hl6.
  unfold address_asString, address_eqb. cbn [ss_family ss_data]. change (AF_INET =? AF_INET) with true. cbv iota zeta.
  split; [ rewrite !read_ipv4; try done; do 16 (destruct ip6 as [ | ? ip6 ]; [ done | ]); by destruct ip6 | ].
  rewrite fresh_ipv4 by done. cbn [obind].
  do 4 (destruct ip4 as [ | ? ip4 ]; [ done | ]). destruct ip4; [ | done ].
  do 16 (destruct ip6 as [ | ? ip6 ]; [ done | ]). destruct ip6; [ | done ].
  cbn [take replicate] in Hne. unfold read_cells. cbn [get_cells put_cells take drop map app length zeros storage_octets replicate determinate obind Nat.add].
  f_equal. apply bool_decide_false. cbn. intros Heq. injection Heq as -> -> -> -> -> -> -> ->. by apply Hne.
Qed.

(** A port that was set is read back, and setting it changes nothing else. *)
Theorem port_roundtrip t port : address_isValid (Address_of_text t) = true -> 0 <= port < 2 ^ 16 ->
  getPort (Address_of_text_port t port) = Ok port /\
  address_asString false (Address_of_text_port t port) = address_asString false (Address_of_text t).
Proof.
  intros Hv Hp. unfold address_isValid, Address_of_text_port, Address_of_text, address_assign in *. cbn [ss_data init] in *.
  destruct (inet_pton4 (c_string t)) as [ x | ] eqn:Hx; [ | destruct (inet_pton6 (c_string t)) as [ x | ] eqn:Hx6; [ | done ] ].
  - pose proof (pton4_length _ _ Hx) as Hl. do 4 (destruct x as [ | ? x ]; [ done | ]). destruct x; [ | done ].
    split; [ | done ]. unfold getPort, setPort. cbn [ss_family AF_INET AF_INET6 Z.eqb Pos.eqb orb ss_data]. unfold read_cells. cbn.
    f_equal. by apply ntohs_htons.
  - pose proof (pton6_length _ _ Hx6) as Hl. do 16 (destruct x as [ | ? x ]; [ done | ]). destruct x; [ | done ].
    split; [ | done ]. unfold getPort, setPort. cbn [ss_family AF_INET AF_INET6 Z.eqb Pos.eqb orb ss_data]. unfold read_cells. cbn.
    f_equal. by apply ntohs_htons.
Qed.
End Theorems.

Section Resolving.
Context `{Resolver}.

Lemma first_fit_spec p l item : first_fit p l = Some item <->
  exists l1 l2, l = l1 ++ item :: l2 /\ fits_params p item = true /\ Forall (fun x => fits_params p x = false) l1.
Proof.
  induction l as [ | x l IH ]; cbn.
  - split; [ done | ]. intros (l1 & l2 & He & _). by destruct l1.
  - destruct (fits_params p x) eqn:Hx.
    + split; [ intros [= ->]; by exists [], l | ]. intros (l1 & l2 & He & Hi & Hf). destruct l1 as [ | y l1 ]; cbn in He; [ by simplify_eq | ].
      injection He as <- ->. apply Forall_cons in Hf as [ Hf _ ]. congruence.
    + rewrite IH. split; intros (l1 & l2 & He & Hi & Hf).
      * exists (x :: l1), l2. subst l. split; [ done | ]. split; [ done | by constructor ].
      * destruct l1 as [ | y l1 ]; cbn in He; injection He as -> ->; [ congruence | ].
        apply Forall_cons in Hf as [ _ Hf ]. by exists l1, l2.
Qed.

Lemma first_fit_none p l : first_fit p l = None <-> Forall (fun x => fits_params p x = false) l.
Proof.
  induction l as [ | x l IH ]; cbn; [ done | ]. rewrite Forall_cons. destruct (fits_params p x); [ naive_solver | ]. rewrite IH. naive_solver.
Qed.

(** Looking a host up answers the first address the resolver gave that fits the socket
    parameters, and sets their family to that of the address; when none fits it answers
    ecEAI_NODATA with an invalid address and no name. *)
Theorem first_fitting_address hostname p l :
  getaddrinfo (c_string hostname) = (ec_value ecOK, l) ->
  match first_fit p (items (add_items l AddrInfo_new)) with
  | Some item =>
      (exists l1 l2, items (add_items l AddrInfo_new) = l1 ++ item :: l2 /\ fits_params p item = true /\
         Forall (fun x => fits_params p x = false) l1) /\
      getHostAddrInfo_first hostname p =
        Ok (ec_value ecOK, (setAddressFamily (ss_family (address item)) p, address item, canonicalname (add_items l AddrInfo_new)))
  | None =>
      Forall (fun x => fits_params p x = false) (items (add_items l AddrInfo_new)) /\
      getHostAddrInfo_first hostname p = Ok (ec_value ecEAI_NODATA, (p, Address_invalid, []))
  end.
Proof.
  intros Hl. unfold getHostAddrInfo_first, getHostAddrInfo. rewrite Hl. change (ec_value ecOK =? ecOK) with true. cbn [obind].
  change (ec_value ecOK =? ecOK) with true. cbv iota. set (info := add_items l AddrInfo_new).
  destruct (first_fit p (items info)) as [ item | ] eqn:Hf.
  - split; [ by apply first_fit_spec | ]. destruct (items info) as [ | x r ] eqn:Hi; [ done | ]. by rewrite Hf.
  - split; [ by apply first_fit_none | ]. destruct (items info) as [ | x r ] eqn:Hi; [ done | ]. by rewrite Hf.
Qed.
End Resolving.

(** ** A concrete library: addresses as letters, two per octet behind a mark of the family *)

Module Demo.
Definition encode (ip : str) : str := flat_map (fun c => [chr (65 + octet c / 16); chr (65 + octet c mod 16)]) ip.
Fixpoint decode (t : str) : option str :=
  match t with
  | [] => Some []
  | a :: b :: r =>
      match decode r with
      | Some ip => Some (chr ((octet a - 65) * 16 + (octet b - 65)) :: ip)
      | None => None
      end
  | _ => None
  end.

Definition pton (mark : ascii) (n : nat) (t : str) : option str :=
  match t with
  | c :: r => if (c =c mark) then match decode r with Some ip => if bool_decide (length ip = n) then Some ip else None | None => None end else None
  | [] => None
  end.

#[export] Instance inet : Inet := {|
  inet_pton4 := pton "4"%char 4;
  inet_pton6 := pton "6"%char 16;
  inet_ntop4 ip := "4"%char :: encode ip;
  inet_ntop6 ip := "6"%char :: encode ip;
|}.

Lemma nibbles c : 0 <= octet c / 16 < 16 /\ 0 <= octet c mod 16 < 16.
Proof.
  pose proof (octet_range c). split; [ split; [ apply Z.div_pos; lia | apply Z.div_lt_upper_bound; lia ] | apply Z.mod_pos_bound; lia ].
Qed.

Lemma demo_decode_encode ip : decode (encode ip) = Some ip.
Proof.
  induction ip as [ | c ip IH ]; [ done | ]. cbn [encode flat_map app decode]. fold (encode ip). rewrite IH.
  destruct (nibbles c) as [ H1 H2 ]. rewrite !octet_chr by lia. do 2 f_equal.
  rewrite <- (chr_octet c) at 3. f_equal. pose proof (Z.div_mod (octet c) 16 ltac:(lia)). lia.
Qed.

Lemma encode_no_zero ip : c_string (encode ip) = encode ip.
Proof.
  induction ip as [ | c ip IH ]; [ done | ]. cbn [encode flat_map app c_string]. fold (encode ip).
  destruct (nibbles c) as [ H1 H2 ]. rewrite !octet_chr by lia.
  rewrite (proj2 (Z.eqb_neq (65 + octet c / 16) 0)), (proj2 (Z.eqb_neq (65 + octet c mod 16) 0)) by lia. by rewrite IH.
Qed.

Lemma pton_encode mark n ip : length ip = n -> pton mark n (mark :: encode ip) = Some ip.
Proof. intros Hl. unfold pton. by rewrite ascii_eqb_true, demo_decode_encode, bool_decide_true. Qed.

Lemma pton_length mark n t ip : pton mark n t = Some ip -> length ip = n.
Proof.
  unfold pton. destruct t as [ | c r ]; [ done | ]. destruct (c =c mark); [ | done ]. destruct (decode r) as [ x | ]; [ | done ].
  destruct (bool_decide (length x = n)) eqn:Hb; [ | done ]. intros [= <-]. by apply bool_decide_eq_true in Hb.
Qed.

#[export] Instance inet_laws : InetLaws.
Proof.
  split.
  - apply pton_length.
  - apply pton_length.
  - intros ip Hl. by apply (pton_encode "4"%char).
  - intros ip Hl. split; [ done | by apply (pton_encode "6"%char) ].
  - intros ip. cbn. by rewrite encode_no_zero.
  - intros ip. cbn. by rewrite encode_no_zero.
Qed.

Definition ip4 : str := "4"%char :: encode [chr 127; chr 0; chr 0; chr 1].
Definition ip6 : str := "6"%char :: encode (chr 254 :: chr 128 :: replicate 13 nul ++ [chr 1]).

Lemma address_text_roundtrip_witness :
  exists u, address_asString false (Address_of_text ip6) = Ok u /\
    address_eqb (Address_of_text u) (Address_of_text ip6) = Ok true.
Proof. by apply (address_text_roundtrip ip6). Defined.

Lemma reassigned_address_differs_witness :
  address_eqb (address_assign ip4 (Address_of_text ip6)) (Address_of_text ip4) = Ok false.
Proof.
  by apply (reassigned_address_differs ip6 ip4 [chr 127; chr 0; chr 0; chr 1] (chr 254 :: chr 128 :: replicate 13 nul ++ [chr 1])).
Defined.

Lemma port_roundtrip_witness : getPort (Address_of_text_port ip4 443) = Ok 443.
Proof. apply (port_roundtrip ip4 443); [ done | lia ]. Defined.

#[export] Instance resolver : Resolver := {|
  getaddrinfo _ := (0, [mkAddrinfo 10 2 17 (replicate 26 nul) (Some (lit "host")); mkAddrinfo 2 1 6 (replicate 14 nul) None]);
  getnameinfo _ _ := (-2, [], [], 0);
|}.

Lemma first_fitting_address_witness :
  getHostAddrInfo_first (lit "h") (mkSocketParams AF_UNSPEC SOCK_STREAM pnTCP) =
    Ok (ec_value ecOK, (mkSocketParams AF_INET SOCK_STREAM pnTCP, Address_of_sockaddr AF_INET (replicate 14 nul), lit "host")).
Proof.
  apply (first_fitting_address (lit "h") (mkSocketParams AF_UNSPEC SOCK_STREAM pnTCP)
    [mkAddrinfo 10 2 17 (replicate 26 nul) (Some (lit "host")); mkAddrinfo 2 1 6 (replicate 14 nul) None]). reflexivity.
Defined.
End Demo.
