(* ===== verification/X509.v ===== *)
(** * X509: certificate identities and peer name verification

    Models src/src/lib/network/x509cert.cpp and src/src/include/network/x509cert.hpp:
    document types, identities, subject alternative names, fingerprints, and the
    verification of a peer name ([verifyName], [verifyIP], [verifySAN]).

    What OpenSSL extracts from a certificate is a record of arguments ([Cert]): the
    printed subject and issuer, and the general names of the extension subjectAltName
    with the octets of their ASN.1 strings.  Loading PEM files is OpenSSL's. *)

From S2P Require Import Prelude.
From S2P Require Import SystemError.
From S2P Require Import Bytes.
From S2P Require Import Util.
From S2P Require Import Address.

Local Open Scope Z_scope.

(** ** X509Common *)

Inductive X509Type : Type := Unknown | PrivateKey | PublicKey | CertificateSigningRequest | Certificate.

Definition dashes : str := lit "-----".
Definition begin_mark : str := lit "-----BEGIN ".

(** The rest of the regular expression behind "-----BEGIN ": any characters, as many as
    possible, and five dashes; the dot does not match a line terminator. *)
Fixpoint greedy_tag (s : str) : option str :=
  match s with
  | [] => None
  | c :: r =>
      let here := if bool_decide (take 5 s = dashes) then Some [] else None in
      if (c =c chr 10) || (c =c chr 13) then here
      else match greedy_tag r with Some t => Some (c :: t) | None => here end
  end.

(** [std::regex_search] takes the leftmost match. *)
Fixpoint pem_tag (s : str) : option str :=
  let rest := match s with [] => None | _ :: r => pem_tag r end in
  if bool_decide (take 11 s = begin_mark)
  then match greedy_tag (drop 11 s) with Some t => Some t | None => rest end
  else rest.

(** [content]: of the file, [None] when it cannot be opened. *)
Definition detectX509Type (content : option str) : X509Type * str :=
  let head := match content with Some s => fst (fst (getline s)) | None => [] end in
  let tag := default [] (pem_tag head) in
  (if bool_decide (tag = lit "PRIVATE KEY") then PrivateKey
   else if bool_decide (tag = lit "ENCRYPTED PRIVATE KEY") then PrivateKey
   else if bool_decide (tag = lit "PUBLIC KEY") then PublicKey
   else if bool_decide (tag = lit "CERTIFICATE REQUEST") then CertificateSigningRequest
   else if bool_decide (tag = lit "CERTIFICATE") then Certificate
   else Unknown, tag).

Inductive SANType : Type := stDNS | stURI | stEMAIL | stIP.
#[export] Instance SANType_eq_dec : EqDecision SANType.
Proof. solve_decision. Defined.

Definition GEN_EMAIL : Z := 1.
Definition GEN_DNS : Z := 2.
Definition GEN_URI : Z := 6.
Definition GEN_IPADD : Z := 7.

Definition SANTypeAsString (t : SANType) : str :=
  match t with stDNS => lit "DNS" | stURI => lit "URI" | stEMAIL => lit "EMAIL" | stIP => lit "IP" end.

Record SAN : Type := mkSAN { san_type : SANType; san_name : str }.

Record Identity : Type := mkIdentity {
  countryCode : str; state : str; locality : str; organization : str; organizationUnit : str; commonName : str; email : str;
  businessCategory : str; jurisdictionC : str; jurisdictionST : str; serialNumber : str; street : str; postalCode : str;
  other : gmap str str;
}.
Definition Identity_new : Identity := mkIdentity [] [] [] [] [] [] [] [] [] [] [] [] [] ∅.

(** The chain of tests on the key of an item. *)
Definition set_attribute (key value : str) (i : Identity) : Identity :=
  let '(mkIdentity c st l o ou cn em bc jc js sn sr pc ot) := i in
  if bool_decide (key = lit "C") then mkIdentity value st l o ou cn em bc jc js sn sr pc ot
  else if bool_decide (key = lit "ST") then mkIdentity c value l o ou cn em bc jc js sn sr pc ot
  else if bool_decide (key = lit "L") then mkIdentity c st value o ou cn em bc jc js sn sr pc ot
  else if bool_decide (key = lit "O") then mkIdentity c st l value ou cn em bc jc js sn sr pc ot
  else if bool_decide (key = lit "OU") then mkIdentity c st l o value cn em bc jc js sn sr pc ot
  else if bool_decide (key = lit "CN") then mkIdentity c st l o ou value em bc jc js sn sr pc ot
  else if bool_decide (key = lit "emailAddress") then mkIdentity c st l o ou cn value bc jc js sn sr pc ot
  else if bool_decide (key = lit "businessCategory") then mkIdentity c st l o ou cn em value jc js sn sr pc ot
  else if bool_decide (key = lit "jurisdictionC") then mkIdentity c st l o ou cn em bc value js sn sr pc ot
  else if bool_decide (key = lit "jurisdictionST") then mkIdentity c st l o ou cn em bc jc value sn sr pc ot
  else if bool_decide (key = lit "serialNumber") then mkIdentity c st l o ou cn em bc jc js value sr pc ot
  else if bool_decide (key = lit "street") then mkIdentity c st l o ou cn em bc jc js sn value pc ot
  else if bool_decide (key = lit "postalCode") then mkIdentity c st l o ou cn em bc jc js sn sr value ot
  else mkIdentity c st l o ou cn em bc jc js sn sr pc (<[key := value]> ot).

Definition add_item (i : Identity) (item : str) : Identity :=
  match split item "="%char with
  | [key; value] => set_attribute key value i
  | _ => i
  end.

Definition backslash_char : ascii := chr 92.
Definition parseIdentity (src : str) : Identity :=
  fold_left add_item (escapedSplit src [backslash_char] ","%char) Identity_new.

(** ** X509Certificate *)

(** A GENERAL_NAME: its type and the octets of its string. *)
Record GeneralName : Type := mkGeneralName { gn_type : Z; gn_data : str }.

(** [names]: [None] when there is no such extension; a null entry is [None]. *)
Record Cert : Type := mkCert { subject : str; issuer : str; names : option (list (option GeneralName)) }.

Definition getSubject (cert : Cert) : Identity := parseIdentity (subject cert).
Definition getIssuer (cert : Cert) : Identity := parseIdentity (issuer cert).

Definition ipv4_text (d : str) : str :=
  match d with
  | [a; b; c; e] => print_dec (octet a) ++ lit "." ++ print_dec (octet b) ++ lit "." ++ print_dec (octet c) ++ lit "." ++ print_dec (octet e)
  | _ => []
  end.

(** The loop over pairs of octets; an odd octet at the end is ignored. *)
Fixpoint ipv6_groups (d : str) : list str :=
  match d with
  | a :: b :: r => print_hex (octet a * 256 + octet b) :: ipv6_groups r
  | _ => []
  end.
Fixpoint colons (l : list str) : str :=
  match l with
  | [] => []
  | [g] => g
  | g :: r => g ++ lit ":" ++ colons r
  end.

(** A string from [d.ia5->data] ends at its first zero octet. *)
Definition san_of (g : GeneralName) : option SAN :=
  if gn_type g =? GEN_URI then Some (mkSAN stURI (c_string (gn_data g)))
  else if gn_type g =? GEN_DNS then Some (mkSAN stDNS (c_string (gn_data g)))
  else if gn_type g =? GEN_EMAIL then Some (mkSAN stEMAIL (c_string (gn_data g)))
  else if gn_type g =? GEN_IPADD then
    Some (mkSAN stIP (if zlen (gn_data g) =? 4 then ipv4_text (gn_data g) else colons (ipv6_groups (gn_data g))))
  else None.

Definition getSubjectAltNames (cert : Cert) : list SAN :=
  match names cert with
  | None => []
  | Some l => omap (fun g => match g with Some n => san_of n | None => None end) l
  end.

Definition toupper (c : ascii) : ascii := if islower c then chr (octet c - 32) else c.

(** The digest as pairs of hex digits with colons.  [digest]: EVP_get_digestbyname knows the
    hash; [hash]: the digest, [None] when OpenSSL fails; [errors]: the text of its errors. *)
Definition fingerprint (upper : bool) (digest : bool) (hash : option str) (errors : str) : outcome str :=
  if negb digest then Throw (DodoException (lit "EVP_get_digestbyname failed " ++ errors))
  else match hash with
       | None => Throw (DodoException (lit "X509_digest failed " ++ errors))
       | Some h =>
           let text := colons (map (fun c => setw 2 "0"%char (print_hex (octet c))) h) in
           Ok (if upper then map toupper text else text)
       end.

Definition getFingerPrint : bool -> option str -> str -> outcome str := fingerprint true.
Definition csr_getFingerPrint : bool -> option str -> str -> outcome str := fingerprint false.

(** [loadPEM] of certificates and requests: [bio] whether BIO_new succeeds, [opened] whether
    the file could be opened, [parsed] what PEM_read_bio makes of it.  The BIO is freed on
    every path. *)
Definition loadPEM {A} (bio opened : bool) (parsed : option A) (errors : str) : outcome A :=
  if negb bio then Throw (DodoException (lit "BIO_new( BIO_s_file() ) failed " ++ errors))
  else if negb opened then Throw (DodoException (lit "BIO_read_filename failed " ++ errors))
  else match parsed with
       | None => Throw (DodoException (lit "PEM_read_bio_X509_AUX failed " ++ errors))
       | Some x => Ok x
       end.

Definition csr_loadPEM {A} : bool -> bool -> option A -> str -> outcome A := loadPEM.

(** A signing request has its subject only. *)
Record Request : Type := mkRequest { req_subject : str }.
Definition csr_getSubject (r : Request) : Identity := parseIdentity (req_subject r).

(** [getSerial]: [bn2hex] is OpenSSL's text of a number. *)
Definition getSerial (bn2hex : Z -> str) (serial : Z) : str := c_string (bn2hex serial).

(** [verifyName]: the loop runs backwards over both names; [None]: it ended. *)
Fixpoint verify_loop (allowwildcard : bool) (rpeer rsan : str) : option bool :=
  match rpeer, rsan with
  | c :: p, d :: s =>
      if negb (c =c d) then
        if allowwildcard && (d =c "*"%char) then Some (forallb (fun x => negb (x =c "."%char)) rpeer)
        else Some false
      else verify_loop allowwildcard p s
  | _, _ => None
  end.

Definition verifyName (peer san : str) (allowwildcard : bool) : bool :=
  if zlen peer <? zlen san then false
  else match verify_loop allowwildcard (rev peer) (rev san) with
       | Some b => b
       | None => zlen peer =? zlen san
       end.

Section Verify.
Context `{Inet}.

Definition verifyIP (peer san : str) : outcome bool :=
  let addr_peer := Address_of_text peer in
  let addr_san := Address_of_text san in
  if address_isValid addr_peer && address_isValid addr_san then address_eqb addr_peer addr_san else Ok false.

(** [std::any_of]. *)
Fixpoint any_of {A} (f : A -> outcome bool) (l : list A) : outcome bool :=
  match l with
  | [] => Ok false
  | x :: r => let! b := f x in if b : bool then Ok true else any_of f r
  end.

Definition verifySAN (cert : Cert) (san : SAN) (wildcards : bool) : outcome bool :=
  let cert_sans := mkSAN (san_type san) (commonName (getSubject cert)) :: getSubjectAltNames cert in
  match san_type san with
  | stDNS | stURI | stEMAIL =>
      any_of (fun s => Ok (bool_decide (san_type s = san_type san) && verifyName (san_name san) (san_name s) wildcards)) cert_sans
  | stIP =>
      any_of (fun s => if bool_decide (san_type s = san_type san) then verifyIP (san_name san) (san_name s) else Ok false) cert_sans
  end.
End Verify.

(** ** Properties of verifyName *)

Definition no_dot (s : str) : bool := forallb (fun x => negb (x =c "."%char)) s.

Lemma verify_loop_same w r : verify_loop w r r = None.
Proof. induction r as [ | c r IH ]; cbn; [ done | ]. by rewrite ascii_eqb_true. Qed.

(** Where the loop stops: behind a common suffix, at the first difference. *)
Lemma verify_loop_true w p s :
  verify_loop w p s = Some true <->
  w = true /\ exists q c p' s', p = q ++ c :: p' /\ s = q ++ "*"%char :: s' /\ c <> "*"%char /\ no_dot (c :: p') = true.
Proof.
  revert s. induction p as [ | c p IH ]; intros s.
  - destruct s; cbn; (split; [ done | ]); intros (_ & q & ? & ? & ? & He & _); by destruct q.
  - destruct s as [ | d s ]; cbn; [ split; [ done | ]; intros (_ & q & ? & ? & ? & _ & He & _); by destruct q | ].
    destruct (c =c d) eqn:Hcd; cbn [negb].
    + apply Ascii.eqb_eq in Hcd as ->. rewrite IH. split; intros (-> & q & x & p' & s' & Hp & Hs & Hx & Hn); (split; [ done | ]).
      * exists (d :: q), x, p', s'. subst. done.
      * destruct q as [ | y q ]; cbn in Hp, Hs; [ naive_solver | ]. exists q, x, p', s'. naive_solver.
    + assert (Hne : c <> d) by (intros ->; by rewrite ascii_eqb_true in Hcd). destruct (w && (d =c "*"%char)) eqn:Hw.
      * apply andb_true_iff in Hw as [ -> Hd ]. apply Ascii.eqb_eq in Hd as ->.
        split.
        -- intros [= Hn]. split; [ done | ]. exists [], c, p, s. done.
        -- intros (_ & q & x & p' & s' & Hp & Hs & Hx & Hn). destruct q as [ | y q ]; cbn in Hp, Hs; [ | naive_solver ].
           injection Hp as <- <-. f_equal. exact Hn.
      * split; [ done | ]. intros (-> & q & x & p' & s' & Hp & Hs & Hx & Hn). destruct q as [ | y q ]; cbn in Hp, Hs; [ | naive_solver ].
        injection Hs as -> ->. by rewrite ascii_eqb_true in Hw.
Qed.

Lemma verify_loop_none w p s : verify_loop w p s = None -> length p = length s -> p = s.
Proof.
  revert s. induction p as [ | c p IH ]; intros [ | d s ]; cbn; try done. destruct (c =c d) eqn:Hcd; cbn [negb].
  - apply Ascii.eqb_eq in Hcd as ->. intros Hv [= Hl]. f_equal. by apply IH.
  - by destruct (w && (d =c "*"%char)).
Qed.

Lemma no_dot_app a b : no_dot (a ++ b) = no_dot a && no_dot b.
Proof. unfold no_dot. apply forallb_app. Qed.

Lemma no_dot_rev a : no_dot (rev a) = no_dot a.
Proof. induction a as [ | c a IH ]; [ done | ]. cbn [rev]. rewrite no_dot_app, IH. cbn. rewrite andb_true_r. apply andb_comm. Qed.

Lemma verifyName_iff peer san w :
  verifyName peer san w = true <->
  peer = san \/
  (w = true /\ (length san <= length peer)%nat /\
   exists pre suf q c, san = pre ++ "*"%char :: suf /\ peer = q ++ c :: suf /\ c <> "*"%char /\ no_dot (q ++ [c]) = true).
Proof.
  unfold verifyName, zlen. destruct (Z.ltb_spec (Z.of_nat (length peer)) (Z.of_nat (length san))) as [ Hl | Hl ].
  { split; [ done | ]. intros [ -> | (_ & Hle & _) ]; lia. }
  destruct (verify_loop w (rev peer) (rev san)) as [ [] | ] eqn:Hv.
  - split; [ | done ]. intros _. right. apply verify_loop_true in Hv as (-> & q & c & p' & s' & Hp & Hs & Hc & Hn).
    apply (f_equal (@rev ascii)) in Hp, Hs. rewrite rev_involutive, rev_app_distr in Hp, Hs. cbn [rev] in Hp, Hs.
    rewrite <- app_assoc in Hp, Hs. cbn in Hp, Hs. split; [ done | ]. split; [ lia | ].
    exists (rev s'), (rev q), (rev p'), c. split; [ done | ]. split; [ done | ]. split; [ done | ].
    rewrite no_dot_app, no_dot_rev. cbn in Hn |- *. rewrite andb_true_r, andb_comm. done.
  - split; [ done | ]. intros [ -> | (-> & _ & pre & suf & q & c & -> & -> & Hc & Hn) ]; [ by rewrite verify_loop_same in Hv | ].
    assert (Ht : verify_loop true (rev (q ++ c :: suf)) (rev (pre ++ "*"%char :: suf)) = Some true); [ | congruence ].
    apply verify_loop_true. split; [ done | ]. exists (rev suf), c, (rev q), (rev pre).
    rewrite !rev_app_distr. cbn [rev]. rewrite <- !app_assoc. split; [ done | ]. split; [ done | ]. split; [ done | ].
    rewrite no_dot_app in Hn. cbn in Hn |- *. fold (no_dot (rev q)). rewrite no_dot_rev, andb_comm. by rewrite andb_true_r in Hn.
  - rewrite Z.eqb_eq, Nat2Z.inj_iff. split.
    + intros Hlen. left. rewrite <- (rev_involutive peer), <- (rev_involutive san). f_equal.
      eapply verify_loop_none; [ done | by rewrite !length_rev ].
    + intros [ -> | (-> & _ & pre & suf & q & c & -> & -> & Hc & Hn) ]; [ done | ].
      assert (Ht : verify_loop true (rev (q ++ c :: suf)) (rev (pre ++ "*"%char :: suf)) = Some true); [ | congruence ].
      apply verify_loop_true. split; [ done | ]. exists (rev suf), c, (rev q), (rev pre).
      rewrite !rev_app_distr. cbn [rev]. rewrite <- !app_assoc. split; [ done | ]. split; [ done | ]. split; [ done | ].
      rewrite no_dot_app in Hn. cbn in Hn |- *. fold (no_dot (rev q)). rewrite no_dot_rev, andb_comm. by rewrite andb_true_r in Hn.
Qed.

(** *** RFC 6125

    Independent of the code: names are compared label by label and ignoring case; a
    left-most label of the presented name that is a star, and nothing but a star, stands for
    one label of the reference name, which is not empty. *)

Fixpoint labels (s : str) : list str :=
  match s with
  | [] => [[]]
  | c :: r =>
      if c =c "."%char then [] :: labels r
      else match labels r with l :: ls => (c :: l) :: ls | [] => [[c]] end
  end.

Definition lowered (s : str) : str := map tolower s.

Definition rfc6125 (wildcards : bool) (presented reference : str) : bool :=
  match labels (lowered presented), labels (lowered reference) with
  | p :: ps, r :: rs =>
      bool_decide (ps = rs) && (bool_decide (p = r) || (wildcards && bool_decide (p = ["*"%char]) && bool_decide (r <> [])))
  | _, _ => false
  end.

Lemma labels_first l r : no_dot l = true -> labels (l ++ "."%char :: r) = l :: labels r.
Proof.
  induction l as [ | c l IH ]; [ done | ]. cbn [no_dot forallb app labels]. intros [ Hc Hl ]%andb_true_iff. apply negb_true_iff in Hc.
  rewrite Hc, IH by done. done.
Qed.

Lemma labels_one l : no_dot l = true -> labels l = [l].
Proof.
  induction l as [ | c l IH ]; [ done | ]. cbn [no_dot forallb labels]. intros [ Hc Hl ]%andb_true_iff. apply negb_true_iff in Hc. by rewrite Hc, IH.
Qed.

(** A name starts with its first label, and goes on with a dot unless it has only one. *)
Lemma labels_cases s : exists l, no_dot l = true /\ ((s = l /\ labels s = [l]) \/ exists r, s = l ++ "."%char :: r /\ labels s = l :: labels r).
Proof.
  induction s as [ | c s IH ]; [ exists []; auto | ]. destruct (c =c "."%char) eqn:Hc.
  - apply Ascii.eqb_eq in Hc as ->. exists []. split; [ done | ]. right. by exists s.
  - destruct IH as (l & Hl & Hs). exists (c :: l). cbn [no_dot forallb]. rewrite Hc. split; [ done | ].
    assert (Hd : no_dot (c :: l) = true) by (cbn [no_dot forallb]; by rewrite Hc).
    destruct Hs as [ [ -> _ ] | (r & -> & _) ]; [ left; split; [ done | by apply labels_one ] | ].
    right. exists r. split; [ done | ]. by apply (labels_first (c :: l)).
Qed.

Lemma labels_nonempty s : labels s <> [].
Proof. destruct (labels_cases s) as (l & _ & [ [ _ -> ] | (r & _ & ->) ]); done. Qed.

Lemma labels_inj s : forall t, labels s = labels t -> s = t.
Proof.
  remember (length s) as n eqn:Hn. revert s Hn. induction n as [ n IH ] using lt_wf_ind. intros s -> t Heq.
  destruct (labels_cases s) as (l & _ & [ [ Es Hs ] | (r & Es & Hs) ]), (labels_cases t) as (k & _ & [ [ Et Ht ] | (u & Et & Ht) ]);
    rewrite Hs, Ht in Heq.
  - congruence.
  - injection Heq as _ Hrest. by destruct (labels_nonempty u).
  - injection Heq as _ Hrest. by destruct (labels_nonempty r).
  - injection Heq as -> Hrest. rewrite Es, Et. do 2 f_equal. apply (IH (length r)); [ | done | done ]. rewrite Es, length_app. cbn. lia.
Qed.

(** The certificate names covered: without a star, or a star as the left-most label. *)
Definition rfc_name (san : str) : Prop :=
  free_of "*"%char san = true \/ exists suffix, san = "*"%char :: "."%char :: suffix /\ free_of "*"%char suffix = true.

Lemma split_at_star suffix pre suf : free_of "*"%char suffix = true ->
  "*"%char :: suffix = pre ++ "*"%char :: suf -> pre = [] /\ suf = suffix.
Proof.
  intros Hf He. destruct pre as [ | c pre ]; cbn in He; [ by injection He as -> | ]. injection He as _ ->.
  unfold free_of in Hf. rewrite forallb_app in Hf. cbn in Hf. apply andb_true_iff in Hf as [ _ Hf ]. done.
Qed.

Lemma free_of_middle d a b : free_of d (a ++ d :: b) = false.
Proof. unfold free_of. rewrite forallb_app. cbn. by rewrite ascii_eqb_true, andb_false_r. Qed.

(** The rule without its cases: equal names, or one label in place of the star. *)
Lemma rfc6125_iff w san peer : lowered san = san -> lowered peer = peer -> free_of "*"%char peer = true -> rfc_name san ->
  rfc6125 w san peer = true <->
  peer = san \/ (w = true /\ exists suffix label, san = "*"%char :: "."%char :: suffix /\ label <> [] /\ no_dot label = true /\ peer = label ++ "."%char :: suffix).
Proof.
  intros Hs Hp Hfree Hname. unfold rfc6125. rewrite Hs, Hp.
  destruct (labels_cases peer) as (r & Hr & Hpeer). split.
  - destruct (labels san) as [ | p ps ] eqn:Es; [ done | ]. destruct (labels peer) as [ | r' rs ] eqn:Ep; [ done | ].
    rewrite andb_true_iff, orb_true_iff, !andb_true_iff, !bool_decide_eq_true. intros [ -> [ -> | [ [ -> -> ] Hne ] ] ].
    + left. apply labels_inj. by rewrite Es, Ep.
    + destruct Hname as [ Hf | (suffix & -> & Hf) ].
      * exfalso. destruct (labels_cases san) as (l & _ & [ [ El Hl ] | (t & El & Hl) ]); rewrite Hl in Es; injection Es as -> _; subst san; done.
      * change (labels ("*"%char :: "."%char :: suffix)) with (["*"%char] :: labels suffix) in Es. injection Es as Esuf.
        destruct Hpeer as [ [ _ Hl ] | (t & Et & Hl) ]; injection Hl as -> Hrest.
        -- destruct (labels_nonempty suffix). congruence.
        -- right. split; [ done | ]. exists suffix, r. split; [ done | ]. split; [ done | ]. split; [ done | ].
           rewrite Et. do 2 f_equal. apply labels_inj. congruence.
  - intros [ -> | (-> & suffix & label & -> & Hne & Hdot & ->) ].
    + destruct (labels san) as [ | p ps ] eqn:Es; [ by destruct (labels_nonempty san) | ]. rewrite !bool_decide_eq_true_2 by done. done.
    + rewrite labels_first by done. change (labels ("*"%char :: "."%char :: suffix)) with (["*"%char] :: labels suffix).
      cbv beta iota. rewrite (bool_decide_eq_true_2 (labels suffix = _)), (bool_decide_eq_true_2 (label <> [])) by done.
      rewrite (bool_decide_eq_true_2 (["*"%char] = ["*"%char])) by done. by rewrite orb_true_r.
Qed.

(** C26 For names in lower case, a peer's name without a star and a certificate's name that
    has no star or has one as its whole left-most label: verifyName decides the rule of
    RFC 6125, with wildcards and without. *)
Theorem verifyName_implements_rfc6125 peer san wildcards :
  lowered peer = peer -> lowered san = san -> free_of "*"%char peer = true -> rfc_name san ->
  verifyName peer san wildcards = rfc6125 wildcards san peer.
Proof.
  intros Hp Hs Hfree Hname. apply eq_true_iff_eq. rewrite verifyName_iff, rfc6125_iff by done. split.
  - intros [ -> | (-> & _ & pre & suf & q & c & Hsan & -> & Hc & Hn) ]; [ by left | ]. right. split; [ done | ].
    destruct Hname as [ Hf | (suffix & -> & Hf) ]; [ by rewrite Hsan, free_of_middle in Hf | ].
    destruct (split_at_star ("."%char :: suffix) _ _ Hf Hsan) as [ -> -> ].
    exists suffix, (q ++ [c]). split; [ done | ]. split; [ by destruct q | ]. split; [ done | by rewrite <- app_assoc ].
  - intros [ -> | (-> & suffix & label & -> & Hne & Hdot & ->) ]; [ by left | ]. right. split; [ done | ].
    destruct (exists_last Hne) as (q & c & ->). split; [ rewrite !length_app; cbn; lia | ].
    exists [], ("."%char :: suffix), q, c. rewrite <- app_assoc. split; [ done | ]. split; [ done | ]. split; [ | done ].
    intros ->. rewrite <- app_assoc in Hfree. cbn [app] in Hfree. by rewrite free_of_middle in Hfree.
Qed.

(** Names are compared with their case: for a name in another case the rule of RFC 6125
    accepts what verifyName rejects. *)
Theorem verifyName_case_sensitive :
  verifyName (lit "Dodo.org") (lit "dodo.org") true = false /\ rfc6125 true (lit "dodo.org") (lit "Dodo.org") = true.
Proof. split; by vm_compute. Qed.

(** The part of a certificate name to the left of a star is not compared: a certificate
    for pre*suffix is accepted for every peer whose name ends in the suffix behind one
    label at least as long as pre and the star. *)
Theorem partial_wildcard_ignores_prefix pre suffix label :
  no_dot label = true -> free_of "*"%char label = true -> (length pre < length label)%nat ->
  verifyName (label ++ suffix) (pre ++ "*"%char :: suffix) true = true.
Proof.
  intros Hdot Hstar Hl. apply verifyName_iff. right. split; [ done | ]. split; [ rewrite !length_app; cbn; lia | ].
  assert (Hne : label <> []) by (intros ->; cbn in Hl; lia). destruct (exists_last Hne) as (q & c & ->).
  exists pre, suffix, q, c. rewrite <- app_assoc. split; [ done | ]. split; [ done | ]. split; [ | done ].
  intros ->. unfold free_of in Hstar. rewrite forallb_app in Hstar. cbn in Hstar. by rewrite andb_false_r in Hstar.
Qed.

Lemma c_string_prefix s r : forallb (fun c => negb (octet c =? 0)) s = true -> c_string (s ++ chr 0 :: r) = s.
Proof.
  induction s as [ | c s IH ]; [ done | ]. cbn [app c_string forallb]. intros Hs. apply andb_true_iff in Hs as [ Hc Hs ].
  apply negb_true_iff in Hc. by rewrite Hc, IH.
Qed.

Lemma any_of_in {A} (f : A -> outcome bool) (l : list A) x : (forall y, exists b, f y = Ok b) -> In x l -> f x = Ok true -> any_of f l = Ok true.
Proof.
  intros Htot Hin Hx. induction l as [ | y l IH ]; [ done | ]. cbn. destruct (Htot y) as [ b Hb ]. rewrite Hb. cbn.
  destruct b; [ done | ]. destruct Hin as [ -> | Hin ]; [ congruence | by apply IH ].
Qed.

(** *** What an accepted certificate carries *)

(** The texts of a certificate a DNS name is compared with: the common name of its subject,
    and its DNS entries up to their first zero octet. *)
Definition dns_text (cert : Cert) (text : str) : Prop :=
  text = commonName (getSubject cert) \/
  exists l g, names cert = Some l /\ In (Some g) l /\ gn_type g = GEN_DNS /\ text = c_string (gn_data g).

(** The name itself or, with wildcards, a star and a suffix behind which the name has one
    label, at least as long as the star and what precedes it. *)
Definition covers (wildcards : bool) (text name : str) : Prop :=
  text = name \/
  (wildcards = true /\ exists pre suffix label, text = pre ++ "*"%char :: suffix /\ name = label ++ suffix /\
     no_dot label = true /\ (length pre < length label)%nat).

Lemma any_of_true {A} (f : A -> outcome bool) (l : list A) : any_of f l = Ok true -> exists x, In x l /\ f x = Ok true.
Proof.
  induction l as [ | y l IH ]; [ done | ]. cbn. destruct (f y) as [ [] | e | ] eqn:Hy; cbn; try done.
  - intros _. exists y. auto.
  - intros Hl. destruct (IH Hl) as (x & Hx & Hf). exists x. auto.
Qed.

Lemma san_of_dns g s : san_of g = Some s -> san_type s = stDNS -> gn_type g = GEN_DNS /\ san_name s = c_string (gn_data g).
Proof.
  unfold san_of. destruct (gn_type g =? GEN_URI); [ by intros [= <-] | ]. destruct (Z.eqb_spec (gn_type g) GEN_DNS); [ by intros [= <-] | ].
  destruct (gn_type g =? GEN_EMAIL); [ by intros [= <-] | ]. destruct (gn_type g =? GEN_IPADD); [ by intros [= <-] | done ].
Qed.

Lemma verifySAN_carries `{Inet} cert name wildcards : verifySAN cert (mkSAN stDNS name) wildcards = Ok true ->
  exists text, dns_text cert text /\ covers wildcards text name.
Proof.
  unfold verifySAN. cbn [san_type san_name]. intros Hv. apply any_of_true in Hv as (s & Hin & Hs). injection Hs as [ Ht Hn ]%andb_true_iff.
  apply bool_decide_eq_true in Ht. exists (san_name s). split.
  - destruct Hin as [ <- | Hin ]; [ by left | right ]. unfold getSubjectAltNames in Hin. destruct (names cert) as [ l | ]; [ | done ].
    apply list_elem_of_In, list_elem_of_omap in Hin as ([ g | ] & Hg & Hs); [ | done ]. destruct (san_of_dns g s Hs Ht) as [ Hty Hname ].
    exists l, g. split; [ done | ]. by apply list_elem_of_In in Hg.
  - apply verifyName_iff in Hn as [ -> | (-> & Hl & pre & suf & q & c & Es & -> & _ & Hdot) ]; [ by left | right ].
    split; [ done | ]. exists pre, suf, (q ++ [c]). rewrite Es, !length_app in Hl. cbn in Hl.
    split; [ done | ]. split; [ by rewrite <- app_assoc | ]. split; [ done | rewrite length_app; cbn; lia ].
Qed.

(** C38 A certificate whose DNS name continues behind a zero octet is accepted for the name
    in front of it, whatever follows the zero. *)
Theorem san_cut_at_zero_octet `{Inet} cert l name rest wildcards :
  names cert = Some l -> In (Some (mkGeneralName GEN_DNS (name ++ chr 0 :: rest))) l ->
  forallb (fun c => negb (octet c =? 0)) name = true ->
  verifySAN cert (mkSAN stDNS name) wildcards = Ok true.
Proof.
  intros Hn Hin Hz. unfold verifySAN. cbn [san_type san_name]. apply (any_of_in _ _ (mkSAN stDNS name)); [ by eexists | | ].
  - right. unfold getSubjectAltNames. rewrite Hn. apply list_elem_of_In, list_elem_of_omap. eexists. split; [ by apply list_elem_of_In | ].
    cbn. unfold san_of. cbn. by rewrite c_string_prefix.
  - cbn. f_equal. apply verifyName_iff. by left.
Qed.

(** ** Identities *)

Definition plain (s : str) : bool := free_of "="%char s && free_of ","%char s && free_of backslash_char s.
Definition attribute_text (p : str * str) : str := fst p ++ "="%char :: snd p.

Lemma free_of_cons d c a : free_of d (c :: a) = negb (c =c d) && free_of d a.
Proof. done. Qed.

Lemma free_of_join d e ps : (e =c d) = false -> forallb (free_of d) ps = true -> free_of d (join e ps) = true.
Proof.
  intros He. induction ps as [ | p ps IH ]; [ done | ]. cbn [forallb]. intros Hps. apply andb_true_iff in Hps as [ Hp Hps ].
  cbn [join]. destruct ps; [ done | ]. rewrite free_of_app, free_of_cons, Hp, He. by apply IH.
Qed.

Lemma add_item_attribute i p : plain (fst p) = true -> plain (snd p) = true -> snd p <> [] ->
  add_item i (attribute_text p) = set_attribute (fst p) (snd p) i.
Proof.
  destruct p as [ k v ]. unfold plain, add_item, attribute_text. cbn [fst snd]. rewrite !andb_true_iff. intros [ [ Hk _ ] _ ] [ [ Hv _ ] _ ] Hne.
  assert (Hs := split_join "="%char [k] v ltac:(cbn; by rewrite Hk) Hv Hne). cbn [app join] in Hs. by rewrite Hs.
Qed.

Lemma split_join_nonempty d ps : forallb (free_of d) ps = true -> Forall (fun p => p <> []) ps -> split (join d ps) d = ps.
Proof.
  intros Hf Hne. destruct ps as [ | p ps ] using rev_ind; [ done | ]. clear IHps.
  rewrite forallb_app in Hf. apply andb_true_iff in Hf as [ Hl Hx ]. cbn [forallb] in Hx. rewrite andb_true_r in Hx.
  apply Forall_app in Hne as [ _ Hne ]. apply Forall_cons in Hne as [ Hne _ ]. apply split_join; [ exact Hl | exact Hx | exact Hne ].
Qed.

(** parseIdentity reads an identity of attributes "key=value" joined by commas: each is
    stored under its key, in order, a later one replacing an earlier one, as long as keys
    and values hold no comma, equals sign or backslash and no value is empty. *)
Theorem parseIdentity_reads_attributes (l : list (str * str)) :
  Forall (fun p => plain (fst p) = true /\ plain (snd p) = true /\ snd p <> []) l ->
  parseIdentity (join ","%char (map attribute_text l)) = fold_left (fun i p => set_attribute (fst p) (snd p) i) l Identity_new.
Proof.
  intros Hl. unfold parseIdentity.
  assert (Hfree : forall d, d = ","%char \/ d = backslash_char -> forallb (free_of d) (map attribute_text l) = true).
  { intros d Hd. apply forallb_forall. intros t Ht. apply in_map_iff in Ht as (p & <- & Hp).
    rewrite Forall_forall in Hl. destruct (Hl p ltac:(by apply list_elem_of_In)) as (Hk & Hv & _). unfold plain in Hk, Hv. rewrite !andb_true_iff in Hk, Hv.
    unfold attribute_text. rewrite free_of_app, free_of_cons. destruct Hk as [ [ _ Hk1 ] Hk2 ], Hv as [ [ _ Hv1 ] Hv2 ].
    destruct Hd as [ -> | -> ]; [ by rewrite Hk1, Hv1 | by rewrite Hk2, Hv2 ]. }
  rewrite escapedSplit_plain.
  2:{ assert (Hj := free_of_join backslash_char ","%char (map attribute_text l) eq_refl (Hfree _ (or_intror eq_refl))).
      unfold free_of in Hj. rewrite forallb_forall in Hj |- *. intros c Hc. cbn. rewrite orb_false_r. by apply Hj. }
  rewrite split_join_nonempty.
  - generalize Identity_new. clear Hfree. induction Hl as [ | p l (Hk & Hv & Hne) Hl IH ]; intros i; cbn; [ done | ]. rewrite add_item_attribute by done. apply IH.
  - by apply Hfree; left.
  - apply Forall_forall. intros t Ht. apply list_elem_of_In, in_map_iff in Ht as (p & <- & _). unfold attribute_text. by destruct (fst p).
Qed.

(** ** Witnesses *)

Lemma verifyName_implements_rfc6125_witness :
  verifyName (lit "www.dodo.org") (lit "*.dodo.org") true = true /\
  verifyName (lit "www.dodo.org") (lit "*.dodo.org") true = rfc6125 true (lit "*.dodo.org") (lit "www.dodo.org").
Proof.
  split; [ by vm_compute | ].
  apply (verifyName_implements_rfc6125 (lit "www.dodo.org") (lit "*.dodo.org") true); try (by vm_compute).
  right. by exists (lit "dodo.org").
Defined.

Lemma partial_wildcard_ignores_prefix_witness : verifyName (lit "evil1.dodo.org") (lit "web*.dodo.org") true = true.
Proof. apply (partial_wildcard_ignores_prefix (lit "web") (lit ".dodo.org") (lit "evil1")); (reflexivity || (cbn; lia)). Defined.

Definition forged : Cert :=
  mkCert (lit "CN=evil.org") [] (Some [Some (mkGeneralName GEN_DNS (lit "dodo.org" ++ chr 0 :: lit ".evil.org"))]).

Lemma san_cut_at_zero_octet_witness : verifySAN (H := Demo.inet) forged (mkSAN stDNS (lit "dodo.org")) false = Ok true.
Proof.
  apply (san_cut_at_zero_octet (H := Demo.inet) forged [Some (mkGeneralName GEN_DNS (lit "dodo.org" ++ chr 0 :: lit ".evil.org"))]
           (lit "dodo.org") (lit ".evil.org")); [ reflexivity | by left | reflexivity ].
Defined.

Lemma parseIdentity_reads_attributes_witness :
  commonName (parseIdentity (lit "CN=dodo.org,O=dodo,C=NL")) = lit "dodo.org" /\
  organization (parseIdentity (lit "CN=dodo.org,O=dodo,C=NL")) = lit "dodo".
Proof.
  assert (Hp := parseIdentity_reads_attributes [(lit "CN", lit "dodo.org"); (lit "O", lit "dodo"); (lit "C", lit "NL")]).
  cbn [map join attribute_text fst snd app] in Hp.
  change (lit "CN=dodo.org,O=dodo,C=NL") with (lit "CN" ++ "="%char :: lit "dodo.org" ++ ","%char :: lit "O" ++ "="%char :: lit "dodo" ++ ","%char :: lit "C" ++ "="%char :: lit "NL").
  cbn [app list_ascii_of_string] in Hp |- *. rewrite Hp; [ split; reflexivity | ]. repeat constructor; done.
Defined.
