(* ===== verification/SocketSetup.v ===== *)
(** * SocketSetup: creating, configuring and connecting sockets

    Models the system-call members of src/src/lib/network/basesocket.cpp (constructor,
    [connect], [bind], [listen], [close], the options), [Socket::sendTo] and [accept] of
    src/src/lib/network/socket.cpp, and [TCPListener::construct] with the constructor from
    YAML of src/src/lib/network/tcplistener.cpp.

    The kernel is a parameter (class [Kernel]): a state with [errno], and one function per
    system call that answers its result and the next state.  What the theorems need of its
    documented behaviour is the class [FcntlLaws]: the status flags of a descriptor are what
    F_SETFL wrote last, and the other calls leave them alone.  Doubles are the parameter
    [Doubles]. *)

From S2P Require Import Prelude.
From S2P Require Import SystemError.
From S2P Require Import Bytes.
From S2P Require Import TCPServer.
From S2P Require Import TCPListener.
From S2P Require Import Address.

Local Open Scope Z_scope.

(** ** The kernel *)

Class Kernel := {
  kernel : Type;
  errno : kernel -> Z;
  sys_socket : Z -> Z -> Z -> kernel -> Z * kernel;
  sys_connect : Z -> Address -> kernel -> Z * kernel;
  sys_bind : Z -> Address -> kernel -> Z * kernel;
  sys_listen : Z -> Z -> kernel -> Z * kernel;
  sys_accept : Z -> kernel -> Z * kernel;
  sys_close : Z -> kernel -> Z * kernel;
  sys_getfl : Z -> kernel -> Z * kernel;
  sys_setfl : Z -> Z -> kernel -> Z * kernel;
  setsockopt : Z -> Z -> Z -> list Z -> kernel -> Z * kernel;
  getsockopt : Z -> Z -> Z -> kernel -> Z * Z * kernel;          (** rc, value *)
  getsockname : Z -> kernel -> option Address * kernel;
  getpeername : Z -> kernel -> option Address * kernel;
  sys_sendto : Z -> str -> Address -> kernel -> Z * kernel;
}.

Definition SOL_IP : Z := 0.
Definition SOL_SOCKET : Z := 1.
Definition SOL_TCP : Z := 6.
Definition SOL_IPV6 : Z := 41.
Definition TCP_NODELAY : Z := 1.
Definition SO_REUSEADDR : Z := 2.
Definition SO_TYPE : Z := 3.
Definition SO_SNDBUF : Z := 7.
Definition SO_RCVBUF : Z := 8.
Definition SO_KEEPALIVE : Z := 9.
Definition SO_REUSEPORT : Z := 15.
Definition SO_RCVTIMEO : Z := 20.
Definition SO_SNDTIMEO : Z := 21.
Definition SO_PROTOCOL : Z := 38.
Definition SO_DOMAIN : Z := 39.
Definition IP_TTL : Z := 2.
Definition IPV6_UNICAST_HOPS : Z := 16.
Definition O_NONBLOCK : Z := 2048.

Class Doubles (double : Type) := {
  of_int : Z -> double;
  modf : double -> double * double;          (** fraction, whole *)
  times_1e6 : double -> double;
  to_time_t : double -> Z;
}.

Section BaseSocket.
Context `{Kernel}.

Definition sys (f : kernel -> Z * kernel) : X kernel Z := fun k => let (rc, k') := f k in (Ok rc, k').
Definition get_errno : X kernel Z := fun k => (Ok (errno k), k).
Definition fail_errno {A} (what : str) : X kernel A := fun k => (Throw (SystemException what (errno k)), k).
(** [if ( failed rc ) throw_SystemException( what, errno )] *)
Definition unless (failed : bool) (what : str) : X kernel unit := if failed then fail_errno what else xret tt.

(** ** Options *)

Definition setTCPNoDelay (fd : Z) (set : bool) : X kernel unit :=
  let^ _ := sys (setsockopt fd SOL_TCP TCP_NODELAY [if set then 1 else 0]) in xret tt.
Definition setTCPKeepAlive (fd : Z) (enable : bool) : X kernel unit :=
  let^ _ := sys (setsockopt fd SOL_SOCKET SO_KEEPALIVE [if enable then 1 else 0]) in xret tt.

Definition getBlocking (fd : Z) : X kernel bool :=
  let^ flags := sys (sys_getfl fd) in
  let^ _ := unless (flags =? -1) (lit "fcntl failed") in
  xret (Z.land flags O_NONBLOCK =? 0).

Definition setBlocking (fd : Z) (blocking : bool) : X kernel unit :=
  if negb (0 <=? fd) then xthrow (DodoException (lit "setBlocking on invalid socket"))
  else
    let^ flags := sys (sys_getfl fd) in
    let^ _ := unless (flags =? -1) (lit "fcntl failed") in
    if blocking then
      if negb (Z.land flags O_NONBLOCK =? 0) then
        let^ rc := sys (sys_setfl fd (Z.lxor flags O_NONBLOCK)) in unless (rc <? 0) (lit "setsockopt failed")
      else xret tt
    else
      if Z.land flags O_NONBLOCK =? 0 then
        let^ rc := sys (sys_setfl fd (Z.lor flags O_NONBLOCK)) in unless (rc <? 0) (lit "setsockopt failed")
      else xret tt.

(** These two throw the result of the call in place of errno. *)
Definition setReUseAddress (fd : Z) : X kernel unit :=
  if negb (0 <=? fd) then xthrow (DodoException (lit "setReUseAddress on invalid socket"))
  else let^ rc := sys (setsockopt fd SOL_SOCKET SO_REUSEADDR [1]) in
       if rc <? 0 then xthrow (SystemException (lit "setsockopt SO_REUSEADDR failed") rc) else xret tt.
Definition setReUsePort (fd : Z) : X kernel unit :=
  let^ rc := sys (setsockopt fd SOL_SOCKET SO_REUSEPORT [1]) in
  if rc <? 0 then xthrow (SystemException (lit "setsockopt SO_REUSEPORT failed") rc) else xret tt.

Definition get_option (what : str) (fd level name : Z) : X kernel Z := fun k =>
  let '(rc, v, k') := getsockopt fd level name k in
  if rc =? -1 then (Throw (SystemException what (errno k')), k') else (Ok v, k').
Definition getSendBufSize (fd : Z) := get_option (lit "getSendBufSize failed") fd SOL_SOCKET SO_SNDBUF.
Definition getReceiveBufSize (fd : Z) := get_option (lit "getReceiveBufSize failed") fd SOL_SOCKET SO_RCVBUF.
Definition socket_family (fd : Z) := get_option (lit "getAddressFamily failed") fd SOL_SOCKET SO_DOMAIN.
Definition getSocketType (fd : Z) := get_option (lit "getSocketType failed") fd SOL_SOCKET SO_TYPE.
Definition getProtocolNumber (fd : Z) := get_option (lit "getProtocolNumber failed") fd SOL_SOCKET SO_PROTOCOL.
Definition getSocketParams (fd : Z) : X kernel SocketParams :=
  let^ f := socket_family fd in let^ t := getSocketType fd in let^ p := getProtocolNumber fd in xret (mkSocketParams f t p).

(** The family is asked for again in the second test. *)
Definition getTTL (fd : Z) : X kernel Z :=
  let^ f := socket_family fd in
  if f =? AF_INET then get_option (lit "getTTL failed") fd SOL_IP IP_TTL
  else
    let^ f := socket_family fd in
    if f =? AF_INET6 then get_option (lit "getTTL failed") fd SOL_IP IP_TTL
    else fail_errno (lit "getTTL failed").

Definition set_size (what : str) (fd name size : Z) : X kernel unit :=
  let^ rc := sys (setsockopt fd SOL_SOCKET name [size]) in unless (rc =? -1) what.
Definition setSendBufSize (fd size : Z) := set_size (lit "setSendBufSize failed") fd SO_SNDBUF size.
Definition setReceiveBufSize (fd size : Z) := set_size (lit "setReceiveBufSize failed") fd SO_RCVBUF size.

(** The test behind the first call looks at errno, not at its result. *)
Definition setTTL (fd ttl : Z) : X kernel unit :=
  let^ rc := sys (setsockopt fd SOL_IP IP_TTL [ttl]) in
  let^ e := get_errno in
  let^ rc := (if e =? 92 then sys (setsockopt fd SOL_IPV6 IPV6_UNICAST_HOPS [ttl]) else xret rc) in
  unless (rc =? -1) (lit "setTTL failed").

Section Timeouts.
Context {double : Type} `{Doubles double}.

Definition timeval_of (sec : double) : list Z :=
  let (frac, whole) := modf sec in [to_time_t whole; to_time_t (times_1e6 frac)].
Definition setReceiveTimeout (fd : Z) (sec : double) : X kernel unit :=
  let^ rc := sys (setsockopt fd SOL_SOCKET SO_RCVTIMEO (timeval_of sec)) in unless (rc =? -1) (lit "setReceiveTimeout failed").
Definition setSendTimeout (fd : Z) (sec : double) : X kernel unit :=
  let^ rc := sys (setsockopt fd SOL_SOCKET SO_SNDTIMEO (timeval_of sec)) in unless (rc =? -1) (lit "setSendTimeout failed").
End Timeouts.

(** ** Addresses of a socket *)

Definition storage_or_invalid (r : option Address * kernel) : outcome Address * kernel :=
  (Ok (match fst r with Some a => a | None => Address_invalid end), snd r).
Definition getAddress (fd : Z) : X kernel Address := fun k => storage_or_invalid (getsockname fd k).
Definition getPeerAddress (fd : Z) : X kernel Address := fun k => storage_or_invalid (getpeername fd k).

(** ** Creation, connection, listening *)

(** [BaseSocket( bool blocking, SocketParams params )]: the new descriptor. *)
Definition BaseSocket_new (blocking : bool) (p : SocketParams) : X kernel Z :=
  let^ fd := sys (sys_socket (family_ p) (sockettype_ p) (protocol_ p)) in
  let^ _ := unless (fd =? -1) (lit "socket allocation failed") in
  let^ _ := setBlocking fd blocking in
  let^ _ := (if sockettype_ p =? SOCK_STREAM then setTCPNoDelay fd true else xret tt) in
  xret fd.

(** [switch ( errno )]: the codes that are answered, the others are thrown. *)
Definition answered (codes : list Z) (what : str) : X kernel SystemError :=
  let^ e := get_errno in if existsb (Z.eqb e) codes then xret e else fail_errno what.

Definition connect_codes : list Z :=
  map ec_value [ecEACCES; ecEADDRINUSE; ecEADDRNOTAVAIL; ecEALREADY; ecECONNREFUSED; ecEINPROGRESS; ecEISCONN; ecENETUNREACH; ecETIMEDOUT].
Definition connect (fd : Z) (a : Address) : X kernel SystemError :=
  let^ rc := sys (sys_connect fd a) in
  if rc <? 0 then answered connect_codes (lit "socket connect failed") else xret (ec_value ecOK).

Definition bind_socket (fd : Z) (a : Address) : X kernel SystemError :=
  let^ rc := sys (sys_bind fd a) in
  if rc <? 0 then answered (map ec_value [ecEACCES; ecEADDRINUSE]) (lit "Socket::bind failed on address ") else xret (ec_value ecOK).

Definition listen (fd : Z) (a : Address) (backlog : Z) : X kernel SystemError :=
  let^ error := bind_socket fd a in
  if error =? ecOK then
    let^ rc := sys (sys_listen fd backlog) in
    if rc <? 0 then answered (map ec_value [ecEADDRINUSE]) (lit "Socket::listen failed on ") else xret (ec_value ecOK)
  else xret error.

(** [close()] on the object: the descriptor is -1 afterwards, also when it throws. *)
Definition close_socket : X (kernel * Z) unit := fun o =>
  let (k, fd) := o in
  if negb (fd =? -1) then
    let (rc, k') := sys_close fd k in
    if rc =? -1 then (Throw (SystemException (lit "socket close failed") (errno k')), (k', -1)) else (Ok tt, (k', -1))
  else (Ok tt, (k, fd)).

(** [Socket::accept]: the descriptor of the new object, -1 when there is no connection. *)
Definition accept (fd : Z) : X kernel Z :=
  let^ rc := sys (sys_accept fd) in
  if rc =? -1 then
    let^ e := get_errno in
    if negb (e =? ecEAGAIN) then fail_errno (lit "Socket::accept failed") else xret rc
  else xret rc.

(** [Socket::sendTo]: the loop advances by what the kernel took. *)
Fixpoint sendTo_loop (fuel : nat) (fd : Z) (a : Address) (left : str) : X kernel Z :=
  match fuel with
  | O => fun k => (OutOfFuel, k)
  | S f =>
      match left with
      | [] => xret 0
      | _ => let^ rc := sys (sys_sendto fd left a) in
             if rc <? 0 then xret rc else sendTo_loop f fd a (drop (Z.to_nat rc) left)
      end
  end.
Definition sendTo (fuel : nat) (fd : Z) (a : Address) (buf : str) : X kernel SystemError :=
  let^ rc := sendTo_loop fuel fd a buf in
  if rc <? 0 then answered (map ec_value [ecEAGAIN; ecECONNRESET]) (lit "Socket::send failed") else xret (ec_value ecOK).

(** ** TCPListener::construct *)

Context {double : Type} `{Doubles double}.

(** The value is the listening descriptor and its backlog; [somaxconn] is what
    fileReadInt reads. *)
Definition construct (a : Address) (p : Params) (somaxconn : option Z) : X kernel (Z * Z) :=
  if negb (address_isValid a) then xthrow (DodoException (lit "invalid address"))
  else
    let^ fd := BaseSocket_new false (mkSocketParams (getAddressFamily a) SOCK_STREAM pnHOPOPT) in
    let^ _ := setReUseAddress fd in
    let^ _ := setReUsePort fd in
    let^ _ := setBlocking fd false in
    let^ _ := setSendBufSize fd (sendbufsz p) in
    let^ _ := setReceiveBufSize fd (recvbufsz p) in
    let^ _ := setSendTimeout fd (of_int (send_timeout_seconds p)) in
    let^ _ := setReceiveTimeout fd (of_int (receive_timeout_seconds p)) in
    match somaxconn with
    | None => xthrow (DodoException (lit "failed to read int from /proc/sys/net/core/somaxconn"))
    | Some backlog =>
        let^ error := listen fd a backlog in
        if negb (error =? ecOK) then xthrow (SystemException (lit "listen failed") error) else xret (fd, backlog)
    end.

(** [TCPListener( const YAML::Node& )]; [yaml_string] reads a text. *)
Definition construct_yaml `{YamlNode} `{Inet} (yaml_string : str -> option (outcome str)) (somaxconn : option Z) : X kernel (Z * Z) :=
  let^ p := (fun k => (Params_of_yaml, k)) in
  let^ saddr := (fun k => (YAML_read_key yaml_string (lit "listen-address"), k)) in
  let^ port := (fun k => (YAML_read_key yaml_int (lit "listen-port"), k)) in
  let addr := Address_of_text_port saddr port in
  if negb (address_isValid addr) then xthrow (DodoException (lit "invalid listen address " ++ saddr ++ lit ":" ++ print_dec port))
  else construct addr p somaxconn.
End BaseSocket.

(** ** What the kernel documents about status flags *)

Class FcntlLaws `{Kernel} := {
  flags : kernel -> Z -> Z;
  getfl_flags : forall fd k rc k', sys_getfl fd k = (rc, k') -> flags k' = flags k /\ (rc <> -1 -> rc = flags k fd);
  setfl_flags : forall fd f k rc k', sys_setfl fd f k = (rc, k') -> 0 <= rc -> flags k' fd = f;
  setsockopt_flags : forall fd l n v k rc k', setsockopt fd l n v k = (rc, k') -> flags k' = flags k;
  bind_flags : forall fd a k rc k', sys_bind fd a k = (rc, k') -> flags k' = flags k;
  listen_flags : forall fd n k rc k', sys_listen fd n k = (rc, k') -> flags k' = flags k;
}.

(** ** Lemmas *)

Section Flags.
Context `{FcntlLaws} {double : Type} `{Doubles double}.

Lemma sys_inv (f : kernel -> Z * kernel) k rc k' : sys f k = (Ok rc, k') -> f k = (rc, k').
Proof. unfold sys. destruct (f k). by intros [= -> ->]. Qed.

Lemma unless_inv b what k u k' : unless b what k = (Ok u, k') -> b = false /\ k' = k.
Proof. unfold unless. destruct b; [ done | ]. by intros [= _ <-]. Qed.

Definition nonblocking (k : kernel) (fd : Z) : bool := negb (Z.land (flags k fd) O_NONBLOCK =? 0).

Lemma land_lor_nonblock z : Z.land (Z.lor z O_NONBLOCK) O_NONBLOCK <> 0.
Proof. rewrite Z.land_lor_distr_l, Z.land_diag. intros Hz. apply Z.lor_eq_0_iff in Hz as [ _ Hz ]. done. Qed.

Lemma land_lxor_nonblock z : Z.land z O_NONBLOCK <> 0 -> Z.land (Z.lxor z O_NONBLOCK) O_NONBLOCK = 0.
Proof.
  change O_NONBLOCK with (2 ^ 11). intros Hz. apply Z.bits_inj'. intros n Hn.
  rewrite Z.land_spec, Z.lxor_spec, Z.pow2_bits_eqb, Z.bits_0 by lia.
  destruct (Z.eqb_spec 11 n) as [ <- | ]; [ | apply andb_false_r ].
  destruct (Z.testbit z 11) eqn:Hb; [ done | ]. exfalso. apply Hz. apply Z.bits_inj'. intros m Hm.
  rewrite Z.land_spec, Z.pow2_bits_eqb, Z.bits_0 by lia. destruct (Z.eqb_spec 11 m) as [ <- | ]; [ by rewrite Hb | apply andb_false_r ].
Qed.

Lemma setBlocking_flags fd b k k' : setBlocking fd b k = (Ok tt, k') -> 0 <= fd /\ nonblocking k' fd = negb b.
Proof.
  unfold setBlocking. destruct (Z.leb_spec 0 fd) as [ Hfd | ]; cbn [negb]; [ | done ]. intros Hs. split; [ done | ].
  xinv Hs. xinv Hs. apply sys_inv in E. apply unless_inv in E0 as [ Hr -> ]. apply Z.eqb_neq in Hr.
  destruct (getfl_flags _ _ _ _ E) as [ Hf Hrf ]. specialize (Hrf Hr). unfold nonblocking.
  destruct b; cbn [negb].
  - destruct (Z.land r O_NONBLOCK =? 0) eqn:Hn; cbn [negb] in Hs.
    + injection Hs as <-. by rewrite Hf, <- Hrf, Hn.
    + xinv Hs. apply sys_inv in E0. apply unless_inv in Hs as [ Hrc -> ]. apply Z.ltb_ge in Hrc.
      rewrite (setfl_flags _ _ _ _ _ E0 Hrc), land_lxor_nonblock; [ done | by apply Z.eqb_neq ].
  - destruct (Z.land r O_NONBLOCK =? 0) eqn:Hn.
    + xinv Hs. apply sys_inv in E0. apply unless_inv in Hs as [ Hrc -> ]. apply Z.ltb_ge in Hrc.
      rewrite (setfl_flags _ _ _ _ _ E0 Hrc). apply negb_true_iff, Z.eqb_neq, land_lor_nonblock.
    + injection Hs as <-. by rewrite Hf, <- Hrf, Hn.
Qed.

(** The blocking mode that setBlocking sets is the mode getBlocking reads, whatever mode
    the socket was in. *)
Theorem blocking_mode_roundtrip fd b k k1 b' k2 :
  setBlocking fd b k = (Ok tt, k1) -> getBlocking fd k1 = (Ok b', k2) -> b' = b.
Proof.
  intros Hset Hget. apply setBlocking_flags in Hset as [ _ Hn ]. unfold getBlocking in Hget. xinv Hget. xinv Hget.
  apply sys_inv in E. apply unless_inv in E0 as [ Hr -> ]. apply Z.eqb_neq in Hr. destruct (getfl_flags _ _ _ _ E) as [ _ Hrf ].
  injection Hget as <- _. rewrite (Hrf Hr). unfold nonblocking in Hn. apply (f_equal negb) in Hn. by rewrite !negb_involutive in Hn.
Qed.

(** A call that answers its result and leaves the flags alone. *)
Definition keeps {A} (m : X kernel A) : Prop := forall k a k', m k = (Ok a, k') -> flags k' = flags k.

Lemma keeps_bind {A B} (m : X kernel A) (f : A -> X kernel B) : keeps m -> (forall a, keeps (f a)) -> keeps (xbind m f).
Proof. intros Hm Hf k b k' Hb. xinv Hb. by rewrite (Hf _ _ _ _ Hb), (Hm _ _ _ E). Qed.

Lemma keeps_ret {A} (a : A) : keeps (xret a).
Proof. by intros k b k' [= _ <-]. Qed.

Lemma keeps_throw {A} e : keeps (xthrow e : X kernel A).
Proof. by intros k b k'. Qed.

Lemma keeps_unless b what : keeps (unless b what).
Proof. intros k a k' Hu. by apply unless_inv in Hu as [ _ -> ]. Qed.

Lemma keeps_setsockopt fd l n v : keeps (sys (setsockopt fd l n v)).
Proof. intros k a k' Hs. apply sys_inv in Hs. by eapply setsockopt_flags. Qed.

Lemma keeps_answered codes what : keeps (answered codes what).
Proof.
  apply keeps_bind; [ by intros k a k' [= _ <-] | ]. intros e. destruct (existsb (Z.eqb e) codes); [ apply keeps_ret | by intros k a k' ].
Qed.
#[local] Hint Resolve keeps_ret keeps_throw keeps_unless keeps_setsockopt keeps_answered : dodo.

Lemma keeps_listen fd a n : keeps (listen fd a n).
Proof.
  apply keeps_bind.
  - apply keeps_bind; [ intros k r k' Hs; apply sys_inv in Hs; by eapply bind_flags | ]. intros rc. destruct (rc <? 0); auto with dodo.
  - intros e. destruct (e =? ecOK); [ | auto with dodo ].
    apply keeps_bind; [ intros k r k' Hs; apply sys_inv in Hs; by eapply listen_flags | ]. intros rc. destruct (rc <? 0); auto with dodo.
Qed.

Lemma keeps_set_size what fd n z : keeps (set_size what fd n z).
Proof. apply keeps_bind; auto with dodo. Qed.

Lemma keeps_timeout fd n (v : list Z) what : keeps (let^ rc := sys (setsockopt fd SOL_SOCKET n v) in unless (rc =? -1) what).
Proof. apply keeps_bind; auto with dodo. Qed.

(** When the constructor of TCPListener succeeds, its address was valid, the socket
    listens with the backlog of the system, and it is non-blocking, as the accept loop of
    the listener needs. *)
Theorem listening_socket_nonblocking a p somaxconn k fd backlog k' :
  construct a p somaxconn k = (Ok (fd, backlog), k') ->
  address_isValid a = true /\ somaxconn = Some backlog /\ 0 <= fd /\ nonblocking k' fd = true.
Proof.
  unfold construct. intros Hc. destruct (address_isValid a); [ | done ]. cbn [negb] in Hc. split; [ done | ].
  do 4 xinv Hc. destruct r2. apply setBlocking_flags in E2 as [ Hfd Hn ]. xinv Hc. xinv Hc. xinv Hc. xinv Hc.
  destruct somaxconn as [ n | ]; [ | done ]. xinv Hc.
  destruct (negb (r6 =? ecOK)); [ done | ]. injection Hc as <- <- <-. split; [ done | ]. split; [ done | ].
  unfold nonblocking in *. rewrite (keeps_listen _ _ _ _ _ _ E6), (keeps_timeout _ _ _ _ _ _ _ E5), (keeps_timeout _ _ _ _ _ _ _ E4),
    (keeps_set_size _ _ _ _ _ _ _ E3), (keeps_set_size _ _ _ _ _ _ _ E2). done.
Qed.
End Flags.

(** ** Errors *)

(** setReUseAddress and setReUsePort report a failure with the result of the call, -1,
    in place of errno: the code of EAI_BADFLAGS whatever went wrong. *)
Theorem reuse_failure_loses_errno `{Kernel} fd k k' :
  0 <= fd -> setsockopt fd SOL_SOCKET SO_REUSEADDR [1] k = (-1, k') ->
  setReUseAddress fd k = (Throw (SystemException (lit "setsockopt SO_REUSEADDR failed") (ec_value ecEAI_BADFLAGS)), k').
Proof.
  intros Hfd Hs. unfold setReUseAddress. rewrite (proj2 (Z.leb_le 0 fd) Hfd). cbn [negb]. unfold xbind, sys. by rewrite Hs.
Qed.

(** setTTL looks at errno without asking whether the call failed: with a stale errno of
    ENOPROTOOPT it also sets the IPv6 option of an IPv4 socket, and throws although the
    time to live was set. *)
Theorem setTTL_trusts_stale_errno `{Kernel} fd ttl k k1 k2 :
  setsockopt fd SOL_IP IP_TTL [ttl] k = (0, k1) -> errno k1 = ec_value ecENOPROTOOPT ->
  setsockopt fd SOL_IPV6 IPV6_UNICAST_HOPS [ttl] k1 = (-1, k2) ->
  setTTL fd ttl k = (Throw (SystemException (lit "setTTL failed") (errno k2)), k2).
Proof. intros H1 He H2. unfold setTTL, xbind, sys, get_errno. rewrite H1, He. cbn. by rewrite H2. Qed.

(** ** A concrete kernel: a table of flags and the last error *)

Module DemoKernel.
Record state : Type := mkState { fl : gmap Z Z; err : Z; refuse : bool }.

#[export] Instance linux : Kernel := {|
  kernel := state;
  errno := err;
  sys_socket _ _ _ k := (3, mkState (<[3 := 2]> (fl k)) (err k) (refuse k));
  sys_connect _ _ k := (0, k);
  sys_bind _ _ k := (0, k);
  sys_listen _ _ k := (0, k);
  sys_accept _ k := (-1, mkState (fl k) 11 (refuse k));
  sys_close _ k := (0, k);
  sys_getfl fd k := (default 0 (fl k !! fd), k);
  sys_setfl fd f k := (0, mkState (<[fd := f]> (fl k)) (err k) (refuse k));
  setsockopt _ l n _ k := if refuse k && negb (l =? SOL_IP) then (-1, k) else (0, k);
  getsockopt _ _ _ k := (0, 0, k);
  getsockname _ k := (None, k);
  getpeername _ k := (None, k);
  sys_sendto _ s _ k := (zlen s, k);
|}.

#[export] Instance linux_laws : FcntlLaws.
Proof.
  refine (Build_FcntlLaws linux (fun k fd => default 0 (fl k !! fd)) _ _ _ _ _).
  - by intros fd k rc k' [= <- <-].
  - intros fd f k rc k' [= <- <-] _. cbn. by rewrite lookup_insert_eq.
  - intros fd l n v k rc k'. cbn. destruct (refuse k && negb (l =? SOL_IP)); by intros [= _ <-].
  - by intros fd a k rc k' [= _ <-].
  - by intros fd n k rc k' [= _ <-].
Defined.

#[export] Instance integers : Doubles Z := {| of_int z := z; modf z := (0, z); times_1e6 z := z * 1000000; to_time_t z := z |}.

Definition k0 : @kernel linux := mkState ∅ 0 false.
Definition any_address : Address := mkAddress AF_INET zeros.

Lemma blocking_mode_roundtrip_witness : exists k1, setBlocking 3 false k0 = (Ok tt, k1) /\ fst (getBlocking 3 k1) = Ok false.
Proof.
  set (k1 := snd (setBlocking 3 false k0)). assert (Hs : setBlocking 3 false k0 = (Ok tt, k1)) by reflexivity.
  exists k1. split; [ exact Hs | ]. destruct (getBlocking 3 k1) as [ o k2 ] eqn:Hg. assert (Ho : exists b, o = Ok b) by (vm_compute in Hg; injection Hg as <- _; by eexists).
  destruct Ho as [ b -> ]. cbn. f_equal. exact (blocking_mode_roundtrip 3 false k0 k1 b k2 Hs Hg).
Defined.

Lemma listening_socket_nonblocking_witness :
  nonblocking (snd (construct any_address Params_default (Some 128) k0)) 3 = true.
Proof.
  apply (listening_socket_nonblocking any_address Params_default (Some 128) k0 3 128). by vm_compute.
Defined.

Lemma reuse_failure_loses_errno_witness :
  fst (setReUseAddress 3 (mkState ∅ 12 true : @kernel linux)) = Throw (SystemException (lit "setsockopt SO_REUSEADDR failed") (ec_value ecEAI_BADFLAGS)).
Proof. by rewrite (reuse_failure_loses_errno 3 (mkState ∅ 12 true : @kernel linux) (mkState ∅ 12 true)). Defined.

Lemma setTTL_trusts_stale_errno_witness :
  fst (setTTL 3 64 (mkState ∅ 92 true : @kernel linux)) = Throw (SystemException (lit "setTTL failed") 92).
Proof. by rewrite (setTTL_trusts_stale_errno 3 64 (mkState ∅ 92 true : @kernel linux) (mkState ∅ 92 true) (mkState ∅ 92 true)). Defined.
End DemoKernel.
