(* ===== verification/TLSContext.v ===== *)
(** * TLSContext: settings and identity of TLS connections

    Models src/src/lib/network/tlscontext.cpp with its header, and the OpenSSL error texts
    of src/src/lib/common/util.cpp.  OpenSSL and the C library's files are a parameter
    (class [LibCTX]): what each call answers and how it changes the state it shares with
    the kernel (SocketSetup.v).  Objects of OpenSSL are handles.  The YAML constructor
    calls [DataCrypt::decrypt] (DataCrypt.v). *)

From S2P Require Import Prelude.
From S2P Require Import SystemError.
From S2P Require Import Bytes.
From S2P Require Import DataCrypt.
From S2P Require Import TCPServer.
From S2P Require Import TCPListener.
From S2P Require Import Address.
From S2P Require Import SocketSetup.

Local Open Scope Z_scope.

Inductive TLSVersion : Type := tls1_1 | tls1_2 | tls1_3.
Definition tlsBest : TLSVersion := tls1_3.
Inductive PeerVerification : Type := pvVerifyNone | pvVerifyPeer | pvVerifyFQDN.

Definition TLS1_1_VERSION : Z := 770.
Definition TLS1_2_VERSION : Z := 771.
Definition TLS1_3_VERSION : Z := 772.
Definition SSL_VERIFY_NONE : Z := 0.
Definition SSL_VERIFY_PEER : Z := 1.
Definition SSL_VERIFY_FAIL_IF_NO_PEER_CERT : Z := 2.

(** The members of the class; [tlsctx_] is the handle of the SSL_CTX. *)
Record TLSContext : Type := mkTLSContext {
  tlsctx_ : Z;
  tlsversion_ : TLSVersion;
  peerverficiation_ : PeerVerification;
  passphrase_ : str;
  enable_sni_ : bool;
  allow_san_wildcards_ : bool;
}.

Definition set_passphrase (p : str) (c : TLSContext) : TLSContext :=
  mkTLSContext (tlsctx_ c) (tlsversion_ c) (peerverficiation_ c) p (enable_sni_ c) (allow_san_wildcards_ c).

(** What OpenSSL is given to obtain the passphrase of a key: buffer and its size to buffer
    and length. *)
Definition callback : Type := list cell -> Z -> list cell * Z.

Class LibCTX `{Kernel} := {
  ERR_queue : kernel -> list str;                     (** the texts of the pending errors *)
  ERR_clear : kernel -> kernel;
  SSL_CTX_new : kernel -> option Z * kernel;
  SSL_CTX_set_min_proto_version : Z -> Z -> kernel -> Z * kernel;
  SSL_CTX_set_verify : Z -> Z -> kernel -> kernel;
  SSL_CTX_set_default_verify_paths : Z -> kernel -> Z * kernel;
  SSL_CTX_use_certificate_file : Z -> str -> kernel -> Z * kernel;
  SSL_CTX_use_PrivateKey_file : Z -> callback -> str -> kernel -> Z * kernel;
  SSL_CTX_check_private_key : Z -> kernel -> Z * kernel;
  SSL_CTX_use_certificate : Z -> option Z -> kernel -> Z * kernel;
  SSL_CTX_use_PrivateKey : Z -> option Z -> kernel -> Z * kernel;
  SSL_CTX_set0_chain : Z -> option Z -> kernel -> Z * kernel;
  SSL_CTX_set_ciphersuites : Z -> str -> kernel -> Z * kernel;
  SSL_CTX_set_cipher_list : Z -> str -> kernel -> Z * kernel;
  SSL_CTX_set_options : Z -> Z -> kernel -> Z * kernel;
  SSL_CTX_load_verify_locations : Z -> option str -> option str -> kernel -> Z * kernel;
  fopen : str -> kernel -> option Z * kernel;
  fclose : Z -> kernel -> kernel;
  d2i_PKCS12_fp : Z -> kernel -> option Z * kernel;
  PKCS12_free : Z -> kernel -> kernel;
  PKCS12_parse : Z -> str -> kernel -> option (option Z * option Z * option Z) * kernel;   (** pkey, cert, ca *)
  X509_free : Z -> kernel -> kernel;
  EVP_PKEY_free : Z -> kernel -> kernel;
}.

Definition peerVerficiationFromString (src : str) : outcome PeerVerification :=
  if bool_decide (src = lit "pvVerifyNone") then Ok pvVerifyNone
  else if bool_decide (src = lit "pvVerifyPeer") then Ok pvVerifyPeer
  else if bool_decide (src = lit "pvVerifyFQDN") then Ok pvVerifyFQDN
  else Throw (DodoException (lit "invalid TLSContext::PeerVerification '" ++ src ++ lit "'")).

Definition tlsVersionFromString (src : str) : outcome TLSVersion :=
  if bool_decide (src = lit "1.1") then Ok tls1_1
  else if bool_decide (src = lit "1.2") then Ok tls1_2
  else if bool_decide (src = lit "1.3") then Ok tls1_3
  else Throw (DodoException (lit "invalid TLSContext::TLSVersion '" ++ src ++ lit "'")).

Definition proto_of (v : TLSVersion) : Z :=
  match v with tls1_1 => TLS1_1_VERSION | tls1_2 => TLS1_2_VERSION | tls1_3 => TLS1_3_VERSION end.
Definition mode_of (v : PeerVerification) : Z :=
  match v with pvVerifyNone => SSL_VERIFY_NONE | _ => Z.lor SSL_VERIFY_PEER SSL_VERIFY_FAIL_IF_NO_PEER_CERT end.

(** [pem_passwd_cb]: the buffer of [size] octets and the length it answers.  [strncpy] fills
    the rest with zeros. *)
Definition pem_passwd_cb (c : TLSContext) : callback := fun buf size =>
  let p := c_string (passphrase_ c) in
  let n := Z.to_nat size in
  let buf1 := if zlen p <? size then map Some p ++ replicate (n - length p) (Some (chr 0)) ++ drop n buf
              else <[0%nat := Some (chr 0)]> buf in
  (<[(n - 1)%nat := Some (chr 0)]> buf1, zlen p).

Section Context.
Context `{LibCTX}.

(** [writeSSLErrors]: ERR_get_error takes the oldest error off the queue; the loop ends
    when it is empty.  The number of errors and their texts. *)
Definition writeSSLErrors (terminator : ascii) : X kernel (Z * str) := fun k =>
  let errors := ERR_queue k in
  (Ok (zlen errors, flat_map (fun e => e ++ (if octet terminator =? 0 then [] else [terminator])) errors), ERR_clear k).

Definition getSSLErrors (terminator : ascii) : X kernel str :=
  let^ (count, text) := writeSSLErrors terminator in
  xret (if count =? 0 then [] else text).

(** [throw_Exception( what << getSSLErrors( LF ) )] *)
Definition throw_ssl {A} (what : str) : X kernel A :=
  let^ errors := getSSLErrors (chr 10) in xthrow (DodoException (what ++ errors)).
(** .. when [failed], with a line end between the two *)
Definition ssl_unless (failed : bool) (what : str) : X kernel unit :=
  if failed then throw_ssl (what ++ [chr 10]) else xret tt.

(** [construct]: the object; the callback is [pem_passwd_cb] with the object itself. *)
Definition construct (pv : PeerVerification) (v : TLSVersion) (sni wildcards : bool) : X kernel TLSContext :=
  let^ ctx := (fun k => let (r, k') := SSL_CTX_new k in (Ok r, k')) in
  match ctx with
  | None => throw_ssl (lit "SSL_CTX_new failed" ++ [chr 10])
  | Some h =>
      let^ rc := sys (SSL_CTX_set_min_proto_version h (proto_of v)) in
      let^ _ := ssl_unless (rc =? 0) (lit "SSL_CTX_set_min_proto_version failed") in
      let^ _ := xmodify (SSL_CTX_set_verify h (mode_of pv)) in
      let^ rc := sys (SSL_CTX_set_default_verify_paths h) in
      let^ _ := ssl_unless (rc =? 0) (lit "SSL_CTX_set_default_verify_paths failed") in
      xret (mkTLSContext h v pv [] sni wildcards)
  end.

(** Members that change the object: its state beside the kernel's. *)
Definition lib {A} (m : X kernel A) : X (TLSContext * kernel) A := fun '(c, k) => let (o, k') := m k in (o, (c, k')).
Definition this : X (TLSContext * kernel) TLSContext := fun '(c, k) => (Ok c, (c, k)).
Definition assign_passphrase (p : str) : X (TLSContext * kernel) unit := fun '(c, k) => (Ok tt, (set_passphrase p c, k)).

Definition loadPEMIdentity (certfile keyfile passphrase : str) : X (TLSContext * kernel) unit :=
  let^ _ := assign_passphrase passphrase in
  let^ c := this in
  let^ rc := lib (sys (SSL_CTX_use_certificate_file (tlsctx_ c) (c_string certfile))) in
  if negb (rc =? 1) then lib (throw_ssl []) else
  let^ rc := lib (sys (SSL_CTX_use_PrivateKey_file (tlsctx_ c) (pem_passwd_cb c) (c_string keyfile))) in
  if negb (rc =? 1) then lib (throw_ssl []) else
  let^ rc := lib (sys (SSL_CTX_check_private_key (tlsctx_ c))) in
  if rc =? 0 then lib (throw_ssl []) else
  assign_passphrase [].

(** The body of the try block of [loadPKCS12]. *)
Definition use_pkcs12 (h : Z) (p12file : str) (pkey cert ca : option Z) : X kernel unit :=
  let^ rc := sys (SSL_CTX_use_certificate h cert) in
  let^ _ := ssl_unless (negb (rc =? 1)) (lit "cannot use certificate from '" ++ p12file ++ lit "'") in
  let^ rc := sys (SSL_CTX_use_PrivateKey h pkey) in
  let^ _ := ssl_unless (negb (rc =? 1) || (if pkey is Some _ then false else true)) (lit "cannot use private key from '" ++ p12file ++ lit "'") in
  let^ rc := sys (SSL_CTX_check_private_key h) in
  let^ _ := ssl_unless (rc =? 0) (lit "invalid private key in '" ++ p12file ++ lit "'") in
  let^ rc := sys (SSL_CTX_set0_chain h ca) in
  ssl_unless (rc =? 0) (lit "cannot use certificate chain from '" ++ p12file ++ lit "'").

Definition free_with (f : Z -> kernel -> kernel) (h : option Z) (k : kernel) : kernel := match h with Some x => f x k | None => k end.
(** The four releases, at the end of the try block and in its handler. *)
Definition release_pkcs12 (pkey cert : option Z) (p12 fp : Z) (k : kernel) : kernel :=
  fclose fp (PKCS12_free p12 (free_with EVP_PKEY_free pkey (free_with X509_free cert k))).

Definition loadPKCS12 (p12file p12passphrase : str) : X (TLSContext * kernel) unit :=
  let^ _ := assign_passphrase [] in
  let^ c := this in
  lib (
    let^ fp := (fun k => let (r, k') := fopen (c_string p12file) k in (Ok r, k')) in
    match fp with
    | None => throw_ssl (lit "cannot open'" ++ p12file ++ lit "'" ++ [chr 10])
    | Some fp =>
        let^ p12 := (fun k => let (r, k') := d2i_PKCS12_fp fp k in (Ok r, k')) in
        match p12 with
        | None => throw_ssl (lit "cannot read PKCS12 file '" ++ p12file ++ lit "'" ++ [chr 10])
        | Some p12 =>
            let^ parsed := (fun k => let (r, k') := PKCS12_parse p12 (c_string p12passphrase) k in (Ok r, k')) in
            match parsed with
            | None => throw_ssl (lit "cannot parse PKCS12 file '" ++ p12file ++ lit "'" ++ [chr 10])
            | Some (pkey, cert, ca) => fun k =>
                let (o, k') := use_pkcs12 (tlsctx_ c) p12file pkey cert ca k in (o, release_pkcs12 pkey cert p12 fp k')
            end
        end
    end).

Definition setCipherList (c : TLSContext) (cipherlist : str) : X kernel unit :=
  let^ rc := sys (match tlsversion_ c with
                  | tls1_3 => SSL_CTX_set_ciphersuites (tlsctx_ c) (c_string cipherlist)
                  | _ => SSL_CTX_set_cipher_list (tlsctx_ c) (c_string cipherlist)
                  end) in
  if negb (rc =? 1) then xthrow (DodoException (lit "invalid cipherlist '" ++ cipherlist ++ lit "'")) else xret tt.

Definition setOptions (c : TLSContext) (options : Z) : X kernel Z := sys (SSL_CTX_set_options (tlsctx_ c) options).

Definition setTrustPaths (c : TLSContext) (cafile capath : str) : X kernel unit :=
  let ptr (s : str) := match s with [] => None | _ => Some (c_string s) end in
  let^ rc := sys (SSL_CTX_load_verify_locations (tlsctx_ c) (ptr cafile) (ptr capath)) in
  ssl_unless (rc =? 0) (lit "SSL_CTX_load_verify_locations failed").

(** ** The YAML constructor *)

(** The node: its texts and flags, its section pem and whether it has a section pkcs12. *)
Record TLSYaml : Type := mkTLSYaml {
  y_string : str -> option (outcome str);
  y_bool : str -> option (outcome bool);
  y_pem : option (str -> option (outcome str));
  y_pkcs12 : bool;
}.

Definition value {S A} (o : outcome A) : X S A := fun s => (o, s).

(** The object is built where an exception leaves no object behind. *)
Definition TLSContext_of_yaml `{Allocator} `{OpenSSL} `{GCM} (yaml : TLSYaml) : X kernel TLSContext :=
  let^ pv := value (let! t := YAML_read_key (y_string yaml) (lit "peer-verification") in peerVerficiationFromString t) in
  let^ tv := value (let! t := YAML_read_key (y_string yaml) (lit "tls-version") in tlsVersionFromString t) in
  let^ enable_sni := value (YAML_read_key (y_bool yaml) (lit "enable-sni")) in
  let^ allow_wildcards := value (YAML_read_key (y_bool yaml) (lit "allow-san-wildcards")) in
  let^ c := construct pv tv enable_sni allow_wildcards in
  match y_pem yaml with
  | Some pem =>
      let^ priv := value (YAML_read_key pem (lit "private")) in
      let^ pub := value (YAML_read_key pem (lit "public")) in
      let^ pass := value (YAML_read_key pem (lit "passphrase")) in
      let^ (_, bytes) := value (decrypt (lit "key") pass Bytes_new) in
      let^ passphrase := value (Bytes.asString bytes) in
      fun k =>
        match loadPEMIdentity pub priv passphrase (set_passphrase passphrase c, k) with
        | (Ok _, (c', k')) => (Ok c', k')
        | (Throw e, (_, k')) => (Throw e, k')
        | (OutOfFuel, (_, k')) => (OutOfFuel, k')
        end
  | None =>
      if y_pkcs12 yaml then xret c else xthrow (DodoException (lit "need either pem or pcks12 section"))
  end.
End Context.

(** ** The passphrase *)

(** A passphrase shorter than the buffer reaches OpenSSL complete and terminated; one
    that does not fit is replaced by an empty text while its full length is answered, more
    octets than were written. *)
Theorem passphrase_callback buf size c :
  0 < size -> zlen buf = size ->
  let p := c_string (passphrase_ c) in
  snd (pem_passwd_cb c buf size) = zlen p /\
  (zlen p < size -> take (length p) (fst (pem_passwd_cb c buf size)) = map Some p) /\
  (size <= zlen p -> fst (pem_passwd_cb c buf size) !! 0%nat = Some (Some (chr 0)) /\
                     length (fst (pem_passwd_cb c buf size)) = Z.to_nat size).
Proof.
  intros Hsz Hb. cbn zeta. set (p := c_string (passphrase_ c)). unfold pem_passwd_cb. fold p. cbn [fst snd]. split; [ done | ]. split.
  - intros Hl. rewrite (proj2 (Z.ltb_lt _ _) Hl). unfold zlen in *.
    rewrite take_insert_ge by lia. rewrite take_app_length' by (by rewrite length_map). done.
  - intros Hl. destruct (Z.ltb_spec (zlen p) size); [ lia | ]. unfold zlen in *. split.
    + destruct (decide (Z.to_nat size - 1 = 0)%nat) as [ -> | Hne ].
      * rewrite list_insert_insert_eq, list_lookup_insert_eq by lia. done.
      * rewrite list_lookup_insert_ne, list_lookup_insert_eq by lia. done.
    + rewrite !length_insert. lia.
Qed.

Lemma passphrase_callback_witness :
  snd (pem_passwd_cb (mkTLSContext 1 tls1_3 pvVerifyPeer (lit "secret") true true) (replicate 4 None) 4) = 6.
Proof. apply (passphrase_callback (replicate 4 None) 4); reflexivity. Defined.

Section Passphrase.
Context `{LibCTX}.

Lemma lib_inv {A} (m : X kernel A) c k o c' k' : lib m (c, k) = (o, (c', k')) -> c' = c /\ m k = (o, k').
Proof. unfold lib. destruct (m k). by intros [= <- <- <-]. Qed.

Lemma loadPEM_object certfile keyfile passphrase c k o c' k' :
  loadPEMIdentity certfile keyfile passphrase (c, k) = (o, (c', k')) ->
  match o with Ok _ => c' = set_passphrase [] c | _ => c' = set_passphrase passphrase c end.
Proof.
  unfold loadPEMIdentity, assign_passphrase, this, sys, xbind, lib, throw_ssl, getSSLErrors, writeSSLErrors, xthrow.
  repeat (case_match; simplify_eq/=); intros; simplify_eq/=; done.
Qed.

(** loadPEMIdentity forgets the passphrase when it succeeds and keeps it in the object
    when it throws. *)
Theorem passphrase_kept_on_failure certfile keyfile passphrase c k o c' k' :
  loadPEMIdentity certfile keyfile passphrase (c, k) = (o, (c', k')) ->
  (o = Ok tt -> passphrase_ c' = []) /\ (forall e, o = Throw e -> passphrase_ c' = passphrase).
Proof. intros Hl. apply loadPEM_object in Hl. split; intros; subst; by rewrite Hl. Qed.

Lemma construct_passphrase pv tv sni wildcards k c k1 : construct pv tv sni wildcards k = (Ok c, k1) -> set_passphrase [] c = c.
Proof.
  intros Hc. unfold construct in Hc. xinv Hc. destruct r as [ h | ]; [ | by xinv Hc ].
  do 5 (xinv Hc). by injection Hc as <- _.
Qed.

(** The YAML constructor ignores the result of decrypting the passphrase: where the text
    is not in the encrypted format, the private key is loaded with the empty passphrase. *)
Theorem undecryptable_passphrase_is_empty `{Allocator} `{OpenSSL} `{GCM} yaml pem pv tv sni wildcards priv pub pass c k k1 :
  (let! t := YAML_read_key (y_string yaml) (lit "peer-verification") in peerVerficiationFromString t) = Ok pv ->
  (let! t := YAML_read_key (y_string yaml) (lit "tls-version") in tlsVersionFromString t) = Ok tv ->
  YAML_read_key (y_bool yaml) (lit "enable-sni") = Ok sni -> YAML_read_key (y_bool yaml) (lit "allow-san-wildcards") = Ok wildcards ->
  y_pem yaml = Some pem -> pem (lit "private") = Some (Ok priv) -> pem (lit "public") = Some (Ok pub) -> pem (lit "passphrase") = Some (Ok pass) ->
  decode pass = None -> construct pv tv sni wildcards k = (Ok c, k1) ->
  TLSContext_of_yaml yaml k =
    (let '(o, (c', k')) := loadPEMIdentity pub priv [] (c, k1) in
     match o with Ok _ => (Ok c, k') | Throw e => (Throw e, k') | OutOfFuel => (OutOfFuel, k') end).
Proof.
  intros Hpv Htv Hs Hw Hpem Hpriv Hpub Hpass Hd Hc. unfold TLSContext_of_yaml, value, xbind at 1 2 3 4.
  rewrite Hpv, Htv, Hs, Hw. unfold xbind at 1. rewrite Hc, Hpem. unfold xbind at 1 2 3 4 5, YAML_read_key, decrypt.
  rewrite Hpriv, Hpub, Hpass, Hd. change (asString Bytes_new) with (Ok (A := str) []). cbv beta iota.
  apply construct_passphrase in Hc. rewrite Hc.
  destruct (loadPEMIdentity pub priv [] (c, k1)) as [ o [ c' k' ] ] eqn:Hl. apply loadPEM_object in Hl.
  by destruct o; rewrite ?Hl, ?Hc.
Qed.
End Passphrase.

(** ** What a PKCS12 file leaves open *)

Definition handles (l : list (option Z)) : list Z := omap (fun h => h) l.

(** The handles in use: what opens one, what closes one, and that the SSL_CTX calls take
    references of their own, but for the chain, whose ownership they take over. *)
Class HandleLaws `{LibCTX} := {
  live : kernel -> gset Z;
  fopen_live : forall f k r k', fopen f k = (r, k') ->
    match r with Some fp => (fp ∉ live k) /\ live k' = {[fp]} ∪ live k | None => live k' = live k end;
  d2i_live : forall fp k r k', d2i_PKCS12_fp fp k = (r, k') ->
    match r with Some p => (p ∉ live k) /\ live k' = {[p]} ∪ live k | None => live k' = live k end;
  parse_live : forall p pass k r k', PKCS12_parse p pass k = (r, k') ->
    match r with
    | Some (pkey, cert, ca) =>
        NoDup (handles [pkey; cert; ca]) /\ (forall h, h ∈ handles [pkey; cert; ca] -> h ∉ live k) /\
        live k' = list_to_set (handles [pkey; cert; ca]) ∪ live k
    | None => live k' = live k
    end;
  fclose_live : forall h k, live (fclose h k) = live k ∖ {[h]};
  PKCS12_free_live : forall h k, live (PKCS12_free h k) = live k ∖ {[h]};
  X509_free_live : forall h k, live (X509_free h k) = live k ∖ {[h]};
  EVP_PKEY_free_live : forall h k, live (EVP_PKEY_free h k) = live k ∖ {[h]};
  ERR_clear_live : forall k, live (ERR_clear k) = live k;
  use_certificate_live : forall c x k rc k', SSL_CTX_use_certificate c x k = (rc, k') -> live k' = live k;
  use_PrivateKey_live : forall c x k rc k', SSL_CTX_use_PrivateKey c x k = (rc, k') -> live k' = live k;
  check_private_key_live : forall c k rc k', SSL_CTX_check_private_key c k = (rc, k') -> live k' = live k;
  set0_chain_live : forall c ca k rc k', SSL_CTX_set0_chain c ca k = (rc, k') ->
    live k' = if rc =? 0 then live k else live k ∖ match ca with Some h => {[h]} | None => ∅ end;
}.

Section Handles.
Context `{HandleLaws}.

Lemma ssl_unless_live failed what k o k' : ssl_unless failed what k = (o, k') -> live k' = live k /\ (o = Ok tt <-> failed = false).
Proof.
  unfold ssl_unless, throw_ssl, getSSLErrors, writeSSLErrors, xbind, xret, xthrow. destruct failed; intros [= <- <-]; [ | done ].
  rewrite ERR_clear_live. split; [ done | ]. by split.
Qed.

Lemma throw_ssl_live {A} what k (o : outcome A) k' : throw_ssl what k = (o, k') -> live k' = live k.
Proof. unfold throw_ssl, getSSLErrors, writeSSLErrors, xbind, xthrow. intros [= _ <-]. apply ERR_clear_live. Qed.

Definition chain_set (ca : option Z) : gset Z := match ca with Some h => {[h]} | None => ∅ end.

Definition keeps_live {A} (m : X kernel A) : Prop := forall k o k', m k = (o, k') -> live k' = live k.
Definition gives_chain (ca : option Z) (m : X kernel unit) : Prop := forall k o k', m k = (o, k') ->
  live k' = live k ∖ (if o is Ok _ then chain_set ca else ∅).

Lemma gives_chain_bind {A} ca (m : X kernel A) f : keeps_live m -> (forall a, gives_chain ca (f a)) -> gives_chain ca (xbind m f).
Proof.
  intros Hm Hf k o k'. unfold xbind. destruct (m k) as [ [ a | e | ] k1 ] eqn:Hk; apply Hm in Hk; rewrite <- Hk.
  - apply Hf.
  - intros [= <- <-]. set_solver.
  - intros [= <- <-]. set_solver.
Qed.

Lemma keeps_sys f : (forall k rc k', f k = (rc, k') -> live k' = live k) -> keeps_live (sys f).
Proof. intros Hf k o k'. unfold sys. destruct (f k) as [ rc k1 ] eqn:Hk. intros [= _ <-]. by eapply Hf. Qed.

Lemma keeps_live_unless failed what : keeps_live (ssl_unless failed what).
Proof. intros k o k' Hu. by apply ssl_unless_live in Hu as [ -> _ ]. Qed.

(** Once the file is parsed the try block changes nothing but the owner of the chain. *)
Lemma use_pkcs12_live h f pkey cert ca : gives_chain ca (use_pkcs12 h f pkey cert ca).
Proof.
  unfold use_pkcs12.
  apply gives_chain_bind; [ apply keeps_sys, use_certificate_live | intros rc1 ]. apply gives_chain_bind; [ apply keeps_live_unless | intros _ ].
  apply gives_chain_bind; [ apply keeps_sys, use_PrivateKey_live | intros rc2 ]. apply gives_chain_bind; [ apply keeps_live_unless | intros _ ].
  apply gives_chain_bind; [ apply keeps_sys, check_private_key_live | intros rc3 ]. apply gives_chain_bind; [ apply keeps_live_unless | intros _ ].
  intros k o k'. unfold xbind, sys. destruct (SSL_CTX_set0_chain h ca k) as [ rc k1 ] eqn:Hc. apply set0_chain_live in Hc.
  intros Hu. apply ssl_unless_live in Hu as [ -> Ho ]. rewrite Hc. fold (chain_set ca).
  destruct (rc =? 0); destruct o as [ [] | e | ]; naive_solver set_solver.
Qed.

Lemma free_with_live f h k : (forall x k, live (f x k) = live k ∖ {[x]}) -> live (free_with f h k) = live k ∖ chain_set h.
Proof. intros Hf. destruct h; cbn; [ apply Hf | set_solver ]. Qed.

Lemma release_live pkey cert p12 fp k :
  live (release_pkcs12 pkey cert p12 fp k) = live k ∖ (chain_set pkey ∪ chain_set cert ∪ {[p12]} ∪ {[fp]}).
Proof.
  unfold release_pkcs12. rewrite fclose_live, PKCS12_free_live, (free_with_live _ pkey _ EVP_PKEY_free_live), (free_with_live _ cert _ X509_free_live).
  set_solver.
Qed.

Lemma handles_chains pkey cert ca : list_to_set (handles [pkey; cert; ca]) = chain_set pkey ∪ chain_set cert ∪ chain_set ca.
Proof. destruct pkey, cert, ca; cbn; set_solver. Qed.

(** After the file was parsed: the chain is what may stay behind. *)
Lemma parsed_live h f pkey cert ca p12 fp k0 k o k1 :
  fp ∉ live k0 -> p12 ∉ {[fp]} ∪ live k0 ->
  NoDup (handles [pkey; cert; ca]) -> (forall x, x ∈ handles [pkey; cert; ca] -> x ∉ {[p12]} ∪ ({[fp]} ∪ live k0)) ->
  live k = list_to_set (handles [pkey; cert; ca]) ∪ ({[p12]} ∪ ({[fp]} ∪ live k0)) ->
  use_pkcs12 h f pkey cert ca k = (o, k1) ->
  live (release_pkcs12 pkey cert p12 fp k1) = (if o is Ok _ then ∅ else chain_set ca) ∪ live k0.
Proof.
  intros Hfp Hp12 Hnd Hfresh Hk Hu. apply use_pkcs12_live in Hu. rewrite release_live, Hu, Hk, handles_chains.
  assert (Hca : forall x, (x ∈ chain_set pkey) \/ (x ∈ chain_set cert) \/ (x ∈ chain_set ca) -> x ∈ handles [pkey; cert; ca]).
  { intros x Hx. apply (elem_of_list_to_set (C := gset Z)). rewrite handles_chains. set_solver. }
  assert (Hdis : forall x, x ∈ chain_set ca -> (x ∉ chain_set pkey) /\ (x ∉ chain_set cert)).
  { intros x Hx. destruct pkey, cert, ca; cbn in *; rewrite ?NoDup_cons in Hnd; set_solver. }
  apply set_eq. intros x. specialize (Hca x). specialize (Hdis x). specialize (Hfresh x). destruct o; set_solver.
Qed.

(** C28 loadPKCS12 closes no handle it did not open, and leaves nothing open when it
    succeeds. *)
Theorem pkcs12_releases_handles p12file pass c k o c' k' :
  loadPKCS12 p12file pass (c, k) = (o, (c', k')) -> live k ⊆ live k' /\ (o = Ok tt -> live k' = live k).
Proof.
  unfold loadPKCS12. unfold xbind at 1, assign_passphrase, xbind at 1, this. intros Hl. apply lib_inv in Hl as [ _ Hl ]. revert Hl.
  unfold xbind at 1. destruct (fopen (c_string p12file) k) as [ [ fp | ] k1 ] eqn:E1; apply fopen_live in E1.
  2:{ intros Ht. pose proof (throw_ssl_live _ _ _ _ Ht) as ->. rewrite E1. split; [ done | ]. intros ->. by unfold throw_ssl, xbind in Ht. }
  destruct E1 as [ Hfp E1 ]. unfold xbind at 1. destruct (d2i_PKCS12_fp fp k1) as [ [ p12 | ] k2 ] eqn:E2; apply d2i_live in E2.
  2:{ intros Ht. pose proof (throw_ssl_live _ _ _ _ Ht) as ->. rewrite E2, E1. split; [ set_solver | ]. intros ->. by unfold throw_ssl, xbind in Ht. }
  destruct E2 as [ Hp12 E2 ]. unfold xbind at 1. destruct (PKCS12_parse p12 (c_string pass) k2) as [ [ [[pkey cert] ca] | ] k3 ] eqn:E3; apply parse_live in E3.
  2:{ intros Ht. pose proof (throw_ssl_live _ _ _ _ Ht) as ->. rewrite E3, E2, E1. split; [ set_solver | ]. intros ->. by unfold throw_ssl, xbind in Ht. }
  destruct E3 as (Hnd & Hfresh & E3). destruct (use_pkcs12 _ _ _ _ _ k3) as [ o1 k4 ] eqn:Hu. intros [= -> <-].
  rewrite E2, E1 in E3, Hfresh. rewrite E1 in Hp12. pose proof (parsed_live _ _ _ _ _ _ _ _ _ _ _ Hfp Hp12 Hnd Hfresh E3 Hu) as ->.
  split; [ set_solver | ]. intros ->. set_solver.
Qed.

(** A file that is no PKCS12 file stays open when loadPKCS12 throws. *)
Theorem unreadable_pkcs12_stays_open p12file pass c k fp k1 k2 :
  fopen (c_string p12file) k = (Some fp, k1) -> d2i_PKCS12_fp fp k1 = (None, k2) ->
  exists e k', loadPKCS12 p12file pass (c, k) = (Throw e, (set_passphrase [] c, k')) /\ (fp ∉ live k) /\ live k' = {[fp]} ∪ live k.
Proof.
  intros E1 E2. unfold loadPKCS12, assign_passphrase, this, lib, xbind. cbv beta iota. rewrite E1, E2. cbv beta iota.
  apply fopen_live in E1 as [ Hfp E1 ]. apply d2i_live in E2. destruct (throw_ssl _ k2) as [ o k' ] eqn:Ht.
  pose proof (throw_ssl_live _ _ _ _ Ht) as Hk. unfold throw_ssl, getSSLErrors, writeSSLErrors, xbind, xthrow in Ht. injection Ht as <- <-.
  do 2 eexists. split; [ done | ]. split; [ done | ]. by rewrite Hk, E2.
Qed.
End Handles.

(** ** A library whose calls succeed *)

Module DemoTLS.
(** The state: the handles in use; [readable] tells whether files hold PKCS12. *)
Record state : Type := mkState { used : gset Z; readable : bool }.
Definition add (k : state) (l : list Z) : state := mkState (list_to_set l ∪ used k) (readable k).
Definition drop_handle (h : Z) (k : state) : state := mkState (used k ∖ {[h]}) (readable k).
Definition answer (k : state) : Z * state := (1, k).

#[export] Instance machine : Kernel := {|
  kernel := state;
  errno _ := 0;
  sys_socket _ _ _ k := (3, k); sys_connect _ _ k := (0, k); sys_bind _ _ k := (0, k); sys_listen _ _ k := (0, k);
  sys_accept _ k := (4, k); sys_close _ k := (0, k); sys_getfl _ k := (0, k); sys_setfl _ _ k := (0, k);
  setsockopt _ _ _ _ k := (0, k); getsockopt _ _ _ k := (0, 0, k); getsockname _ k := (None, k); getpeername _ k := (None, k);
  sys_sendto _ s _ k := (zlen s, k);
|}.

#[export] Instance openssl : LibCTX := {|
  ERR_queue _ := []; ERR_clear k := k;
  SSL_CTX_new k := (Some 1, k);
  SSL_CTX_set_min_proto_version _ _ := answer; SSL_CTX_set_verify _ _ k := k; SSL_CTX_set_default_verify_paths _ := answer;
  SSL_CTX_use_certificate_file _ _ := answer; SSL_CTX_use_PrivateKey_file _ _ _ := answer; SSL_CTX_check_private_key _ := answer;
  SSL_CTX_use_certificate _ _ := answer; SSL_CTX_use_PrivateKey _ _ := answer;
  SSL_CTX_set0_chain _ ca k := (1, match ca with Some h => drop_handle h k | None => k end);
  SSL_CTX_set_ciphersuites _ _ := answer; SSL_CTX_set_cipher_list _ _ := answer; SSL_CTX_set_options _ o k := (o, k);
  SSL_CTX_load_verify_locations _ _ _ := answer;
  fopen _ k := let h := fresh (used k) in (Some h, add k [h]);
  fclose := drop_handle;
  d2i_PKCS12_fp _ k := if readable k then let h := fresh (used k) in (Some h, add k [h]) else (None, k);
  PKCS12_free := drop_handle;
  PKCS12_parse _ _ k := match fresh_list 3 (used k) with
                        | [a; b; c] => (Some (Some a, Some b, Some c), add k [a; b; c])
                        | _ => (None, k)
                        end;
  X509_free := drop_handle; EVP_PKEY_free := drop_handle;
|}.

#[export] Instance handle_laws : HandleLaws.
Proof.
  refine (Build_HandleLaws machine openssl used _ _ _ _ _ _ _ _ _ _ _ _).
  - intros f k r k' [= <- <-]. split; [ apply is_fresh | cbn; set_solver ].
  - intros fp k r k'. cbn. destruct (readable k); intros [= <- <-]; [ | done ]. split; [ apply is_fresh | cbn; set_solver ].
  - intros p pass k r k'. unfold PKCS12_parse, openssl. destruct (fresh_list 3 (used k)) as [ | a [ | b [ | c [ | ] ] ] ] eqn:Hl; intros [= <- <-]; try done.
    unfold handles. cbn [omap list_omap]. rewrite <- Hl. split; [ apply NoDup_fresh_list | ]. split; [ | by rewrite Hl ].
    intros h. apply fresh_list_is_fresh.
  - done.
  - done.
  - done.
  - done.
  - done.
  - by intros c x k rc k' [= _ <-].
  - by intros c x k rc k' [= _ <-].
  - by intros c k rc k' [= _ <-].
  - intros c ca k rc k' [= <- <-]. destruct ca; cbn; [ done | set_solver ].
Defined.

Definition k0 (b : bool) : @kernel machine := mkState ∅ b.
Definition c0 : TLSContext := mkTLSContext 1 tls1_3 pvVerifyFQDN [] true true.

Lemma pkcs12_releases_handles_witness :
  fst (loadPKCS12 (lit "id.p12") (lit "secret") (c0, k0 true)) = Ok tt /\
  live (snd (snd (loadPKCS12 (lit "id.p12") (lit "secret") (c0, k0 true)))) = ∅.
Proof.
  assert (Ho : fst (loadPKCS12 (lit "id.p12") (lit "secret") (c0, k0 true)) = Ok tt) by reflexivity. split; [ exact Ho | ].
  destruct (loadPKCS12 (lit "id.p12") (lit "secret") (c0, k0 true)) as [ o [ c' k' ] ] eqn:Hl.
  exact (proj2 (pkcs12_releases_handles _ _ _ _ _ _ _ Hl) Ho).
Defined.

Lemma unreadable_pkcs12_stays_open_witness :
  exists e k', loadPKCS12 (lit "id.pem") (lit "secret") (c0, k0 false) = (Throw e, (c0, k')) /\ live k' <> ∅.
Proof.
  destruct (unreadable_pkcs12_stays_open (lit "id.pem") (lit "secret") c0 (k0 false) (fresh (∅ : gset Z)) (add (k0 false) [fresh (∅ : gset Z)]) (add (k0 false) [fresh (∅ : gset Z)]))
    as (e & k' & Hl & _ & Hk); [ reflexivity | reflexivity | ].
  exists e, k'. split; [ exact Hl | ]. rewrite Hk. set_solver.
Defined.

Lemma passphrase_kept_on_failure_witness :
  forall o c' k', loadPEMIdentity (lit "a.crt") (lit "a.key") (lit "secret") (c0, k0 true) = (o, (c', k')) -> o = Ok tt -> passphrase_ c' = [].
Proof.
  intros o c' k' Hl Ho. exact (proj1 (passphrase_kept_on_failure (lit "a.crt") (lit "a.key") (lit "secret") c0 (k0 true) o c' k' Hl) Ho).
Defined.
End DemoTLS.
