(* ===== verification/TLSSocket.v ===== *)
(** * TLSSocket: sockets over TLS

    Models src/src/lib/network/tlssocket.cpp with its header.  The session calls of OpenSSL
    are a parameter (class [LibSSL]), over the state of the kernel and of the contexts
    (TLSContext.v).  [TLSSocket::connect] is composed of [BaseSocket::connect]
    (SocketSetup.v) and [X509Certificate::verifySAN] (X509.v). *)

From S2P Require Import Prelude.
From S2P Require Import SystemError.
From S2P Require Import Bytes.
From S2P Require Import TCPServer.
From S2P Require Import TCPListener.
From S2P Require Import Address.
From S2P Require Import X509.
From S2P Require Import SocketSetup.
From S2P Require Import TLSContext.

Local Open Scope Z_scope.

(** ** The library *)

Class LibSSL `{LibCTX} := {
  session : Type;
  SSL_new : Z -> kernel -> option session * kernel;          (** of a context *)
  SSL_free : session -> kernel -> kernel;
  SSL_set_fd : session -> Z -> kernel -> Z * kernel;
  SSL_set_hostname : session -> str -> kernel -> kernel;
  SSL_connect : session -> kernel -> Z * kernel;
  SSL_accept : session -> kernel -> Z * kernel;
  SSL_get_error : session -> Z -> kernel -> Z;
  SSL_write : session -> str -> kernel -> Z * kernel;
  SSL_read : session -> Z -> kernel -> Z * str * kernel;
  SSL_get_peer_certificate : session -> kernel -> option Cert;
  SSL_version : session -> kernel -> Z;
  SSL_get_version : session -> kernel -> str;
  SSL_get_cipher_name : session -> kernel -> str;
}.

Definition SSL_ERROR_NONE : Z := 0.
Definition SSL_ERROR_SSL : Z := 1.
Definition SSL_ERROR_WANT_READ : Z := 2.
Definition SSL_ERROR_WANT_WRITE : Z := 3.
Definition SSL_ERROR_WANT_X509_LOOKUP : Z := 4.
Definition SSL_ERROR_SYSCALL : Z := 5.
Definition SSL_ERROR_ZERO_RETURN : Z := 6.
Definition SSL_ERROR_WANT_CONNECT : Z := 7.
Definition SSL_ERROR_WANT_ACCEPT : Z := 8.

(** ** TLSSocket *)

Section TLSSocket.
Context `{LibSSL} `{Inet}.

Record TLSSocket : Type := mkTLSSocket {
  socket_ : Z;
  ssl_ : option session;
  tlscontext_ : TLSContext;
  peer_name_ : SAN;
}.

(** [TLSSocket( int socket, .. )]: no session. *)
Definition TLSSocket_of_fd (fd : Z) (ctx : TLSContext) (peer : SAN) : TLSSocket := mkTLSSocket fd None ctx peer.

Definition TLSSocket_new (blocking : bool) (p : SocketParams) (ctx : TLSContext) (peer : SAN) : X kernel TLSSocket :=
  let^ fd := BaseSocket_new blocking p in
  let^ s := (fun k => let (r, k') := SSL_new (tlsctx_ ctx) k in (Ok r, k')) in
  match s with
  | None => throw_ssl []
  | Some ses =>
      let^ _ := sys (SSL_set_fd ses fd) in
      let^ _ := (if enable_sni_ ctx then xmodify (SSL_set_hostname ses (c_string (san_name peer))) else xret tt) in
      xret (mkTLSSocket fd (Some ses) ctx peer)
  end.

(** OpenSSL dereferences the session it is given. *)
Definition with_session {A} (t : TLSSocket) (m : session -> X kernel A) : X kernel A :=
  match ssl_ t with
  | Some s => m s
  | None => xthrow (UndefinedBehaviour (lit "null SSL"))
  end.

(** The codes of [SSL_get_error] that are answered; [receive] also answers SYSCALL. *)
Definition ssl_answer (syscall : bool) (code : Z) : option SystemError :=
  if code =? SSL_ERROR_NONE then Some (ec_value ecSSL_ERROR_NONE)
  else if code =? SSL_ERROR_ZERO_RETURN then Some (ec_value ecSSL_ERROR_ZERO_RETURN)
  else if code =? SSL_ERROR_WANT_READ then Some (ec_value ecSSL_ERROR_WANT_READ)
  else if code =? SSL_ERROR_WANT_WRITE then Some (ec_value ecSSL_ERROR_WANT_WRITE)
  else if code =? SSL_ERROR_WANT_CONNECT then Some (ec_value ecSSL_ERROR_WANT_CONNECT)
  else if code =? SSL_ERROR_WANT_ACCEPT then Some (ec_value ecSSL_ERROR_WANT_ACCEPT)
  else if code =? SSL_ERROR_WANT_X509_LOOKUP then Some (ec_value ecSSL_ERROR_WANT_X509_LOOKUP)
  else if syscall && (code =? SSL_ERROR_SYSCALL) then Some (ec_value ecSSL_ERROR_SYSCALL)
  else None.

(** [what] makes the text before the errors from the code. *)
Definition ssl_failure (syscall : bool) (what : Z -> str) (s : session) (rc : Z) : X kernel SystemError := fun k =>
  let code := SSL_get_error s rc k in
  match ssl_answer syscall code with
  | Some e => (Ok e, k)
  | None => throw_ssl (what code) k
  end.

(** [ssl_error_code << " "] *)
Definition code_text (code : Z) : str := print_dec code ++ lit " ".

Definition tls_connect (t : TLSSocket) (a : Address) : X kernel SystemError :=
  let^ error := connect (socket_ t) a in
  if error =? ecOK then
    with_session t (fun s =>
      let^ rc := sys (SSL_set_fd s (socket_ t)) in
      if negb (rc =? 1) then fun k => throw_ssl (code_text (SSL_get_error s rc k)) k
      else
        let^ rc := sys (SSL_connect s) in
        if negb (rc =? 1) then ssl_failure false code_text s rc
        else
          match peerverficiation_ (tlscontext_ t) with
          | pvVerifyFQDN => fun k =>
              match SSL_get_peer_certificate s k with
              | None => (Throw (UndefinedBehaviour (lit "null certificate")), k)
              | Some cert =>
                  match verifySAN cert (mkSAN stDNS (san_name (peer_name_ t))) (allow_san_wildcards_ (tlscontext_ t)) with
                  | Ok true => (Ok (ec_value ecOK), k)
                  | Ok false => (Ok (ec_value ecSSL_ERROR_PEERVERIFICATION), k)
                  | Throw e => (Throw e, k)
                  | OutOfFuel => (OutOfFuel, k)
                  end
              end
          | _ => xret (ec_value ecOK)
          end)
  else xret error.

(** [accept]: the new socket is made from the result of SSL_accept; [None] is nullptr. *)
Definition tls_accept (t : TLSSocket) : X kernel (option TLSSocket) :=
  with_session t (fun s =>
    let^ rc := sys (SSL_accept s) in
    if rc <=? 0 then
      let^ _ := getSSLErrors (chr 10) in xret None           (** logged *)
    else xret (Some (TLSSocket_of_fd rc (tlscontext_ t) (mkSAN stDNS [])))).

(** [~TLSSocket]. *)
Definition TLSSocket_delete (t : TLSSocket) (k : kernel) : kernel := match ssl_ t with Some s => SSL_free s k | None => k end.

Definition getTLSProtocolVersion (t : TLSSocket) (k : kernel) : Z := match ssl_ t with Some s => SSL_version s k | None => 0 end.
Definition getTLSProtocolVersionString (t : TLSSocket) (k : kernel) : str := match ssl_ t with Some s => SSL_get_version s k | None => lit "?" end.
Definition getTLSCurrentCipherName (t : TLSSocket) (k : kernel) : str := match ssl_ t with Some s => SSL_get_cipher_name s k | None => lit "?" end.

Definition tls_send (t : TLSSocket) (buf : str) : X kernel SystemError :=
  with_session t (fun s =>
    let^ rc := sys (SSL_write s (take (Z.to_nat (int_of (zlen buf))) buf)) in
    if rc <=? 0 then ssl_failure false (fun _ => []) s rc else xret (ec_value ecOK)).

Definition tls_receive (t : TLSSocket) (request : Z) : X kernel (SystemError * str) :=
  with_session t (fun s =>
    let^ (rc, data) := (fun k => let '(rc, data, k') := SSL_read s (int_of request) k in (Ok (rc, data), k')) in
    if rc <=? 0 then let^ e := ssl_failure true (fun code => lit "rc=" ++ print_int rc ++ lit " SSL_get_error=" ++ code_text code) s rc in xret (e, []) else xret (ec_value ecOK, take (Z.to_nat rc) data)).

(** ** Theorems *)

(** C27 Under pvVerifyFQDN a connection is reported as established only when the TLS
    handshake succeeded and the peer's certificate has a text that covers the name the
    socket was made for: the common name of its subject or a DNS entry, read up to its
    first zero octet, that is the name or, if the context allows wildcards, ends in a
    suffix behind a star where the name has one label in front of that suffix. *)
Theorem connect_verifies_peer t a k k' :
  peerverficiation_ (tlscontext_ t) = pvVerifyFQDN ->
  tls_connect t a k = (Ok (ec_value ecOK), k') ->
  exists s k1 cert text, ssl_ t = Some s /\ SSL_connect s k1 = (1, k') /\ SSL_get_peer_certificate s k' = Some cert /\
    dns_text cert text /\ covers (allow_san_wildcards_ (tlscontext_ t)) text (san_name (peer_name_ t)).
Proof.
  intros Hpv Hc. unfold tls_connect in Hc. xinv Hc. destruct (r =? ecOK) eqn:Hr.
  2:{ injection Hc as -> _. by apply Z.eqb_neq in Hr. }
  unfold with_session in Hc. destruct (ssl_ t) as [ s | ]; [ | done ]. xinv Hc. destruct (r0 =? 1); cbn [negb] in Hc; [ | by xinv Hc ].
  xinv Hc. destruct (r1 =? 1) eqn:Hr1; cbn [negb] in Hc.
  2:{ unfold ssl_failure, ssl_answer, throw_ssl, getSSLErrors, writeSSLErrors, xbind, xthrow in Hc. repeat case_match; simplify_eq. }
  apply Z.eqb_eq in Hr1 as ->. rewrite Hpv in Hc. apply sys_inv in E1.
  destruct (SSL_get_peer_certificate s k2) as [ cert | ] eqn:Hcert; [ | done ].
  destruct (verifySAN cert _ _) as [ [] | e | ] eqn:Hv; [ | done | done | done ].
  injection Hc as ->. destruct (verifySAN_carries _ _ _ Hv) as (text & Ht & Hcov). exists s, k1, cert, text. done.
Qed.

(** The socket TLSSocket::accept returns cannot be used: its descriptor is the result of
    SSL_accept, 1, the standard output of the process, and it has no session, so that
    sending or receiving on it dereferences a null pointer. *)
Theorem accepted_tls_socket_unusable t s k k' buf request :
  ssl_ t = Some s -> SSL_accept s k = (1, k') ->
  exists t', tls_accept t k = (Ok (Some t'), k') /\ socket_ t' = 1 /\
    (forall k2, fst (tls_send t' buf k2) = Throw (UndefinedBehaviour (lit "null SSL"))) /\
    (forall k2, fst (tls_receive t' request k2) = Throw (UndefinedBehaviour (lit "null SSL"))).
Proof.
  intros Hs Ha. unfold tls_accept, with_session. rewrite Hs. unfold xbind, sys. rewrite Ha. eexists. split; [ reflexivity | ]. done.
Qed.
End TLSSocket.

(** ** A library that connects to a server *)

Module DemoSession.
Import DemoTLS.

Definition certificate : Cert :=
  mkCert (lit "CN=dodo.org") [] (Some [Some (mkGeneralName GEN_DNS (lit "*.dodo.org"))]).

#[export] Instance libssl : LibSSL := {|
  session := Z;
  SSL_new _ k := (Some 7, k); SSL_free _ k := k; SSL_set_fd _ _ := answer; SSL_set_hostname _ _ k := k;
  SSL_connect _ := answer; SSL_accept _ := answer; SSL_get_error _ _ _ := SSL_ERROR_SSL;
  SSL_write _ buf k := (zlen buf, k); SSL_read _ _ k := (0, [], k);
  SSL_get_peer_certificate _ _ := Some certificate;
  SSL_version _ _ := TLS1_3_VERSION; SSL_get_version _ _ := lit "TLSv1.3"; SSL_get_cipher_name _ _ := [];
|}.

Definition client : TLSSocket := mkTLSSocket 3 (Some 7) c0 (mkSAN stDNS (lit "www.dodo.org")).

Lemma connect_verifies_peer_witness :
  tls_connect (H2 := Demo.inet) client (mkAddress AF_INET zeros) (k0 true) = (Ok (ec_value ecOK), k0 true) /\
  exists cert text, SSL_get_peer_certificate (LibSSL := libssl) 7 (k0 true) = Some cert /\ dns_text cert text /\ covers true text (lit "www.dodo.org").
Proof.
  assert (Hc : tls_connect (H2 := Demo.inet) client (mkAddress AF_INET zeros) (k0 true) = (Ok (ec_value ecOK), k0 true)) by (vm_compute; reflexivity).
  split; [ exact Hc | ].
  destruct (connect_verifies_peer (H2 := Demo.inet) client _ _ _ eq_refl Hc) as (s & k1 & cert & text & Hs & _ & Hcert & Ht & Hcov).
  exists cert, text. split; [ | split; [ exact Ht | exact Hcov ] ]. injection Hs as <-. exact Hcert.
Defined.

Lemma accepted_tls_socket_unusable_witness :
  exists t', tls_accept client (k0 true) = (Ok (Some t'), k0 true) /\ fst (tls_send t' (lit "hello") (k0 true)) = Throw (UndefinedBehaviour (lit "null SSL")).
Proof.
  destruct (accepted_tls_socket_unusable client 7 (k0 true) (k0 true) (lit "hello") 10) as (t' & Ha & _ & Hs & _); [ reflexivity | reflexivity | ].
  exists t'. split; [ exact Ha | apply Hs ].
Defined.
End DemoSession.
