(* ===== verification/Calendar.v ===== *)
(** * Calendar: time stamps

    Models [formatDateTimeUTC] of src/src/lib/common/util.cpp, by which log entries are
    dated and rotated log files are named.  [gmtime_r] of the C library is modelled by its
    usual algorithm: days since 1 March 2000 are divided into cycles of 400, 100, 4 and 1
    years, and the day of the year is looked up in the months from March on. *)

From S2P Require Import Prelude.

Local Open Scope Z_scope.

Record tm : Type := mkTm { tm_year : Z; tm_mon : Z; tm_mday : Z; tm_hour : Z; tm_min : Z; tm_sec : Z }.
Record timeval : Type := mkTimeval { tv_sec : Z; tv_usec : Z }.

(** The months of a year that starts in March. *)
Definition months : list Z := [31; 30; 31; 30; 31; 31; 30; 31; 30; 31; 31; 29].

(** Months passed and the day of the month, both from 0. *)
Fixpoint month_of (l : list Z) (day : Z) : Z * Z :=
  match l with
  | n :: (_ :: _) as r => if n <=? day then let (m, d) := month_of r (day - n) in (m + 1, d) else (0, day)
  | _ => (0, day)
  end.

(** The year that starts in March, counted from 2000, and the day in it, of a day counted
    from 1 March 2000. *)
Definition year_of (day : Z) : Z * Z :=
  let era := day / 146097 in
  let doe := day mod 146097 in
  let century := Z.min 3 (doe / 36524) in
  let doc := doe - century * 36524 in
  let quad := doc / 1461 in
  let doq := doc mod 1461 in
  let rest := Z.min 3 (doq / 365) in
  (400 * era + 100 * century + 4 * quad + rest, doq - rest * 365).

(** From 1 January 1970 to 1 March 2000. *)
Definition leap_epoch : Z := 11017.

Definition gmtime_r (sec : Z) : tm :=
  let (y, doy) := year_of (sec / 86400 - leap_epoch) in
  let (m, d) := month_of months doy in
  let s := sec mod 86400 in
  mkTm (2000 + y + (if 10 <=? m then 1 else 0) - 1900) (if 10 <=? m then m - 10 else m + 2) (d + 1) (s / 3600) (s / 60 mod 60) (s mod 60).

(** [std::setfill('0') << std::setw(w) << n] *)
Definition field (w : nat) (n : Z) : str := setw w "0"%char (print_int n).

Definition formatDateTimeUTC (tv : timeval) : str :=
  let utc := gmtime_r (tv_sec tv) in
  field 4 (tm_year utc + 1900) ++ lit "-" ++ field 2 (tm_mon utc + 1) ++ lit "-" ++ field 2 (tm_mday utc) ++ lit "T" ++
  field 2 (tm_hour utc) ++ lit ":" ++ field 2 (tm_min utc) ++ lit ":" ++ field 2 (tm_sec utc) ++ lit "." ++
  field 6 (tv_usec tv) ++ lit "Z".

(** ** Examples *)

Example epoch : formatDateTimeUTC (mkTimeval 0 0) = lit "1970-01-01T00:00:00.000000Z".
Proof. reflexivity. Qed.
Example leap_day : formatDateTimeUTC (mkTimeval 1709251199 5) = lit "2024-02-29T23:59:59.000005Z".
Proof. reflexivity. Qed.
Example no_leap_century : formatDateTimeUTC (mkTimeval 4107542400 0) = lit "2100-03-01T00:00:00.000000Z".
Proof. reflexivity. Qed.

(** ** The calendar *)

(** [(a, b)] comes before [(c, d)]. *)
Definition lex2 (a b c d : Z) : Prop := a < c \/ (a = c /\ b < d).

Lemma year_of_spec day : exists era century quad rest doy,
  year_of day = (400 * era + 100 * century + 4 * quad + rest, doy) /\
  day = 146097 * era + 36524 * century + 1461 * quad + 365 * rest + doy /\
  0 <= century <= 3 /\ 0 <= quad <= 24 /\ 0 <= rest <= 3 /\ 0 <= doy <= 365 /\
  (rest < 3 -> doy < 365) /\ (century < 3 -> quad = 24 -> 365 * rest + doy < 1460).
Proof.
  unfold year_of. set (era := day / 146097). set (doe := day mod 146097).
  pose proof (Z.div_mod day 146097 ltac:(lia)) as Hd. pose proof (Z.mod_pos_bound day 146097 ltac:(lia)) as Hb. fold era doe in Hd, Hb.
  set (century := Z.min 3 (doe / 36524)). set (doc := doe - century * 36524).
  pose proof (Z.div_mod doe 36524 ltac:(lia)) as Hc. pose proof (Z.mod_pos_bound doe 36524 ltac:(lia)).
  pose proof (Z.div_mod doc 1461 ltac:(lia)) as Hq. pose proof (Z.mod_pos_bound doc 1461 ltac:(lia)).
  set (quad := doc / 1461) in *. set (doq := doc mod 1461) in *. set (rest := Z.min 3 (doq / 365)).
  pose proof (Z.div_mod doq 365 ltac:(lia)). pose proof (Z.mod_pos_bound doq 365 ltac:(lia)).
  exists era, century, quad, rest, (doq - rest * 365). split; [ done | ]. repeat split; lia.
Qed.

Lemma year_of_mono a b ya da yb db :
  year_of a = (ya, da) -> year_of b = (yb, db) -> a < b -> lex2 ya da yb db.
Proof.
  destruct (year_of_spec a) as (e1 & c1 & q1 & r1 & d1 & -> & Ha & Hc1 & Hq1 & Hr1 & Hd1 & Hx1 & Hz1).
  destruct (year_of_spec b) as (e2 & c2 & q2 & r2 & d2 & -> & Hb & Hc2 & Hq2 & Hr2 & Hd2 & Hx2 & Hz2).
  intros [= <- <-] [= <- <-] Hle. unfold lex2.
  assert (He : e1 <= e2) by lia. destruct (Z.eq_dec e1 e2) as [ -> | ]; [ | left; lia ].
  assert (Hc : c1 <= c2) by lia. destruct (Z.eq_dec c1 c2) as [ -> | ]; [ | left; lia ].
  assert (Hq : q1 <= q2) by lia. destruct (Z.eq_dec q1 q2) as [ -> | ]; [ | left; lia ].
  assert (Hr : r1 <= r2) by lia. destruct (Z.eq_dec r1 r2) as [ -> | ]; [ right; lia | left; lia ].
Qed.

Lemma month_of_spec l day m d : (forall n, n ∈ l -> 0 < n) -> 0 <= day ->
  month_of l day = (m, d) -> 0 <= m /\ (m < Z.of_nat (length l) \/ l = []) /\ 0 <= d.
Proof.
  revert day m d. induction l as [ | n l IH ]; intros day m d Hl Hd; [ cbn; intros [= <- <-]; auto with lia | ].
  cbn [month_of]. destruct l as [ | n' r ]; [ intros [= <- <-]; cbn; lia | ].
  destruct (Z.leb_spec n day).
  - destruct (month_of (n' :: r) (day - n)) as [ m' d' ] eqn:Hm. intros [= <- <-].
    destruct (IH (day - n) _ _ ltac:(set_solver) ltac:(lia) Hm) as (? & [ ? | ] & ?); [ cbn [length] in *; lia | done ].
  - intros [= <- <-]. cbn [length]. lia.
Qed.

Lemma month_of_mono l a b ma da mb db : (forall n, n ∈ l -> 0 < n) -> 0 <= a -> 
  month_of l a = (ma, da) -> month_of l b = (mb, db) -> a < b -> lex2 ma da mb db.
Proof.
  revert a b ma da mb db. induction l as [ | n l IH ]; intros a b ma da mb db Hl Ha; [ cbn; intros [= <- <-] [= <- <-]; unfold lex2; lia | ].
  cbn [month_of]. destruct l as [ | n' r ]; [ intros [= <- <-] [= <- <-]; unfold lex2; lia | ].
  assert (Hr : forall x, x ∈ n' :: r -> 0 < x) by set_solver.
  destruct (Z.leb_spec n a), (Z.leb_spec n b).
  - destruct (month_of _ (a - n)) as [ m1 d1 ] eqn:H1, (month_of _ (b - n)) as [ m2 d2 ] eqn:H2. intros [= <- <-] [= <- <-] Hle.
    destruct (IH (a - n) (b - n) _ _ _ _ Hr ltac:(lia) H1 H2 ltac:(lia)); unfold lex2; lia.
  - lia.
  - destruct (month_of _ (b - n)) as [ m2 d2 ] eqn:H2. intros [= <- <-] [= <- <-] _.
    destruct (month_of_spec _ (b - n) _ _ Hr ltac:(lia) H2). left. lia.
  - intros [= <- <-] [= <- <-] Hle. right. lia.
Qed.

Lemma months_pos n : n ∈ months -> 0 < n.
Proof. assert (Hf : Forall (fun x => 0 < x) months) by (repeat constructor). by apply Forall_forall. Qed.

(** The day of the month is within the month. *)
Lemma month_of_months day m d : 0 <= day <= 365 -> month_of months day = (m, d) -> 0 <= m <= 11 /\ 0 <= d <= 30 /\ (day <= 305 -> m <= 9).
Proof.
  intros Hd. unfold months. cbn [month_of].
  repeat match goal with |- context [?n <=? ?x] => destruct (Z.leb_spec n x) end; intros [= <- <-]; lia.
Qed.

(** ** Numbers of fixed width *)

Lemma print_aux_length f n w : (0 < w)%nat -> 0 <= n < 10 ^ Z.of_nat w -> (length (print_aux f 10 n []) <= w)%nat.
Proof.
  revert n w. induction f as [ | f IH ]; intros n w Hw Hn; [ cbn; lia | ]. cbn [print_aux]. destruct (Z.ltb_spec n 10); [ cbn; lia | ].
  rewrite print_aux_acc, length_app. cbn [length]. destruct w as [ | [ | w ] ]; [ lia | cbn in Hn; lia | ].
  assert (Hd : 0 <= n / 10 < 10 ^ Z.of_nat (S w)).
  { split; [ apply Z.div_pos; lia | ]. apply Z.div_lt_upper_bound; [ lia | ].
    replace (10 * 10 ^ Z.of_nat (S w)) with (10 ^ Z.of_nat (S (S w))) by (rewrite (Nat2Z.inj_succ (S w)), Z.pow_succ_r by lia; done). apply Hn. }
  pose proof (IH (n / 10) (S w) ltac:(lia) Hd). lia.
Qed.

Definition digits (s : str) : Prop := forallb isdigit s = true.

Lemma read_dec_cons c s : read_base 10 (c :: s) = digit_val c * 10 ^ zlen s + read_base 10 s.
Proof.
  revert c. induction s as [ | d s IH ] using rev_ind; intros c; [ unfold read_base; cbn [fold_left]; change (10 ^ zlen []) with 1; lia | ].
  rewrite app_comm_cons, !read_base_app, IH, zlen_app. change (zlen [d]) with 1. rewrite Z.pow_add_r by (try apply zlen_nonneg; lia). lia.
Qed.

Lemma digit_val_range c : isdigit c = true -> digit_val c = octet c - 48 /\ 0 <= digit_val c <= 9.
Proof.
  intros Hc. unfold digit_val. rewrite Hc. unfold isdigit, in_range in Hc. apply andb_true_iff in Hc as [ H1 H2 ].
  apply Z.leb_le in H1, H2. lia.
Qed.

Lemma read_dec_range s : digits s -> 0 <= read_base 10 s < 10 ^ zlen s.
Proof.
  unfold digits. induction s as [ | c s IH ]; [ intros _; change (0 <= 0 < 1); lia | ]. cbn [forallb]. intros [ Hc Hs ]%andb_true_iff.
  rewrite read_dec_cons, zlen_cons, Z.pow_add_r by (try apply zlen_nonneg; lia).
  destruct (digit_val_range _ Hc). specialize (IH Hs). nia.
Qed.

(** Digit strings of the same length are ordered as their values. *)
Lemma digits_order a b s t : digits a -> digits b -> length a = length b ->
  str_le (a ++ s) (b ++ t) <-> read_base 10 a < read_base 10 b \/ (read_base 10 a = read_base 10 b /\ str_le s t).
Proof.
  unfold digits. revert b. induction a as [ | c a IH ]; intros [ | d b ] Ha Hb Hl; try done.
  - cbn [app]. change (read_base 10 []) with 0. split; [ auto | ]. intros [ ? | [ _ ? ] ]; [ lia | done ].
  - cbn [forallb] in Ha, Hb. apply andb_true_iff in Ha as [ Hc Ha ], Hb as [ Hd Hb ]. injection Hl as Hl.
    rewrite <- !app_comm_cons, str_le_cons, (IH b Ha Hb Hl), !read_dec_cons. unfold zlen. rewrite Hl.
    pose proof (read_dec_range a Ha) as Ra. pose proof (read_dec_range b Hb) as Rb. unfold zlen in Ra, Rb. rewrite Hl in Ra.
    destruct (digit_val_range _ Hc) as [ Vc _ ], (digit_val_range _ Hd) as [ Vd _ ].
    assert (Heq : c = d <-> digit_val c = digit_val d) by (split; [ by intros -> | intros He; apply octet_inj; lia ]).
    rewrite Heq. set (p := 10 ^ Z.of_nat (length b)) in *.
    split.
    + intros [ ? | [ He [ ? | [ ? ? ] ] ] ]; [ left; nia | left; rewrite He; lia | right; split; [ rewrite He; lia | done ] ].
    + destruct (Z.lt_trichotomy (octet c) (octet d)) as [ | [ He | ] ]; [ by left | | ].
      * assert (Hv : digit_val c = digit_val d) by lia. rewrite Hv. intros [ ? | [ ? ? ] ]; right; split; auto; [ left; lia | right; split; [ lia | done ] ].
      * intros [ ? | [ ? ? ] ]; nia.
Qed.

Lemma field_spec w n : (0 < w)%nat -> 0 <= n < 10 ^ Z.of_nat w -> digits (field w n) /\ length (field w n) = w /\ read_base 10 (field w n) = n.
Proof.
  intros Hw Hn. unfold field, print_int. destruct (Z.ltb_spec n 0); [ lia | ]. unfold setw, digits.
  pose proof (print_aux_length (S (Z.to_nat (Z.log2 n))) n w Hw Hn) as Hl. fold (print_base 10 n) in Hl. fold (print_dec n) in Hl.
  split_and!.
  - rewrite forallb_app, print_dec_digits by lia. rewrite andb_true_r. induction (w - length (print_dec n))%nat; [ done | ]. by cbn.
  - rewrite length_app, length_replicate. lia.
  - assert (Hz : forall k s, read_base 10 (replicate k "0"%char ++ s) = read_base 10 s).
    { intros k s. induction k as [ | k IH ]; [ done | ]. cbn [replicate app]. rewrite read_dec_cons, IH. done. }
    rewrite Hz. apply read_print_base; [ by left | lia ].
Qed.

Lemma field_order w n m s t : (0 < w)%nat -> 0 <= n < 10 ^ Z.of_nat w -> 0 <= m < 10 ^ Z.of_nat w ->
  str_le (field w n ++ s) (field w m ++ t) <-> n < m \/ (n = m /\ str_le s t).
Proof.
  intros Hw Hn Hm. destruct (field_spec w n Hw Hn) as (D1 & L1 & R1), (field_spec w m Hw Hm) as (D2 & L2 & R2).
  rewrite digits_order by congruence || done. by rewrite R1, R2.
Qed.

(** ** Time stamps *)

Lemma gmtime_ranges sec : let t := gmtime_r sec in
  0 <= tm_mon t <= 11 /\ 1 <= tm_mday t <= 31 /\ 0 <= tm_hour t <= 23 /\ 0 <= tm_min t <= 59 /\ 0 <= tm_sec t <= 59.
Proof.
  unfold gmtime_r. destruct (year_of_spec (sec / 86400 - leap_epoch)) as (e & c & q & r & doy & -> & _ & _ & _ & _ & Hd & _).
  destruct (month_of months doy) as [ m d ] eqn:Hm. apply month_of_months in Hm as (Hm & Hd' & _); [ | done ].
  pose proof (Z.mod_pos_bound sec 86400 ltac:(lia)). pose proof (Z.mod_pos_bound (sec mod 86400) 60 ltac:(lia)).
  pose proof (Z.mod_pos_bound (sec mod 86400 / 60) 60 ltac:(lia)).
  assert (0 <= sec mod 86400 / 3600 < 24) by (split; [ apply Z.div_pos; lia | apply Z.div_lt_upper_bound; lia ]).
  cbn [tm_mon tm_mday tm_hour tm_min tm_sec]. destruct (Z.leb_spec 10 m); lia.
Qed.

(** The last second of the year 9999. *)
Definition last_second : Z := 253402300799.

Lemma gmtime_year sec : 0 <= sec <= last_second -> 0 <= tm_year (gmtime_r sec) + 1900 <= 9999.
Proof.
  intros Hs. unfold gmtime_r, leap_epoch, last_second in *.
  assert (Hday : 0 <= sec / 86400 <= 2932896) by (split; [ apply Z.div_pos; lia | apply Z.lt_succ_r, Z.div_lt_upper_bound; lia ]).
  destruct (year_of_spec (sec / 86400 - 11017)) as (e & c & q & r & doy & -> & Hz & Hc & Hq & Hr & Hd & Hx & Hy).
  destruct (month_of months doy) as [ m d ] eqn:Hm. apply month_of_months in Hm as (Hm & _ & Hl); [ | done ].
  cbn [tm_year]. destruct (Z.leb_spec 10 m); lia.
Qed.

(** A later day has a later date. *)
Lemma gmtime_date_order a b : a / 86400 < b / 86400 -> let s := gmtime_r a in let t := gmtime_r b in
  tm_year s < tm_year t \/ (tm_year s = tm_year t /\ lex2 (tm_mon s) (tm_mday s) (tm_mon t) (tm_mday t)).
Proof.
  intros Hab. unfold gmtime_r.
  destruct (year_of (a / 86400 - leap_epoch)) as [ ya da ] eqn:Ha, (year_of (b / 86400 - leap_epoch)) as [ yb db ] eqn:Hb.
  pose proof (year_of_mono _ _ _ _ _ _ Ha Hb ltac:(lia)) as Hy.
  destruct (year_of_spec (a / 86400 - leap_epoch)) as (e1 & c1 & q1 & r1 & d1 & E1 & _ & _ & _ & _ & Hd1 & _). rewrite Ha in E1. injection E1 as _ ->.
  destruct (year_of_spec (b / 86400 - leap_epoch)) as (e2 & c2 & q2 & r2 & d2 & E2 & _ & _ & _ & _ & Hd2 & _). rewrite Hb in E2. injection E2 as _ ->.
  destruct (month_of months d1) as [ m1 x1 ] eqn:M1, (month_of months d2) as [ m2 x2 ] eqn:M2.
  destruct (month_of_months _ _ _ Hd1 M1) as (R1 & _ & _), (month_of_months _ _ _ Hd2 M2) as (R2 & _ & _).
  assert (Hm : ya < yb \/ (ya = yb /\ lex2 m1 x1 m2 x2)).
  { destruct Hy as [ ? | [ -> Hd ] ]; [ by left | right; split; [ done | ] ].
    eapply (month_of_mono months); [ | | exact M1 | exact M2 | exact Hd ]; [ apply months_pos | lia ]. }
  cbn [tm_year tm_mon tm_mday]. unfold lex2 in *. destruct (Z.leb_spec 10 m1), (Z.leb_spec 10 m2); lia.
Qed.

(** The time of day as seconds. *)
Lemma gmtime_time sec : let t := gmtime_r sec in sec mod 86400 = 3600 * tm_hour t + 60 * tm_min t + tm_sec t.
Proof.
  unfold gmtime_r. destruct (year_of _) as [ y doy ], (month_of months doy) as [ m d ]. cbn [tm_hour tm_min tm_sec].
  set (s := sec mod 86400). pose proof (Z.div_mod s 60 ltac:(lia)). pose proof (Z.div_mod (s / 60) 60 ltac:(lia)).
  assert (s / 3600 = s / 60 / 60) by (rewrite Z.div_div by lia; done). lia.
Qed.

Definition valid_time (tv : timeval) : Prop := 0 <= tv_sec tv <= last_second /\ 0 <= tv_usec tv < 1000000.
Definition no_later (a b : timeval) : Prop := tv_sec a < tv_sec b \/ (tv_sec a = tv_sec b /\ tv_usec a <= tv_usec b).

(** The tuple of the fields, compared from the left. *)
Definition fields_le (s t : tm) (us ut : Z) : Prop :=
  tm_year s < tm_year t \/ (tm_year s = tm_year t /\
  (tm_mon s < tm_mon t \/ (tm_mon s = tm_mon t /\
  (tm_mday s < tm_mday t \/ (tm_mday s = tm_mday t /\
  (tm_hour s < tm_hour t \/ (tm_hour s = tm_hour t /\
  (tm_min s < tm_min t \/ (tm_min s = tm_min t /\
  (tm_sec s < tm_sec t \/ (tm_sec s = tm_sec t /\ us <= ut))))))))))).

Lemma fields_order a b : fields_le (gmtime_r (tv_sec a)) (gmtime_r (tv_sec b)) (tv_usec a) (tv_usec b) <-> no_later a b.
Proof.
  unfold no_later. set (s := tv_sec a). set (t := tv_sec b).
  pose proof (gmtime_ranges s) as (_ & _ & Hs1 & Hs2 & Hs3). pose proof (gmtime_ranges t) as (_ & _ & Ht1 & Ht2 & Ht3).
  pose proof (gmtime_time s) as Es. pose proof (gmtime_time t) as Et. cbv zeta in Es, Et.
  pose proof (Z.div_mod s 86400 ltac:(lia)). pose proof (Z.div_mod t 86400 ltac:(lia)).
  pose proof (Z.mod_pos_bound s 86400 ltac:(lia)). pose proof (Z.mod_pos_bound t 86400 ltac:(lia)).
  destruct (Z.lt_trichotomy (s / 86400) (t / 86400)) as [ Hd | [ Hd | Hd ] ].
  - pose proof (gmtime_date_order _ _ Hd) as Ho. cbv zeta in Ho. unfold lex2, fields_le in *. lia.
  - assert (Hy : tm_year (gmtime_r s) = tm_year (gmtime_r t) /\ tm_mon (gmtime_r s) = tm_mon (gmtime_r t) /\ tm_mday (gmtime_r s) = tm_mday (gmtime_r t)).
    { unfold gmtime_r. rewrite Hd. by destruct (year_of _) as [ y doy ], (month_of months doy) as [ m d ]. }
    unfold fields_le. destruct Hy as (-> & -> & ->). lia.
  - pose proof (gmtime_date_order _ _ Hd) as Ho. cbv zeta in Ho. unfold lex2, fields_le in *. lia.
Qed.

Lemma str_le_head c s t : str_le (c :: s) (c :: t) <-> str_le s t.
Proof. rewrite str_le_cons. split; [ intros [ ? | [ _ ? ] ]; [ lia | done ] | auto ]. Qed.

(** The time stamps formatDateTimeUTC makes are ordered as strings the way they are
    ordered in time, from 1970 to the end of the year 9999; equal stamps are equal times. *)
Theorem timestamps_sort_by_time a b : valid_time a -> valid_time b ->
  str_le (formatDateTimeUTC a) (formatDateTimeUTC b) <-> no_later a b.
Proof.
  intros [ Ha Ua ] [ Hb Ub ]. rewrite <- fields_order. unfold formatDateTimeUTC, fields_le. cbn [list_ascii_of_string app].
  pose proof (gmtime_year _ Ha). pose proof (gmtime_year _ Hb).
  pose proof (gmtime_ranges (tv_sec a)) as (? & ? & ? & ? & ?). pose proof (gmtime_ranges (tv_sec b)) as (? & ? & ? & ? & ?).
  do 6 rewrite field_order, str_le_head by (lia || (cbn; lia)). rewrite field_order by (lia || (cbn; lia)).
  assert (Hz : str_le ["Z"%char] ["Z"%char] <-> 0 = 0) by done. rewrite Hz. lia.
Qed.

Lemma formatDateTimeUTC_length tv : valid_time tv -> length (formatDateTimeUTC tv) = 27%nat.
Proof.
  intros [ Hs Hu ]. unfold formatDateTimeUTC. pose proof (gmtime_year _ Hs). pose proof (gmtime_ranges (tv_sec tv)) as (? & ? & ? & ? & ?).
  assert (Hf : forall w n, (0 < w)%nat -> 0 <= n < 10 ^ Z.of_nat w -> length (field w n) = w) by (intros; by apply field_spec).
  rewrite !length_app, !Hf by (lia || (cbn; lia)). done.
Qed.

(** ** The calendar is the Gregorian one

    The date of the next day is the next date by the Gregorian rule, and the epoch is
    1 January 1970. *)

Definition leap (year : Z) : bool := (year mod 4 =? 0) && (negb (year mod 100 =? 0) || (year mod 400 =? 0)).
Definition month_days (year mon : Z) : Z :=
  if mon =? 1 then (if leap year then 29 else 28)
  else if (mon =? 3) || (mon =? 5) || (mon =? 8) || (mon =? 10) then 30 else 31.
Definition next_date (d : Z * Z * Z) : Z * Z * Z :=
  let '(year, mon, mday) := d in
  if mday <? month_days year mon then (year, mon, mday + 1)
  else if mon <? 11 then (year, mon + 1, 1) else (year + 1, 0, 1).
Definition date_of (t : tm) : Z * Z * Z := (tm_year t + 1900, tm_mon t, tm_mday t).

(** The date of a day of a year that starts in March. *)
Definition march_date (y doy : Z) : Z * Z * Z :=
  let (m, d) := month_of months doy in (2000 + y + (if 10 <=? m then 1 else 0), if 10 <=? m then m - 10 else m + 2, d + 1).

Lemma gmtime_date sec : date_of (gmtime_r sec) = let (y, doy) := year_of (sec / 86400 - leap_epoch) in march_date y doy.
Proof.
  unfold gmtime_r, date_of, march_date. destruct (year_of _) as [ y doy ], (month_of months doy) as [ m d ].
  cbn [tm_year tm_mon tm_mday]. do 2 f_equal. lia.
Qed.

Definition long_year (y : Z) : bool := leap (2000 + y + 1).

(** The next day is in the same month, or the first of the next month. *)
Lemma month_of_next l day m d : (forall n, n ∈ l -> 0 < n) -> 0 <= day -> month_of l day = (m, d) ->
  month_of l (day + 1) = match drop (Z.to_nat m) l with
                         | n :: _ :: _ => if d + 1 <? n then (m, d + 1) else (m + 1, 0)
                         | _ => (m, d + 1)
                         end.
Proof.
  revert day m d. induction l as [ | n l IH ]; intros day m d Hl Hd; [ cbn; intros [= <- <-]; done | ].
  cbn [month_of]. destruct l as [ | n' r ]; [ by intros [= <- <-] | ]. assert (Hr : forall x, x ∈ n' :: r -> 0 < x) by set_solver.
  assert (Hn : 0 < n') by set_solver. destruct (Z.leb_spec n day).
  - destruct (month_of (n' :: r) (day - n)) as [ m' d' ] eqn:Hm. intros [= <- <-].
    destruct (month_of_spec _ (day - n) _ _ Hr ltac:(lia) Hm) as (Hm0 & _ & _). destruct (Z.leb_spec n (day + 1)); [ | lia ].
    replace (day + 1 - n) with (day - n + 1) by lia. rewrite (IH (day - n) m' d' Hr ltac:(lia) Hm).
    replace (Z.to_nat (m' + 1)) with (S (Z.to_nat m')) by lia. cbn [drop].
    destruct (drop (Z.to_nat m') (n' :: r)) as [ | x [ | y q ] ]; [ done | done | ]. by destruct (d' + 1 <? x).
  - intros [= <- <-]. change (drop (Z.to_nat 0) (n :: n' :: r)) with (n :: n' :: r). cbv iota.
    destruct (Z.leb_spec n (day + 1)), (Z.ltb_spec (day + 1) n); try lia; [ | done ].
    replace (day + 1 - n) with 0 by lia. cbn [month_of]. destruct r; [ done | ]. by destruct (Z.leb_spec n' 0); [ lia | ].
Qed.

Lemma month_of_sum day m d : 0 <= day -> month_of months day = (m, d) -> 0 <= m <= 11 /\ 0 <= d /\ (m = 11 -> day = 337 + d).
Proof.
  intros Hd. unfold months. cbn [month_of].
  repeat match goal with |- context [?n <=? ?x] => destruct (Z.leb_spec n x) end; intros [= <- <-]; lia.
Qed.

Lemma month_table year m : 0 <= m <= 10 -> exists b l, drop (Z.to_nat m) months = month_days year (if 10 <=? m then m - 10 else m + 2) :: b :: l.
Proof.
  intros Hm. assert (Hc : m = 0 \/ m = 1 \/ m = 2 \/ m = 3 \/ m = 4 \/ m = 5 \/ m = 6 \/ m = 7 \/ m = 8 \/ m = 9 \/ m = 10) by lia.
  repeat destruct Hc as [ -> | Hc ]; try subst m; do 2 eexists; reflexivity.
Qed.

Lemma march_step y doy : 0 <= doy -> doy < (if long_year y then 365 else 364) -> march_date y (doy + 1) = next_date (march_date y doy).
Proof.
  intros H0 Hl. unfold march_date. destruct (month_of months doy) as [ m d ] eqn:Hm. destruct (month_of_sum _ _ _ H0 Hm) as (Hr & Hd & Hf).
  rewrite (month_of_next months doy m d months_pos H0 Hm). unfold next_date. destruct (Z.eq_dec m 11) as [ -> | Hne ].
  - change (drop (Z.to_nat 11) months) with [29]. cbv iota. change (10 <=? 11) with true. cbv iota. change (11 - 10) with 1.
    unfold month_days. change (1 =? 1) with true. cbv iota. unfold long_year in Hl. destruct (leap (2000 + y + 1)).
    + by rewrite (proj2 (Z.ltb_lt (d + 1) 29)) by lia.
    + by rewrite (proj2 (Z.ltb_lt (d + 1) 28)) by lia.
  - destruct (month_table (2000 + y + (if 10 <=? m then 1 else 0)) m ltac:(lia)) as (b & l & ->).
    set (n := month_days _ _). destruct (d + 1 <? n); [ done | ].
    destruct (Z.leb_spec 10 m), (Z.leb_spec 10 (m + 1)); try lia;
      match goal with |- context [?a <? 11] => destruct (Z.ltb_spec a 11) end; rewrite !pair_equal_spec; lia.
Qed.

Lemma march_end y : march_date (y + 1) 0 = next_date (march_date y (if long_year y then 365 else 364)).
Proof.
  unfold long_year, march_date. change (month_of months 0) with (0, 0). destruct (leap (2000 + y + 1)) eqn:Hl.
  - change (month_of months 365) with (11, 28). unfold next_date, month_days. cbv iota. change (10 <=? 11) with true. cbv iota.
    change (11 - 10 =? 1) with true. cbv iota. rewrite Hl. change (28 + 1 <? 29) with false. change (11 - 10 <? 11) with true. cbv iota.
    rewrite !pair_equal_spec. change (10 <=? 0) with false. lia.
  - change (month_of months 364) with (11, 27). unfold next_date, month_days. cbv iota. change (10 <=? 11) with true. cbv iota.
    change (11 - 10 =? 1) with true. cbv iota. rewrite Hl. change (27 + 1 <? 28) with false. change (11 - 10 <? 11) with true. cbv iota.
    rewrite !pair_equal_spec. change (10 <=? 0) with false. lia.
Qed.

(** Which years of the cycle are long. *)
Lemma long_year_spec e c q r : 0 <= c <= 3 -> 0 <= q <= 24 -> 0 <= r <= 3 ->
  long_year (400 * e + 100 * c + 4 * q + r) = (r =? 3) && ((q <? 24) || (c =? 3)).
Proof.
  intros Hc Hq Hr. unfold long_year, leap. set (y := 2000 + (400 * e + 100 * c + 4 * q + r) + 1).
  pose proof (Z.div_mod y 4 ltac:(lia)). pose proof (Z.mod_pos_bound y 4 ltac:(lia)).
  pose proof (Z.div_mod y 100 ltac:(lia)). pose proof (Z.mod_pos_bound y 100 ltac:(lia)).
  pose proof (Z.div_mod y 400 ltac:(lia)). pose proof (Z.mod_pos_bound y 400 ltac:(lia)).
  destruct (Z.eqb_spec r 3), (Z.ltb_spec q 24), (Z.eqb_spec c 3), (Z.eqb_spec (y mod 4) 0), (Z.eqb_spec (y mod 100) 0), (Z.eqb_spec (y mod 400) 0);
    cbn; try done; lia.
Qed.

(** The cycles of a day are unique. *)
Definition cycles (day e c q r doy : Z) : Prop :=
  day = 146097 * e + 36524 * c + 1461 * q + 365 * r + doy /\
  0 <= c <= 3 /\ 0 <= q <= 24 /\ 0 <= r <= 3 /\ 0 <= doy <= 365 /\
  (r < 3 -> doy < 365) /\ (c < 3 -> q = 24 -> 365 * r + doy < 1460).

Lemma year_of_cycles day e c q r doy : cycles day e c q r doy -> year_of day = (400 * e + 100 * c + 4 * q + r, doy).
Proof.
  intros (Hz & Hc & Hq & Hr & Hd & Hx & Hy).
  destruct (year_of_spec day) as (e' & c' & q' & r' & doy' & -> & Hz' & Hc' & Hq' & Hr' & Hd' & Hx' & Hy').
  assert (e' = e) as -> by lia. assert (c' = c) as -> by lia. assert (q' = q) as -> by lia. assert (r' = r) as -> by lia.
  f_equal. lia.
Qed.

Lemma year_of_next day y doy : year_of day = (y, doy) ->
  year_of (day + 1) = if doy <? (if long_year y then 365 else 364) then (y, doy + 1) else (y + 1, 0).
Proof.
  destruct (year_of_spec day) as (e & c & q & r & d & -> & Hz & Hc & Hq & Hr & Hd & Hx & Hy). intros [= <- <-].
  rewrite long_year_spec by done.
  destruct (Z.eqb_spec r 3), (Z.ltb_spec q 24), (Z.eqb_spec c 3); cbn [andb orb];
    match goal with |- context [d <? ?n] => destruct (Z.ltb_spec d n) end;
    try (apply year_of_cycles; unfold cycles; lia).
  - rewrite (year_of_cycles (day + 1) e c (q + 1) 0 0) by (unfold cycles; lia). f_equal; lia.
  - rewrite (year_of_cycles (day + 1) e c (q + 1) 0 0) by (unfold cycles; lia). f_equal; lia.
  - rewrite (year_of_cycles (day + 1) (e + 1) 0 0 0 0) by (unfold cycles; lia). f_equal; lia.
  - rewrite (year_of_cycles (day + 1) e (c + 1) 0 0 0) by (unfold cycles; lia). f_equal; lia.
  - rewrite (year_of_cycles (day + 1) e c q (r + 1) 0) by (unfold cycles; lia). f_equal; lia.
  - rewrite (year_of_cycles (day + 1) e c q (r + 1) 0) by (unfold cycles; lia). f_equal; lia.
  - rewrite (year_of_cycles (day + 1) e c q (r + 1) 0) by (unfold cycles; lia). f_equal; lia.
  - rewrite (year_of_cycles (day + 1) e c q (r + 1) 0) by (unfold cycles; lia). f_equal; lia.
Qed.

(** The date of the next day is the next date of the Gregorian calendar. *)
Theorem gmtime_is_gregorian sec : date_of (gmtime_r (sec + 86400)) = next_date (date_of (gmtime_r sec)).
Proof.
  rewrite !gmtime_date. replace ((sec + 86400) / 86400 - leap_epoch) with (sec / 86400 - leap_epoch + 1)
    by (replace (sec + 86400) with (sec + 1 * 86400) by lia; rewrite Z.div_add by lia; lia).
  destruct (year_of (sec / 86400 - leap_epoch)) as [ y doy ] eqn:Hy. rewrite (year_of_next _ _ _ Hy).
  destruct (year_of_spec (sec / 86400 - leap_epoch)) as (e & c & q & r & d & E & _ & Hc & Hq & Hr & Hd & Hx & Hz). rewrite Hy in E. injection E as -> ->.
  destruct (Z.ltb_spec d (if long_year (400 * e + 100 * c + 4 * q + r) then 365 else 364)).
  - apply march_step; [ lia | done ].
  - rewrite march_end. do 2 f_equal. revert H. rewrite long_year_spec by done.
    destruct (Z.eqb_spec r 3), (Z.ltb_spec q 24), (Z.eqb_spec c 3); cbn [andb orb]; lia.
Qed.
