(* ===== verification/Config.v ===== *)
(** * Config: the configuration file

    Models src/src/include/common/config.hpp and src/src/lib/common/config.cpp.  yaml-cpp
    is a parameter (class [Yaml]): the nodes of a document, the child of a node under a
    key, and the conversions of a node.  Files and environment variables are functions of
    their names. *)

From S2P Require Import Prelude.
From S2P Require Import SystemError.
From S2P Require Import Bytes.
From S2P Require Import Util.
From S2P Require Import DataCrypt.

Local Open Scope Z_scope.

Class Yaml := {
  node : Type;
  sub : node -> str -> outcome (option node);      (** [n[k]]; [None] is an undefined node *)
  as_string : node -> outcome str;
  as_int : node -> outcome Z;
  as_size : node -> outcome Z;
  LoadFile : str -> outcome node;
  what : exn -> str;                               (** [e.what()] *)
}.

Definition KeyPath : Type := list str.
Definition config_dodo : KeyPath := [lit "dodo"].
Definition config_dodo_common : KeyPath := [lit "dodo"; lit "common"].
Definition config_dodo_common_application : KeyPath := [lit "dodo"; lit "common"; lit "application"].
Definition config_dodo_common_application_name : KeyPath := [lit "dodo"; lit "common"; lit "application"; lit "name"].
Definition config_dodo_common_application_secret : KeyPath := [lit "dodo"; lit "common"; lit "application"; lit "secret"].
Definition config_dodo_common_application_secret_file : KeyPath := [lit "dodo"; lit "common"; lit "application"; lit "secret"; lit "file"].
Definition config_dodo_common_application_secret_env : KeyPath := [lit "dodo"; lit "common"; lit "application"; lit "secret"; lit "env"].
Definition config_dodo_common_logger : KeyPath := [lit "dodo"; lit "common"; lit "logger"].
Definition config_dodo_common_logger_console : KeyPath := [lit "dodo"; lit "common"; lit "logger"; lit "console"].
Definition config_dodo_common_logger_console_level : KeyPath := [lit "dodo"; lit "common"; lit "logger"; lit "console"; lit "level"].
Definition config_dodo_common_logger_file : KeyPath := [lit "dodo"; lit "common"; lit "logger"; lit "file"].
Definition config_dodo_common_logger_file_level : KeyPath := [lit "dodo"; lit "common"; lit "logger"; lit "file"; lit "level"].
Definition config_dodo_common_logger_file_directory : KeyPath := [lit "dodo"; lit "common"; lit "logger"; lit "file"; lit "directory"].
Definition config_dodo_common_logger_file_max_size_mib : KeyPath := [lit "dodo"; lit "common"; lit "logger"; lit "file"; lit "max-size-mib"].
Definition config_dodo_common_logger_file_max_file_trail : KeyPath := [lit "dodo"; lit "common"; lit "logger"; lit "file"; lit "max-file-trail"].
Definition config_dodo_common_logger_syslog : KeyPath := [lit "dodo"; lit "common"; lit "logger"; lit "syslog"].
Definition config_dodo_common_logger_syslog_level : KeyPath := [lit "dodo"; lit "common"; lit "logger"; lit "syslog"; lit "level"].
Definition config_dodo_common_logger_syslog_facility : KeyPath := [lit "dodo"; lit "common"; lit "logger"; lit "syslog"; lit "facility"].

(** [flattenKeyPath]: a separator in front of every key once there is text. *)
Definition flatten_step (ss k : str) : str := (match ss with [] => [] | _ => ss ++ lit "::" end) ++ k.
Definition flattenKeyPath (keypath : KeyPath) : str := fold_left flatten_step keypath [].

Section Config.
Context `{Yaml}.

(** The object; the path is a static member. *)
Record Config : Type := mkConfig { yaml_ : node; secret_ : str }.

(** The loop over the keys: the node reached, [None] when a key is missing. *)
Fixpoint lookup (ref : node) (keypath : KeyPath) : outcome (option node) :=
  match keypath with
  | [] => Ok (Some ref)
  | k :: rest =>
      let! r := sub ref k in
      match r with Some child => lookup child rest | None => Ok None end
  end.

Definition config_exists (yaml : node) (keypath : KeyPath) : outcome bool :=
  let! r := lookup yaml keypath in Ok (if r is Some _ then true else false).

(** The text of [throw_Exception( "key " .. )]; [path] is [path_]. *)
Definition not_found (path : str) (keypath : KeyPath) : exn :=
  DodoException (lit "key " ++ flattenKeyPath keypath ++ lit " not found in " ++ path).

Definition getValue {T} (as_T : node -> outcome T) (path : str) (yaml : node) (keypath : KeyPath) : outcome T :=
  let! r := lookup yaml keypath in
  match r with Some ref => as_T ref | None => Throw (not_found path keypath) end.

Definition getAppName (path : str) (yaml : node) : outcome str := getValue as_string path yaml config_dodo_common_application_name.

Definition missing (keypath : KeyPath) : exn := DodoException (flattenKeyPath keypath ++ lit " node missing").

(** [if ( exists(keypath) ) .. else throw_Exception( .. << " node missing" )] *)
Definition need {A} (yaml : node) (keypath : KeyPath) (rest : outcome A) : outcome A :=
  let! b := config_exists yaml keypath in if b : bool then rest else Throw (missing keypath).

Section Check.
Variables (read_file secure_getenv : str -> option str) (path : str).

(** The application node; the secret it names. *)
Definition check_application (yaml : node) : outcome (option str) :=
  need yaml config_dodo_common_application (need yaml config_dodo_common_application_name (
    let! s := config_exists yaml config_dodo_common_application_secret in
    if negb s then Ok None else
    let! f := config_exists yaml config_dodo_common_application_secret_file in
    if f : bool then
      let! name := getValue as_string path yaml config_dodo_common_application_secret_file in
      let! line := fileReadString name (read_file name) in
      Ok (Some line)
    else
      let! e := config_exists yaml config_dodo_common_application_secret_env in
      if e : bool then
        let! name := getValue as_string path yaml config_dodo_common_application_secret_env in
        match secure_getenv (c_string name) with
        | Some c => Ok (Some c)
        | None => Throw (DodoException (lit "ENV var " ++ name ++ lit " does not exist"))
        end
      else Throw (DodoException (flattenKeyPath config_dodo_common_application_secret ++ lit " must have one of 'file' or 'env'")))).

Definition check_logger (yaml : node) : outcome unit :=
  need yaml config_dodo_common_logger (
    need yaml config_dodo_common_logger_console (need yaml config_dodo_common_logger_console_level (
      let! f := config_exists yaml config_dodo_common_logger_file in
      let! _ := (if f : bool then need yaml config_dodo_common_logger_file_level (need yaml config_dodo_common_logger_file_directory (Ok tt))
                 else Ok tt) in
      let! s := config_exists yaml config_dodo_common_logger_syslog in
      if s : bool then need yaml config_dodo_common_logger_syslog_level (Ok tt) else Ok tt))).

Definition content_error (e : exn) : exn := DodoException (lit "Config file '" ++ path ++ lit "' content error: " ++ what e).

(** [checkConfig]: the secret is set before the logger's nodes are looked at. *)
Definition checkConfig (c : Config) : outcome unit * Config :=
  match need (yaml_ c) config_dodo (need (yaml_ c) config_dodo_common (check_application (yaml_ c))) with
  | Throw e => (Throw (content_error e), c)
  | OutOfFuel => (OutOfFuel, c)
  | Ok s =>
      let c' := mkConfig (yaml_ c) (match s with Some secret => secret | None => secret_ c end) in
      match check_logger (yaml_ c) with
      | Ok _ => (Ok tt, c')
      | Throw e => (Throw (content_error e), c')
      | OutOfFuel => (OutOfFuel, c')
      end
  end.

(** [readConfig] of an object, [None] while it is being constructed. *)
Definition readConfig (secret : str) : outcome Config :=
  match LoadFile path with
  | Throw e => Throw (DodoException (lit "Config file '" ++ path ++ lit "' parse error: " ++ what e))
  | OutOfFuel => OutOfFuel
  | Ok yaml => let (o, c) := checkConfig (mkConfig yaml secret) in let! _ := o in Ok c
  end.
End Check.

(** The static members. *)
Record Singleton : Type := mkSingleton { config_ : option Config; path_ : str }.

Definition initialize (read_file secure_getenv : str -> option str) (path : str) (s : Singleton) : outcome Config * Singleton :=
  match config_ s with
  | Some _ => (Throw (DodoException (lit "calling initialize on an existing Config singleton")), s)
  | None =>
      match readConfig read_file secure_getenv path [] with
      | Ok c => (Ok c, mkSingleton (Some c) path)
      | Throw e => (Throw e, mkSingleton None path)
      | OutOfFuel => (OutOfFuel, mkSingleton None path)
      end
  end.

Definition getConfig (s : Singleton) : outcome Config :=
  match config_ s with
  | Some c => Ok c
  | None => Throw (DodoException (lit "null singleton - call initialize before getConfig"))
  end.

(** [getDecryptedValue]: the destination; the result of [decrypt] is ignored. *)
Definition getDecryptedValue `{Allocator} `{OpenSSL} `{GCM} (path : str) (c : Config) (keypath : KeyPath) (decrypted : Bytes) : outcome Bytes :=
  let! text := getValue as_string path (yaml_ c) keypath in
  let! (_, dest) := decrypt (secret_ c) text decrypted in Ok dest.

(** ** What a configuration must have *)

Definition has (yaml : node) (keypath : KeyPath) : Prop := config_exists yaml keypath = Ok true.

Definition secret_of (read_file secure_getenv : str -> option str) (path : str) (yaml : node) (s : str) : Prop :=
  (has yaml config_dodo_common_application_secret_file ->
     exists name content, getValue as_string path yaml config_dodo_common_application_secret_file = Ok name /\
       read_file name = Some content /\ s = fst (fst (getline content))) /\
  (~ has yaml config_dodo_common_application_secret_file ->
     exists name, getValue as_string path yaml config_dodo_common_application_secret_env = Ok name /\ secure_getenv (c_string name) = Some s).

Record complete (read_file secure_getenv : str -> option str) (path : str) (yaml : node) : Prop := mkComplete {
  has_name : has yaml config_dodo_common_application_name;
  has_secret : has yaml config_dodo_common_application_secret -> exists s, secret_of read_file secure_getenv path yaml s;
  has_console : has yaml config_dodo_common_logger_console_level;
  has_file : has yaml config_dodo_common_logger_file ->
    has yaml config_dodo_common_logger_file_level /\ has yaml config_dodo_common_logger_file_directory;
  has_syslog : has yaml config_dodo_common_logger_syslog -> has yaml config_dodo_common_logger_syslog_level;
}.

(** The nodes that may be absent, and that looking for them meets no node without
    children, at which yaml-cpp throws. *)
Definition optional_paths : list KeyPath :=
  [config_dodo_common_application_secret; config_dodo_common_application_secret_file; config_dodo_common_application_secret_env;
   config_dodo_common_logger_file; config_dodo_common_logger_syslog].
Definition regular (yaml : node) : Prop := forall keypath, In keypath optional_paths -> exists b, config_exists yaml keypath = Ok b.

Lemma lookup_app n kp kq : lookup n (kp ++ kq) = let! r := lookup n kp in match r with Some m => lookup m kq | None => Ok None end.
Proof.
  revert n. induction kp as [ | k kp IH ]; intros n; cbn; [ done | ]. destruct (sub n k) as [ [ m | ] | e | ]; cbn; [ apply IH | done | done | done ].
Qed.

(** A node has the nodes above it. *)
Lemma has_prefix n kp kq : has n (kp ++ kq) -> has n kp.
Proof.
  unfold has, config_exists. rewrite lookup_app. by destruct (lookup n kp) as [ [ m | ] | e | ].
Qed.

Lemma has_dec n kp : regular n -> In kp optional_paths -> has n kp \/ (config_exists n kp = Ok false /\ ~ has n kp).
Proof. intros Hr Hin. unfold has. destruct (Hr kp Hin) as [ [] Hb ]; [ by left | right; split; [ done | by rewrite Hb ] ]. Qed.

Lemma need_ok {A} n kp (m : outcome A) a : need n kp m = Ok a <-> has n kp /\ m = Ok a.
Proof.
  unfold need, has. destruct (config_exists n kp) as [ [] | e | ]; cbn; split; try (by intros [ ? ? ]); by intros.
Qed.

Lemma secret_iff read_file secure_getenv path n : regular n -> has n config_dodo_common_application_secret ->
  (exists o, check_application read_file secure_getenv path n = Ok o) <->
  has n config_dodo_common_application_name /\ exists s, secret_of read_file secure_getenv path n s.
Proof.
  intros Hr Hs. assert (Happ : has n config_dodo_common_application) by apply (has_prefix n config_dodo_common_application [lit "secret"] Hs).
  unfold check_application. unfold has in Hs. rewrite Hs. cbn [obind negb].
  assert (Hiff : forall m : outcome (option str), (exists o, need n config_dodo_common_application (need n config_dodo_common_application_name m) = Ok o) <->
                 has n config_dodo_common_application_name /\ exists o, m = Ok o).
  { intros m. setoid_rewrite need_ok. setoid_rewrite need_ok. naive_solver. }
  rewrite Hiff. apply and_iff_compat_l. unfold secret_of.
  destruct (has_dec n config_dodo_common_application_secret_file Hr ltac:(cbn; tauto)) as [ Hf | [ Hf Hnf ] ].
  - rewrite Hf. cbn [obind]. unfold fileReadString.
    destruct (getValue as_string path n config_dodo_common_application_secret_file) as [ name | e | ]; cbn [obind]; [ | naive_solver | naive_solver ].
    destruct (read_file name) as [ content | ] eqn:Hc; cbn [obind]; [ | naive_solver ].
    destruct (getline content) as [ [ line r ] g ] eqn:Hg. cbn [obind fst]. split; [ | naive_solver ]. intros _. exists line. split; [ | done ].
    intros _. exists name, content. by rewrite Hg.
  - rewrite Hf. cbn [obind].
    destruct (has_dec n config_dodo_common_application_secret_env Hr ltac:(cbn; tauto)) as [ He | [ He _ ] ].
    + rewrite He. cbn [obind]. destruct (getValue as_string path n config_dodo_common_application_secret_env) as [ name | e | ]; cbn [obind]; [ | naive_solver | naive_solver ].
      destruct (secure_getenv (c_string name)) as [ c | ] eqn:Hg; naive_solver.
    + rewrite He. cbn [obind]. assert (Hv : forall name, getValue as_string path n config_dodo_common_application_secret_env <> Ok name).
      { intros name. unfold getValue. unfold config_exists in He. destruct (lookup n config_dodo_common_application_secret_env) as [ [ m | ] | e | ]; done. }
      naive_solver.
Qed.

Lemma obind_unit (m : outcome unit) (k : outcome unit) : (let! _ := m in k) = Ok tt <-> m = Ok tt /\ k = Ok tt.
Proof. destruct m as [ [] | e | ]; cbn; naive_solver. Qed.

Lemma check_logger_iff n : regular n -> check_logger n = Ok tt <->
  has n config_dodo_common_logger_console_level /\
  (has n config_dodo_common_logger_file -> has n config_dodo_common_logger_file_level /\ has n config_dodo_common_logger_file_directory) /\
  (has n config_dodo_common_logger_syslog -> has n config_dodo_common_logger_syslog_level).
Proof.
  intros Hr. unfold check_logger. rewrite !need_ok.
  assert (Hup : has n config_dodo_common_logger_console_level -> has n config_dodo_common_logger /\ has n config_dodo_common_logger_console).
  { intros Hc. split; [ apply (has_prefix n config_dodo_common_logger [lit "console"; lit "level"] Hc) | apply (has_prefix n config_dodo_common_logger_console [lit "level"] Hc) ]. }
  destruct (has_dec n config_dodo_common_logger_file Hr ltac:(cbn; tauto)) as [ Hf | [ Hf Hf' ] ], (has_dec n config_dodo_common_logger_syslog Hr ltac:(cbn; tauto)) as [ Hs | [ Hs Hs' ] ];
    rewrite Hf, Hs; cbn [obind]; rewrite ?obind_unit, ?need_ok; pose proof (eq_refl (Ok tt)); tauto.
Qed.

(** C33 checkConfig accepts exactly the configurations that name the application and the
    level of the console, whose secret, if they have one, can be read, and whose file and
    syslog sections, if they have them, are complete. *)
Theorem checkConfig_accepts_complete read_file secure_getenv path c : regular (yaml_ c) ->
  fst (checkConfig read_file secure_getenv path c) = Ok tt <-> complete read_file secure_getenv path (yaml_ c).
Proof.
  intros Hr. set (n := yaml_ c) in *.
  assert (Hok : fst (checkConfig read_file secure_getenv path c) = Ok tt <->
    (exists o, check_application read_file secure_getenv path n = Ok o) /\ has n config_dodo /\ has n config_dodo_common /\ check_logger n = Ok tt).
  { unfold checkConfig. fold n. destruct (need n config_dodo (need n config_dodo_common (check_application read_file secure_getenv path n))) as [ o | e | ] eqn:Hn.
    - rewrite !need_ok in Hn. destruct (check_logger n) as [ [] | e | ]; naive_solver.
    - split; [ done | ]. intros ([ o Ha ] & H1 & H2 & _). by rewrite (proj2 (need_ok _ _ _ _) (conj H1 (proj2 (need_ok _ _ _ _) (conj H2 Ha)))) in Hn.
    - split; [ done | ]. intros ([ o Ha ] & H1 & H2 & _). by rewrite (proj2 (need_ok _ _ _ _) (conj H1 (proj2 (need_ok _ _ _ _) (conj H2 Ha)))) in Hn. }
  rewrite Hok, (check_logger_iff n Hr). clear Hok.
  assert (Hup : has n config_dodo_common_application_name -> has n config_dodo /\ has n config_dodo_common /\ has n config_dodo_common_application).
  { intros Hn. split_and!; [ apply (has_prefix n config_dodo [lit "common"; lit "application"; lit "name"] Hn)
                           | apply (has_prefix n config_dodo_common [lit "application"; lit "name"] Hn)
                           | apply (has_prefix n config_dodo_common_application [lit "name"] Hn) ]. }
  destruct (has_dec n config_dodo_common_application_secret Hr ltac:(cbn; tauto)) as [ Hs | [ Hs Hns ] ].
  - rewrite (secret_iff _ _ _ _ Hr Hs). split; [ intros ([ ? ? ] & _ & _ & ? & ? & ?); by constructor | ].
    intros [ ? Hsec ? ? ? ]. specialize (Hsec Hs). naive_solver.
  - assert (Ha : (exists o, check_application read_file secure_getenv path n = Ok o) <-> has n config_dodo_common_application_name).
    { unfold check_application. rewrite Hs. cbn [obind negb]. setoid_rewrite need_ok. setoid_rewrite need_ok. naive_solver. }
    rewrite Ha. split; [ intros (? & _ & _ & ? & ? & ?); by constructor | ]. intros []. naive_solver.
Qed.
End Config.

(** ** A document *)

Module DemoYaml.
Inductive tree : Type := Leaf (s : str) | Branch (l : list (str * tree)).

#[export] Instance document : Yaml := {|
  node := tree;
  sub t k := match t with
             | Leaf _ => Throw (DodoException (lit "operator[] call on a scalar"))
             | Branch l => Ok (snd <$> find (fun p => bool_decide (fst p = k)) l)
             end;
  as_string t := match t with Leaf s => Ok s | Branch _ => Throw (DodoException (lit "bad conversion")) end;
  as_int t := match t with Leaf s => Ok (read_base 10 s) | Branch _ => Throw (DodoException (lit "bad conversion")) end;
  as_size t := match t with Leaf s => Ok (read_base 10 s) | Branch _ => Throw (DodoException (lit "bad conversion")) end;
  LoadFile _ := Throw (DodoException (lit "bad file"));
  what _ := [];
|}.

Definition level (name l : string) : str * tree := (list_ascii_of_string name, Branch [(lit "level", Leaf (list_ascii_of_string l))]).
Definition sample : @node document :=
  Branch [(lit "dodo", Branch [(lit "common", Branch [
    (lit "application", Branch [(lit "name", Leaf (lit "app")); (lit "secret", Branch [(lit "env", Leaf (lit "SECRET"))])]);
    (lit "logger", Branch [level "console" "info";
                           (lit "file", Branch [(lit "level", Leaf (lit "info")); (lit "directory", Leaf (lit "/var/log"))])])])])].

Lemma sample_regular : regular sample.
Proof. intros kp Hin. cbn in Hin. repeat destruct Hin as [ <- | Hin ]; [ eexists; vm_compute; reflexivity .. | done ]. Qed.

Lemma checkConfig_accepts_complete_witness : complete (fun _ => None) (fun _ => Some (lit "s3cret")) (lit "app.yaml") sample.
Proof. apply (checkConfig_accepts_complete (fun _ => None) (fun _ => Some (lit "s3cret")) (lit "app.yaml") (mkConfig sample [])); [ exact sample_regular | vm_compute; reflexivity ]. Defined.
End DemoYaml.
