(* ===== verification/Logger.v ===== *)
(** * Logger: levels, destinations and rotation of the log

    Models src/src/include/common/logger.hpp and src/src/lib/common/logger.cpp, and the file
    tests [directoryExists], [directoryWritable] and [getFileSize] of
    src/src/lib/common/util.cpp it uses.

    The [World] is what the logger writes to: the files of its directory by name, the
    console, the system log, and how often the clock was read.  What the operating system
    answers is the class [LogEnv].  A call holds the logger's mutex for its whole duration,
    so calls are atomic. *)

From S2P Require Import Prelude.
From S2P Require Import SystemError.
From S2P Require Import Bytes.
From S2P Require Import Util.
From S2P Require Import Calendar.
From S2P Require Import Config.
From stdpp Require Import sorting.

Local Open Scope Z_scope.

Inductive LogLevel : Type := Fatal | Error | Warning | Info | Statistics | Debug | Trace.
#[export] Instance LogLevel_eq_dec : EqDecision LogLevel.
Proof. solve_decision. Defined.

Definition level_value (l : LogLevel) : Z :=
  match l with Fatal => 0 | Error => 1 | Warning => 2 | Info => 3 | Statistics => 4 | Debug => 5 | Trace => 6 end.
Definition level_le (a b : LogLevel) : bool := level_value a <=? level_value b.

(** Destination flags. *)
Definition Console : Z := 1.
Definition File : Z := 2.
Definition Syslog : Z := 4.

Record FileParams : Type := mkFileParams {
  directory : str;
  max_size_mib : Z;
  max_file_trail : Z;
  active_log : str;
  file : bool;               (** the stream is open and good *)
  filesize : Z;
}.
Definition FileParams_new : FileParams := mkFileParams [] 10 4 [] false 0.

(** [facility] is not initialised by the constructor unless syslog is configured. *)
Record Logger : Type := mkLogger {
  destinations_ : Z;
  levels_ : gmap Z LogLevel;
  hostname_ : str;
  file_params_ : FileParams;
  facility : option Z;
}.

Definition set_destinations (d : Z) (lg : Logger) : Logger := mkLogger d (levels_ lg) (hostname_ lg) (file_params_ lg) (facility lg).
Definition set_level (d : Z) (l : LogLevel) (lg : Logger) : Logger :=
  mkLogger (destinations_ lg) (<[d := l]> (levels_ lg)) (hostname_ lg) (file_params_ lg) (facility lg).
Definition set_file_params (p : FileParams) (lg : Logger) : Logger := mkLogger (destinations_ lg) (levels_ lg) (hostname_ lg) p (facility lg).
Definition set_facility (f : Z) (lg : Logger) : Logger := mkLogger (destinations_ lg) (levels_ lg) (hostname_ lg) (file_params_ lg) (Some f).
Definition with_stream (b : bool) (size : Z) (p : FileParams) : FileParams :=
  mkFileParams (directory p) (max_size_mib p) (max_file_trail p) (active_log p) b size.

Record World : Type := mkWorld {
  files : gmap str str;                (** the directory: contents by name *)
  console : list str;
  syslogged : list (Z * str);          (** priority and text *)
  ticks : nat;
}.
Definition set_files (f : gmap str str) (w : World) : World := mkWorld f (console w) (syslogged w) (ticks w).

Class LogEnv := {
  clock : nat -> timeval;              (** successive readings of gettimeofday *)
  gethostname : str;
  gettid : Z;
  stat_directory : str -> bool;        (** stat succeeds and S_ISDIR *)
  stat_writable : str -> bool;         (** .. and S_IWUSR *)
  can_open : str -> bool;
  can_rename : str -> str -> bool;
  can_unlink : str -> bool;
  regex_match : str -> str -> bool;    (** patterns with operators other than the dot *)
}.

Definition LogLevelAsString (level : LogLevel) (acronym : bool) : str :=
  if acronym then
    match level with
    | Fatal => lit "FAT" | Error => lit "ERR" | Warning => lit "WRN" | Info => lit "INF"
    | Statistics => lit "STA" | Debug => lit "DBG" | Trace => lit "TRC"
    end
  else
    match level with
    | Fatal => lit "fatal" | Error => lit "error" | Warning => lit "warning" | Info => lit "info"
    | Statistics => lit "statistics" | Debug => lit "debug" | Trace => lit "trace"
    end.

Definition StringAsLogLevel (slevel : str) : LogLevel :=
  if bool_decide (slevel = lit "fatal") then Fatal
  else if bool_decide (slevel = lit "error") then Error
  else if bool_decide (slevel = lit "warning") then Warning
  else if bool_decide (slevel = lit "info") then Info
  else if bool_decide (slevel = lit "statistics") then Statistics
  else if bool_decide (slevel = lit "debug") then Debug
  else if bool_decide (slevel = lit "trace") then Trace
  else Info.

Definition mapLeveltoSyslog (level : LogLevel) : Z :=
  match level with Fatal => 2 | Error => 3 | Warning => 4 | _ => 6 end.

Section Logger.
Context `{LogEnv}.

Definition directoryExists (path : str) : bool := stat_directory (c_string path).
Definition directoryWritable (path : str) : bool := stat_directory (c_string path) && stat_writable (c_string path).

Abbreviation L := (X (Logger * World)).

(** The name in the directory of a path below it. *)
Definition name_in (dir path : str) : option str :=
  if bool_decide (take (length dir + 1) path = dir ++ lit "/") then Some (drop (length dir + 1) path) else None.

Definition getFileSize (dir path : str) (w : World) : Z :=
  match name_in dir path with
  | Some name => match files w !! name with Some content => zlen content | None => 0 end
  | None => 0
  end.

Definition gettimeofday : L timeval := fun '(lg, w) =>
  (Ok (clock (ticks w)), (lg, mkWorld (files w) (console w) (syslogged w) (S (ticks w)))).
Definition get_logger : L Logger := fun '(lg, w) => (Ok lg, (lg, w)).
Definition get_world : L World := fun '(lg, w) => (Ok w, (lg, w)).
Definition put_logger (f : Logger -> Logger) : L unit := fun '(lg, w) => (Ok tt, (f lg, w)).
Definition put_world (f : World -> World) : L unit := fun '(lg, w) => (Ok tt, (lg, f w)).
Definition value_of {A} (o : outcome A) : L A := fun s => (o, s).

(** [levels_[d]]: a missing level is entered as the first one. *)
Definition level_of (d : Z) : L LogLevel := fun '(lg, w) =>
  let l := default Fatal (levels_ lg !! d) in (Ok l, (set_level d l lg, w)).

(** [app]: the application's name, from the configuration. *)
Definition formatMessage (app : outcome str) (level : LogLevel) (message : str) : L str :=
  let^ tv := gettimeofday in
  let^ lg := get_logger in
  let^ name := value_of app in
  xret (formatDateTimeUTC tv ++ lit " " ++ hostname_ lg ++ lit " " ++ name ++ lit "[" ++ print_int gettid ++ lit "] " ++
        LogLevelAsString level true ++ lit " " ++ message).

(** [file << entry << std::endl]; a stream that is not open drops it. *)
Definition append_file (entry : str) : L unit := fun '(lg, w) =>
  let p := file_params_ lg in
  (Ok tt, (lg, match name_in (directory p) (active_log p) with
               | Some name => if file p then set_files (<[name := default [] (files w !! name) ++ entry ++ [chr 10]]> (files w)) w else w
               | None => w
               end)).

(** [file.open( active_log, out | app )]. *)
Definition open_active : L unit := fun '(lg, w) =>
  let p := file_params_ lg in
  match name_in (directory p) (active_log p) with
  | Some name => if can_open (active_log p)
                 then (Ok tt, (set_file_params (with_stream true (filesize p) p) lg,
                               set_files (<[name := default [] (files w !! name)]> (files w)) w))
                 else (Ok tt, (set_file_params (with_stream false (filesize p) p) lg, w))
  | None => (Ok tt, (set_file_params (with_stream false (filesize p) p) lg, w))
  end.

(** [rename( from, to )], the result of which is not looked at. *)
Definition rename (dir from to : str) : World -> World := fun w =>
  match name_in dir from, name_in dir to with
  | Some a, Some b =>
      match files w !! a with
      | Some content => if can_rename from to then set_files (<[b := content]> (delete a (files w))) w else w
      | None => w
      end
  | _, _ => w
  end.

Definition unlink (dir path : str) : World -> World := fun w =>
  match name_in dir path with
  | Some name => if can_unlink path then set_files (delete name (files w)) w else w
  | None => w
  end.

(** The characters that are operators of a regular expression; the dot matches any
    character of a line. *)
Definition regex_operator (c : ascii) : bool := existsb (fun d => c =c d) (lit "^$\*+?()[]{}|").
Definition in_line (c : ascii) : bool := negb ((c =c chr 10) || (c =c chr 13)).

(** The pattern [active_log] followed by a dot and any characters, on a whole path. *)
Fixpoint log_match (pattern path : str) : bool :=
  match pattern, path with
  | [], c :: r => (c =c "."%char) && forallb in_line r
  | p :: pattern', c :: r => (if p =c "."%char then in_line c else p =c c) && log_match pattern' r
  | _, [] => false
  end.
Definition matches_log (active path : str) : bool :=
  if existsb regex_operator active then regex_match active path else log_match active path.

(** A path of the directory iterator: [dir / name]. *)
Definition entry_path (dir name : str) : str :=
  match last dir with
  | Some c => if c =c "/"%char then dir ++ name else dir ++ lit "/" ++ name
  | None => name
  end.

(** The set of paths that match, in the order of [std::set]. *)
Definition trail_of (p : FileParams) (w : World) : list str :=
  merge_sort str_le (List.filter (matches_log (active_log p)) (map (fun e => entry_path (directory p) (fst e)) (map_to_list (files w)))).

(** [while ( trail.size() > max_file_trail )]: unlink the first and forget it. *)
Fixpoint prune (dir : str) (max : Z) (trail : list str) (w : World) : World :=
  match trail with
  | [] => w
  | path :: rest => if max <? zlen trail then prune dir max rest (unlink dir path w) else w
  end.

Definition rotation_due (p : FileParams) : bool := u64 (max_size_mib p * 1024 * 1024) <? filesize p.

Definition checkRotate : L unit :=
  let^ lg := get_logger in
  let p := file_params_ lg in
  if rotation_due p then
    let^ _ := put_logger (set_file_params (with_stream false (filesize p) p)) in
    let^ tv := gettimeofday in
    let^ _ := put_world (rename (directory p) (active_log p) (active_log p ++ lit "." ++ formatDateTimeUTC tv)) in
    let^ _ := open_active in
    let^ _ := (fun '(lg, w) =>
      let p := file_params_ lg in (Ok tt, (set_file_params (with_stream (file p) (getFileSize (directory p) (active_log p) w) p) lg, w))) in
    if negb (stat_directory (c_string (directory p))) then xthrow (DodoException (lit "filesystem error: directory iterator cannot open directory"))
    else
      let^ w := get_world in
      put_world (prune (directory p) (max_file_trail p) (trail_of p w))
  else xret tt.

(** The file part of [log]: [entry] is empty when the console did not format it. *)
Definition log_file (app : outcome str) (level : LogLevel) (message entry : str) : L unit :=
  let^ _ := checkRotate in
  let^ e := (match entry with [] => formatMessage app level message | _ => xret entry end) in
  let^ _ := append_file e in
  put_logger (fun lg => let p := file_params_ lg in set_file_params (with_stream (file p) (u64 (filesize p + (zlen e + 1))) p) lg).

Definition log_syslog (app : outcome str) (level : LogLevel) (message : str) : L unit :=
  let^ name := value_of app in
  let^ lg := get_logger in
  match facility lg with
  | None => xthrow (UndefinedBehaviour (lit "read of an indeterminate int"))
  | Some f => put_world (fun w => mkWorld (files w) (console w) (syslogged w ++ [(Z.lor f (mapLeveltoSyslog level),
                c_string (name ++ lit "[" ++ print_int gettid ++ lit "]: " ++ LogLevelAsString level true ++ lit ": " ++ message))]) (ticks w))
  end.

Definition log (app : outcome str) (level : LogLevel) (message : str) : L unit :=
  let^ cl := level_of Console in
  let^ entry := (if level_le level cl then
                   let^ e := formatMessage app level message in
                   let^ _ := put_world (fun w => mkWorld (files w) (console w ++ [e]) (syslogged w) (ticks w)) in
                   xret e
                 else xret []) in
  let^ lg := get_logger in
  let^ _ := (if negb (Z.lor (destinations_ lg) File =? 0) then
               let^ fl := level_of File in
               if level_le level fl then log_file app level message entry else xret tt
             else xret tt) in
  if negb (Z.lor (destinations_ lg) Syslog =? 0) then
    let^ sl := level_of Syslog in
    if level_le level sl && level_le level Info then log_syslog app level message else xret tt
  else xret tt.

(** ** Construction *)

Section Construct.
Context `{Yaml} (path : str) (yaml : node).

Definition config_string (kp : KeyPath) : outcome str := getValue as_string path yaml kp.
Definition config_size (kp : KeyPath) (otherwise : Z) : outcome Z :=
  let! b := config_exists yaml kp in if b : bool then getValue as_size path yaml kp else Ok otherwise.

Definition getFileParams : L unit :=
  let^ level := value_of (config_string config_dodo_common_logger_file_level) in
  let^ _ := put_logger (set_level File (StringAsLogLevel level)) in
  let^ dir := value_of (config_string config_dodo_common_logger_file_directory) in
  let^ size := value_of (config_size config_dodo_common_logger_file_max_size_mib 10) in
  let^ trail := value_of (config_size config_dodo_common_logger_file_max_file_trail 4) in
  if negb (directoryExists dir) then xthrow (DodoException (lit "directory '" ++ dir ++ lit "' does not exist")) else
  if negb (directoryWritable dir) then xthrow (DodoException (lit "directory '" ++ dir ++ lit "' not writable")) else
  let^ app := value_of (getAppName path yaml) in
  let active := dir ++ lit "/" ++ app ++ lit ".log" in
  let^ _ := put_logger (set_file_params (mkFileParams dir size trail active false 0)) in
  let^ _ := open_active in
  let^ _ := (fun '(lg, w) =>
    let p := file_params_ lg in (Ok tt, (set_file_params (with_stream (file p) (getFileSize (directory p) (active_log p) w) p) lg, w))) in
  let^ lg := get_logger in
  if negb (file (file_params_ lg)) then xthrow (DodoException (lit "failed to open '" ++ active ++ lit "' for writing")) else xret tt.

Definition construct_syslog : L unit :=
  let^ s := value_of (config_exists yaml config_dodo_common_logger_syslog) in
  if s : bool then
    let^ _ := put_logger (fun lg => set_destinations (Z.lor (destinations_ lg) Syslog) lg) in
    let^ b := value_of (config_exists yaml config_dodo_common_logger_syslog_facility) in
    let^ fac := value_of (if b : bool then getValue as_int path yaml config_dodo_common_logger_syslog_facility else Ok 1) in
    let^ _ := put_logger (set_facility fac) in
    let^ level := value_of (config_string config_dodo_common_logger_syslog_level) in
    let^ _ := put_logger (set_level Syslog (StringAsLogLevel level)) in
    if negb (level_le (StringAsLogLevel level) Info) then xthrow (DodoException (lit "syslog LogLevel cannot be higher than info")) else xret tt
  else xret tt.

Definition construct_body : L unit :=
  let^ level := value_of (config_string config_dodo_common_logger_console_level) in
  let^ _ := put_logger (set_level Console (StringAsLogLevel level)) in
  let^ f := value_of (config_exists yaml config_dodo_common_logger_file) in
  let^ _ := (if f : bool then
               let^ _ := put_logger (fun lg => set_destinations (Z.lor (destinations_ lg) File) lg) in getFileParams
             else xret tt) in
  construct_syslog.

(** [Logger( const Config& )]. *)
Definition Logger_new (w : World) : outcome Logger * World :=
  let '(o, (lg, w')) := construct_body (mkLogger Console ∅ gethostname FileParams_new None, w) in
  (match o with Ok _ => Ok lg | Throw e => Throw e | OutOfFuel => OutOfFuel end, w').

(** [initialize] and [getLogger] on the static pointer. *)
Definition Logger_initialize (ptr : option Logger) (w : World) : outcome Logger * (option Logger * World) :=
  match ptr with
  | Some _ => (Throw (DodoException (lit "calling initialize on an existing Logger singleton")), (ptr, w))
  | None => let (o, w') := Logger_new w in (o, (match o with Ok lg => Some lg | _ => None end, w'))
  end.
End Construct.

Definition getLogger (ptr : option Logger) : outcome Logger :=
  match ptr with Some lg => Ok lg | None => Throw (DodoException (lit "null singleton - call initialize before getLogger")) end.

(** [~Logger]: the stream is closed. *)
Definition Logger_delete : L unit := put_logger (fun lg => let p := file_params_ lg in set_file_params (with_stream false (filesize p) p) lg).

Definition fatal (app : outcome str) (message : str) : L unit := log app Fatal message.
Definition error (app : outcome str) (message : str) : L unit := log app Error message.
Definition warning (app : outcome str) (message : str) : L unit := log app Warning message.
Definition info (app : outcome str) (message : str) : L unit := log app Info message.
Definition statistics (app : outcome str) (message : str) : L unit := log app Statistics message.
Definition debug (app : outcome str) (message : str) : L unit := log app Debug message.
Definition trace (app : outcome str) (message : str) : L unit := log app Trace message.
End Logger.

(** ** Paths and patterns *)

Definition path_in (dir name : str) : str := dir ++ lit "/" ++ name.

Lemma name_in_path dir name : name_in dir (path_in dir name) = Some name.
Proof.
  unfold name_in, path_in. rewrite (assoc_L (++)). rewrite take_app_length' by (rewrite length_app; cbn; lia).
  rewrite bool_decide_true by done. by rewrite drop_app_length' by (rewrite length_app; cbn; lia).
Qed.

Lemma path_in_inj dir a b : path_in dir a = path_in dir b -> a = b.
Proof. unfold path_in. rewrite !(assoc_L (++)). apply app_inv_head. Qed.

Lemma str_le_prefix a s t : str_le (a ++ s) (a ++ t) <-> str_le s t.
Proof. induction a as [ | c a IH ]; [ done | ]. rewrite <- !app_comm_cons, str_le_cons, IH. split; [ intros [ ? | [ _ ? ] ]; [ lia | done ] | auto ]. Qed.

Lemma path_in_order dir a b : str_le (path_in dir a) (path_in dir b) <-> str_le a b.
Proof. unfold path_in. by rewrite !(assoc_L (++)), str_le_prefix. Qed.

Lemma log_match_longer pattern path : log_match pattern path = true -> (length pattern < length path)%nat.
Proof.
  revert path. induction pattern as [ | p pattern IH ]; intros [ | c r ]; cbn; try done; [ lia | ].
  intros [ _ Hm ]%andb_true_iff. specialize (IH _ Hm). lia.
Qed.

Lemma log_match_suffix pattern s : forallb in_line pattern = true -> forallb in_line s = true -> log_match pattern (pattern ++ "."%char :: s) = true.
Proof.
  induction pattern as [ | p pattern IH ]; cbn [forallb app log_match]; intros Hp Hs; [ by rewrite ascii_eqb_true | ].
  apply andb_true_iff in Hp as [ Hc Hp ]. rewrite IH by done. rewrite ascii_eqb_true, Hc. by destruct (p =c "."%char).
Qed.

Lemma digits_in_line s : forallb isdigit s = true -> forallb in_line s = true.
Proof.
  induction s as [ | c s IH ]; [ done | ]. cbn [forallb]. intros [ Hc Hs ]%andb_true_iff. rewrite (IH Hs), andb_true_r.
  revert Hc. apply (ascii_implies isdigit in_line). vm_compute. reflexivity.
Qed.

Lemma stamp_in_line tv : valid_time tv -> forallb in_line (formatDateTimeUTC tv) = true.
Proof.
  intros [ Hs Hu ]. unfold formatDateTimeUTC. pose proof (gmtime_year _ Hs). pose proof (gmtime_ranges (tv_sec tv)) as (? & ? & ? & ? & ?).
  assert (Hf : forall w n, (0 < w)%nat -> 0 <= n < 10 ^ Z.of_nat w -> forallb in_line (field w n) = true).
  { intros w n Hw Hn. apply digits_in_line. by apply field_spec. }
  rewrite !forallb_app, !Hf by (lia || (cbn; lia)). done.
Qed.

(** ** Rotation *)

Section Rotation.
Context `{LogEnv} (p : FileParams) (name : str).

(** The active log is a file of the directory, and the operating system lets the logger
    work there.  Two shapes of paths are left out, on which rotation does not work: a
    directory that ends in a slash, under which no rotated log is ever removed
    ([trailing_slash_keeps_all]), and a path with operators of regular expressions or ends
    of lines, which as an expression does not match itself. *)
Record placed : Prop := mkPlaced {
  placed_active : active_log p = path_in (directory p) name;
  placed_dir : exists c, last (directory p) = Some c /\ (c =c "/"%char) = false;
  placed_plain : existsb regex_operator (active_log p) = false;
  placed_line : forallb in_line (active_log p) = true;
  placed_stat : stat_directory (c_string (directory p)) = true;
  placed_open : can_open (active_log p) = true;
  placed_rename : forall q, can_rename (active_log p) q = true;
  placed_unlink : forall q, can_unlink q = true;
  placed_trail : 0 <= max_file_trail p;
}.
Hypothesis Hp : placed.

(** The names of rotated logs. *)
Definition rotated (n : str) : bool := matches_log (active_log p) (path_in (directory p) n).
Definition rotated_names (w : World) : list str := List.filter rotated (map fst (map_to_list (files w))).

Lemma entry_path_in n : entry_path (directory p) n = path_in (directory p) n.
Proof. destruct (placed_dir Hp) as (c & Hl & Hc). unfold entry_path. by rewrite Hl, Hc. Qed.

Lemma trail_of_names w : trail_of p w = merge_sort str_le (map (path_in (directory p)) (rotated_names w)).
Proof.
  unfold trail_of, rotated_names. f_equal. induction (map_to_list (files w)) as [ | [ n s ] l IH ]; [ done | ]. cbn.
  rewrite entry_path_in. fold (rotated n). destruct (rotated n); cbn; by rewrite IH.
Qed.

Lemma rotated_names_spec w n : n ∈ rotated_names w <-> rotated n = true /\ is_Some (files w !! n).
Proof.
  unfold rotated_names. rewrite list_elem_of_In, filter_In, <- list_elem_of_In. split.
  - intros [ Hin Hr ]. split; [ done | ]. apply list_elem_of_fmap in Hin as ([ n' s ] & -> & Hin). apply elem_of_map_to_list in Hin. by eexists.
  - intros [ Hr [ s Hs ] ]. split; [ | done ]. apply list_elem_of_fmap. exists (n, s). split; [ done | ]. by apply elem_of_map_to_list.
Qed.

Lemma rotated_names_NoDup w : NoDup (rotated_names w).
Proof.
  unfold rotated_names. apply NoDup_ListNoDup, List.NoDup_filter, NoDup_ListNoDup. apply NoDup_fst_map_to_list.
Qed.

(** Pruning unlinks the first paths of the trail, down to the maximum. *)
Lemma prune_files names w n : NoDup names -> 
  files (prune (directory p) (max_file_trail p) (map (path_in (directory p)) names) w) !! n =
  if bool_decide (n ∈ take (Z.to_nat (zlen names - max_file_trail p)) names) then None else files w !! n.
Proof.
  revert w. induction names as [ | m names IH ]; intros w Hnd; [ by rewrite take_nil, bool_decide_false by set_solver | ].
  apply NoDup_cons in Hnd as [ Hm Hnd ]. cbn [map prune]. pose proof (placed_trail Hp).
  assert (Hz : zlen (path_in (directory p) m :: map (path_in (directory p)) names) = zlen (m :: names)) by (unfold zlen; cbn; by rewrite length_map).
  rewrite Hz, zlen_cons. destruct (Z.ltb_spec (max_file_trail p) (zlen names + 1)).
  - rewrite IH by done. replace (Z.to_nat (zlen names + 1 - max_file_trail p)) with (S (Z.to_nat (zlen names - max_file_trail p))) by lia.
    cbn [take]. unfold unlink. rewrite name_in_path, (placed_unlink Hp). cbn [files set_files].
    destruct (decide (n = m)) as [ -> | Hne ].
    + rewrite (bool_decide_true (m ∈ m :: _)) by set_solver. rewrite lookup_delete_eq. by case_bool_decide.
    + rewrite lookup_delete_ne by done. by rewrite (bool_decide_ext (n ∈ m :: _) (n ∈ take (Z.to_nat (zlen names - max_file_trail p)) names)) by set_solver.
  - replace (Z.to_nat (zlen names + 1 - max_file_trail p)) with 0%nat by lia. cbn [take]. by rewrite bool_decide_false by set_solver.
Qed.

(** The name a rotated log gets. *)
Definition rotated_name (tv : timeval) : str := name ++ lit "." ++ formatDateTimeUTC tv.

Lemma rotated_path tv : active_log p ++ lit "." ++ formatDateTimeUTC tv = path_in (directory p) (rotated_name tv).
Proof. rewrite (placed_active Hp). unfold path_in, rotated_name. by rewrite <- !(assoc_L (++)). Qed.

Lemma active_not_rotated : rotated name = false.
Proof.
  unfold rotated, matches_log. rewrite (placed_plain Hp), <- (placed_active Hp). destruct (log_match _ _) eqn:Hm; [ | done ].
  apply log_match_longer in Hm. lia.
Qed.

Lemma new_name_rotated tv : valid_time tv -> rotated (rotated_name tv) = true.
Proof.
  intros Hv. unfold rotated, matches_log. rewrite (placed_plain Hp), <- rotated_path. apply log_match_suffix; [ apply (placed_line Hp) | by apply stamp_in_line ].
Qed.

(** The directory once the active log is renamed and opened again. *)
Definition renamed (tv : timeval) (content : str) (w : World) : World :=
  mkWorld (<[name := []]> (<[rotated_name tv := content]> (delete name (files w)))) (console w) (syslogged w) (S (ticks w)).

(** The rotated names, oldest first, and how many of them go. *)
Definition sorted_names (w : World) : list str := merge_sort str_le (rotated_names w).
Definition pruned (w : World) : list str := take (Z.to_nat (zlen (rotated_names w) - max_file_trail p)) (sorted_names w).

Lemma sorted_names_perm w : sorted_names w ≡ₚ rotated_names w.
Proof. apply merge_sort_Permutation. Qed.

Lemma trail_sorted w : trail_of p w = map (path_in (directory p)) (sorted_names w).
Proof.
  rewrite trail_of_names. unfold sorted_names. apply (StronglySorted_unique str_le).
  - apply StronglySorted_merge_sort; apply _.
  - pose proof (StronglySorted_merge_sort str_le (rotated_names w)) as Hs. induction Hs as [ | n l Hs IH Hf ]; cbn; constructor; [ done | ].
    apply Forall_map. eapply Forall_impl; [ exact Hf | ]. intros m Hm. by apply path_in_order.
  - rewrite merge_sort_Permutation. apply Permutation_map. symmetry. apply sorted_names_perm.
Qed.

Lemma pruned_files w n : files (prune (directory p) (max_file_trail p) (trail_of p w) w) !! n =
  if bool_decide (n ∈ pruned w) then None else files w !! n.
Proof.
  rewrite trail_sorted, prune_files by (rewrite sorted_names_perm; apply rotated_names_NoDup). unfold pruned, zlen. by rewrite (Permutation_length (sorted_names_perm w)).
Qed.

Lemma pruned_rotated w n : n ∈ pruned w -> rotated n = true /\ is_Some (files w !! n).
Proof. intros Hn. apply rotated_names_spec. rewrite <- sorted_names_perm. apply elem_of_take in Hn as (i & Hi & _). by eapply list_elem_of_lookup_2. Qed.

(** What pruning leaves: nothing older than what it removed, and the maximum if there were more. *)
Lemma pruned_oldest w gone kept : gone ∈ pruned w -> kept ∉ pruned w -> rotated kept = true -> is_Some (files w !! kept) -> str_le gone kept.
Proof.
  intros Hg Hk Hr Hs. assert (Hall : kept ∈ sorted_names w) by (rewrite sorted_names_perm; apply rotated_names_spec; by split).
  pose proof (StronglySorted_merge_sort str_le (rotated_names w)) as Hsort. fold (sorted_names w) in Hsort.
  unfold pruned in *. set (k := Z.to_nat _) in *. rewrite <- (take_drop k (sorted_names w)) in Hall, Hsort.
  apply elem_of_app in Hall as [ ? | Hd ]; [ done | ]. by apply (StronglySorted_app_1_elem_of _ _ _ _ _ Hsort).
Qed.
Lemma kept_names w w' : (forall n, files w' !! n = if bool_decide (n ∈ pruned w) then None else files w !! n) ->
  rotated_names w' ≡ₚ drop (Z.to_nat (zlen (rotated_names w) - max_file_trail p)) (sorted_names w).
Proof.
  intros Hw. set (k := Z.to_nat _). assert (Hnd : NoDup (take k (sorted_names w) ++ drop k (sorted_names w))).
  { rewrite take_drop, sorted_names_perm. apply rotated_names_NoDup. }
  apply NoDup_app in Hnd as (_ & Hdis & Hnd). apply NoDup_Permutation; [ apply rotated_names_NoDup | done | ]. intros n.
  assert (Hall : n ∈ rotated_names w <-> n ∈ pruned w \/ n ∈ drop k (sorted_names w)).
  { rewrite <- sorted_names_perm. rewrite <- (take_drop k (sorted_names w)) at 1. by rewrite elem_of_app. }
  rewrite rotated_names_spec, Hw. rewrite rotated_names_spec in Hall. case_bool_decide as Hin.
  - split; [ by intros [ _ [ ? ? ] ] | ]. intros Hd. by destruct (Hdis _ Hin).
  - tauto.
Qed.

Lemma kept_count w w' : (forall n, files w' !! n = if bool_decide (n ∈ pruned w) then None else files w !! n) ->
  zlen (rotated_names w') = Z.min (max_file_trail p) (zlen (rotated_names w)).
Proof.
  intros Hw. pose proof (placed_trail Hp). unfold zlen. rewrite (Permutation_length (kept_names w w' Hw)), length_drop, (Permutation_length (sorted_names_perm w)).
  unfold zlen. lia.
Qed.

Lemma rotated_name_order s t : valid_time s -> valid_time t -> str_le (rotated_name s) (rotated_name t) <-> no_later s t.
Proof. intros. unfold rotated_name. by rewrite !str_le_prefix, timestamps_sort_by_time. Qed.

Lemma rename_active w content tv : files w !! name = Some content ->
  rename (directory p) (active_log p) (path_in (directory p) (rotated_name tv)) w = set_files (<[rotated_name tv := content]> (delete name (files w))) w.
Proof. intros Hc. unfold rename. rewrite (placed_rename Hp). rewrite (placed_active Hp), !name_in_path. by rewrite Hc. Qed.

Lemma open_active_run lg w b size : file_params_ lg = with_stream b size p ->
  open_active (lg, w) = (Ok tt, (set_file_params (with_stream true size p) lg, set_files (<[name := default [] (files w !! name)]> (files w)) w)).
Proof.
  intros Hl. unfold open_active. rewrite Hl. cbn [with_stream directory active_log filesize].
  rewrite (placed_open Hp). by rewrite (placed_active Hp), name_in_path.
Qed.

Lemma getFileSize_active w : getFileSize (directory p) (active_log p) w = zlen (default [] (files w !! name)).
Proof. unfold getFileSize. rewrite (placed_active Hp), name_in_path. by destruct (files w !! name). Qed.

Lemma rotated_name_ne tv : rotated_name tv <> name.
Proof. unfold rotated_name. intros E. apply (f_equal length) in E. rewrite !length_app in E. cbn in E. lia. Qed.

(** One rotation: the active log is renamed, opened again, and the trail pruned. *)
Lemma checkRotate_run lg w content : file_params_ lg = p -> rotation_due p = true -> files w !! name = Some content ->
  let w1 := renamed (clock (ticks w)) content w in
  checkRotate (lg, w) = (Ok tt, (set_file_params (with_stream true 0 p) lg, prune (directory p) (max_file_trail p) (trail_of p w1) w1)).
Proof.
  intros Hl Hdue Hc w1. unfold checkRotate. erewrite xbind_ok by reflexivity. cbv beta zeta. rewrite Hl, Hdue.
  do 3 (erewrite xbind_ok by reflexivity; cbv beta). rewrite rotated_path, (rename_active _ content) by done.
  erewrite xbind_ok by (eapply open_active_run; reflexivity). erewrite xbind_ok by reflexivity.
  rewrite (placed_stat Hp). cbn [negb]. erewrite xbind_ok by reflexivity. unfold put_world, set_files, set_file_params, with_stream.
  cbn [file_params_ set_file_params with_stream directory active_log filesize file files set_files console syslogged ticks].
  rewrite getFileSize_active. cbn [files]. rewrite lookup_insert_eq, lookup_insert_ne, lookup_delete_eq by apply rotated_name_ne.
  done.
Qed.
End Rotation.

(** *** A directory that ends in a slash *)

Lemma log_match_prefix a x y : log_match (a ++ x) (a ++ y) = log_match x y.
Proof.
  induction a as [ | c a IH ]; [ done | ]. cbn [app log_match]. rewrite IH. destruct (c =c "."%char) eqn:Hc; [ | by rewrite ascii_eqb_true ].
  by apply Ascii.eqb_eq in Hc as ->.
Qed.

(** The name of a file has no slash in front. *)
Definition file_name (n : str) : Prop := match n with c :: _ => (c =c "/"%char) = false | [] => True end.

Lemma trailing_slash_no_trail (p : FileParams) d name w `{LogEnv} :
  directory p = d ++ lit "/" -> active_log p = path_in (directory p) name -> existsb regex_operator (active_log p) = false ->
  (forall n, is_Some (files w !! n) -> file_name n) -> trail_of p w = [].
Proof.
  intros Hd Ha Hre Hn. unfold trail_of. replace (List.filter _ _) with (@nil str); [ done | ]. symmetry.
  assert (Hall : forall n s, (n, s) ∈ map_to_list (files w) -> matches_log (active_log p) (entry_path (directory p) n) = false).
  { intros n s Hin. apply elem_of_map_to_list in Hin. specialize (Hn n ltac:(by eexists)). unfold matches_log. rewrite Hre, Ha.
    change (lit "/") with ["/"%char] in Hd. unfold entry_path, path_in. rewrite Hd, last_snoc, ascii_eqb_true, log_match_prefix. destruct n as [ | c n ]; [ done | ]. cbn [file_name] in Hn.
    cbn [app log_match list_ascii_of_string]. change ("/"%char =c "."%char) with false. cbv iota.
    destruct ("/"%char =c c) eqn:Hc; [ | done ]. apply Ascii.eqb_eq in Hc as <-. done. }
  induction (map_to_list (files w)) as [ | [ n s ] l IH ]; [ done | ]. cbn [map List.filter fst]. rewrite (Hall n s) by (by left). apply IH.
  intros n' s' Hin. apply (Hall n' s'). by right.
Qed.

(** With a directory that ends in a slash, rotation renames the log and opens a new one, but
    the paths of the directory have one slash less than the expression for rotated logs: no
    file is ever removed, whatever the configured number. *)
Theorem trailing_slash_keeps_all `{LogEnv} (p : FileParams) d name lg w content :
  directory p = d ++ lit "/" -> active_log p = path_in (directory p) name -> existsb regex_operator (active_log p) = false ->
  stat_directory (c_string (directory p)) = true -> can_open (active_log p) = true -> (forall q, can_rename (active_log p) q = true) ->
  (forall n, is_Some (files w !! n) -> file_name n) -> file_params_ lg = p -> rotation_due p = true -> files w !! name = Some content ->
  let new := rotated_name name (clock (ticks w)) in file_name new ->
  exists lg' w', checkRotate (lg, w) = (Ok tt, (lg', w')) /\ files w' !! name = Some [] /\ files w' !! new = Some content /\
    forall n c, n <> name -> n <> new -> files w !! n = Some c -> files w' !! n = Some c.
Proof.
  intros Hd Ha Hre Hst Hop Hrn Hn Hl Hdue Hc new Hnew. unfold checkRotate. erewrite xbind_ok by reflexivity. cbv beta zeta. rewrite Hl, Hdue.
  do 3 (erewrite xbind_ok by reflexivity; cbv beta).
  assert (Hpath : active_log p ++ lit "." ++ formatDateTimeUTC (clock (ticks w)) = path_in (directory p) new).
  { rewrite Ha. unfold path_in, new, rotated_name. by rewrite <- !(assoc_L (++)). }
  assert (Hne : new <> name) by apply rotated_name_ne. rewrite Hpath. unfold rename at 1. rewrite Hrn, Ha, !name_in_path. cbn [files]. rewrite Hc.
  unfold xbind at 1, open_active. cbn [file_params_ set_file_params with_stream directory active_log filesize]. rewrite Hop, Ha, name_in_path.
  erewrite xbind_ok by reflexivity. cbv beta zeta. rewrite Hst. cbn [negb]. erewrite xbind_ok by reflexivity. unfold put_world.
  rewrite (trailing_slash_no_trail p d name _ Hd Ha Hre).
  - do 2 eexists. split; [ reflexivity | ]. cbn [prune files set_files]. split; [ | split ].
    + rewrite lookup_insert_eq. by rewrite lookup_insert_ne, lookup_delete_eq.
    + rewrite lookup_insert_ne by done. apply lookup_insert_eq.
    + intros n c' H1 H2 H3. rewrite !lookup_insert_ne, lookup_delete_ne by done. exact H3.
  - intros n. cbn [files set_files]. intros [ x Hx ]. destruct (decide (n = name)) as [ -> | H1 ]; [ apply Hn; by eexists | ].
    destruct (decide (n = new)) as [ -> | H2 ]; [ done | ]. rewrite !lookup_insert_ne, lookup_delete_ne in Hx by done. apply Hn. by eexists.
Qed.

Section RotationTheorem.
Context `{LogEnv} (p : FileParams) (name : str) (Hp : placed p name).

(** The rotated logs of the directory were made by rotations no later than [now]. *)
Definition stamped (now : timeval) (w : World) : Prop :=
  forall n, rotated p n = true -> is_Some (files w !! n) -> exists t, valid_time t /\ n = rotated_name name t /\ no_later t now.

Lemma renamed_lookup w content tv n : n <> name -> n <> rotated_name name tv -> files (renamed name tv content w) !! n = files w !! n.
Proof. intros. cbn [files renamed]. by rewrite !lookup_insert_ne, lookup_delete_ne by done. Qed.

Lemma renamed_new w content tv : files (renamed name tv content w) !! rotated_name name tv = Some content.
Proof. cbn [files renamed]. rewrite lookup_insert_ne by (symmetry; apply rotated_name_ne). apply lookup_insert_eq. Qed.

(** One more rotated log after the renaming. *)
Lemma renamed_names w content tv : valid_time tv -> files w !! rotated_name name tv = None ->
  rotated_names p (renamed name tv content w) ≡ₚ rotated_name name tv :: rotated_names p w.
Proof.
  intros Hv Hfresh. apply NoDup_Permutation; [ apply rotated_names_NoDup | | ].
  - constructor; [ | apply rotated_names_NoDup ]. rewrite rotated_names_spec, Hfresh. intros [ _ [ ? ? ] ]. done.
  - intros n. rewrite elem_of_cons, !rotated_names_spec. destruct (decide (n = rotated_name name tv)) as [ -> | Hn ].
    + rewrite renamed_new, (new_name_rotated p name Hp) by done. naive_solver.
    + destruct (decide (n = name)) as [ -> | Hne ]; [ rewrite (active_not_rotated p name Hp); naive_solver | ]. rewrite renamed_lookup by done. naive_solver.
Qed.

Lemma stamped_renamed w content tv : valid_time tv -> stamped tv w -> stamped tv (renamed name tv content w).
Proof.
  intros Hv Hs n Hr Hn. destruct (decide (n = rotated_name name tv)) as [ -> | Hne ]; [ exists tv; split_and!; [ done | done | unfold no_later; lia ] | ].
  destruct (decide (n = name)) as [ -> | Hne' ]; [ by rewrite (active_not_rotated p name Hp) in Hr | ]. rewrite renamed_lookup in Hn by done. by apply Hs.
Qed.

(** The newest rotated log is not pruned when one may stay. *)
Lemma newest_kept w tv : valid_time tv -> stamped tv w -> 0 < max_file_trail p -> is_Some (files w !! rotated_name name tv) -> rotated_name name tv ∉ pruned p w.
Proof.
  intros Hv Hs Hm Hn Hin. assert (Hk : exists kept, kept ∈ rotated_names p w /\ kept ∉ pruned p w).
  { unfold pruned. set (k := Z.to_nat _) in *. assert (Hnd : NoDup (take k (sorted_names p w) ++ drop k (sorted_names p w))).
    { rewrite take_drop, sorted_names_perm. apply rotated_names_NoDup. }
    apply NoDup_app in Hnd as (_ & Hdis & _). destruct (drop k (sorted_names p w)) as [ | x l ] eqn:Hd.
    - apply (f_equal length) in Hd. rewrite length_drop, (Permutation_length (sorted_names_perm p w)) in Hd.
      unfold pruned in Hin. fold k in Hin. destruct (rotated_names p w) as [ | y r ] eqn:Hr; [ | unfold k, zlen in Hd; cbn in Hd; lia ].
      assert (H0 : sorted_names p w = []) by (apply Permutation_nil; by rewrite <- Hr, sorted_names_perm). rewrite H0, take_nil in Hin. by apply not_elem_of_nil in Hin.
    - exists x. split; [ rewrite <- sorted_names_perm, <- (take_drop k (sorted_names p w)), Hd; set_solver | ]. intros Hx. apply (Hdis x Hx). set_solver. }
  destruct Hk as (kept & Hk & Hnot). apply rotated_names_spec in Hk as [ Hr Hsome ]. pose proof (pruned_oldest p w _ _ Hin Hnot Hr Hsome) as Hle.
  destruct (Hs _ Hr Hsome) as (t & Ht & -> & Hl). apply (rotated_name_order name t tv) in Hl; [ | done | done ]. by rewrite (anti_symm str_le _ _ Hle Hl) in Hin.
Qed.

(** C14 Rotation of a full log, where the path of the log has a shape the code can match
    ([placed]: a directory without a slash at its end, no operators of regular expressions,
    no ends of lines) and the system allows to open, rename and unlink, and the rotated
    logs present bear stamps no later than now, which is not yet taken: it succeeds; the
    active log is empty and open, its former content is kept under the time stamped name,
    unless the configured number is zero; no other file that is not
    a rotated log changes; the rotated logs that stay are the configured number, or all of
    them and the new one if these are fewer, with their content; and none that was removed
    is newer than one that stays. *)
Theorem rotation_keeps_newest lg w content : let tv := clock (ticks w) in
  file_params_ lg = p -> rotation_due p = true -> files w !! name = Some content ->
  valid_time tv -> stamped tv w -> files w !! rotated_name name tv = None ->
  exists w', checkRotate (lg, w) = (Ok tt, (set_file_params (with_stream true 0 p) lg, w')) /\
    files w' !! name = Some [] /\
    (0 < max_file_trail p -> files w' !! rotated_name name tv = Some content) /\
    (forall n, rotated p n = false -> n <> name -> files w' !! n = files w !! n) /\
    zlen (rotated_names p w') = Z.min (max_file_trail p) (zlen (rotated_names p w) + 1) /\
    (forall n c, n <> name -> n <> rotated_name name tv -> files w' !! n = Some c -> files w !! n = Some c) /\
    (forall s t, valid_time s -> valid_time t -> is_Some (files w !! rotated_name name s) -> files w' !! rotated_name name s = None ->
       is_Some (files w' !! rotated_name name t) -> no_later s t).
Proof.
  intros tv Hl Hdue Hc Hv Hs Hfresh. eexists. split; [ by apply (checkRotate_run p name Hp lg w content) | ].
  set (w1 := renamed name tv content w). pose proof (pruned_files p name Hp w1) as Hw. set (w' := prune _ _ _ _) in *.
  assert (Hrot : forall n, n ∈ pruned p w1 -> rotated p n = true) by (intros n Hn; by apply pruned_rotated in Hn as [ ? _ ]).
  pose proof (active_not_rotated p name Hp) as Hact. split_and!.
  - rewrite Hw, bool_decide_false; [ cbn [files w1 renamed]; apply lookup_insert_eq | ]. intros Hn. by rewrite (Hrot _ Hn) in Hact.
  - intros Hm. rewrite Hw, bool_decide_false; [ apply renamed_new | ]. apply newest_kept; [ done | by apply stamped_renamed | done | exists content; apply renamed_new ].
  - intros n Hr Hne. rewrite Hw, bool_decide_false by (intros Hn; by rewrite (Hrot _ Hn) in Hr). apply renamed_lookup; [ done | ].
    intros ->. by rewrite (new_name_rotated p name Hp) in Hr.
  - rewrite (kept_count p name Hp w1 w' Hw). unfold zlen at 1. unfold w1. rewrite (Permutation_length (renamed_names w content tv Hv Hfresh)). cbn [length]. unfold zlen. lia.
  - intros n c Hn Hn' Hf. rewrite Hw in Hf. case_bool_decide; [ done | ]. unfold w1 in Hf. by rewrite renamed_lookup in Hf.
  - intros s t Hvs Hvt Hold Hgone Hkept. rewrite Hw in Hgone, Hkept. destruct (bool_decide_reflect (rotated_name name s ∈ pruned p w1)) as [ Hg | _ ].
    + case_bool_decide as Hk; [ by destruct Hkept | ]. apply (rotated_name_order name); [ done | done | ].
      apply (pruned_oldest p w1); [ done | done | by apply (new_name_rotated p name Hp) | done ].
    + destruct (decide (rotated_name name s = rotated_name name tv)) as [ E | Hne ]; [ rewrite E in Hold; rewrite Hfresh in Hold; by destruct Hold | ].
      unfold w1 in Hgone. rewrite renamed_lookup in Hgone by (done || apply rotated_name_ne). rewrite Hgone in Hold. by destruct Hold.
Qed.
End RotationTheorem.

(** ** Logging *)

Section Logging.
Context `{LogEnv} (p : FileParams) (name app_name : str) (Hp : placed p name).
Hypothesis Htime : forall n, valid_time (clock n).

Lemma placed_stream b size : placed (with_stream b size p) name.
Proof. destruct Hp. by split. Qed.

(** The stream is open on the active log and [filesize] is its size. *)
Definition tracked (lg : Logger) (w : World) (content : str) : Prop :=
  file_params_ lg = with_stream true (zlen content) p /\ files w !! name = Some content.

Definition limit : Z := u64 (max_size_mib p * 1024 * 1024).

(** What the active log holds when an entry is about to be written. *)
Definition rolled (content : str) : str := if limit <? zlen content then [] else content.

Definition entry_text (lg : Logger) (tv : timeval) (level : LogLevel) (message : str) : str :=
  formatDateTimeUTC tv ++ lit " " ++ hostname_ lg ++ lit " " ++ app_name ++ lit "[" ++ print_int gettid ++ lit "] " ++
  LogLevelAsString level true ++ lit " " ++ message.

Definition tick (w : World) : World := mkWorld (files w) (console w) (syslogged w) (S (ticks w)).

Lemma formatMessage_run level message lg w :
  formatMessage (Ok app_name) level message (lg, w) = (Ok (entry_text lg (clock (ticks w)) level message), (lg, tick w)).
Proof. done. Qed.

Lemma entry_not_empty lg n level message : entry_text lg (clock n) level message <> [].
Proof. unfold entry_text. pose proof (formatDateTimeUTC_length _ (Htime n)) as Hl. intros E%(f_equal length). rewrite length_app, Hl in E. cbn in E. lia. Qed.

Lemma prune_keeps dir max l w : console (prune dir max l w) = console w /\ syslogged (prune dir max l w) = syslogged w.
Proof.
  revert w. induction l as [ | a l IH ]; intros w; [ done | ]. cbn [prune]. destruct (max <? zlen (a :: l)); [ | done ].
  destruct (IH (unlink dir a w)) as [ E1 E2 ]. rewrite E1, E2.
  unfold unlink. destruct (name_in dir a); [ by destruct (can_unlink a) | done ].
Qed.

Lemma checkRotate_tracked lg w content : tracked lg w content -> exists lg' w',
  checkRotate (lg, w) = (Ok tt, (lg', w')) /\ lg' = set_file_params (file_params_ lg') lg /\ tracked lg' w' (rolled content) /\
  console w' = console w /\ syslogged w' = syslogged w.
Proof.
  intros [ Hl Hc ]. unfold rolled. destruct (limit <? zlen content) eqn:Hd.
  - pose proof (placed_stream true (zlen content)) as Hp'. rewrite (checkRotate_run _ name Hp' lg w content Hl Hd Hc).
    set (w1 := renamed name (clock (ticks w)) content w). cbn [with_stream directory max_file_trail]. do 2 eexists. split; [ done | ]. split; [ done | ]. split.
    + split; [ done | ]. pose proof (pruned_files _ name Hp' w1 name) as Hw. cbn [with_stream directory max_file_trail] in Hw. rewrite Hw, bool_decide_false.
      * cbn [files w1 renamed]. apply lookup_insert_eq.
      * intros Hn. apply pruned_rotated in Hn as [ Hr _ ]. by rewrite (active_not_rotated _ name Hp') in Hr.
    + destruct (prune_keeps (directory p) (max_file_trail p) (trail_of (with_stream true (zlen content) p) w1) w1) as [ -> -> ]. done.
  - exists lg, w. assert (Hrun : checkRotate (lg, w) = (Ok tt, (lg, w))).
    { unfold checkRotate. erewrite xbind_ok by reflexivity. cbv beta zeta. rewrite Hl. unfold rotation_due. cbn [with_stream max_size_mib filesize].
      fold limit. by rewrite Hd. }
    split_and!; [ done | by destruct lg | done | done | done ].
Qed.

Lemma append_file_run lg w content e : tracked lg w content ->
  append_file e (lg, w) = (Ok tt, (lg, set_files (<[name := content ++ e ++ [chr 10]]> (files w)) w)).
Proof.
  intros [ Hl Hc ]. unfold append_file. rewrite Hl. cbn [with_stream directory active_log file].
  rewrite (placed_active _ _ Hp), name_in_path, Hc. done.
Qed.

(** The size kept beside the stream does not wrap when an entry is added. *)
Definition fits (e : str) : Prop := limit + zlen e + 1 < 2 ^ 64.

Lemma rolled_fits content e : fits e -> u64 (zlen (rolled content) + (zlen e + 1)) = zlen (rolled content ++ e ++ [chr 10]) /\ zlen (rolled content) <= limit.
Proof.
  intros He. unfold fits in He. assert (Hlim : 0 <= limit) by (unfold limit; pose proof (u64_range (max_size_mib p * 1024 * 1024)); lia).
  assert (Hr : zlen (rolled content) <= limit) by (unfold rolled; destruct (Z.ltb_spec limit (zlen content)); [ done | done ]).
  split; [ | done ]. rewrite !zlen_app. change (zlen [chr 10]) with 1. rewrite u64_small by (unfold zlen in *; lia). lia.
Qed.

Lemma write_entry lg w content e : tracked lg w (rolled content) -> fits e -> exists lg' w',
  (let^ _ := append_file e in
   put_logger (fun lg => let p := file_params_ lg in set_file_params (with_stream (file p) (u64 (filesize p + (zlen e + 1))) p) lg)) (lg, w) = (Ok tt, (lg', w')) /\
  lg' = set_file_params (file_params_ lg') lg /\ tracked lg' w' (rolled content ++ e ++ [chr 10]) /\ console w' = console w /\ syslogged w' = syslogged w.
Proof.
  intros Ht He. destruct (rolled_fits content e He) as [ Hu _ ]. erewrite xbind_ok by (by apply append_file_run).
  do 2 eexists. split; [ done | ]. split; [ done | ]. split; [ | done ]. destruct Ht as [ Hl Hc ]. split.
  - cbn [file_params_ set_file_params]. rewrite Hl. cbn [with_stream file filesize]. by rewrite Hu.
  - cbn [files set_files]. apply lookup_insert_eq.
Qed.

(** The file part of [log]: an entry is written at the end of a log that is not over its
    limit; [entry] is the text the console got, if it did. *)
Lemma log_file_run level message entry lg w content : tracked lg w content ->
  (forall n, fits (entry_text lg (clock n) level message)) ->
  (entry = [] \/ exists n, entry = entry_text lg (clock n) level message) ->
  exists lg' w' n, let e := entry_text lg (clock n) level message in
    log_file (Ok app_name) level message entry (lg, w) = (Ok tt, (lg', w')) /\
    lg' = set_file_params (file_params_ lg') lg /\ tracked lg' w' (rolled content ++ e ++ [chr 10]) /\
    console w' = console w /\ syslogged w' = syslogged w /\ (entry = [] \/ e = entry).
Proof.
  intros Ht Hfit He. destruct (checkRotate_tracked lg w content Ht) as (lg1 & w1 & Hr & Hlg1 & Ht1 & Hc1 & Hs1).
  unfold log_file. rewrite (xbind_ok _ _ _ _ _ Hr). rewrite Hlg1 in Ht1 |- *. set (q := file_params_ lg1) in *. destruct He as [ -> | [ n -> ] ].
  - rewrite (xbind_ok _ _ _ _ _ (formatMessage_run level message _ w1)).
    destruct (write_entry (set_file_params q lg) (tick w1) content (entry_text lg (clock (ticks w1)) level message) Ht1 (Hfit _)) as (lg' & w' & Hrun & Hlg' & Ht' & Hc' & Hs').
    exists lg', w', (ticks w1). rewrite Hlg' in Hrun, Ht' |- *. split_and!; [ exact Hrun | done | done | by rewrite Hc' | by rewrite Hs' | by left ].
  - destruct (entry_text lg (clock n) level message) as [ | c r ] eqn:E; [ by destruct (entry_not_empty lg n level message) | ].
    erewrite xbind_ok by reflexivity. rewrite <- E.
    destruct (write_entry (set_file_params q lg) w1 content (entry_text lg (clock n) level message) Ht1 (Hfit _)) as (lg' & w' & Hrun & Hlg' & Ht' & Hc' & Hs').
    exists lg', w', n. rewrite Hlg' in Hrun, Ht' |- *. split_and!; [ exact Hrun | done | done | by rewrite Hc' | by rewrite Hs' | by right ].
Qed.

Definition threshold (lg : Logger) (d : Z) : LogLevel := default Fatal (levels_ lg !! d).
Definition to_console (lg : Logger) (m : LogLevel * str) : bool := level_le (fst m) (threshold lg Console).
Definition to_file (lg : Logger) (m : LogLevel * str) : bool := level_le (fst m) (threshold lg File).
Definition to_syslog (lg : Logger) (m : LogLevel * str) : bool := level_le (fst m) (threshold lg Syslog) && level_le (fst m) Info.
Definition syslog_line (f : Z) (m : LogLevel * str) : Z * str :=
  (Z.lor f (mapLeveltoSyslog (fst m)),
   c_string (app_name ++ lit "[" ++ print_int gettid ++ lit "]: " ++ LogLevelAsString (fst m) true ++ lit ": " ++ snd m)).

(** The same logger, but for its stream and for levels that were read. *)
Definition same_logger (a b : Logger) : Prop :=
  (forall d, threshold b d = threshold a d) /\ hostname_ b = hostname_ a /\ facility b = facility a.
#[local] Instance same_logger_preorder : PreOrder same_logger.
Proof.
  split; [ by split | ]. intros a b c (Ha & Hb & Hc) (Ha' & Hb' & Hc'). split_and!; [ | by rewrite Hb' | by rewrite Hc' ]. intros d. by rewrite Ha'.
Qed.

Lemma same_logger_files q lg : same_logger lg (set_file_params q lg).
Proof. by split. Qed.

Lemma same_logger_level lg d : same_logger lg (set_level d (threshold lg d) lg).
Proof.
  split; [ | done ]. intros d'. unfold threshold. cbn [levels_ set_level]. destruct (decide (d = d')) as [ -> | ]; [ by rewrite lookup_insert_eq | by rewrite lookup_insert_ne ].
Qed.

Lemma level_of_run d lg w : level_of d (lg, w) = (Ok (threshold lg d), (set_level d (threshold lg d) lg, w)).
Proof. done. Qed.

Lemma same_entry a b tv level message : same_logger a b -> entry_text b tv level message = entry_text a tv level message.
Proof. intros (_ & Hh & _). unfold entry_text. by rewrite Hh. Qed.

(** The flags are joined, not tested, so the file and the system log are always considered. *)
Lemma joined_flags d flag : 0 < flag -> (Z.lor d flag =? 0) = false.
Proof. intros Hf. apply Z.eqb_neq. intros E. apply Z.lor_eq_0_iff in E. lia. Qed.

(** The console part of [log]. *)
Lemma console_run level message lg w : exists w' entry,
  (if level_le level (threshold lg Console) then
     let^ e := formatMessage (Ok app_name) level message in
     let^ _ := put_world (fun w => mkWorld (files w) (console w ++ [e]) (syslogged w) (ticks w)) in xret e
   else xret []) (lg, w) = (Ok entry, (lg, w')) /\
  files w' = files w /\ syslogged w' = syslogged w /\
  (if to_console lg (level, message) then (exists n, entry = entry_text lg (clock n) level message) /\ console w' = console w ++ [entry]
   else entry = [] /\ console w' = console w).
Proof.
  unfold to_console. cbn [fst]. destruct (level_le level (threshold lg Console)); [ | by do 2 eexists ].
  do 2 eexists. split; [ done | ]. split; [ done | ]. split; [ done | ]. split; [ by eexists | done ].
Qed.

(** Where [log] stands before it turns to the system log. *)
Definition after_file (lg : Logger) (w : World) (content : str) (m : LogLevel * str) (lg' : Logger) (w' : World) : Prop :=
  same_logger lg lg' /\ syslogged w' = syslogged w /\ exists n, let e := entry_text lg (clock n) (fst m) (snd m) in
    console w' = console w ++ (if to_console lg m then [e] else []) /\
    tracked lg' w' (if to_file lg m then rolled content ++ e ++ [chr 10] else content).

Lemma log_prefix level message lg w content : tracked lg w content -> (forall n, fits (entry_text lg (clock n) level message)) ->
  exists lg' w', after_file lg w content (level, message) lg' w' /\
  log (Ok app_name) level message (lg, w) =
  (let^ sl := level_of Syslog in if level_le level sl && level_le level Info then log_syslog (Ok app_name) level message else xret tt) (lg', w').
Proof.
  intros Ht Hfit. unfold log. rewrite (xbind_ok _ _ _ _ _ (level_of_run Console lg w)).
  set (lg0 := set_level Console (threshold lg Console) lg). assert (Hs0 : same_logger lg lg0) by apply same_logger_level.
  assert (Ht0 : tracked lg0 w content) by exact Ht. destruct (console_run level message lg0 w) as (w1 & entry & Hrun & Hf1 & Hs1 & Hc1).
  unfold to_console in Hc1. cbn [fst] in Hc1. rewrite (proj1 Hs0 Console) in Hrun, Hc1. rewrite (xbind_ok _ _ _ _ _ Hrun).
  erewrite xbind_ok by reflexivity. rewrite !joined_flags by done. cbn [negb].
  set (lg1 := set_level File (threshold lg0 File) lg0). assert (Hs : same_logger lg lg1) by (etrans; [ exact Hs0 | apply same_logger_level ]).
  assert (Ht1 : tracked lg1 w1 content) by (destruct Ht as [ Hl Hc ]; split; [ done | by rewrite Hf1 ]).
  assert (Hfit1 : forall n, fits (entry_text lg1 (clock n) level message)) by (intros n; rewrite (same_entry lg lg1) by done; apply Hfit).
  assert (Hent : entry = [] \/ exists n, entry = entry_text lg1 (clock n) level message).
  { destruct (level_le level (threshold lg Console)); [ | by left; apply Hc1 ]. destruct Hc1 as [ [ n -> ] _ ]. right. by exists n. }
  destruct (level_le level (threshold lg0 File)) eqn:Hlf0; pose proof Hlf0 as Hlf; rewrite (proj1 Hs0 File) in Hlf.
  - destruct (log_file_run level message entry lg1 w1 content Ht1 Hfit1 Hent) as (lg2 & w2 & n & Hrun2 & Hlg2 & Ht2 & Hc2 & Hs2 & He2).
    exists lg2, w2. split; [ | by erewrite xbind_ok; [ | erewrite xbind_ok by apply level_of_run; rewrite Hlf0; exact Hrun2 ] ].
    split; [ rewrite Hlg2; etrans; [ exact Hs | apply same_logger_files ] | ]. split; [ by rewrite Hs2, Hs1 | ]. exists n. cbn [fst snd].
    rewrite <- (same_entry lg lg1) by done. unfold to_file, to_console. cbn [fst]. rewrite Hlf. split; [ | done ]. rewrite Hc2.
    destruct (level_le level (threshold lg Console)); [ | rewrite app_nil_r; apply Hc1 ]. destruct Hc1 as [ [ k Hk ] -> ].
    destruct He2 as [ -> | -> ]; [ | done ]. by destruct (entry_not_empty lg0 k level message).
  - exists lg1, w1. split; [ | by erewrite xbind_ok; [ | erewrite xbind_ok by apply level_of_run; rewrite Hlf0; reflexivity ] ].
    split; [ done | ]. split; [ done | ]. unfold to_file, to_console. cbn [fst snd]. rewrite Hlf.
    destruct (level_le level (threshold lg Console)); [ destruct Hc1 as [ [ k Hk ] -> ]; exists k; by rewrite Hk, (same_entry lg lg0) | exists 0%nat; rewrite app_nil_r; by destruct Hc1 ].
Qed.

Lemma log_step f level message lg w content : tracked lg w content -> (to_syslog lg (level, message) = true -> facility lg = Some f) ->
  (forall n, fits (entry_text lg (clock n) level message)) ->
  exists lg' w' n, let m := (level, message) in let e := entry_text lg (clock n) level message in
    log (Ok app_name) level message (lg, w) = (Ok tt, (lg', w')) /\ same_logger lg lg' /\
    console w' = console w ++ (if to_console lg m then [e] else []) /\
    syslogged w' = syslogged w ++ (if to_syslog lg m then [syslog_line f m] else []) /\
    tracked lg' w' (if to_file lg m then rolled content ++ e ++ [chr 10] else content).
Proof.
  intros Ht Hf Hfit. destruct (log_prefix level message lg w content Ht Hfit) as (lg1 & w1 & (Hs & Hsys & n & Hc & Ht1) & ->).
  rewrite (xbind_ok _ _ _ _ _ (level_of_run Syslog lg1 w1)). rewrite (proj1 Hs Syslog). unfold to_syslog in *. cbn [fst] in *.
  set (lg2 := set_level Syslog (threshold lg Syslog) lg1). assert (Hs2 : same_logger lg lg2).
  { unfold lg2. rewrite <- (proj1 Hs Syslog). etrans; [ exact Hs | apply same_logger_level ]. }
  destruct (level_le level (threshold lg Syslog) && level_le level Info).
  - unfold log_syslog. do 2 erewrite xbind_ok by reflexivity. rewrite (proj2 (proj2 Hs2)), Hf by done.
    exists lg2. eexists. exists n. split; [ done | ]. split; [ done | ]. split; [ exact Hc | ]. split; [ cbn [syslogged]; by rewrite Hsys | done ].
  - exists lg2, w1, n. rewrite app_nil_r. done.
Qed.

Fixpoint log_all (msgs : list (LogLevel * str)) : X (Logger * World) unit :=
  match msgs with
  | [] => xret tt
  | (level, message) :: rest => let^ _ := log (Ok app_name) level message in log_all rest
  end.

(** The log file as entries arrive: a file over its limit is first set aside. *)
Definition file_append (content e : str) : str := rolled content ++ e ++ [chr 10].
Definition entry_of (lg : Logger) (m : LogLevel * str) (e : str) : Prop := exists n, e = entry_text lg (clock n) (fst m) (snd m).

Lemma to_console_same a b msgs : same_logger a b -> List.filter (to_console b) msgs = List.filter (to_console a) msgs.
Proof. intros Hs. apply List.filter_ext. intros m. unfold to_console. by rewrite (proj1 Hs). Qed.
Lemma to_file_same a b msgs : same_logger a b -> List.filter (to_file b) msgs = List.filter (to_file a) msgs.
Proof. intros Hs. apply List.filter_ext. intros m. unfold to_file. by rewrite (proj1 Hs). Qed.
Lemma to_syslog_same a b msgs : same_logger a b -> List.filter (to_syslog b) msgs = List.filter (to_syslog a) msgs.
Proof. intros Hs. apply List.filter_ext. intros m. unfold to_syslog. by rewrite (proj1 Hs). Qed.

Lemma entries_same a b msgs es : same_logger a b -> Forall2 (entry_of b) msgs es -> Forall2 (entry_of a) msgs es.
Proof. intros Hs Hf. eapply Forall2_impl; [ exact Hf | ]. intros m e [ n -> ]. exists n. by apply same_entry. Qed.

Lemma log_all_run f msgs : forall lg w content, tracked lg w content -> Forall (fun m => to_syslog lg m = true -> facility lg = Some f) msgs ->
  Forall (fun m => forall n, fits (entry_text lg (clock n) (fst m) (snd m))) msgs ->
  exists lg' w' shown written,
    log_all msgs (lg, w) = (Ok tt, (lg', w')) /\
    Forall2 (entry_of lg) (List.filter (to_console lg) msgs) shown /\ console w' = console w ++ shown /\
    syslogged w' = syslogged w ++ map (syslog_line f) (List.filter (to_syslog lg) msgs) /\
    Forall2 (entry_of lg) (List.filter (to_file lg) msgs) written /\ tracked lg' w' (fold_left file_append written content).
Proof.
  induction msgs as [ | [ level message ] msgs IH ]; intros lg w content Ht Hf Hfit.
  { exists lg, w, [], []. rewrite !app_nil_r. by split_and!. }
  apply Forall_cons in Hfit as [ Hm Hfit ]. apply Forall_cons in Hf as [ Hf1 Hf ]. destruct (log_step f level message lg w content Ht Hf1 Hm) as (lg1 & w1 & n & Hrun & Hs & Hc & Hy & Ht1).
  destruct (IH lg1 w1 _ Ht1) as (lg2 & w2 & shown & written & Hrun2 & Hsh & Hc2 & Hy2 & Hw & Ht2).
  { eapply Forall_impl; [ exact Hf | ]. intros m. unfold to_syslog. by rewrite (proj1 Hs), (proj2 (proj2 Hs)). }
  { eapply Forall_impl; [ exact Hfit | ]. intros m Hx k. by rewrite (same_entry lg lg1). }
  rewrite (to_console_same lg lg1) in Hsh by done. rewrite (to_file_same lg lg1) in Hw by done. rewrite (to_syslog_same lg lg1) in Hy2 by done.
  apply (entries_same lg lg1) in Hsh, Hw; [ | done | done ]. set (e := entry_text lg (clock n) level message) in *.
  exists lg2, w2, ((if to_console lg (level, message) then [e] else []) ++ shown), ((if to_file lg (level, message) then [e] else []) ++ written).
  cbn [log_all List.filter]. rewrite (xbind_ok _ _ _ _ _ Hrun), Hc2, Hy2, Hc, Hy, <- !(assoc_L (++)).
  assert (He : entry_of lg (level, message) e) by by exists n. split_and!; [ done | | done | | | ].
  - destruct (to_console lg (level, message)); [ by constructor | done ].
  - by destruct (to_syslog lg (level, message)).
  - destruct (to_file lg (level, message)); [ by constructor | done ].
  - by destruct (to_file lg (level, message)).
Qed.

Lemma file_append_bound B written content : Forall (fun e => zlen e + 1 <= B) written -> zlen content <= limit + B ->
  zlen (fold_left file_append written content) <= limit + B.
Proof.
  revert content. induction written as [ | e written IH ]; intros content Hw Hc; [ done | ]. apply Forall_cons in Hw as [ He Hw ]. cbn [fold_left]. apply IH; [ done | ].
  unfold file_append. rewrite !zlen_app. change (zlen [chr 10]) with 1. unfold rolled. pose proof (u64_range (max_size_mib p * 1024 * 1024)). fold limit in *.
  destruct (Z.ltb_spec limit (zlen content)); [ change (@zlen ascii []) with 0 | ]; lia.
Qed.

(** C15 A sequence of messages to a logger with an open log file, on a path of the shape of
    [placed], and any thresholds, and with its facility set if one of the messages is for
    the system log, as every fatal message is (otherwise [fatal_reads_unset_facility]):
    every call succeeds, and each destination gets exactly the messages of its level or
    more severe, in their order.  The file holds what arrived since it was last over its
    limit, its recorded size is exact, and it never exceeds the limit by more than the
    longest entry. *)
Theorem messages_reach_destinations f msgs lg w content B : tracked lg w content -> Forall (fun m => to_syslog lg m = true -> facility lg = Some f) msgs ->
  Forall (fun m => forall n, zlen (entry_text lg (clock n) (fst m) (snd m)) + 1 <= B) msgs -> limit + B < 2 ^ 64 -> zlen content <= limit + B ->
  exists lg' w' shown written,
    log_all msgs (lg, w) = (Ok tt, (lg', w')) /\
    Forall2 (entry_of lg) (List.filter (to_console lg) msgs) shown /\ console w' = console w ++ shown /\
    syslogged w' = syslogged w ++ map (syslog_line f) (List.filter (to_syslog lg) msgs) /\
    Forall2 (entry_of lg) (List.filter (to_file lg) msgs) written /\
    let content' := fold_left file_append written content in
    tracked lg' w' content' /\ zlen content' <= limit + B.
Proof.
  intros Ht Hf Hm Hlim Hc. destruct (log_all_run f msgs lg w content Ht Hf) as (lg' & w' & shown & written & Hrun & Hs & Hcon & Hy & Hw & Ht').
  { eapply Forall_impl; [ exact Hm | ]. intros m Hb n. specialize (Hb n). unfold fits. lia. }
  exists lg', w', shown, written. cbv zeta. split_and!; try done. apply file_append_bound; [ | done ].
  apply Forall_forall. intros e He. apply list_elem_of_lookup in He as [ i Hi ]. destruct (Forall2_lookup_r _ _ _ _ _ Hw Hi) as (m & Hin & n & ->).
  apply list_elem_of_lookup_2 in Hin.
  rewrite list_elem_of_In, filter_In, <- list_elem_of_In in Hin. rewrite Forall_forall in Hm. by apply (Hm m), Hin.
Qed.

(** A fatal message to a logger whose configuration names no system log: the file and
    the console get it, and the call then reads the facility, which was never set. *)
Theorem fatal_reads_unset_facility message lg w content : tracked lg w content ->
  levels_ lg !! Syslog = None -> facility lg = None -> (forall n, fits (entry_text lg (clock n) Fatal message)) ->
  exists lg' w' n, log (Ok app_name) Fatal message (lg, w) = (Throw (UndefinedBehaviour (lit "read of an indeterminate int")), (lg', w')) /\
    console w' = console w ++ [entry_text lg (clock n) Fatal message] /\
    tracked lg' w' (file_append content (entry_text lg (clock n) Fatal message)).
Proof.
  intros Ht Hl Hf Hfit. destruct (log_prefix Fatal message lg w content Ht Hfit) as (lg1 & w1 & (Hs & Hsys & n & Hc & Ht1) & ->).
  rewrite (xbind_ok _ _ _ _ _ (level_of_run Syslog lg1 w1)), (proj1 Hs Syslog). unfold threshold at 1. rewrite Hl. cbn [default level_le level_value Z.leb andb].
  change (level_le Fatal Fatal && level_le Fatal Info) with true. cbv iota. unfold log_syslog. do 2 erewrite xbind_ok by reflexivity.
  assert (Hnone : facility lg1 = None) by by rewrite (proj2 (proj2 Hs)). cbn [facility set_level]. rewrite Hnone.
  assert (Hall : forall d, level_le Fatal (threshold lg d) = true) by (intros d; by destruct (threshold lg d)).
  unfold to_console, to_file in *. cbn [fst snd] in *. rewrite Hall in Hc, Ht1. do 2 eexists. exists n. split; [ done | ]. split; [ exact Hc | exact Ht1 ].
Qed.
End Logging.

(** ** Starting the logger *)

Section Starting.
Context `{LogEnv} `{Yaml} (path : str) (yaml : node).

(** The settings a configuration with a log file gives; [None] for no system log. *)
Record settings : Type := mkSettings {
  s_app : str; s_console : str; s_level : str; s_directory : str; s_size : Z; s_trail : Z; s_syslog : option (Z * str);
}.

Record configured (s : settings) : Prop := mkConfigured {
  conf_app : getAppName path yaml = Ok (s_app s);
  conf_console : config_string path yaml config_dodo_common_logger_console_level = Ok (s_console s);
  conf_file : config_exists yaml config_dodo_common_logger_file = Ok true;
  conf_level : config_string path yaml config_dodo_common_logger_file_level = Ok (s_level s);
  conf_directory : config_string path yaml config_dodo_common_logger_file_directory = Ok (s_directory s);
  conf_size : config_size path yaml config_dodo_common_logger_file_max_size_mib 10 = Ok (s_size s);
  conf_trail : config_size path yaml config_dodo_common_logger_file_max_file_trail 4 = Ok (s_trail s);
  conf_syslog : match s_syslog s with
    | None => config_exists yaml config_dodo_common_logger_syslog = Ok false
    | Some (fac, level) =>
        config_exists yaml config_dodo_common_logger_syslog = Ok true /\
        (let! b := config_exists yaml config_dodo_common_logger_syslog_facility in
         if b : bool then getValue as_int path yaml config_dodo_common_logger_syslog_facility else Ok 1) = Ok fac /\
        config_string path yaml config_dodo_common_logger_syslog_level = Ok level
    end;
}.

Definition log_name (s : settings) : str := s_app s ++ lit ".log".
Definition log_params (s : settings) : FileParams :=
  mkFileParams (s_directory s) (s_size s) (s_trail s) (path_in (s_directory s) (log_name s)) false 0.

Lemma getFileParams_run s lg w : configured s -> directoryExists (s_directory s) = true -> directoryWritable (s_directory s) = true ->
  let content := default [] (files w !! log_name s) in
  let lg1 := set_level File (StringAsLogLevel (s_level s)) lg in
  getFileParams path yaml (lg, w) =
  if can_open (path_in (s_directory s) (log_name s))
  then (Ok tt, (set_file_params (with_stream true (zlen content) (log_params s)) lg1, set_files (<[log_name s := content]> (files w)) w))
  else (Throw (DodoException (lit "failed to open '" ++ path_in (s_directory s) (log_name s) ++ lit "' for writing")),
        (set_file_params (with_stream false (zlen content) (log_params s)) lg1, w)).
Proof.
  intros [] Hex Hwr. unfold getFileParams, value_of. erewrite xbind_ok by (by rewrite conf_level0). erewrite xbind_ok by reflexivity.
  erewrite xbind_ok by (by rewrite conf_directory0). erewrite xbind_ok by (by rewrite conf_size0). erewrite xbind_ok by (by rewrite conf_trail0).
  rewrite Hex, Hwr. cbn [negb]. erewrite xbind_ok by (by rewrite conf_app0). erewrite xbind_ok by reflexivity.
  change (s_directory s ++ lit "/" ++ s_app s ++ lit ".log") with (path_in (s_directory s) (log_name s)).
  unfold xbind, open_active. cbn [file_params_ set_file_params directory active_log]. rewrite name_in_path.
  destruct (can_open (path_in (s_directory s) (log_name s))); unfold getFileSize; cbn [file_params_ set_file_params directory active_log with_stream]; rewrite name_in_path; cbn [files set_files].
  - by rewrite lookup_insert_eq.
  - unfold get_logger, xthrow. cbn [file_params_ set_file_params file with_stream negb]. by destruct (files w !! log_name s).
Qed.

Lemma construct_syslog_run s lg w : configured s ->
  construct_syslog path yaml (lg, w) =
  match s_syslog s with
  | None => (Ok tt, (lg, w))
  | Some (fac, level) =>
      (if level_le (StringAsLogLevel level) Info then Ok tt else Throw (DodoException (lit "syslog LogLevel cannot be higher than info")),
       (set_level Syslog (StringAsLogLevel level) (set_facility fac (set_destinations (Z.lor (destinations_ lg) Syslog) lg)), w))
  end.
Proof.
  intros []. unfold construct_syslog, value_of. destruct (s_syslog s) as [ [ fac level ] | ]; [ | by erewrite xbind_ok by (by rewrite conf_syslog0) ].
  destruct conf_syslog0 as (Hs & Hf & Hl). erewrite xbind_ok by (by rewrite Hs). cbv iota. erewrite xbind_ok by reflexivity.
  destruct (config_exists yaml config_dodo_common_logger_syslog_facility) as [ b | | ]; try done. cbn [obind] in Hf.
  erewrite xbind_ok by reflexivity. erewrite xbind_ok by (by rewrite Hf). erewrite xbind_ok by reflexivity.
  erewrite xbind_ok by (by rewrite Hl). erewrite xbind_ok by reflexivity. by destruct (level_le (StringAsLogLevel level) Info).
Qed.

Lemma construct_file_run s w : configured s ->
  construct_body path yaml (mkLogger Console ∅ gethostname FileParams_new None, w) =
  (let^ _ := getFileParams path yaml in construct_syslog path yaml)
    (mkLogger (Z.lor Console File) {[ Console := StringAsLogLevel (s_console s) ]} gethostname FileParams_new None, w).
Proof.
  intros []. unfold construct_body, value_of. erewrite xbind_ok by (by rewrite conf_console0). erewrite xbind_ok by reflexivity.
  erewrite xbind_ok by (by rewrite conf_file0). done.
Qed.

(** What a logger just started has. *)
Record started (s : settings) (w : World) (lg : Logger) (w' : World) : Prop := mkStarted {
  started_tracked : tracked (log_params s) (log_name s) lg w' (default [] (files w !! log_name s));
  started_console : levels_ lg !! Console = Some (StringAsLogLevel (s_console s));
  started_file : levels_ lg !! File = Some (StringAsLogLevel (s_level s));
  started_syslog : levels_ lg !! Syslog = StringAsLogLevel ∘ snd <$> s_syslog s;
  started_facility : facility lg = fst <$> s_syslog s;
  started_host : hostname_ lg = gethostname;
  started_others : forall n, n <> log_name s -> files w' !! n = files w !! n;
}.

Definition syslog_coarse (s : settings) : bool :=
  match s_syslog s with Some (_, level) => level_le (StringAsLogLevel level) Info | None => true end.

(** Starting the logger on a configuration with a log file, in a directory that exists
    and is writable: it succeeds exactly when the file can be opened and the level of the
    system log, if there is one, is no finer than info.  The logger it yields has the
    configured levels and facility, and its stream is at the end of the existing log, whose
    size it recorded. *)
Theorem logger_starts s w : configured s -> directoryExists (s_directory s) = true -> directoryWritable (s_directory s) = true ->
  let '(o, (ptr, w')) := Logger_initialize path yaml None w in
  if can_open (path_in (s_directory s) (log_name s)) && syslog_coarse s
  then exists lg, o = Ok lg /\ getLogger ptr = Ok lg /\ started s w lg w'
  else (exists e, o = Throw (DodoException e)) /\ exists e, getLogger ptr = Throw (DodoException e).
Proof.
  intros Hc Hex Hwr. unfold Logger_initialize, Logger_new. rewrite (construct_file_run s) by done. unfold xbind.
  rewrite (getFileParams_run s) by done. destruct (can_open _); cbn [andb]; [ | split; by eexists ].
  rewrite (construct_syslog_run s) by done. unfold syslog_coarse. destruct (s_syslog s) as [ [ fac level ] | ] eqn:Hsys.
  - destruct (level_le _ Info); [ | split; by eexists ]. eexists. split; [ done | ]. split; [ done | ]. split; try done; try (by rewrite Hsys).
    + split; [ done | ]. cbn [files set_files]. apply lookup_insert_eq.
    + intros n Hn. cbn [files set_files]. by rewrite lookup_insert_ne.
  - eexists. split; [ done | ]. split; [ done | ]. split; try done; try (by rewrite Hsys).
    + split; [ done | ]. cbn [files set_files]. apply lookup_insert_eq.
    + intros n Hn. cbn [files set_files]. by rewrite lookup_insert_ne.
Qed.
End Starting.

(** ** A machine with two rotated logs *)

Module DemoLogger.
Definition second (n : nat) : timeval := mkTimeval (1700000000 + Z.of_nat n) 0.
Definition noon : timeval := mkTimeval 1700000100 0.
#[export] Instance machine : LogEnv := {|
  clock _ := noon;
  gethostname := lit "host";
  gettid := 7;
  stat_directory _ := true;
  stat_writable _ := true;
  can_open _ := true;
  can_rename _ _ := true;
  can_unlink _ := true;
  regex_match _ _ := false;
|}.

Definition demo_name : str := lit "app.log".
Definition demo_params : FileParams := mkFileParams (lit "/var/log") 0 2 (lit "/var/log/app.log") true 3.
Definition demo_files : gmap str str :=
  list_to_map [(demo_name, lit "abc"); (rotated_name demo_name (second 1), lit "one"); (rotated_name demo_name (second 2), lit "two"); (lit "other", lit "x")].
Definition demo_world : World := mkWorld demo_files [] [] 0.
Definition demo_logger (f : option Z) : Logger := mkLogger 3 {[ Console := Info; File := Info ]} (lit "host") demo_params f.

Lemma demo_placed : placed demo_params demo_name.
Proof. split; try (vm_compute; reflexivity); try done. exists "g"%char. by vm_compute. Qed.

Lemma demo_valid n : valid_time (clock n).
Proof. unfold valid_time, last_second. cbn [clock machine noon tv_sec tv_usec]. lia. Qed.

Lemma demo_stamped : stamped demo_params demo_name noon demo_world.
Proof.
  intros n Hr [ c Hc ]. cbn [files demo_world] in Hc. apply elem_of_list_to_map_2 in Hc. rewrite !elem_of_cons in Hc.
  destruct Hc as [ E | [ E | [ E | [ E | E ] ] ] ]; [ | | | | by apply not_elem_of_nil in E ]; injection E as -> _.
  - exfalso. revert Hr. vm_compute. done.
  - exists (second 1). split; [ unfold valid_time, last_second; cbn [tv_sec tv_usec second]; lia | ]. split; [ reflexivity | unfold no_later; cbn [tv_sec tv_usec second noon]; lia ].
  - exists (second 2). split; [ unfold valid_time, last_second; cbn [tv_sec tv_usec second]; lia | ]. split; [ reflexivity | unfold no_later; cbn [tv_sec tv_usec second noon]; lia ].
  - exfalso. revert Hr. vm_compute. done.
Qed.

Lemma rotation_keeps_newest_witness : exists w', checkRotate (demo_logger None, demo_world) = (Ok tt, (set_file_params (with_stream true 0 demo_params) (demo_logger None), w')) /\
  zlen (rotated_names demo_params w') = 2.
Proof.
  destruct (rotation_keeps_newest demo_params demo_name demo_placed (demo_logger None) demo_world (lit "abc")) as (w' & Hrun & _ & _ & _ & Hn & _);
    [ reflexivity | vm_compute; reflexivity | vm_compute; reflexivity | apply (demo_valid 0) | exact demo_stamped | vm_compute; reflexivity | ].
  exists w'. split; [ exact Hrun | rewrite Hn; vm_compute; reflexivity ].
Defined.

Definition slash_params : FileParams := mkFileParams (lit "/var/log/") 0 0 (lit "/var/log//app.log") true 3.
Definition slash_logger : Logger := mkLogger 3 {[ Console := Info; File := Info ]} (lit "host") slash_params None.

Lemma demo_file_names n : is_Some (files demo_world !! n) -> file_name n.
Proof.
  intros [ c Hc ]. cbn [files demo_world] in Hc. apply elem_of_list_to_map_2 in Hc. rewrite !elem_of_cons in Hc.
  destruct Hc as [ E | [ E | [ E | [ E | E ] ] ] ]; [ | | | | by apply not_elem_of_nil in E ]; injection E as -> _; by vm_compute.
Qed.

Lemma trailing_slash_keeps_all_witness : exists lg' w', checkRotate (slash_logger, demo_world) = (Ok tt, (lg', w')) /\
  files w' !! rotated_name demo_name (second 1) = Some (lit "one").
Proof.
  destruct (trailing_slash_keeps_all slash_params (lit "/var/log") demo_name slash_logger demo_world (lit "abc")) as (lg' & w' & Hrun & _ & _ & Hall);
    [ reflexivity | reflexivity | by vm_compute | reflexivity | reflexivity | reflexivity | exact demo_file_names | reflexivity | by vm_compute | by vm_compute | by vm_compute | ].
  exists lg', w'. split; [ exact Hrun | ]. apply Hall; by vm_compute.
Defined.

Lemma demo_tracked f : tracked demo_params demo_name (demo_logger f) demo_world (lit "abc").
Proof. split; [ by vm_compute | by vm_compute ]. Qed.

Lemma messages_reach_destinations_witness : exists lg' w', log_all (lit "app") [(Error, lit "e"); (Debug, lit "d"); (Info, lit "i")] (demo_logger (Some 8), demo_world) = (Ok tt, (lg', w')).
Proof.
  destruct (messages_reach_destinations demo_params demo_name (lit "app") demo_placed demo_valid 8 [(Error, lit "e"); (Debug, lit "d"); (Info, lit "i")]
              (demo_logger (Some 8)) demo_world (lit "abc") 100) as (lg' & w' & _ & _ & Hrun & _);
    [ exact (demo_tracked (Some 8)) | repeat (apply Forall_cons; split; [ intros _; reflexivity | ]); by apply Forall_nil | repeat (apply Forall_cons; split; [ intros n; vm_compute; done | ]); by apply Forall_nil | vm_compute; reflexivity | vm_compute; done | ].
  exists lg', w'. exact Hrun.
Defined.

Lemma fatal_reads_unset_facility_witness : exists lg' w', log (Ok (lit "app")) Fatal (lit "m") (demo_logger None, demo_world) = (Throw (UndefinedBehaviour (lit "read of an indeterminate int")), (lg', w')).
Proof.
  destruct (fatal_reads_unset_facility demo_params demo_name (lit "app") demo_placed demo_valid (lit "m") (demo_logger None) demo_world (lit "abc")) as (lg' & w' & _ & Hrun & _);
    [ exact (demo_tracked None) | vm_compute; reflexivity | reflexivity | intros n; vm_compute; reflexivity | ].
  exists lg', w'. exact Hrun.
Defined.

Definition demo_settings : settings := mkSettings (lit "app") (lit "info") (lit "info") (lit "/var/log") 10 4 None.

Lemma logger_starts_witness : exists lg, fst (Logger_initialize (lit "app.yaml") DemoYaml.sample None demo_world) = Ok lg /\ facility lg = None.
Proof.
  pose proof (logger_starts (lit "app.yaml") DemoYaml.sample demo_settings demo_world) as Hs.
  destruct (Logger_initialize (lit "app.yaml") DemoYaml.sample None demo_world) as [ o [ ptr w' ] ].
  destruct Hs as (lg & -> & _ & Hst); [ split; vm_compute; reflexivity | reflexivity | reflexivity | ].
  exists lg. split; [ reflexivity | exact (started_facility _ _ _ _ Hst) ].
Defined.
End DemoLogger.
