(* ===== verification/Application.v ===== *)
(** * Application: start, signals and end of a process

    Models src/src/include/common/application.hpp, src/src/lib/common/application.cpp, the
    initialisation functions of src/src/include/dodo.hpp, common/common.hpp and
    network/network.hpp, and [fileReadAccess] of src/src/lib/common/util.cpp.

    A [Process] has the static members the classes share: the application, the singletons
    of [Config] and [Logger], and what the logger writes to.  The files of the host, the
    environment and the seeding of OpenSSL are the class [Host]. *)

From S2P Require Import Prelude.
From S2P Require Import SystemError.
From S2P Require Import Bytes.
From S2P Require Import Util.
From S2P Require Import Calendar.
From S2P Require Import Config.
From S2P Require Import Logger.

Local Open Scope Z_scope.

Inductive HostType : Type := BareMetal | Docker | VirtualBox | VMWare | KVM | GenericVM.
#[export] Instance HostType_eq_dec : EqDecision HostType.
Proof. solve_decision. Defined.

Definition getHostTypeAsString (ht : HostType) : str :=
  match ht with
  | BareMetal => lit "bare metal"
  | Docker => lit "Docker container"
  | VirtualBox => lit "VirtualBox"
  | VMWare => lit "VMWare"
  | KVM => lit "KVM"
  | GenericVM => lit "Generic VM"
  end.

Definition SIGINT : Z := 2.
Definition SIGQUIT : Z := 3.
Definition SIGTERM : Z := 15.

Class Host := {
  rand_load_file : str -> Z -> Z;          (** RAND_load_file: the octets read *)
  stat_regular : str -> bool;              (** stat succeeds and S_ISREG *)
  access_read : str -> bool;               (** access( F_OK | R_OK ) answers 0 *)
  host_file : str -> option str;           (** the content of a file that can be opened *)
  secure_getenv : str -> option str;
}.

(** [std::regex_match( line, ^flags.*:.*hypervisor )]: the whole line matches. *)
Definition hypervisor_line (line : str) : bool :=
  let inner := drop 5 (take (length line - 10) line) in
  bool_decide (take 5 line = lit "flags") && bool_decide (drop (length line - 10) line = lit "hypervisor") && (15 <? zlen line) &&
  existsb (fun c => c =c ":"%char) inner && forallb in_line inner.

Section Host.
Context `{Host}.

Definition fileReadAccess (path : str) : bool := stat_regular (c_string path) && access_read (c_string path).

(** [fileReadStrings( path, exp )] of a file of the host. *)
Definition lines_of (path : str) (matches : str -> bool) : outcome (list str) := fileReadStrings_regex path matches (host_file (c_string path)).
Definition is_line (text : str) (line : str) : bool := bool_decide (line = text).

Definition initcgroup : str := lit "/proc/1/cgroup".
Definition product_name : str := lit "/sys/class/dmi/id/product_name".
Definition cpuinfo : str := lit "/proc/cpuinfo".

(** [if ( res.size() == 1 ) return ..], otherwise the rest. *)
Definition one_line (path text : str) (found : HostType) (rest : outcome HostType) : outcome HostType :=
  let! res := lines_of path (is_line text) in if zlen res =? 1 then Ok found else rest.

Definition detect_cpu : outcome HostType :=
  if fileReadAccess cpuinfo then
    let! res := lines_of cpuinfo hypervisor_line in if 0 <? zlen res then Ok GenericVM else Ok BareMetal
  else Ok BareMetal.

Definition detect_product : outcome HostType :=
  if fileReadAccess product_name then
    one_line product_name (lit "VirtualBox") VirtualBox (
    one_line product_name (lit "VMware Virtual Platform") VMWare (
    one_line product_name (lit "KVM") KVM detect_cpu))
  else detect_cpu.

Definition detectHostType : outcome HostType :=
  if fileReadAccess initcgroup then one_line initcgroup (lit "0::/docker") Docker detect_product else detect_product.
End Host.

Section Application.
Context `{Host} `{Yaml} `{LogEnv}.

Record App : Type := mkApp { has_stop_request_ : bool; hosttype_ : option HostType }.

(** The static members of the process.  [freed]: the singletons were deleted, the pointers
    to them are not null.  [locked]: the interrupted thread holds the mutex of the logger. *)
Record Process : Type := mkProcess {
  application_ : option App;
  handlers : list Z;
  config_s : Singleton;
  logger_ : option Logger;
  world : World;
  freed : bool;
}.
Definition with_app (a : App) (p : Process) : Process := mkProcess (Some a) (handlers p) (config_s p) (logger_ p) (world p) (freed p).

(** [common::initLibrary]; the other parts of [dodo::initLibrary] only call OpenSSL. *)
Definition initLibrary : outcome unit :=
  if rand_load_file (lit "/dev/urandom") 32 =? 32 then Ok tt else Throw (DodoException (lit "unable to seed from /dev/urandom")).

Definition run_outcome {A} (o : outcome A) : X Process A := fun p => (o, p).

Definition installSignalHandlers : X Process unit :=
  xmodify (fun p => mkProcess (application_ p) [SIGINT; SIGQUIT; SIGTERM] (config_s p) (logger_ p) (world p) (freed p)).

Definition start_config (path : str) : X Process Config := fun p =>
  let (o, s) := initialize host_file secure_getenv path (config_s p) in
  (o, mkProcess (application_ p) (handlers p) s (logger_ p) (world p) (freed p)).

(** [Config::getConfig()->getAppName()] *)
Definition app_name (s : Singleton) : outcome str := let! c := getConfig s in getAppName (path_ s) (yaml_ c).

Definition start_logger : X Process unit := fun p =>
  match getConfig (config_s p) with
  | Ok c => let '(o, (l, w)) := Logger_initialize (path_ (config_s p)) (yaml_ c) (logger_ p) (world p) in
            (let! _ := o in Ok tt, mkProcess (application_ p) (handlers p) (config_s p) l w (freed p))
  | Throw e => (Throw e, p)
  | OutOfFuel => (OutOfFuel, p)
  end.

(** A call of the logger; [locked] when the calling thread already holds its mutex. *)
Definition call_logger (locked : bool) (level : LogLevel) (message : str) : X Process unit := fun p =>
  match getLogger (logger_ p) with
  | Throw e => (Throw e, p)
  | OutOfFuel => (OutOfFuel, p)
  | Ok lg =>
      if freed p then (Throw (UndefinedBehaviour (lit "use of a deleted object")), p)
      else if locked then (Throw (UndefinedBehaviour (lit "lock of a mutex the thread holds")), p)
      else let '(o, (lg', w')) := log (app_name (config_s p)) level message (lg, world p) in
           (o, mkProcess (application_ p) (handlers p) (config_s p) (Some lg') w' (freed p))
  end.

Definition Application_new (path : str) : X Process unit :=
  let^ _ := xmodify (with_app (mkApp false None)) in
  let^ _ := run_outcome initLibrary in
  let^ _ := installSignalHandlers in
  let^ host := run_outcome detectHostType in
  let^ _ := xmodify (with_app (mkApp false (Some host))) in
  let^ c := start_config path in
  let^ _ := start_logger in
  let^ name := (fun p => (getAppName (path_ (config_s p)) (yaml_ c), p)) in
  call_logger false Info (name ++ lit " started (" ++ getHostTypeAsString host ++ lit ")").

(** [~Application]: the singletons are deleted, their pointers kept. *)
Definition Application_delete : X Process unit := fun p =>
  match logger_ p, config_ (config_s p) with
  | None, None => (Ok tt, p)
  | l, _ =>
      if freed p then (Throw (UndefinedBehaviour (lit "delete of a deleted object")), p)
      else (Ok tt, mkProcess (application_ p) (handlers p) (config_s p)
                     (match l with Some lg => Some (fst (snd (Logger_delete (lg, world p)))) | None => None end) (world p) true)
  end.

Definition stops (signal : Z) : bool := (signal =? SIGINT) || (signal =? SIGQUIT) || (signal =? SIGTERM).

(** [onSignal] of the running application, called by [signal_handler]. *)
Definition onSignal (locked : bool) (signal : Z) : X Process unit :=
  let^ _ := call_logger locked Warning (lit "caught signal " ++ print_int signal) in
  if stops signal then
    xmodify (fun p => match application_ p with Some a => with_app (mkApp true (hosttype_ a)) p | None => p end)
  else xret tt.

Definition signal_handler (locked : bool) (signal : Z) : X Process unit := fun p =>
  match application_ p with
  | None => (Throw (UndefinedBehaviour (lit "null pointer")), p)
  | Some _ => onSignal locked signal p
  end.

Definition hasStopRequest (p : Process) : bool := match application_ p with Some a => has_stop_request_ a | None => false end.
Definition getHostType (p : Process) : option HostType := match application_ p with Some a => hosttype_ a | None => None end.

(** ** A running application *)

Section Running.
Context (s : settings) (Hp : placed (log_params s) (log_name s)) (Htime : forall n, valid_time (clock n)).
Abbreviation params := (log_params s).
Abbreviation name := (log_name s).

(** The text of an entry, on this host. *)
Definition line (tv : timeval) (level : LogLevel) (message : str) : str :=
  entry_text (s_app s) (mkLogger 0 ∅ gethostname FileParams_new None) tv level message.

(** The logger is up, and a facility is set if other than fatal messages go to the system log. *)
Record up (p : Process) (lg : Logger) (content : str) : Prop := mkUp {
  up_logger : logger_ p = Some lg;
  up_live : freed p = false;
  up_name : app_name (config_s p) = Ok (s_app s);
  up_tracked : tracked params name lg (world p) content;
  up_host : hostname_ lg = gethostname;
  up_syslog : threshold lg Syslog = Fatal \/ exists f, facility lg = Some f;
}.

Lemma line_entry lg tv level message : hostname_ lg = gethostname -> entry_text (s_app s) lg tv level message = line tv level message.
Proof. intros Hh. unfold line, entry_text. by rewrite Hh. Qed.

(** A message that is not fatal is logged, and the process goes on. *)
Lemma call_logger_up p lg content level message : up p lg content -> level <> Fatal ->
  (forall n, fits params (line (clock n) level message)) ->
  exists p' lg' n, let e := line (clock n) level message in
    call_logger false level message p = (Ok tt, p') /\ same_logger lg lg' /\
    up p' lg' (if to_file lg (level, message) then file_append params content e else content) /\
    console (world p') = console (world p) ++ (if to_console lg (level, message) then [e] else []) /\
    application_ p' = application_ p /\ handlers p' = handlers p /\ config_s p' = config_s p.
Proof.
  intros [] Hne Hfit. set (f := default 0 (facility lg)).
  destruct (log_step params name (s_app s) Hp Htime f level message lg (world p) content up_tracked0) as (lg' & w' & n & Hrun & Hs & Hc & Hy & Ht).
  { unfold to_syslog. cbn [fst]. destruct up_syslog0 as [ -> | [ g Hg ] ]; [ by destruct level | ]. intros _. unfold f. by rewrite Hg. }
  { intros n. rewrite line_entry by done. apply Hfit. }
  rewrite line_entry in Hc, Ht by done. eexists _, lg', n. split_and!.
  - unfold call_logger, getLogger. rewrite up_logger0, up_live0, up_name0, Hrun. done.
  - done.
  - split; try done. + by rewrite (proj1 (proj2 Hs)). + rewrite (proj1 Hs), (proj2 (proj2 Hs)). done.
  - done.
  - done.
  - done.
  - done.
Qed.

(** A process that has not made an application yet. *)
Definition fresh (p : Process) : Prop := config_ (config_s p) = None /\ logger_ p = None /\ freed p = false.

(** What the application finds on a host where it can start. *)
Record startable (path : str) (c : Config) (host : HostType) : Prop := mkStartable {
  st_library : initLibrary = Ok tt;
  st_host : detectHostType = Ok host;
  st_config : readConfig host_file secure_getenv path [] = Ok c;
  st_settings : configured path (yaml_ c) s;
  st_exists : directoryExists (s_directory s) = true;
  st_writable : directoryWritable (s_directory s) = true;
  st_coarse : syslog_coarse s = true;
}.

Definition started_text (host : HostType) : str := s_app s ++ lit " started (" ++ getHostTypeAsString host ++ lit ")".

(** The process with a logger the constructor made. *)
Lemma started_up a h c path lg w w' : getAppName path (yaml_ c) = Ok (s_app s) ->
  set_file_params (with_stream true (zlen (default [] (files w !! name))) params) lg = lg -> hostname_ lg = gethostname ->
  threshold lg Syslog = Fatal \/ (exists f, facility lg = Some f) -> w' = set_files (<[name := default [] (files w !! name)]> (files w)) w ->
  up (mkProcess a h (mkSingleton (Some c) path) (Some lg) w' false) lg (default [] (files w !! name)).
Proof.
  intros Hn Hfp Hh Hs ->. split; try done. split; [ by rewrite <- Hfp | ]. cbn [world files set_files]. apply lookup_insert_eq.
Qed.

Lemma start_logger_run path c host p : startable path c host -> config_s p = mkSingleton (Some c) path -> logger_ p = None -> freed p = false ->
  exists p' lg, start_logger p = (Ok tt, p') /\ up p' lg (default [] (files (world p) !! name)) /\
    threshold lg File = StringAsLogLevel (s_level s) /\ threshold lg Console = StringAsLogLevel (s_console s) /\
    application_ p' = application_ p /\ handlers p' = handlers p /\ config_s p' = config_s p /\ console (world p') = console (world p).
Proof.
  intros [] Hc Hl Hf. unfold start_logger. rewrite Hc, Hl, Hf. cbn [getConfig config_ path_ Config.path_]. unfold Logger_initialize, Logger_new.
  rewrite (construct_file_run path (yaml_ c) s) by done. unfold xbind. rewrite (getFileParams_run path (yaml_ c) s) by done.
  rewrite (placed_open _ _ Hp : can_open (path_in (s_directory s) name) = true). rewrite (construct_syslog_run path (yaml_ c) s) by done.
  unfold syslog_coarse in st_coarse0. destruct (s_syslog s) as [ [ fac level ] | ] eqn:Hsys.
  - rewrite st_coarse0. do 2 eexists. split; [ done | ]. split; [ apply started_up; [ apply st_settings0 | reflexivity | done | right; by eexists | done ] | by split_and! ].
  - do 2 eexists. split; [ done | ]. split; [ apply started_up; [ apply st_settings0 | reflexivity | done | by left | done ] | by split_and! ].
Qed.

(** C16 Starting an application in a fresh process, where the library initialises, the host
    type is detected, the configuration is read and accepted and has a file section, whose
    directory exists, is writable and gives the log a path of the shape of [placed], and a
    level of the system log, if there is one, no finer than info: the constructor returns,
    no stop is requested, the host type is the detected one, the handlers are installed and
    the logger is up.  If the level of the file admits info, the line that announces the
    start is at the end of the log file, behind what the file held unless that was over its
    limit; if that of the console does, it is on the console. *)
Theorem application_starts path c host p : startable path c host -> fresh p ->
  (forall n, fits params (line (clock n) Info (started_text host))) ->
  exists p' lg n, let content := default [] (files (world p) !! name) in
    Application_new path p = (Ok tt, p') /\ hasStopRequest p' = false /\ getHostType p' = Some host /\
    handlers p' = [SIGINT; SIGQUIT; SIGTERM] /\
    up p' lg (if level_le Info (StringAsLogLevel (s_level s)) then file_append params content (line (clock n) Info (started_text host)) else content) /\
    console (world p') = console (world p) ++ (if level_le Info (StringAsLogLevel (s_console s)) then [line (clock n) Info (started_text host)] else []).
Proof.
  intros Hst (Hc0 & Hl0 & Hf0) Hfit. pose proof Hst as []. unfold Application_new.
  erewrite xbind_ok by reflexivity. erewrite xbind_ok by (unfold run_outcome; by rewrite st_library0). erewrite xbind_ok by reflexivity.
  erewrite xbind_ok by (unfold run_outcome; by rewrite st_host0). erewrite xbind_ok by reflexivity.
  erewrite xbind_ok by (unfold start_config, initialize; cbn [config_s with_app]; by rewrite Hc0, st_config0).
  cbn [with_app application_ handlers config_s logger_ world freed].
  match goal with |- context [xbind start_logger _ ?q] => set (p1 := q) end.
  destruct (start_logger_run path c host p1 Hst) as (p2 & lg & Hrun & Hup & Hfile & Hcon & Ha & Hh & Hs & Hw); [ done | done | done | ].
  rewrite (xbind_ok _ _ _ _ _ Hrun). erewrite xbind_ok by (rewrite Hs; cbn [p1 config_s path_]; by rewrite (conf_app _ _ _ st_settings0)).
  destruct (call_logger_up p2 lg _ Info (started_text host) Hup) as (p3 & lg3 & n & Hrun3 & _ & Hup3 & Hcon3 & Ha3 & Hh3 & _); [ done | done | ].
  exists p3, lg3, n. unfold to_file, to_console in Hup3, Hcon3. cbn [fst] in Hup3, Hcon3. rewrite Hfile in Hup3. rewrite Hcon, Hw in Hcon3.
  split_and!; [ exact Hrun3 | by unfold hasStopRequest; rewrite Ha3, Ha | by unfold getHostType; rewrite Ha3, Ha | by rewrite Hh3, Hh | exact Hup3 | exact Hcon3 ].
Qed.




(** A signal that arrives while the application starts, before the logger exists, makes the
    handler throw; one that interrupts a call of the logger makes it lock the mutex its own
    thread holds.  In both cases the stop is not requested. *)
Lemma signal_lost sg p : application_ p <> None ->
  (logger_ p = None -> exists e, signal_handler false sg p = (Throw (DodoException e), p)) /\
  (forall lg content, up p lg content -> signal_handler true sg p = (Throw (UndefinedBehaviour (lit "lock of a mutex the thread holds")), p)).
Proof.
  intros Ha. unfold signal_handler, onSignal, xbind, call_logger, getLogger. destruct (application_ p); [ | done ]. split.
  - intros ->. by eexists.
  - intros lg content []. by rewrite up_logger0, up_live0.
Qed.

(** The destructor does not reset the singletons: no second application can be made. *)
Lemma second_application_throws path p p1 : initLibrary = Ok tt -> (exists host, detectHostType = Ok host) ->
  config_ (config_s p) <> None -> Application_delete p = (Ok tt, p1) ->
  exists p2, Application_new path p1 = (Throw (DodoException (lit "calling initialize on an existing Config singleton")), p2).
Proof.
  intros Hl [ host Hh ] Hc Hd. destruct (config_ (config_s p)) as [ c | ] eqn:Hcfg; [ | done ].
  assert (Hkeep : config_s p1 = config_s p).
  { revert Hd. unfold Application_delete. rewrite Hcfg. destruct (logger_ p), (freed p); intros [= <-]; done. }
  unfold Application_new, xbind, run_outcome, xmodify, installSignalHandlers, start_config. rewrite Hl, Hh. unfold xmodify.
  cbn [with_app config_s application_ handlers]. unfold initialize. rewrite Hkeep, Hcfg. by eexists.
Qed.
End Running.
End Application.

(** ** A host *)

Module DemoHost.
Import DemoYaml DemoLogger.
#[local] Existing Instance machine.

(** The document of [DemoYaml] as a file, and a host without virtualisation. *)
#[local] Instance disk : Yaml := {|
  node := @node document; sub := @sub document; as_string := @as_string document; as_int := @as_int document;
  as_size := @as_size document; LoadFile _ := Ok sample; what := @what document;
|}.
#[local] Instance demo_host : Host := {|
  rand_load_file _ n := n;
  stat_regular _ := true;
  access_read _ := true;
  host_file p := if bool_decide (p = product_name) then Some (lit "Latitude" ++ [chr 10]) else Some (lit "flags : fpu hypervisor lm" ++ [chr 10]);
  secure_getenv _ := Some (lit "s3cret");
|}.

Definition start_process : Process := mkProcess None [] (mkSingleton None []) None demo_world false.
Definition demo_config : @Config disk := @mkConfig disk sample (lit "s3cret").

Lemma demo_params_placed : placed (log_params demo_settings) (log_name demo_settings).
Proof. split; try (vm_compute; reflexivity); try done. exists "g"%char. by vm_compute. Qed.

Lemma demo_startable : startable demo_settings (lit "app.yaml") demo_config BareMetal.
Proof. split; try (vm_compute; reflexivity). split; vm_compute; reflexivity. Qed.

Lemma application_starts_witness : exists p', Application_new (lit "app.yaml") start_process = (Ok tt, p') /\ hasStopRequest p' = false.
Proof.
  destruct (application_starts demo_settings demo_params_placed demo_valid (lit "app.yaml") demo_config BareMetal start_process demo_startable) as (p' & lg & n & Hrun & Hstop & _);
    [ by split_and! | intros n; vm_compute; reflexivity | ].
  exists p'. split; [ exact Hrun | exact Hstop ].
Defined.




(** The host has a hypervisor, but it is not the last of its flags. *)
Example hypervisor_not_last : detectHostType = Ok BareMetal /\ hypervisor_line (lit "flags : fpu hypervisor") = true.
Proof. by vm_compute. Qed.
End DemoHost.
