(* ===== verification/Double.v ===== *)
(** * Double: IEEE double precision and its text

    The [double] of the program, by the arithmetic of [SpecFloat] at 53 bits and the
    exponents of binary64, and the text a stream makes of it in fixed and scientific format.
    Every finite double is a dyadic fraction, so its decimal text is exact arithmetic on
    integers and one rounding, to nearest, ties to even. *)

From S2P Require Import Prelude.
From S2P Require Import Calendar.
From Stdlib Require Import SpecFloat.

Local Open Scope Z_scope.

Definition double : Type := spec_float.
Definition dsub : double -> double -> double := SFsub 53 1024.
Definition dadd : double -> double -> double := SFadd 53 1024.
Definition ddiv : double -> double -> double := SFdiv 53 1024.

(** [(double)z], rounded to nearest. *)
Definition to_double (z : Z) : double := binary_normalize 53 1024 z 0 false.

(** ** Text *)

(** [num / den] to the nearest integer, ties to even. *)
Definition round_even (num den : Z) : Z :=
  let q := num / den in
  match (2 * (num mod den)) ?= den with
  | Lt => q
  | Gt => q + 1
  | Eq => if Z.even q then q else q + 1
  end.

(** [m * 2 ^ e] as a fraction. *)
Definition numerator (m e : Z) : Z := m * 2 ^ (Z.max e 0).
Definition denominator (e : Z) : Z := 2 ^ (Z.max (- e) 0).

(** The digits of [n], the last [p] behind a point. *)
Definition pointed (p : nat) (n : Z) : str :=
  match p with
  | O => print_dec n
  | _ => print_dec (n / 10 ^ Z.of_nat p) ++ lit "." ++ setw p "0"%char (print_dec (n mod 10 ^ Z.of_nat p))
  end.

Definition sign_text (s : bool) : str := if s then lit "-" else [].

(** [%.*f] of a finite value; [nan] is the text of a value that is not a number, the sign
    of which is not part of [spec_float]. *)
Definition fixed_text (nan : str) (p : nat) (x : double) : str :=
  match x with
  | S754_nan => nan
  | S754_infinity s => sign_text s ++ lit "inf"
  | S754_zero s => sign_text s ++ pointed p 0
  | S754_finite s m e => sign_text s ++ pointed p (round_even (numerator (Zpos m) e * 10 ^ Z.of_nat p) (denominator e))
  end.

(** The number of decimal digits of [n > 0]. *)
Definition ndigits (n : Z) : Z := zlen (print_dec n).

(** [k] with [10 ^ k <= num / den < 10 ^ (k + 1)]. *)
Definition exponent10 (num den : Z) : Z :=
  if den <=? num then ndigits (num / den) - 1 else - ndigits ((den - 1) / num).

Definition exponent_text (k : Z) : str := lit "e" ++ (if k <? 0 then lit "-" else lit "+") ++ setw 2 "0"%char (print_dec (Z.abs k)).

(** [%.*e]: rounding may carry into another digit. *)
Definition scientific_parts (p : nat) (num den : Z) : Z * Z :=
  let k := exponent10 num den in
  let d := Z.of_nat p - k in
  let n := round_even (num * 10 ^ Z.max d 0) (den * 10 ^ Z.max (- d) 0) in
  if n =? 10 ^ (Z.of_nat p + 1) then (n / 10, k + 1) else (n, k).

Definition scientific_text (nan : str) (p : nat) (x : double) : str :=
  match x with
  | S754_nan => nan
  | S754_infinity s => sign_text s ++ lit "inf"
  | S754_zero s => sign_text s ++ pointed p 0 ++ exponent_text 0
  | S754_finite s m e => let '(n, k) := scientific_parts p (numerator (Zpos m) e) (denominator e) in sign_text s ++ pointed p n ++ exponent_text k
  end.

Example tenth : fixed_text [] 20 (ddiv (to_double 1) (to_double 10)) = lit "0.10000000000000000555".
Proof. vm_compute. reflexivity. Qed.
Example third : fixed_text [] 3 (ddiv (to_double 2) (to_double 3)) = lit "0.667" /\ scientific_text [] 2 (ddiv (to_double 2) (to_double 3000)) = lit "6.67e-04".
Proof. vm_compute. done. Qed.
Example carry : scientific_text [] 1 (to_double 9960) = lit "1.0e+04" /\ fixed_text [] 0 (ddiv (to_double 5) (to_double 2)) = lit "2".
Proof. vm_compute. done. Qed.

(** ** What the text denotes *)

Lemma round_even_near num den : 0 < den -> 2 * Z.abs (round_even num den * den - num) <= den.
Proof.
  intros Hd. unfold round_even. pose proof (Z.div_mod num den ltac:(lia)). pose proof (Z.mod_pos_bound num den Hd).
  destruct (Z.compare_spec (2 * (num mod den)) den); [ destruct (Z.even (num / den)) | | ]; lia.
Qed.

Lemma round_even_nonneg num den : 0 <= num -> 0 < den -> 0 <= round_even num den.
Proof.
  intros Hn Hd. unfold round_even. pose proof (Z.div_pos num den Hn Hd). destruct (2 * (num mod den) ?= den); [ destruct (Z.even (num / den)) | | ]; lia.
Qed.

Lemma read_base_zeros n s : read_base 10 (replicate n "0"%char ++ s) = read_base 10 s.
Proof. induction n as [ | n IH ]; [ done | ]. rewrite <- IH. done. Qed.

Lemma read_base_concat a b : read_base 10 (a ++ b) = read_base 10 a * 10 ^ zlen b + read_base 10 b.
Proof.
  induction b as [ | c b IH ] using rev_ind; [ rewrite app_nil_r; change (10 ^ zlen []) with 1; change (read_base 10 []) with 0; lia | ].
  rewrite (assoc_L (++)), !read_base_app, IH, zlen_app. change (zlen [c]) with 1. rewrite Z.pow_add_r by (try apply zlen_nonneg; lia). lia.
Qed.

(** The number a text with a point denotes, in units of its last digit. *)
Definition read_pointed (s : str) : Z := read_base 10 (List.filter isdigit s).

Lemma filter_digits s : forallb isdigit s = true -> List.filter isdigit s = s.
Proof. induction s as [ | c s IH ]; cbn; [ done | ]. intros [ Hc Hs ]%andb_true_iff. by rewrite Hc, IH. Qed.

Lemma setw_digits w s : forallb isdigit s = true -> forallb isdigit (setw w "0"%char s) = true.
Proof. intros Hs. unfold setw. rewrite forallb_app, Hs, andb_true_r. by induction (w - length s)%nat. Qed.

Lemma fraction_length p n : (0 < p)%nat -> 0 <= n < 10 ^ Z.of_nat p -> zlen (setw p "0"%char (print_dec n)) = Z.of_nat p.
Proof.
  intros Hp Hn. unfold zlen, setw. rewrite length_app, length_replicate. pose proof (print_aux_length (S (Z.to_nat (Z.log2 n))) n p Hp Hn).
  unfold print_dec, print_base in *. lia.
Qed.

Lemma read_pointed_pointed p n : 0 <= n -> read_pointed (pointed p n) = n.
Proof.
  intros Hn. assert (H10 : 0 < 10 ^ Z.of_nat p) by (apply Z.pow_pos_nonneg; lia). pose proof (Z.mod_pos_bound n _ H10). pose proof (Z.div_pos n _ Hn H10).
  assert (Hb : numeral_base 10) by by left. unfold read_pointed, pointed. destruct p as [ | p ]; [ rewrite filter_digits by (by apply print_dec_digits); by apply read_print_base | ].
  set (q := S p) in *. rewrite !List.filter_app. rewrite filter_digits by (by apply print_dec_digits). change (List.filter isdigit (lit ".")) with (@nil ascii). cbn [app].
  rewrite filter_digits by (apply setw_digits, print_dec_digits; lia). rewrite read_base_concat, fraction_length by (unfold q in *; lia).
  unfold setw. rewrite read_base_zeros. unfold print_dec. rewrite !read_print_base by (done || lia). pose proof (Z.div_mod n (10 ^ Z.of_nat q) ltac:(lia)). lia.
Qed.

(** The text of a finite double is off by at most half a unit of its last digit. *)
Lemma fixed_text_near nan p s m e : exists t, fixed_text nan p (S754_finite s m e) = sign_text s ++ t /\
  2 * Z.abs (read_pointed t * denominator e - numerator (Zpos m) e * 10 ^ Z.of_nat p) <= denominator e.
Proof.
  assert (Hd : 0 < denominator e) by (apply Z.pow_pos_nonneg; lia). assert (Hn : 0 <= numerator (Zpos m) e) by (apply Z.mul_nonneg_nonneg; [ done | by apply Z.pow_nonneg ]).
  eexists. split; [ done | ]. rewrite read_pointed_pointed by (apply round_even_nonneg; [ apply Z.mul_nonneg_nonneg; [ done | by apply Z.pow_nonneg ] | done ]). by apply round_even_near.
Qed.

Definition finite (x : double) : Prop := match x with S754_zero _ | S754_finite _ _ _ => True | _ => False end.

Lemma dsub_self x : finite x -> dsub x x = S754_zero false.
Proof.
  destruct x as [ b | b | | b m e ]; cbn; try done; [ by destruct b | ]. intros _. unfold dsub, SFsub. rewrite Z.min_id, Z.sub_diag. done.
Qed.
