(* ===== verification/Puts.v ===== *)
(** * Puts: text by insertion, and the text of exceptions

    Models src/src/include/common/puts.hpp, src/src/include/common/exception.hpp and
    src/src/lib/common/exception.cpp.  A [Puts] is its stream: the text so far, the base of
    integers, the format and precision of doubles, and the width of the next insertion. *)

From S2P Require Import Prelude.
From S2P Require Import SystemError.
From S2P Require Import Double.
From Stdlib Require Import SpecFloat.

Local Open Scope Z_scope.

Inductive Base : Type := Dec | Oct | Hex.
Inductive Format : Type := Fixed | Scientific.

Record Puts : Type := mkPuts { ss_ : str; base : Base; format : Format; width : Z; precision : Z }.
Definition Puts_new : Puts := mkPuts [] Dec Fixed 0 3.

(** A formatted insertion: padded on the left to the width, which it resets. *)
Definition put (t : str) (p : Puts) : Puts := mkPuts (ss_ p ++ setw (Z.to_nat (width p)) " "%char t) (base p) (format p) 0 (precision p).

Definition put_string (s : str) : Puts -> Puts := put s.
Definition put_cstring (s : str) : Puts -> Puts := put (c_string s).
Definition put_char (c : ascii) : Puts -> Puts := put [c].

(** The text of an integer of [w] bits: a negative one in octal or hexadecimal is the
    number of the same bits. *)
Definition integer_text (b : Base) (w z : Z) : str :=
  match b with Dec => print_int z | Oct => print_base 8 (z mod 2 ^ w) | Hex => print_base 16 (z mod 2 ^ w) end.
Definition put_integer (w z : Z) (p : Puts) : Puts := put (integer_text (base p) w z) p.

Definition put_int (i : Z) : Puts -> Puts := put_integer 32 i.
Definition put_long (l : Z) : Puts -> Puts := put_integer 64 l.
Definition put_long_long (l : Z) : Puts -> Puts := put_integer 64 l.
Definition put_unsigned (i : Z) : Puts -> Puts := put_integer 32 i.
Definition put_unsigned_long (l : Z) : Puts -> Puts := put_integer 64 l.
Definition put_unsigned_long_long (l : Z) : Puts -> Puts := put_integer 64 l.

Section Nan.
Variable nan : str.

(** A negative precision is the default of six digits. *)
Definition double_text (f : Format) (prec : Z) (d : double) : str :=
  let n := if prec <? 0 then 6%nat else Z.to_nat prec in
  match f with Fixed => fixed_text nan n d | Scientific => scientific_text nan n d end.
Definition put_double (d : double) (p : Puts) : Puts := put (double_text (format p) (precision p) d) p.
(** A float is converted to double, without loss. *)
Definition put_float (f : double) : Puts -> Puts := put_double f.
End Nan.

Definition put_pointer (a : Z) : Puts -> Puts := put (if a =? 0 then lit "0" else lit "0x" ++ print_hex a).

(** A thread's id: the handle, as an unsigned long. *)
Definition put_thread_id (id : option Z) (p : Puts) : Puts :=
  match id with None => put (lit "thread::id of a non-executing thread") p | Some h => put_integer 64 h p end.

(** [std::endl] inserts without format: the width stays. *)
Definition put_endl (p : Puts) : Puts := mkPuts (ss_ p ++ [chr 10]) (base p) (format p) (width p) (precision p).
Definition put_fixed (p : Puts) : Puts := mkPuts (ss_ p) (base p) Fixed (width p) (precision p).
Definition put_scientific (p : Puts) : Puts := mkPuts (ss_ p) (base p) Scientific (width p) (precision p).
Definition put_dec (p : Puts) : Puts := mkPuts (ss_ p) Dec (format p) (width p) (precision p).
Definition put_oct (p : Puts) : Puts := mkPuts (ss_ p) Oct (format p) (width p) (precision p).
Definition put_hex (p : Puts) : Puts := mkPuts (ss_ p) Hex (format p) (width p) (precision p).
Definition put_setw (w : Z) (p : Puts) : Puts := mkPuts (ss_ p) (base p) (format p) w (precision p).
Definition put_setprecision (n : Z) (p : Puts) : Puts := mkPuts (ss_ p) (base p) (format p) (width p) n.
Definition puts_string (p : Puts) : str := ss_ p.

(** ** Exceptions *)

(** What [debugHeader] knows of an object, and its [debugDetail]. *)
Record DebugObject : Type := mkDebugObject { type_name : str; address : Z; debugDetail : str }.
Definition debugHeader (d : DebugObject) : str :=
  type_name d ++ lit " " ++ lit "address " ++ (if address d =? 0 then lit "0" else lit "0x" ++ print_hex (address d)) ++ lit " ".
Definition debugString (d : DebugObject) : str := debugHeader d ++ debugDetail d.

Record Exception : Type := mkException { file_ : str; line_ : Z; msg_ : str }.
Definition exception_text (file : str) (line : Z) (what : str) : str := file ++ lit ":" ++ print_dec line ++ lit " " ++ what.
Definition Exception_new (file : str) (line : Z) (what : str) : Exception := mkException file line (exception_text file line what).
Definition Exception_object (file : str) (line : Z) (what : str) (thing : DebugObject) : Exception :=
  mkException file line (exception_text file line what ++ [chr 10] ++ lit " " ++ debugString thing).
Definition what (e : Exception) : str := c_string (msg_ e).

Section System.
Context `{Libc}.
Definition SystemException_new (file : str) (line : Z) (text : str) (error : SystemError) : Exception * SystemError :=
  (Exception_new file line (text ++ lit " : " ++ SystemError.asString error), error).
Definition SystemException_object (file : str) (line : Z) (text : str) (error : SystemError) (thing : DebugObject) : Exception * SystemError :=
  (Exception_new file line (puts_string (put_string (debugString thing) (put_endl (put_string (SystemError.asString error) (put_cstring (lit " : ") (put_string text Puts_new)))))), error).
End System.

(** ** Properties *)

(** Reading an integer back. *)
Definition read_int (s : str) : Z := match s with "-"%char :: t => - read_base 10 t | _ => read_base 10 s end.
Definition radix (b : Base) : Z := match b with Dec => 10 | Oct => 8 | Hex => 16 end.
Definition read_integer (b : Base) (s : str) : Z := match b with Dec => read_int s | _ => read_base (radix b) s end.

Lemma read_int_print z : read_int (print_int z) = z.
Proof.
  assert (Hb : numeral_base 10) by by left. unfold print_int. destruct (Z.ltb_spec z 0).
  - cbn [list_ascii_of_string app read_int]. unfold print_dec. rewrite read_print_base by (done || lia). lia.
  - pose proof (print_dec_digits z ltac:(lia)) as Hd. unfold print_dec in *. pose proof (read_print_base 10 z Hb ltac:(lia)) as Hr.
    destruct (print_base 10 z) as [ | c t ]; [ done | ]. cbn [read_int]. cbn [forallb] in Hd. apply andb_true_iff in Hd as [ Hc _ ].
    destruct (decide (c = "-"%char)) as [ -> | Hne ]; [ done | ]. etrans; [ | exact Hr ].
    destruct c as [ [] [] [] [] [] [] [] [] ]; try done; by vm_compute in Hc.
Qed.

Lemma read_integer_text b w z : 0 < w -> read_integer b (integer_text b w z) = match b with Dec => z | _ => z mod 2 ^ w end.
Proof.
  intros Hw. pose proof (Z.mod_pos_bound z (2 ^ w) ltac:(apply Z.pow_pos_nonneg; lia)).
  destruct b; cbn [integer_text read_integer radix]; [ apply read_int_print | apply read_print_base | apply read_print_base ]; try lia; unfold numeral_base; lia.
Qed.

(** Every integer inserted into a Puts can be read back: its text stands behind what was
    there and behind blanks that bring it to the width asked for, and denotes the value, or
    in octal and hexadecimal the value of its bits; the width is used up. *)
Theorem integer_insertion w z p : 0 < w ->
  exists blanks t, ss_ (put_integer w z p) = ss_ p ++ blanks ++ t /\ forallb (fun c => c =c " "%char) blanks = true /\
    zlen (blanks ++ t) = Z.max (width p) (zlen t) /\ width (put_integer w z p) = 0 /\
    read_integer (base p) t = match base p with Dec => z | _ => z mod 2 ^ w end.
Proof.
  intros Hw. unfold put_integer, put, setw. cbn [ss_ width]. eexists _, (integer_text (base p) w z). split; [ done | ]. split_and!.
  - set (n := (Z.to_nat (width p) - _)%nat). clearbody n. by induction n.
  - rewrite zlen_app. unfold zlen. rewrite length_replicate. lia.
  - done.
  - by apply read_integer_text.
Qed.

(** A finite double inserted in fixed format, the one a Puts starts with, is written with
    the decimals of the precision, and the number written is within half of the last of them. *)
Theorem double_insertion nan s m e p : format p = Fixed -> 0 <= precision p -> width p = 0 -> exists t,
  ss_ (put_double nan (S754_finite s m e) p) = ss_ p ++ sign_text s ++ t /\
  2 * Z.abs (read_pointed t * denominator e - numerator (Zpos m) e * 10 ^ precision p) <= denominator e.
Proof.
  intros Hf Hp Hw. destruct (fixed_text_near nan (Z.to_nat (precision p)) s m e) as (t & Ht & Hnear). exists t.
  rewrite Z2Nat.id in Hnear by done. split; [ | done ]. unfold put_double, put, double_text. rewrite Hf, Hw. destruct (Z.ltb_spec (precision p) 0); [ lia | ].
  cbn [ss_]. by rewrite Ht.
Qed.

Lemma integer_insertion_witness : exists t, ss_ (put_int (-1) (put_hex Puts_new)) = t /\ read_integer Hex t = 4294967295.
Proof.
  destruct (integer_insertion 32 (-1) (put_hex Puts_new)) as (blanks & t & E & _ & Hl & _ & Hr); [ reflexivity | ].
  exists t. split; [ | exact Hr ]. unfold put_int. rewrite E. destruct blanks; [ reflexivity | ].
  exfalso. rewrite zlen_app in Hl. unfold zlen in Hl. cbn in Hl. lia.
Defined.

Lemma double_insertion_witness : exists t, ss_ (put_double [] (to_double 2) Puts_new) = t /\ read_pointed t = 2000.
Proof.
  destruct (double_insertion [] false 4503599627370496 (-51) Puts_new) as (t & E & Hn); [ reflexivity | discriminate | reflexivity | ].
  exists t. change (to_double 2) with (S754_finite false 4503599627370496 (-51)). split; [ rewrite E; reflexivity | ]. revert Hn.
  change (denominator (-51)) with 2251799813685248. change (numerator 4503599627370496 (-51) * 10 ^ precision Puts_new) with 4503599627370496000. lia.
Defined.
