(* ===== verification/Threads.v ===== *)
(** * Threads: mutexes, critical sections and threads

    Models src/src/include/threads/mutex.hpp, src/src/include/threads/thread.hpp and
    src/src/lib/threads/thread.cpp, and [getSecondDiff] of src/src/include/common/util.hpp.

    - [Mutex] with its owner; locking a mutex twice, and unlocking one of another thread,
      are undefined.  A [Mutexer] is a lock at the start of a scope and an unlock at its
      end, an exception included.
    - Workers run critical sections, statement by statement and interleaved; such
      executions refine executions in which every section is one atomic step, which is how
      the other components treat their guarded calls.
    - [Thread]: start, wait and deletion beside the life of the thread itself; resource
      usage rates in IEEE double precision. *)

From S2P Require Import Prelude.
From S2P Require Import Calendar.
From S2P Require Import Double.
From stdpp Require Import relations.
From Stdlib Require Import SpecFloat.

Local Open Scope Z_scope.

(** ** Mutex *)

Record Mutex : Type := mkMutex { mutex_ : option nat }.
Definition Mutex_new : Mutex := mkMutex None.

(** [lock], by thread [t]; [None] while another thread holds it. *)
Definition lock (t : nat) (m : Mutex) : outcome (option Mutex) :=
  match mutex_ m with
  | None => Ok (Some (mkMutex (Some t)))
  | Some o => if decide (o = t) then Throw (UndefinedBehaviour (lit "lock of a mutex the thread holds")) else Ok None
  end.

Definition tryLock (t : nat) (m : Mutex) : outcome (bool * Mutex) :=
  match mutex_ m with
  | None => Ok (true, mkMutex (Some t))
  | Some o => if decide (o = t) then Throw (UndefinedBehaviour (lit "lock of a mutex the thread holds")) else Ok (false, m)
  end.

Definition unLock (t : nat) (m : Mutex) : outcome Mutex :=
  if decide (mutex_ m = Some t) then Ok (mkMutex None) else Throw (UndefinedBehaviour (lit "unlock of a mutex the thread does not hold")).

(** ** Critical sections *)

Section Sections.
Context {S : Type}.

(** A statement on the shared state; [true] when it throws. *)
Definition statement : Type := S -> S * bool.
Definition section : Type := list statement.

Fixpoint run_section (sec : section) (s : S) : S :=
  match sec with
  | [] => s
  | st :: rest => let (s', thrown) := st s in if thrown then s' else run_section rest s'
  end.

(** What a thread still does: the rest of the section it is in, and further sections. *)
Record Worker : Type := mkWorker { inside : option section; todo : list section }.
Record System : Type := mkSystem { shared : S; mutex : Mutex; workers : list Worker }.

Definition set_worker (t : nat) (w : Worker) (sys : System) : System := mkSystem (shared sys) (mutex sys) (<[t := w]> (workers sys)).
Definition set_mutex (m : Mutex) (sys : System) : System := mkSystem (shared sys) m (workers sys).

(** One step of thread [t]: construction of the [Mutexer], a statement, its destruction;
    [None] when the thread waits or has ended. *)
Definition worker_step (t : nat) (sys : System) : outcome (option System) :=
  match workers sys !! t with
  | None => Ok None
  | Some (mkWorker None []) => Ok None
  | Some (mkWorker None (sec :: rest)) =>
      let! r := lock t (mutex sys) in
      Ok (match r with
          | Some m => Some (set_worker t (mkWorker (Some sec) rest) (set_mutex m sys))
          | None => None
          end)
  | Some (mkWorker (Some (st :: more)) rest) =>
      let (s', thrown) := st (shared sys) in
      Ok (Some (mkSystem s' (mutex sys) (<[t := mkWorker (Some (if thrown then [] else more)) rest]> (workers sys))))
  | Some (mkWorker (Some []) rest) =>
      let! m := unLock t (mutex sys) in
      Ok (Some (set_worker t (mkWorker None rest) (set_mutex m sys)))
  end.

Definition step (sys sys' : System) : Prop := exists t, worker_step t sys = Ok (Some sys').

(** The specification: a whole section at once. *)
Definition atomic_step (sys sys' : System) : Prop :=
  exists t sec rest, workers sys !! t = Some (mkWorker None (sec :: rest)) /\
    sys' = mkSystem (run_section sec (shared sys)) (mutex sys) (<[t := mkWorker None rest]> (workers sys)).

Definition start_system (s : S) (progs : list (list section)) : System := mkSystem s Mutex_new (map (mkWorker None) progs).

(** ** Refinement of the atomic system *)

Definition outside (sys : System) : Prop := forall t w, workers sys !! t = Some w -> inside w = None.

(** [a] is the system before the section of the owner, if there is one. *)
Definition refines (sys a : System) : Prop :=
  mutex a = Mutex_new /\
  match mutex_ (mutex sys) with
  | None => outside sys /\ shared a = shared sys /\ workers a = workers sys
  | Some o => exists sec more rest,
      workers sys !! o = Some (mkWorker (Some more) rest) /\
      (forall t w, t <> o -> workers sys !! t = Some w -> inside w = None) /\
      workers a = <[o := mkWorker None (sec :: rest)]> (workers sys) /\
      run_section sec (shared a) = run_section more (shared sys)
  end.

Lemma start_refines s progs : refines (start_system s progs) (start_system s progs).
Proof.
  split; [ done | ]. split; [ | done ]. intros t w Hw. cbn in Hw. rewrite list_lookup_fmap in Hw.
  destruct (progs !! t); cbn in Hw; [ by injection Hw as <- | done ].
Qed.

(** The owner of the mutex is the thread that is inside a section. *)
Lemma inside_owner sys a t more rest : refines sys a -> workers sys !! t = Some (mkWorker (Some more) rest) -> mutex_ (mutex sys) = Some t.
Proof.
  intros [ _ Hr ] Hw. destruct (mutex_ (mutex sys)) as [ o | ]; [ | destruct Hr as [ Hout _ ]; by specialize (Hout _ _ Hw) ].
  destruct Hr as (sec & m & r & _ & Ho & _). destruct (decide (t = o)) as [ -> | Hne ]; [ done | ]. by specialize (Ho _ _ Hne Hw).
Qed.

Lemma lock_refines t sys a sec rest m : refines sys a -> workers sys !! t = Some (mkWorker None (sec :: rest)) ->
  lock t (mutex sys) = Ok (Some m) -> refines (set_worker t (mkWorker (Some sec) rest) (set_mutex m sys)) a.
Proof.
  intros [ Ha Hr ] Hw Hl. unfold lock in Hl. destruct (mutex_ (mutex sys)) as [ o | ] eqn:Hm; [ by destruct (decide (o = t)) | ].
  injection Hl as <-. destruct Hr as (Hout & Hs & Hws). split; [ done | ]. cbn. exists sec, sec, rest. split_and!.
  - apply list_lookup_insert_eq. by eapply lookup_lt_Some.
  - intros t' w' Hne Hw'. rewrite list_lookup_insert_ne in Hw' by done. by eapply Hout.
  - rewrite list_insert_insert_eq, Hws. by rewrite list_insert_id.
  - by rewrite Hs.
Qed.

Lemma statement_refines t sys a st more rest : refines sys a -> workers sys !! t = Some (mkWorker (Some (st :: more)) rest) ->
  refines (mkSystem (fst (st (shared sys))) (mutex sys) (<[t := mkWorker (Some (if snd (st (shared sys)) then [] else more)) rest]> (workers sys))) a.
Proof.
  intros Hr Hw. pose proof (inside_owner _ _ _ _ _ Hr Hw) as Hm. destruct Hr as [ Ha Hr ]. split; [ done | ]. cbn. rewrite Hm in *.
  destruct Hr as (sec & m & r & Hw' & Hout & Hws & Hrun). rewrite Hw in Hw'. injection Hw' as <- <-. do 3 eexists. split_and!.
  - apply list_lookup_insert_eq. by eapply lookup_lt_Some.
  - intros t' w' Hne Hl. rewrite list_lookup_insert_ne in Hl by done. by eapply Hout.
  - rewrite list_insert_insert_eq. exact Hws.
  - rewrite Hrun. cbn. destruct (st (shared sys)) as [ s' [] ]; done.
Qed.

Lemma unlock_refines t sys a rest : refines sys a -> workers sys !! t = Some (mkWorker (Some []) rest) ->
  exists a', atomic_step a a' /\ refines (set_worker t (mkWorker None rest) (set_mutex (mkMutex None) sys)) a'.
Proof.
  intros Hr Hw. pose proof (inside_owner _ _ _ _ _ Hr Hw) as Hm. destruct Hr as [ Ha Hr ]. rewrite Hm in Hr.
  destruct Hr as (sec & m & r & Hw' & Hout & Hws & Hrun). rewrite Hw in Hw'. injection Hw' as <- <-. pose proof (lookup_lt_Some _ _ _ Hw) as Hlt.
  eexists. split; [ exists t, sec, rest; split; [ by rewrite Hws, list_lookup_insert_eq | done ] | ]. split; [ done | ]. cbn. split_and!.
  - intros t' w' Hl. cbn in Hl. destruct (decide (t' = t)) as [ -> | Hne ]; [ rewrite list_lookup_insert_eq in Hl by done; by injection Hl as <- | ].
    rewrite list_lookup_insert_ne in Hl by done. by eapply Hout.
  - by rewrite Hrun.
  - by rewrite Hws, list_insert_insert_eq.
Qed.

Lemma worker_step_refines t sys a : refines sys a ->
  exists r, worker_step t sys = Ok r /\ match r with Some sys' => exists a', rtc atomic_step a a' /\ refines sys' a' | None => True end.
Proof.
  intros Hr. unfold worker_step. destruct (workers sys !! t) as [ [ [ [ | st more ] | ] rest ] | ] eqn:Hw; [ | | | by eexists ].
  - pose proof (inside_owner _ _ _ _ _ Hr Hw) as Hm. unfold unLock. rewrite decide_True by done. eexists. split; [ done | ].
    destruct (unlock_refines _ _ _ _ Hr Hw) as (a' & Ha & Hr'). exists a'. split; [ by apply rtc_once | done ].
  - pose proof (statement_refines _ _ _ _ _ _ Hr Hw) as Hr'. destruct (st (shared sys)) as [ s' thrown ]. eexists. split; [ done | ]. by exists a.
  - destruct rest as [ | sec rest ]; [ by eexists | ]. destruct (lock t (mutex sys)) as [ [ m | ] | e | ] eqn:Hl.
    + eexists. split; [ done | ]. exists a. split; [ done | ]. by eapply lock_refines.
    + by eexists.
    + exfalso. unfold lock in Hl. destruct (mutex_ (mutex sys)) as [ o | ] eqn:Hm; [ | done ]. destruct (decide (o = t)) as [ -> | ]; [ | done ].
      destruct Hr as [ _ Hr ]. rewrite Hm in Hr. destruct Hr as (? & ? & ? & Hw' & _). by rewrite Hw in Hw'.
    + unfold lock in Hl. destruct (mutex_ (mutex sys)) as [ o | ]; [ by destruct (decide (o = t)) | done ].
Qed.

Lemma steps_refine sys sys' : rtc step sys sys' -> forall a, refines sys a -> exists a', rtc atomic_step a a' /\ refines sys' a'.
Proof.
  induction 1 as [ sys | sys sys1 sys2 [ t Ht ] _ IH ]; intros a Hr; [ by exists a | ].
  destruct (worker_step_refines t sys a Hr) as (r & Hrun & Hres). rewrite Ht in Hrun. injection Hrun as <-. destruct Hres as (a1 & Ha1 & Hr1).
  destruct (IH a1 Hr1) as (a2 & Ha2 & Hr2). exists a2. split; [ by etrans | done ].
Qed.

(** C13 Threads that touch shared state only in scopes guarded by one [Mutexer]: however
    their statements interleave, and whichever of them throw, no thread locks a mutex it
    holds or unlocks one it does not hold, at most one is inside a scope, and once none
    is, the state is one that running the scopes one at a time, each whole, also gives. *)
Theorem guarded_sections_atomic s progs sys : rtc step (start_system s progs) sys ->
  (forall t, exists r, worker_step t sys = Ok r) /\
  (forall t u w v, workers sys !! t = Some w -> workers sys !! u = Some v -> inside w <> None -> inside v <> None -> t = u) /\
  (outside sys -> rtc atomic_step (start_system s progs) sys).
Proof.
  intros Hs. destruct (steps_refine _ _ Hs _ (start_refines s progs)) as (a & Ha & Hr). split_and!.
  - intros t. destruct (worker_step_refines t sys a Hr) as (r & Hrun & _). by exists r.
  - intros t u [ [ m | ] tw ] [ [ n | ] uw ] Ht Hu Hin Hin'; try done.
    pose proof (inside_owner _ _ _ _ _ Hr Ht) as E1. pose proof (inside_owner _ _ _ _ _ Hr Hu) as E2. congruence.
  - intros Hout. destruct Hr as [ Hm Hr ]. destruct (mutex_ (mutex sys)) as [ o | ] eqn:Ho.
    + destruct Hr as (sec & m & r & Hw & _). by specialize (Hout _ _ Hw).
    + destruct Hr as (_ & E1 & E2). destruct sys as [ s1 m1 w1 ], a as [ s2 m2 w2 ]. cbn in *. destruct m1 as [ m1 ]. cbn in Ho. by subst.
Qed.

(** ** Completion *)

Definition section_cost (sec : section) : nat := length sec + 2.
Definition worker_cost (w : Worker) : nat :=
  match inside w with Some more => (length more + 1)%nat | None => 0%nat end + sum_list_with section_cost (todo w).
Definition cost (sys : System) : nat := sum_list_with worker_cost (workers sys).

Lemma sum_list_insert (f : Worker -> nat) l t w w' : l !! t = Some w -> (sum_list_with f (<[t := w']> l) + f w = sum_list_with f l + f w')%nat.
Proof.
  intros Hl. pose proof (lookup_lt_Some _ _ _ Hl). rewrite <- (take_drop_middle l t w Hl) at 2. rewrite insert_take_drop by done.
  rewrite !sum_list_with_app. cbn [sum_list_with]. lia.
Qed.

Lemma step_cost sys sys' : step sys sys' -> (cost sys' < cost sys)%nat.
Proof.
  intros [ t Ht ]. unfold worker_step in Ht. destruct (workers sys !! t) as [ [ [ [ | st more ] | ] rest ] | ] eqn:Hw; [ | | | done ].
  - destruct (unLock t (mutex sys)) as [ m | | ]; cbn [obind] in Ht; try done. injection Ht as <-. unfold cost. cbn [workers set_worker set_mutex].
    pose proof (sum_list_insert worker_cost _ _ _ (mkWorker None rest) Hw) as E. unfold worker_cost in E at 2 4. cbn in E. lia.
  - destruct (st (shared sys)) as [ s' thrown ]. injection Ht as <-. unfold cost. cbn [workers].
    pose proof (sum_list_insert worker_cost _ _ _ (mkWorker (Some (if thrown then [] else more)) rest) Hw) as E. unfold worker_cost in E at 2 4. cbn in E.
    destruct thrown; cbn in E; lia.
  - destruct rest as [ | sec rest ]; [ done | ]. destruct (lock t (mutex sys)) as [ [ m | ] | | ]; cbn [obind] in Ht; try done. injection Ht as <-.
    unfold cost. cbn [workers set_worker set_mutex].
    pose proof (sum_list_insert worker_cost _ _ _ (mkWorker (Some sec) rest) Hw) as E. unfold worker_cost in E at 2 4. cbn in E. unfold section_cost in E at 1. lia.
Qed.

Lemma nsteps_cost n sys sys' : nsteps step n sys sys' -> (n + cost sys' <= cost sys)%nat.
Proof. induction 1 as [ | n sys sys1 sys2 Hs _ IH ]; [ done | ]. apply step_cost in Hs. lia. Qed.

(** Somebody can move as long as there is something to do. *)
Lemma some_step sys a t w : refines sys a -> workers sys !! t = Some w -> inside w <> None \/ todo w <> [] -> exists sys', step sys sys'.
Proof.
  intros Hr Hw Hdo. destruct (mutex_ (mutex sys)) as [ o | ] eqn:Hm.
  - pose proof Hr as [ _ Hr' ]. rewrite Hm in Hr'. destruct Hr' as (sec & more & rest & Ho & _).
    destruct (worker_step_refines o sys a Hr) as (r & Hrun & _). assert (Hsome : exists sys', r = Some sys').
    { unfold worker_step in Hrun. rewrite Ho in Hrun. destruct more as [ | st more ]; [ unfold unLock in Hrun; rewrite decide_True in Hrun by done; cbn in Hrun; injection Hrun as <-; by eexists | ].
      destruct (st (shared sys)) as [ s' thrown ]. injection Hrun as <-. by eexists. }
    destruct Hsome as [ sys' -> ]. exists sys', o. done.
  - assert (Hin : inside w = None) by (destruct Hr as [ _ Hr ]; rewrite Hm in Hr; destruct Hr as [ Hout _ ]; by eapply Hout).
    destruct w as [ i [ | sec rest ] ]; cbn in Hin; subst i; [ by destruct Hdo | ].
    eexists _, t. unfold worker_step. rewrite Hw. unfold lock. rewrite Hm. done.
Qed.

(** Every execution of guarded scopes ends, after a number of steps that the work
    bounds, and one that cannot go on has run every scope to its end: there is no
    deadlock and no starvation of a scope for ever. *)
Theorem guarded_sections_complete s progs n sys : nsteps step n (start_system s progs) sys ->
  (n <= cost (start_system s progs))%nat /\
  ((forall sys', ~ step sys sys') -> outside sys /\ forall t w, workers sys !! t = Some w -> todo w = []).
Proof.
  intros Hn. split; [ apply nsteps_cost in Hn; lia | ]. intros Hstuck.
  destruct (steps_refine _ _ (rtc_nsteps_2 _ _ _ Hn) _ (start_refines s progs)) as (a & _ & Hr). split; intros t w Hw.
  - destruct (inside w) eqn:Hi; [ | done ]. destruct (some_step sys a t w Hr Hw) as [ sys' Hs ]; [ left; by rewrite Hi | ]. by destruct (Hstuck sys').
  - destruct (todo w) eqn:Ht; [ done | ]. destruct (some_step sys a t w Hr Hw) as [ sys' Hs ]; [ right; by rewrite Ht | ]. by destruct (Hstuck sys').
Qed.
End Sections.

(** Two threads that each add twice to a counter, the second of which throws half way. *)
Module DemoSections.
Definition add (k : Z) : @statement Z := fun s => (s + k, false).
Definition add_throw (k : Z) : @statement Z := fun s => (s + k, true).
Definition demo_progs : list (list (@section Z)) := [[[add 1; add 1]]; [[add_throw 10; add 10]]].

Fixpoint run_schedule (sched : list nat) (sys : @System Z) : option (@System Z) :=
  match sched with
  | [] => Some sys
  | t :: rest => match worker_step t sys with Ok (Some sys') => run_schedule rest sys' | _ => None end
  end.

Lemma run_schedule_nsteps sched sys sys' : run_schedule sched sys = Some sys' -> nsteps step (length sched) sys sys'.
Proof.
  revert sys. induction sched as [ | t sched IH ]; intros sys; cbn; [ intros [= ->]; constructor | ].
  destruct (worker_step t sys) as [ [ sys1 | ] | | ] eqn:Ht; try done. intros Hr. econstructor; [ by exists t | by apply IH ].
Qed.

Definition demo_schedule : list nat := [0%nat; 0%nat; 0%nat; 0%nat; 1%nat; 1%nat; 1%nat].
Definition demo_end : @System Z := mkSystem 12 (mkMutex None) [mkWorker None []; mkWorker None []].

Lemma guarded_sections_atomic_witness : rtc atomic_step (start_system 0 demo_progs) demo_end.
Proof.
  destruct (guarded_sections_atomic 0 demo_progs demo_end) as (_ & _ & Hat).
  - apply (rtc_nsteps_2 (length demo_schedule)). apply run_schedule_nsteps. vm_compute. reflexivity.
  - apply Hat. intros [ | [ | t ] ] w Hw; cbn in Hw; [ by injection Hw as <- | by injection Hw as <- | done ].
Defined.

Lemma guarded_sections_complete_witness : (7 <= cost (start_system 0%Z demo_progs))%nat.
Proof. apply (guarded_sections_complete 0 demo_progs 7 demo_end). apply (run_schedule_nsteps demo_schedule). vm_compute. reflexivity. Defined.
End DemoSections.

(** ** Threads *)

(** What the operating system's thread behind [thread_] is doing; once joined it is no
    longer joinable. *)
Inductive Stage : Type := Spawned | Running | Ended | Joined.
#[export] Instance Stage_eq_dec : EqDecision Stage.
Proof. solve_decision. Defined.
Definition joinable (st : Stage) : bool := match st with Joined => false | _ => true end.

Record rusage : Type := mkRusage {
  ru_utime : timeval; ru_stime : timeval; ru_maxrss : Z; ru_minflt : Z; ru_majflt : Z;
  ru_inblock : Z; ru_oublock : Z; ru_nvcsw : Z; ru_nivcsw : Z;
}.
Definition zero_rusage : rusage := mkRusage (mkTimeval 0 0) (mkTimeval 0 0) 0 0 0 0 0 0 0.

Record Thread : Type := mkThread {
  thread_ : option Stage;
  tid_ : Z;
  start_time_ : timeval;
  prev_snap_time_ : timeval;
  snap_time_ : timeval;
  prev_rusage_ : rusage;
  rusage_ : rusage;
}.
Definition set_thread (o : option Stage) (t : Thread) : Thread :=
  mkThread o (tid_ t) (start_time_ t) (prev_snap_time_ t) (snap_time_ t) (prev_rusage_ t) (rusage_ t).

Class ThreadEnv := {
  time_at : nat -> timeval;            (** successive readings of gettimeofday *)
  usage_at : nat -> rusage;            (** .. and of getrusage *)
  new_tid : Z;
}.

Section Thread.
Context `{ThreadEnv}.

(** The object, how often its [run] was entered, and the readings taken. *)
Record Life : Type := mkLife { object : Thread; runs : nat; reads : nat }.

Definition Thread_new (n : nat) : Life :=
  mkLife (mkThread None 0 (time_at n) (time_at (n + 1)) (time_at (n + 2)) zero_rusage zero_rusage) 0 (n + 3).

Definition snapRUsage (l : Life) : Life :=
  let t := object l in
  mkLife (mkThread (thread_ t) (tid_ t) (start_time_ t) (snap_time_ t) (time_at (reads l)) (rusage_ t) (usage_at (reads l))) (runs l) (S (reads l)).

Definition start (l : Life) : Life :=
  match thread_ (object l) with None => mkLife (set_thread (Some Spawned) (object l)) (runs l) (reads l) | Some _ => l end.

(** [wait]: [None] while the thread has not ended. *)
Definition wait (l : Life) : option Life :=
  match thread_ (object l) with
  | Some Ended => Some (mkLife (set_thread (Some Joined) (object l)) (runs l) (reads l))
  | Some Joined | None => Some l
  | Some _ => None
  end.

(** [thread_method] up to [run], and the return of [run]. *)
Definition thread_method (l : Life) : option Life :=
  match thread_ (object l) with
  | Some Spawned =>
      let t := object l in
      let l1 := mkLife (mkThread (Some Running) new_tid (time_at (reads l)) (prev_snap_time_ t) (snap_time_ t) (prev_rusage_ t) (rusage_ t)) (runs l) (S (reads l)) in
      let l2 := snapRUsage l1 in
      Some (mkLife (object l2) (S (runs l2)) (reads l2))
  | _ => None
  end.
Definition run_returns (l : Life) : option Life :=
  match thread_ (object l) with Some Running => Some (mkLife (set_thread (Some Ended) (object l)) (runs l) (reads l)) | _ => None end.

(** [~Thread]: deleting a joinable [std::thread] calls [std::terminate]. *)
Inductive ending : Type := Released | Terminated.
Definition Thread_delete (l : Life) : ending :=
  match thread_ (object l) with Some st => if joinable st then Terminated else Released | None => Released end.

Definition getTID (l : Life) : Z := tid_ (object l).

(** The calls of the owner and the moves of the thread, in any order. *)
Inductive event : Type := Start | Wait | Enter | Return | Snap.
#[local] Instance event_eq_dec : EqDecision event.
Proof. solve_decision. Defined.

Definition happens (e : event) (l : Life) : option Life :=
  match e with Start => Some (start l) | Wait => wait l | Enter => thread_method l | Return => run_returns l | Snap => Some (snapRUsage l) end.
Fixpoint live (es : list event) (l : Life) : option Life :=
  match es with [] => Some l | e :: rest => match happens e l with Some l' => live rest l' | None => None end end.

(** A wait somewhere after the first start, or no start at all. *)
Fixpoint joined_by (es : list event) : bool :=
  match es with [] => true | Start :: rest => bool_decide (Wait ∈ rest) | _ :: rest => joined_by rest end.

Definition entered (o : option Stage) : nat := match o with Some (Running | Ended | Joined) => 1 | _ => 0 end.

Lemma happens_entered e l l' : happens e l = Some l' -> runs l = entered (thread_ (object l)) -> runs l' = entered (thread_ (object l')).
Proof.
  destruct l as [ [ o ] n r ]. destruct e; cbn; unfold start, wait, thread_method, run_returns; cbn; destruct o as [ [] | ]; cbn; intros [= <-] E; cbn in *; lia.
Qed.

Lemma live_entered es : forall l l', live es l = Some l' -> runs l = entered (thread_ (object l)) -> runs l' = entered (thread_ (object l')).
Proof.
  induction es as [ | e es IH ]; intros l l'; cbn; [ by intros [= <-] | ]. destruct (happens e l) as [ l1 | ] eqn:He; [ | done ].
  intros Hl E. eapply IH; [ exact Hl | ]. by eapply happens_entered.
Qed.

(** A thread that was started is joined exactly by a wait. *)
Lemma live_started es : forall l l', live es l = Some l' -> thread_ (object l) <> None ->
  thread_ (object l') <> None /\ (thread_ (object l') = Some Joined <-> thread_ (object l) = Some Joined \/ Wait ∈ es).
Proof.
  induction es as [ | e es IH ]; intros l l'; cbn; [ intros [= <-] Hn; set_solver | ]. destruct (happens e l) as [ l1 | ] eqn:He; [ | done ].
  intros Hl Hn. assert (H1 : thread_ (object l1) <> None /\ (thread_ (object l1) = Some Joined <-> thread_ (object l) = Some Joined \/ e = Wait)).
  { revert He Hn. destruct l as [ [ o ] n r ]. destruct e; cbn; unfold start, wait, thread_method, run_returns; cbn; destruct o as [ [] | ]; cbn; intros [= <-] Hn; cbn; naive_solver. }
  destruct H1 as [ Hn1 E1 ]. destruct (IH _ _ Hl Hn1) as [ Hn' E ]. split; [ done | ]. rewrite E, E1, elem_of_cons. intuition congruence.
Qed.

Lemma live_delete es : forall l l', live es l = Some l' -> thread_ (object l) = None -> Thread_delete l' = Released <-> joined_by es = true.
Proof.
  induction es as [ | e es IH ]; intros l l'; cbn; [ intros [= <-] E; unfold Thread_delete; by rewrite E | ]. destruct (happens e l) as [ l1 | ] eqn:He; [ | done ].
  intros Hl E. destruct (decide (e = Start)) as [ -> | Hne ].
  - cbn in He. injection He as <-. assert (Es : thread_ (object (start l)) = Some Spawned) by (unfold start; by rewrite E).
    destruct (live_started es _ _ Hl) as [ Hn Hj ]; [ by rewrite Es | ]. rewrite bool_decide_eq_true. rewrite Es in Hj.
    unfold Thread_delete. destruct (thread_ (object l')) as [ [] | ]; cbn; naive_solver.
  - assert (E1 : thread_ (object l1) = None).
    { revert He. destruct e; cbn; unfold wait, thread_method, run_returns; rewrite ?E; try done; intros [= <-]; done. }
    rewrite (IH _ _ Hl E1). by destruct e.
Qed.

Lemma live_start es : forall l l', live es l = Some l' -> Start ∈ es -> thread_ (object l') <> None.
Proof.
  induction es as [ | e es IH ]; intros l l'; cbn; [ by intros _ ?%not_elem_of_nil | ]. destruct (happens e l) as [ l1 | ] eqn:He; [ | done ].
  intros Hl [ <- | Hs ]%elem_of_cons; [ | by eapply IH ]. eapply live_started; [ exact Hl | ]. cbn in He. injection He as <-. unfold start.
  destruct (thread_ (object l)) eqn:E; [ by rewrite E | done ].
Qed.

(** Whatever order starts, waits, snapshots and the moves of the thread itself come in,
    [run] is entered at most once, exactly once by the time a wait after a start returned,
    and deleting the object terminates the program exactly if it was started and not
    waited for afterwards. *)
Theorem thread_lifecycle n es l : live es (Thread_new n) = Some l ->
  (runs l <= 1)%nat /\ (thread_ (object l) = Some Joined -> runs l = 1%nat) /\
  (Thread_delete l = Terminated <-> joined_by es = false) /\ (Start ∈ es -> joined_by es = true -> runs l = 1%nat).
Proof.
  intros Hl. pose proof (live_entered es _ _ Hl eq_refl) as Hr. pose proof (live_delete es _ _ Hl eq_refl) as Hd.
  assert (Hjoin : Start ∈ es -> joined_by es = true -> thread_ (object l) = Some Joined).
  { intros Hs Hj. pose proof (live_start es _ _ Hl Hs) as Hn. pose proof (proj2 Hd Hj) as Hrel. unfold Thread_delete in Hrel.
    by destruct (thread_ (object l)) as [ [] | ]. }
  split_and!.
  - rewrite Hr. by destruct (thread_ (object l)) as [ [] | ]; cbn; lia.
  - intros E. by rewrite Hr, E.
  - destruct (Thread_delete l), (joined_by es); naive_solver.
  - intros Hs Hj. rewrite Hr, (Hjoin Hs Hj). done.
Qed.
End Thread.

(** ** Rates, in double precision *)

(** [1.0E6] *)
Definition million : double := to_double 1000000.

Definition getSecondDiff (t1 t2 : timeval) : double :=
  dadd (dsub (to_double (tv_sec t2)) (to_double (tv_sec t1))) (ddiv (dsub (to_double (tv_usec t2)) (to_double (tv_usec t1))) million).

Definition getRunTime (t : Thread) : double := getSecondDiff (start_time_ t) (snap_time_ t).
Definition getSnapDiffTime (t : Thread) : double := getSecondDiff (prev_snap_time_ t) (snap_time_ t).

(** [(double)tv_sec + (double)tv_usec/1.0E6] *)
Definition seconds (tv : timeval) : double := dadd (to_double (tv_sec tv)) (ddiv (to_double (tv_usec tv)) million).

Definition getAvgUserCPU (t : Thread) : double := ddiv (seconds (ru_utime (rusage_ t))) (getRunTime t).
Definition getAvgSysCPU (t : Thread) : double := ddiv (seconds (ru_stime (rusage_ t))) (getRunTime t).
Definition getAvgMinFltRate (t : Thread) : double := ddiv (to_double (ru_minflt (rusage_ t))) (getRunTime t).
Definition getAvgMajFltRate (t : Thread) : double := ddiv (to_double (ru_majflt (rusage_ t))) (getRunTime t).
Definition getAvgBlkInRate (t : Thread) : double := ddiv (to_double (ru_inblock (rusage_ t))) (getRunTime t).
Definition getAvgBlkOutRate (t : Thread) : double := ddiv (to_double (ru_oublock (rusage_ t))) (getRunTime t).
Definition getAvgVCtx (t : Thread) : double := ddiv (to_double (ru_nvcsw (rusage_ t))) (getRunTime t).
Definition getAvgICtx (t : Thread) : double := ddiv (to_double (ru_nivcsw (rusage_ t))) (getRunTime t).
Definition getMaxRSS (t : Thread) : Z := ru_maxrss (rusage_ t).

Definition getLastUserCPU (t : Thread) : double := ddiv (dsub (seconds (ru_utime (rusage_ t))) (seconds (ru_utime (prev_rusage_ t)))) (getSnapDiffTime t).
Definition getLastSysCPU (t : Thread) : double := ddiv (dsub (seconds (ru_stime (rusage_ t))) (seconds (ru_stime (prev_rusage_ t)))) (getSnapDiffTime t).

(** The shape of the rates of counters between two snapshots. *)
Definition last_rate (count : rusage -> Z) (t : Thread) : double :=
  ddiv (dsub (to_double (count (rusage_ t))) (to_double (count (prev_rusage_ t)))) (getSnapDiffTime t).
Definition getLastMinFltRate : Thread -> double := last_rate ru_minflt.
Definition getLastMajFltRate : Thread -> double := last_rate ru_majflt.
Definition getLastBlkInRate : Thread -> double := last_rate ru_inblock.
Definition getLastBlkOutRate : Thread -> double := last_rate ru_oublock.
Definition getLastVCtx : Thread -> double := last_rate ru_nvcsw.
Definition getLastICtx : Thread -> double := last_rate ru_nivcsw.

(** Two snapshots at the same time: the difference in seconds is zero, so a rate between
    them is not a number if the counter stayed, and an infinity or not a number otherwise:
    it is never a finite value. *)
Theorem rate_without_time count t : snap_time_ t = prev_snap_time_ t ->
  finite (to_double (tv_sec (snap_time_ t))) -> finite (to_double (tv_usec (snap_time_ t))) ->
  getSnapDiffTime t = S754_zero false /\ ~ finite (last_rate count t) /\
  (count (rusage_ t) = count (prev_rusage_ t) -> finite (to_double (count (rusage_ t))) -> last_rate count t = S754_nan).
Proof.
  intros Et Hs Hu. assert (Hz : getSnapDiffTime t = S754_zero false).
  { unfold getSnapDiffTime, getSecondDiff. rewrite <- Et, !dsub_self by done. vm_compute. reflexivity. }
  unfold last_rate. rewrite Hz. split_and!; [ done | intros Hf; destruct (dsub _ _); exact Hf | ]. intros -> Hf. by rewrite dsub_self.
Qed.

(** Half a second, exactly. *)
Example half_a_second : getSecondDiff (mkTimeval 10 250000) (mkTimeval 10 750000) = ddiv (to_double 1) (to_double 2).
Proof. vm_compute. reflexivity. Qed.

Module DemoThread.
#[local] Instance demo_env : ThreadEnv := {| time_at n := mkTimeval (1000 + Z.of_nat n) 0; usage_at n := zero_rusage; new_tid := 42 |}.

Lemma thread_lifecycle_witness : exists l, live [Start; Enter; Snap; Start; Return; Wait] (Thread_new 0) = Some l /\ runs l = 1%nat.
Proof.
  eexists. split; [ vm_compute; reflexivity | ].
  apply (thread_lifecycle 0 [Start; Enter; Snap; Start; Return; Wait]); [ vm_compute; reflexivity | set_solver | vm_compute; reflexivity ].
Defined.

Lemma rate_without_time_witness : getLastMinFltRate (mkThread None 0 (mkTimeval 1 0) (mkTimeval 2 5) (mkTimeval 2 5) zero_rusage zero_rusage) = S754_nan.
Proof.
  apply (rate_without_time ru_minflt (mkThread None 0 (mkTimeval 1 0) (mkTimeval 2 5) (mkTimeval 2 5) zero_rusage zero_rusage)); [ reflexivity | vm_compute; exact I | vm_compute; exact I | reflexivity | vm_compute; exact I ].
Defined.
End DemoThread.
