(* ===== verification/Measure.v ===== *)
(** * Measure: stop watches and the verdict of a unit test

    Models the class [StopWatch] of src/src/include/common/util.hpp and
    src/src/include/common/unittest.hpp with src/src/lib/common/unittest.cpp. *)

From S2P Require Import Prelude.
From S2P Require Import Double.
From Stdlib Require Import SpecFloat.

Local Open Scope Z_scope.

(** ** StopWatch

    Time points are nanoseconds of the clock, which is read by every call that asks for the
    time; a stop time before the start time means that the watch runs. *)

Record StopWatch : Type := mkStopWatch { start_ : Z; stop_ : Z }.
Definition day : Z := 24 * 3600 * 1000000000.

Section StopWatch.
Variable now : nat -> Z.             (** successive readings of the clock *)

(** A computation with the number of readings so far. *)
Definition sw_start (n : nat) : StopWatch * nat := (mkStopWatch (now (n + 1)) (now n - day), (n + 2)%nat).
Definition StopWatch_new (n : nat) : StopWatch * nat := sw_start n.

(** [duration<double>] of nanoseconds *)
Definition to_seconds (ns : Z) : double := ddiv (to_double ns) (to_double 1000000000).
Definition elapsed (w : StopWatch) (n : nat) : Z * nat :=
  if stop_ w <? start_ w then (now n - start_ w, S n) else (stop_ w - start_ w, n).
Definition getElapsedSeconds (w : StopWatch) (n : nat) : double * nat := let (d, n') := elapsed w n in (to_seconds d, n').

Definition sw_stop (w : StopWatch) (n : nat) : double * StopWatch * nat :=
  let w' := mkStopWatch (start_ w) (now n) in let (d, n') := getElapsedSeconds w' (S n) in (d, w', n').
Definition restart (w : StopWatch) (n : nat) : double * StopWatch * nat :=
  let '(t, _, n1) := sw_stop w n in let (w', n2) := sw_start n1 in (t, w', n2).

(** The clock does not go back, and two readings in a row are less than a day apart. *)
Definition steady : Prop := forall n, now n <= now (S n) < now n + day.

Lemma steady_le i j : steady -> (i <= j)%nat -> now i <= now j.
Proof. intros Hs. induction 1 as [ | j _ IH ]; [ lia | ]. specialize (Hs j). lia. Qed.

(** On a clock that does not go back: a watch that was started shows the time since its
    start whenever it is asked, [stop] and [restart] answer the time from the start to
    themselves, a watch that was stopped keeps showing what it showed then, and one that
    was restarted shows the time since. *)
Theorem stopwatch_measures n k m : steady -> (n + 2 <= k)%nat -> (k < m)%nat ->
  let w := fst (sw_start n) in
  fst (getElapsedSeconds w k) = to_seconds (now k - now (n + 1)) /\
  (let '(d, w', n') := sw_stop w k in d = to_seconds (now k - now (n + 1)) /\ n' = S k /\ getElapsedSeconds w' m = (d, m)) /\
  (let '(d, w', n') := restart w k in d = to_seconds (now k - now (n + 1)) /\ fst (getElapsedSeconds w' m) = to_seconds (now m - now (k + 2))).
Proof.
  intros Hs Hk Hm w. assert (Hday : now n - day < now (n + 1)) by (pose proof (Hs n) as [ Hn _ ]; replace (n + 1)%nat with (S n) by lia; unfold day in *; lia).
  assert (Hrun : forall w' i, stop_ w' < start_ w' -> getElapsedSeconds w' i = (to_seconds (now i - start_ w'), S i)).
  { intros w' i Hlt. unfold getElapsedSeconds, elapsed. by rewrite (proj2 (Z.ltb_lt _ _) Hlt). }
  assert (Hstop : forall s t i, s <= t -> getElapsedSeconds (mkStopWatch s t) i = (to_seconds (t - s), i)).
  { intros s t i Hle. unfold getElapsedSeconds, elapsed. cbn [start_ stop_]. by rewrite (proj2 (Z.ltb_ge _ _) Hle). }
  assert (Hle : now (n + 1) <= now k) by (apply steady_le; [ done | lia ]). split_and!.
  - by rewrite Hrun.
  - unfold sw_stop. cbn [start_ w sw_start fst]. rewrite !Hstop by done. done.
  - unfold restart, sw_stop. cbn [start_ w sw_start fst]. rewrite Hstop by done. cbn [sw_start fst]. split; [ done | ].
    rewrite Hrun; [ cbn [start_ fst]; by replace (S k + 1)%nat with (k + 2)%nat by lia | ]. cbn [start_ stop_].
    pose proof (Hs (S k)) as [ Hn _ ]. replace (S k + 1)%nat with (S (S k)) by lia. unfold day in *. lia.
Qed.
End StopWatch.

Lemma stopwatch_measures_witness : fst (getElapsedSeconds (fun n => 1000 * Z.of_nat n) (fst (sw_start (fun n => 1000 * Z.of_nat n) 0)) 5) = to_seconds 4000.
Proof. apply (stopwatch_measures (fun n => 1000 * Z.of_nat n) 0 5 6); [ intros n; unfold day; lia | lia | lia ]. Defined.

(** ** UnitTest *)

Record UnitTest : Type := mkUnitTest { name_ : str; description_ : str; out_ : str; total_ : Z; failed_ : Z }.
Definition UnitTest_new (name description out : str) : UnitTest := mkUnitTest name description out 0 0.
Definition write (t : str) (u : UnitTest) : UnitTest := mkUnitTest (name_ u) (description_ u) (out_ u ++ t) (total_ u) (failed_ u).
Definition rule (c : ascii) : str := replicate 80 c ++ [chr 10].

Definition writeUnitTestHeader (u : UnitTest) : UnitTest :=
  write (rule "="%char ++ name_ u ++ lit " - " ++ description_ u ++ [chr 10] ++ rule "="%char ++ [chr 10]) u.
Definition writeUnitTestSummary (u : UnitTest) : UnitTest :=
  write (rule "+"%char ++ print_dec (failed_ u) ++ lit " failed out of " ++ print_dec (total_ u) ++ lit " tests." ++ [chr 10] ++ [chr 10]) u.

Definition writeSubTestResult (name description : str) (passed : bool) (u : UnitTest) : bool * UnitTest :=
  let u' := mkUnitTest (name_ u) (description_ u) (out_ u) (u64 (total_ u + 1)) (if passed then failed_ u else u64 (failed_ u + 1)) in
  (passed, write (rule "-"%char ++ name ++ lit " - " ++ description ++ lit " : " ++ (if passed then lit "passed" else lit "failure") ++ [chr 10] ++ rule "-"%char ++ [chr 10]) u').

(** [run]; [doRun] is the test's own. *)
Definition run (doRun : UnitTest -> UnitTest) (u : UnitTest) : bool * UnitTest :=
  let u' := writeUnitTestSummary (doRun (writeUnitTestHeader u)) in (failed_ u' =? 0, u').

(** A test that reports these results. *)
Fixpoint reports (results : list (str * str * bool)) (u : UnitTest) : UnitTest :=
  match results with
  | [] => u
  | (name, description, passed) :: rest => reports rest (snd (writeSubTestResult name description passed u))
  end.

Lemma reports_counts results : forall u, 0 <= failed_ u <= total_ u -> total_ u + zlen results < 2 ^ 64 ->
  total_ (reports results u) = total_ u + zlen results /\
  failed_ (reports results u) = failed_ u + zlen (List.filter (fun r => negb (snd r)) results).
Proof.
  induction results as [ | [ [ name description ] passed ] results IH ]; intros u Hu Hb; [ cbn [reports List.filter]; change (@zlen (str * str * bool) []) with 0; lia | ].
  cbn [reports]. rewrite zlen_cons in Hb. pose proof (zlen_nonneg results).
  destruct (IH (snd (writeSubTestResult name description passed u))) as [ E1 E2 ].
  - cbn. rewrite u64_small by lia. destruct passed; rewrite ?u64_small by lia; lia.
  - cbn. rewrite u64_small by lia. lia.
  - rewrite E1, E2. cbn [snd writeSubTestResult write total_ failed_ List.filter]. rewrite u64_small by lia. destruct passed; cbn [negb]; rewrite ?zlen_cons, ?u64_small by lia; lia.
Qed.

(** A test passes exactly if every result it reported did. *)
Lemma run_verdict results u : total_ u = 0 -> failed_ u = 0 -> zlen results < 2 ^ 64 ->
  fst (run (reports results) u) = forallb snd results.
Proof.
  intros Ht Hf Hb. unfold run. cbn [fst failed_ writeUnitTestSummary write].
  destruct (reports_counts results (writeUnitTestHeader u)) as [ _ E ]; [ cbn; lia | cbn; lia | ]. rewrite E. cbn [failed_ writeUnitTestHeader write]. rewrite Hf, Z.add_0_l. clear.
  induction results as [ | [ x passed ] results IH ]; [ done | ]. cbn [List.filter forallb snd]. destruct passed; cbn [negb andb]; [ done | ].
  rewrite zlen_cons. pose proof (zlen_nonneg (List.filter (fun r : str * str * bool => negb r.2) results)). by apply Z.eqb_neq; lia.
Qed.
