(* ===== verification/Ping.v ===== *)
(** * Ping: the ICMP echo program

    Models src/src/examples/ping/ping.cpp: the checksum of RFC 1071, the packets, the
    statistics, the options, and the loop that sends requests and waits for their replies.
    The name and reply sides of the sockets are arguments of the loop (class [Wire]). *)

From S2P Require Import Prelude.
From S2P Require Import SystemError.
From S2P Require Import Double.
From Stdlib Require Import SpecFloat.

Local Open Scope Z_scope.

(** [unsigned int] and [uint16_t]. *)
Definition u32 (z : Z) : Z := wrap 32 z.
Definition u16 (z : Z) : Z := wrap 16 z.

(** ** Checksum *)

Definition word (x y : ascii) : Z := octet x + 256 * octet y.
Definition outside_packet : exn := UndefinedBehaviour (lit "read outside the packet").

(** [for ( sum = 0; len > 1; len -= 2 ) sum += *buf++] and the odd octet. *)
Fixpoint sum_words (b : str) (len sum : Z) : outcome Z :=
  if 1 <? len then
    match b with
    | x :: y :: r => sum_words r (len - 2) (u32 (sum + word x y))
    | _ => Throw outside_packet
    end
  else if len =? 1 then
    match b with x :: _ => Ok (u32 (sum + octet x)) | [] => Throw outside_packet end
  else Ok sum.

(** The carries added twice, the complement, the low 16 bits. *)
Definition fold_sum (sum : Z) : Z :=
  let s := u32 (Z.shiftr sum 16 + Z.land sum 65535) in
  u16 (Z.lnot (u32 (s + Z.shiftr s 16))).

Definition checksum (b : str) (len : Z) : outcome Z := let! sum := sum_words b len 0 in Ok (fold_sum sum).

(** ** Packets *)

Definition htons (v : Z) : Z := 256 * (v mod 256) + v / 256.
Definition le16 (v : Z) : str := [chr (v mod 256); chr (v / 256)].

(** Both kinds of packet have this header; [msg] is the rest of the structure. *)
Record packet : Type := mkPacket { type_ : Z; code : Z; cksum : Z; id : Z; sequence : Z; msg : str }.
Definition packet_octets (p : packet) : str := [chr (type_ p); chr (code p)] ++ le16 (cksum p) ++ le16 (id p) ++ le16 (sequence p) ++ msg p.

Definition PING_PKT_S : Z := 60000.
Definition msg_size : Z := PING_PKT_S - 8 - 20.
Definition msg6_size : Z := PING_PKT_S - 8.

(** "freedom" with its zero, in an area of zeros. *)
Definition message (size : Z) : str := lit "freedom" ++ replicate (Z.to_nat (size - 7)) (chr 0).

Definition ICMP_ECHO : Z := 8.
Definition ICMP6_ECHO_REQUEST : Z := 128.
Definition ICMP6_ECHO_REPLY : Z := 129.

Definition initPacket (pid : Z) : packet := mkPacket ICMP_ECHO 0 0 (htons (u16 pid)) 0 (message msg_size).
Definition initPacket6 (pid : Z) : packet := mkPacket ICMP6_ECHO_REQUEST 0 0 (htons (u16 pid)) 0 (message msg6_size).

Definition nextPacket (size : Z) (p : packet) (sq : Z) : outcome packet :=
  let p0 := mkPacket (type_ p) (code p) 0 (id p) (htons sq) (msg p) in
  let! c := checksum (packet_octets p0) size in
  Ok (mkPacket (type_ p) (code p) c (id p) (htons sq) (msg p)).

(** ** Statistics *)

Definition dmul : double -> double -> double := SFmul 53 1024.
Definition dltb : double -> double -> bool := SFltb.
Definition dzero : double := S754_zero false.

Record ping_stats : Type := mkStats { total_request : Z; total_reply : Z; min_ : double; max_ : double; mu : double; sq : double }.
Definition ping_stats_new : ping_stats := mkStats 0 0 dzero dzero dzero dzero.

Definition stddev (s : ping_stats) : double :=
  if (1 <? total_reply s) && negb (SFeqb (sq s) dzero) then SFsqrt 53 1024 (ddiv (sq s) (to_double (total_reply s))) else dzero.

Definition success (v : double) (s : ping_stats) : ping_stats :=
  let mn := if dltb v (min_ s) || (total_request s =? 0) then v else min_ s in
  let mx := if dltb (max_ s) v || (total_request s =? 0) then v else max_ s in
  let reply := u64 (total_reply s + 1) in
  let mu_new := dadd (mu s) (ddiv (dsub v (mu s)) (to_double reply)) in
  mkStats (u64 (total_request s + 1)) reply mn mx mu_new (dadd (sq s) (dmul (dsub v (mu s)) (dsub v mu_new))).
Definition fail (s : ping_stats) : ping_stats := mkStats (u64 (total_request s + 1)) (total_reply s) (min_ s) (max_ s) (mu s) (sq s).

(** ** Options *)

Record runtime_options : Type := mkOptions {
  ping_interval : Z; precision : Z; ping_count : Z; ping_packet_size : Z; ttl : Z; receive_timeout : double;
  do_ipv4 : bool; do_ipv6 : bool;
}.
Definition runtime_options_new : runtime_options := mkOptions 1000000 3 UINT_MAX 64 56 (to_double 10) true true.

(** What getopt delivers: the option and its argument as the number the C library reads,
    an integer or, for a time, a double with its microseconds as an unsigned integer. *)
Inductive option_arg : Type :=
| OptCount (n : Z) | OptPrecision (n : Z) | OptTimeout (d : double) | OptTTL (n : Z) | OptSize (n : Z) | OptInterval (us : Z)
| Opt4 | Opt6.

Definition clamp_size (n : Z) : Z :=
  let s := u32 n in let s := if s <? 48 then 48 else s in if 60000 <? s then 60000 else s.

Definition parse_option (o : runtime_options) (a : option_arg) : runtime_options :=
  match o, a with
  | mkOptions i p c s t r v4 v6, OptCount n => mkOptions i p (u32 n) s t r v4 v6
  | mkOptions i p c s t r v4 v6, OptPrecision n => mkOptions i (u32 n) c s t r v4 v6
  | mkOptions i p c s t r v4 v6, OptTimeout d => mkOptions i p c s t d v4 v6
  | mkOptions i p c s t r v4 v6, OptTTL n => mkOptions i p c s (u32 n) r v4 v6
  | mkOptions i p c s t r v4 v6, OptSize n => mkOptions i p c (clamp_size n) t r v4 v6
  | mkOptions i p c s t r v4 v6, OptInterval us => mkOptions us p c s t r v4 v6
  | mkOptions i p c s t r v4 v6, Opt4 => mkOptions i p c s t r v4 false
  | mkOptions i p c s t r v4 v6, Opt6 => mkOptions i p c s t r false v6
  end.

Definition parseArgs (args : list option_arg) : runtime_options :=
  match fold_left parse_option args runtime_options_new with
  | mkOptions i p c s t r v4 v6 => if negb v4 && negb v6 then mkOptions i p c s t r true true else mkOptions i p c s t r v4 v6
  end.

(** ** The loop *)

Class Wire := {
  send_to : nat -> SystemError;                 (** of the k-th request *)
  receive_ : nat -> nat -> SystemError * packet;  (** the j-th receive behind the k-th request *)
  elapsed_ : nat -> nat -> double;
  stop_requested : nat -> bool;                 (** [request_stop] when the k-th turn is tested *)
}.

Section Loop.
Context `{Wire}.

(** [do .. while ( ok && another packet )] *)
Fixpoint receive_reply (fuel : nat) (mine : packet -> bool) (k j : nat) : outcome (SystemError * packet * nat) :=
  match fuel with
  | O => OutOfFuel
  | S f => let (e, r) := receive_ k j in if ok e && negb (mine r) then receive_reply f mine k (S j) else Ok (e, r, j)
  end.

(** Which packets answer a request, and which of these count. *)
Record kind : Type := mkKind { answers : packet -> packet -> bool; counts : packet -> bool }.
Definition icmp : kind := mkKind (fun p r => (id p =? id r) && (sequence p =? sequence r)) (fun r => code r =? 0).
Definition icmp6 : kind :=
  mkKind (fun p r => (type_ r =? ICMP6_ECHO_REPLY) && (id r =? id p) && (sequence r =? sequence p)) (fun r => type_ r =? ICMP6_ECHO_REPLY).

(** One turn; [k] counts the turns, [msg_count] is the 16-bit variable. *)
Definition ping_turn (kd : kind) (rfuel : nat) (size : Z) (k : nat) (msg_count : Z) (pkt : packet) (stats : ping_stats) : outcome (packet * ping_stats) :=
  let! p := nextPacket size pkt msg_count in
  if negb (ok (send_to k)) then Throw (SystemException (lit "socket.sendTo") (send_to k)) else
  let! (e, r, j) := receive_reply rfuel (answers kd p) k 0 in
  Ok (p, if ok e && counts kd r then success (elapsed_ k j) stats else fail stats).

(** The loop of [ping] and [ping6]; [sent] are the sequence numbers. *)
Fixpoint ping_loop (fuel : nat) (kd : kind) (rfuel : nat) (o : runtime_options) (k : nat) (msg_count : Z) (pkt : packet) (stats : ping_stats) (sent : list Z)
    : outcome (ping_stats * list Z) :=
  match fuel with
  | O => OutOfFuel
  | S f =>
      if (msg_count <? ping_count o) && negb (stop_requested k) then
        let! (p, stats') := ping_turn kd rfuel (ping_packet_size o) k msg_count pkt stats in
        ping_loop f kd rfuel o (S k) (u16 (msg_count + 1)) p stats' (sent ++ [msg_count])
      else Ok (stats, sent)
  end.

Definition ping (fuel rfuel : nat) (pid : Z) (o : runtime_options) (stats : ping_stats) : outcome (ping_stats * list Z) :=
  ping_loop fuel icmp rfuel o 0 0 (initPacket pid) stats [].
Definition ping6 (fuel rfuel : nat) (pid : Z) (o : runtime_options) (stats : ping_stats) : outcome (ping_stats * list Z) :=
  ping_loop fuel icmp6 rfuel o 0 0 (initPacket6 pid) stats [].
End Loop.

(** ** The checksum is that of RFC 1071 *)

(** The sum of the words of the code, before its carries are folded. *)
Fixpoint word_sum (b : str) : Z :=
  match b with
  | x :: y :: r => word x y + word_sum r
  | [x] => octet x
  | [] => 0
  end.

Lemma word_sum_bound b : 0 <= word_sum b <= 65535 * zlen b.
Proof.
  assert (Hgen : forall n b, (length b <= n)%nat -> 0 <= word_sum b <= 65535 * zlen b).
  { induction n as [ | n IH ]; intros [ | x [ | y r ] ] Hl; cbn [length] in Hl; try lia; cbn [word_sum].
    - change (zlen []) with 0. lia.
    - change (zlen []) with 0. lia.
    - change (zlen [x]) with 1. pose proof (octet_range x). lia.
    - rewrite !zlen_cons. specialize (IH r ltac:(lia)). unfold word. pose proof (octet_range x). pose proof (octet_range y). lia. }
  by apply (Hgen (length b)).
Qed.

Lemma u32_small z : 0 <= z < 2 ^ 32 -> u32 z = z.
Proof. intros Hz. unfold u32, wrap. by apply Z.mod_small. Qed.

(** Within a packet, and below the size at which 32 bits could overflow, the loop adds the
    words of the first [len] octets. *)
Lemma sum_words_spec b len sum : 0 <= len <= zlen b -> 0 <= sum -> sum + 65535 * len < 2 ^ 32 ->
  sum_words b len sum = Ok (sum + word_sum (take (Z.to_nat len) b)).
Proof.
  assert (Hgen : forall n b len sum, (length b <= n)%nat -> 0 <= len <= zlen b -> 0 <= sum -> sum + 65535 * len < 2 ^ 32 ->
                 sum_words b len sum = Ok (sum + word_sum (take (Z.to_nat len) b))).
  { assert (H0 : forall q, word_sum (take (Z.to_nat 0) q) = 0) by done.
    induction n as [ | n IH ]; intros [ | x [ | y r ] ] l s Hl Hlen Hs Hb; cbn [length] in Hl; try lia; cbn [sum_words].
    - change (zlen []) with 0 in Hlen. replace l with 0 by lia. rewrite H0. cbn. f_equal. lia.
    - change (zlen []) with 0 in Hlen. replace l with 0 by lia. rewrite H0. cbn. f_equal. lia.
    - change (zlen [x]) with 1 in Hlen. pose proof (octet_range x). destruct (Z.ltb_spec 1 l); [ lia | ]. destruct (Z.eqb_spec l 1) as [ -> | ].
      + rewrite u32_small by lia. done.
      + replace l with 0 by lia. rewrite H0. cbn. f_equal. lia.
    - rewrite !zlen_cons in Hlen. pose proof (octet_range x). pose proof (octet_range y). destruct (Z.ltb_spec 1 l).
      + assert (0 <= word x y <= 65535) by (unfold word; lia). rewrite u32_small by lia. rewrite IH by lia.
        replace (Z.to_nat l) with (S (S (Z.to_nat (l - 2)))) by lia. cbn [take word_sum]. f_equal. lia.
      + destruct (Z.eqb_spec l 1) as [ -> | ]; [ rewrite u32_small by lia; done | ]. replace l with 0 by lia. rewrite H0. cbn. f_equal. lia. }
  by apply (Hgen (length b)).
Qed.

(** The sum with its carries added back in. *)
Definition carried (s : Z) : Z := let t := s / 65536 + s mod 65536 in if t <? 65536 then t else t - 65535.

Lemma fold_sum_spec s : 0 <= s < 2 ^ 32 -> fold_sum s = 65535 - carried s.
Proof.
  intros Hs. unfold fold_sum, carried. pose proof (Z.div_mod s 65536 ltac:(lia)). pose proof (Z.mod_pos_bound s 65536 ltac:(lia)).
  set (t := s / 65536 + s mod 65536) in *. assert (0 <= t <= 131070) by (unfold t; lia).
  assert (Et : u32 (Z.shiftr s 16 + Z.land s 65535) = t).
  { rewrite Z.shiftr_div_pow2 by lia. change 65535 with (Z.ones 16). rewrite Z.land_ones by lia. change (2 ^ 16) with 65536. apply u32_small. fold t. lia. }
  rewrite Et. cbv zeta. rewrite Z.shiftr_div_pow2 by lia. change (2 ^ 16) with 65536.
  unfold Z.lnot. assert (Hlow : forall v, 0 <= v < 65536 -> u16 (- v - 1) = 65535 - v /\ u16 (- (v + 65536) - 1) = 65535 - v).
  { intros v Hv. unfold u16, wrap. change (2 ^ 16) with 65536. split; symmetry; [ apply (Z.mod_unique_pos _ _ (-1)) | apply (Z.mod_unique_pos _ _ (-2)) ]; lia. }
  rewrite <- !Z.sub_1_r. destruct (Z.ltb_spec t 65536).
  - rewrite (Z.div_small t) by lia. rewrite u32_small by lia. rewrite Z.add_0_r. apply (proj1 (Hlow t ltac:(lia))).
  - assert (Hq : t / 65536 = 1) by (symmetry; apply (Z.div_unique_pos _ _ _ (t - 65536)); lia). rewrite Hq, u32_small by lia.
    replace (- (t + 1) - 1) with (- ((t - 65535) + 65536) - 1) by lia. rewrite (proj2 (Hlow (t - 65535) ltac:(lia))). lia.
Qed.

Lemma fold_sum_range s : 0 <= s < 2 ^ 32 -> 0 <= fold_sum s < 65536.
Proof.
  intros Hs. rewrite fold_sum_spec by done. unfold carried. pose proof (Z.div_mod s 65536 ltac:(lia)). pose proof (Z.mod_pos_bound s 65536 ltac:(lia)).
  destruct (Z.ltb_spec (s / 65536 + s mod 65536) 65536); lia.
Qed.

(** Adding the checksum to a sum makes its checksum zero. *)
Lemma fold_sum_closes s : 0 <= s -> s + 65536 < 2 ^ 32 -> fold_sum (s + fold_sum s) = 0.
Proof.
  intros H0 Hs. pose proof (fold_sum_range s ltac:(lia)). rewrite (fold_sum_spec (s + fold_sum s)) by lia. rewrite (fold_sum_spec s) by lia.
  assert (Hk : exists k, 1 <= k <= 65536 /\ s + (65535 - carried s) = 65535 * k).
  { unfold carried. pose proof (Z.div_mod s 65536 ltac:(lia)). pose proof (Z.mod_pos_bound s 65536 ltac:(lia)).
    destruct (Z.ltb_spec (s / 65536 + s mod 65536) 65536); [ exists (s / 65536 + 1) | exists (s / 65536 + 2) ]; lia. }
  destruct Hk as (k & Hk & ->). unfold carried.
  assert (Hq : 65535 * k / 65536 = k - 1) by (symmetry; apply (Z.div_unique_pos _ _ _ (65536 - k)); lia).
  assert (Hr : (65535 * k) mod 65536 = 65536 - k) by (symmetry; apply (Z.mod_unique_pos _ _ (k - 1)); lia).
  rewrite Hq, Hr. replace (k - 1 + (65536 - k)) with 65535 by lia. done.
Qed.

(** The sum of a packet is that of its checksum field and of the rest. *)
Lemma packet_word_sum p size : 4 <= size -> 0 <= cksum p < 65536 ->
  word_sum (take (Z.to_nat size) (packet_octets p)) =
  cksum p + word_sum (take (Z.to_nat size) (packet_octets (mkPacket (type_ p) (code p) 0 (id p) (sequence p) (msg p)))).
Proof.
  intros Hs Hc. replace (Z.to_nat size) with (S (S (S (S (Z.to_nat (size - 4)))))) by lia. cbn [packet_octets le16 app take word_sum type_ code cksum id sequence msg].
  assert (Hle : forall v, 0 <= v < 65536 -> word (chr (v mod 256)) (chr (v / 256)) = v).
  { intros v Hv. pose proof (Z.div_mod v 256 ltac:(lia)). pose proof (Z.mod_pos_bound v 256 ltac:(lia)).
    assert (0 <= v / 256 < 256) by (split; [ apply Z.div_pos; lia | apply Z.div_lt_upper_bound; lia ]). unfold word. rewrite !octet_chr by lia. lia. }
  rewrite (Hle (cksum p)) by done. rewrite (Hle 0) by lia. lia.
Qed.

Lemma packet_length p : zlen (packet_octets p) = 8 + zlen (msg p).
Proof. unfold packet_octets, le16, zlen. rewrite !length_app. cbn [length]. lia. Qed.

Lemma next_packet_run size p sq : 8 <= size <= 8 + zlen (msg p) -> size <= PING_PKT_S ->
  let p0 := mkPacket (type_ p) (code p) 0 (id p) (htons sq) (msg p) in let s := word_sum (take (Z.to_nat size) (packet_octets p0)) in
  nextPacket size p sq = Ok (mkPacket (type_ p) (code p) (fold_sum s) (id p) (htons sq) (msg p)) /\ 0 <= s <= 65535 * size.
Proof.
  intros Hs Hmax p0 s. unfold PING_PKT_S in Hmax. unfold nextPacket, checksum. fold p0.
  rewrite sum_words_spec by (rewrite ?packet_length; cbn [msg p0]; lia). split; [ done | ].
  pose proof (word_sum_bound (take (Z.to_nat size) (packet_octets p0))) as Hb. fold s in Hb. unfold zlen in Hb. rewrite length_take in Hb. lia.
Qed.

(** *** RFC 1071

    Independent of the code: the octets as 16-bit words in network order, an odd last octet
    padded with zero, added in ones' complement with the carry brought around at every
    addition; the checksum is the complement of the sum. *)

Fixpoint network_words (b : str) : list Z :=
  match b with
  | x :: y :: r => 256 * octet x + octet y :: network_words r
  | [x] => [256 * octet x]
  | [] => []
  end.

Definition ones_add (x y : Z) : Z := let s := x + y in if s <? 65536 then s else s - 65536 + 1.
Definition ones_sum (b : str) : Z := fold_right ones_add 0 (network_words b).
Definition rfc1071 (b : str) : Z := 65535 - ones_sum b.
Definition be16 (v : Z) : str := [chr (v / 256); chr (v mod 256)].

(** [r] stands for the sum [s]: the same number modulo 65535, and zero only for zero. *)
Definition stands (r s : Z) : Prop := 0 <= r <= 65535 /\ (exists k, r = s + 65535 * k) /\ (r = 0 <-> s = 0).

Lemma stands_unique r r' s : stands r s -> stands r' s -> r = r'.
Proof. intros (Hr & (k & Hk) & Hz) (Hr' & (k' & Hk') & Hz'). assert (k = k' \/ k = k' + 1 \/ k' = k + 1) as [ | [ | ] ] by lia; subst; lia. Qed.

Lemma ones_add_stands w r s : 0 <= w <= 65535 -> 0 <= s -> stands r s -> stands (ones_add w r) (w + s).
Proof.
  intros Hw Hs (Hr & (k & Hk) & Hz). unfold ones_add. cbv zeta. destruct (Z.ltb_spec (w + r) 65536); (split; [ lia | ]); (split; [ | lia ]);
    [ exists k | exists (k - 1) ]; lia.
Qed.

(** The words of the code are in the order of the host: the sum in network order is 256
    times theirs, modulo 65535. *)
Lemma ones_sum_stands b : exists s, stands (ones_sum b) s /\ 0 <= s /\ (exists k, s = 256 * word_sum b - 65535 * k) /\ (s = 0 <-> word_sum b = 0).
Proof.
  assert (Hgen : forall n b, (length b <= n)%nat ->
    exists s, stands (ones_sum b) s /\ 0 <= s /\ (exists k, s = 256 * word_sum b - 65535 * k) /\ (s = 0 <-> word_sum b = 0)).
  { assert (Hnil : stands 0 0) by (split; [ lia | ]; split; [ by exists 0 | done ]).
    induction n as [ | n IH ]; intros [ | x [ | y r ] ] Hl; cbn [length] in Hl; try lia.
    - exists 0. split; [ done | ]. split; [ lia | ]. split; [ exists 0; by cbn | by cbn ].
    - exists 0. split; [ done | ]. split; [ lia | ]. split; [ exists 0; by cbn | by cbn ].
    - pose proof (octet_range x). exists (256 * octet x). unfold ones_sum. cbn [network_words fold_right word_sum]. split.
      + rewrite <- (Z.add_0_r (256 * octet x)) at 2. apply ones_add_stands; [ lia | lia | done ].
      + split; [ lia | ]. split; [ exists 0; lia | lia ].
    - destruct (IH r ltac:(lia)) as (s & Hs & H0 & (k & Hk) & Hz). pose proof (octet_range x). pose proof (octet_range y).
      exists (256 * octet x + octet y + s). unfold ones_sum in *. cbn [network_words fold_right word_sum]. unfold word.
      pose proof (word_sum_bound r). split; [ apply ones_add_stands; [ lia | lia | done ] | ].
      split; [ lia | ]. split; [ exists (k + octet y); lia | lia ]. }
  by apply (Hgen (length b)).
Qed.

Lemma carried_stands s : 0 <= s < 2 ^ 32 -> stands (carried s) s.
Proof.
  intros Hs. unfold stands, carried. pose proof (Z.div_mod s 65536 ltac:(lia)). pose proof (Z.mod_pos_bound s 65536 ltac:(lia)).
  assert (0 <= s / 65536 < 65536) by (split; [ apply Z.div_pos; lia | apply Z.div_lt_upper_bound; lia ]).
  destruct (Z.ltb_spec (s / 65536 + s mod 65536) 65536); (split; [ lia | ]); (split; [ | lia ]);
    [ exists (- (s / 65536)) | exists (- (s / 65536) - 1) ]; lia.
Qed.

(** The sum of RFC 1071 is the folded sum of the code with its octets swapped. *)
Lemma ones_sum_carried b : word_sum b < 2 ^ 32 -> ones_sum b = htons (carried (word_sum b)).
Proof.
  intros Hb. pose proof (word_sum_bound b) as [ H0 _ ]. destruct (ones_sum_stands b) as (s & Hs & Hs0 & (k & Hk) & Hz).
  destruct (carried_stands (word_sum b) ltac:(lia)) as (Hr & (k' & Hk') & Hz'). apply (stands_unique _ _ s Hs). unfold htons.
  set (c := carried (word_sum b)) in *. pose proof (Z.div_mod c 256 ltac:(lia)). pose proof (Z.mod_pos_bound c 256 ltac:(lia)).
  assert (0 <= c / 256 < 256) by (split; [ apply Z.div_pos; lia | apply Z.div_lt_upper_bound; lia ]).
  split; [ lia | ]. split; [ exists (256 * k' + k - c / 256); lia | lia ].
Qed.

Lemma be16_complement c : 0 <= c <= 65535 -> be16 (65535 - htons c) = le16 (65535 - c).
Proof.
  intros Hc. unfold be16, le16, htons. pose proof (Z.div_mod c 256 ltac:(lia)). pose proof (Z.mod_pos_bound c 256 ltac:(lia)).
  assert (0 <= c / 256 < 256) by (split; [ apply Z.div_pos; lia | apply Z.div_lt_upper_bound; lia ]).
  assert (Hdm : forall h l, 0 <= h < 256 -> 0 <= l < 256 -> (256 * h + l) / 256 = h /\ (256 * h + l) mod 256 = l).
  { intros h l Hh Hl. split; symmetry; [ apply (Z.div_unique_pos _ _ _ l) | apply (Z.mod_unique_pos _ _ h) ]; lia. }
  replace (65535 - (256 * (c mod 256) + c / 256)) with (256 * (255 - c mod 256) + (255 - c / 256)) by lia.
  replace (65535 - c) with (256 * (255 - c / 256) + (255 - c mod 256)) by lia.
  destruct (Hdm (255 - c mod 256) (255 - c / 256)) as [ -> -> ]; [ lia | lia | ]. destruct (Hdm (255 - c / 256) (255 - c mod 256)) as [ -> -> ]; [ lia | lia | done ].
Qed.

Lemma fold_sum_rfc1071 b : word_sum b < 2 ^ 32 -> le16 (fold_sum (word_sum b)) = be16 (rfc1071 b).
Proof.
  intros Hb. pose proof (word_sum_bound b) as [ H0 _ ]. unfold rfc1071. rewrite ones_sum_carried, fold_sum_spec by lia. symmetry.
  apply be16_complement. by destruct (carried_stands (word_sum b) ltac:(lia)).
Qed.

(** C34 The packet [nextPacket] makes, at a size from the header's 8 octets to those of the
    packet's structure and at most 60000: the checksum field holds, in network order, the
    checksum of RFC 1071 over the first [size] octets of the packet with a zero checksum,
    the sequence number is the one asked for, and nothing else changed; the sum of RFC 1071
    over the packet sent is all ones, as a receiver tests. *)
Theorem next_packet_verifies size p sq : 8 <= size <= 8 + zlen (msg p) -> size <= PING_PKT_S ->
  let p0 := mkPacket (type_ p) (code p) 0 (id p) (htons sq) (msg p) in
  exists p', nextPacket size p sq = Ok p' /\
    packet_octets p' = take 2 (packet_octets p0) ++ be16 (rfc1071 (take (Z.to_nat size) (packet_octets p0))) ++ drop 4 (packet_octets p0) /\
    ones_sum (take (Z.to_nat size) (packet_octets p')) = 65535.
Proof.
  intros Hs Hmax p0. destruct (next_packet_run size p sq Hs Hmax) as [ Hrun Hsum ]. fold p0 in Hrun, Hsum. unfold PING_PKT_S in Hmax.
  set (s := word_sum _) in *. pose proof (fold_sum_range s ltac:(lia)) as Hr. eexists. split; [ exact Hrun | ]. split.
  - rewrite <- fold_sum_rfc1071 by (fold s; lia). fold s. done.
  - set (p' := mkPacket _ _ _ _ _ _). assert (Hw : word_sum (take (Z.to_nat size) (packet_octets p')) = s + fold_sum s).
    { rewrite packet_word_sum by (cbn [p' cksum]; lia). cbn [p' type_ code cksum id sequence msg]. fold p0. fold s. lia. }
    rewrite ones_sum_carried, Hw by lia. pose proof (fold_sum_closes s ltac:(lia) ltac:(lia)) as Hc. rewrite fold_sum_spec in Hc by lia.
    by replace (carried (s + fold_sum s)) with 65535 by lia.
Qed.

(** ** Sizes *)

Lemma sum_words_outside b len sum : zlen b < len -> sum_words b len sum = Throw outside_packet.
Proof.
  assert (Hgen : forall n b len sum, (length b <= n)%nat -> zlen b < len -> sum_words b len sum = Throw outside_packet).
  { induction n as [ | n IH ]; intros [ | x [ | y r ] ] l s Hl Hlen; cbn [length] in Hl; try lia; cbn [sum_words]; unfold zlen in Hlen; cbn [length] in Hlen.
    - destruct (Z.ltb_spec 1 l), (Z.eqb_spec l 1); (done || lia).
    - destruct (Z.ltb_spec 1 l), (Z.eqb_spec l 1); (done || lia).
    - destruct (Z.ltb_spec 1 l); [ done | lia ].
    - destruct (Z.ltb_spec 1 l); [ | lia ]. apply IH; [ lia | unfold zlen; lia ]. }
  by apply (Hgen (length b)).
Qed.

Lemma message_length size : 7 <= size -> zlen (message size) = size.
Proof. intros Hs. unfold message, zlen. rewrite length_app, length_replicate. cbn [length list_ascii_of_string]. lia. Qed.

Lemma clamp_size_range n : 48 <= clamp_size n <= 60000.
Proof. unfold clamp_size. destruct (Z.ltb_spec (u32 n) 48); [ done | ]. destruct (Z.ltb_spec 60000 (u32 n)); lia. Qed.

Lemma parseArgs_size args : 48 <= ping_packet_size (parseArgs args) <= 60000.
Proof.
  assert (Hfold : forall args o, 48 <= ping_packet_size o <= 60000 -> 48 <= ping_packet_size (fold_left parse_option args o) <= 60000).
  { induction args0 as [ | a l IH ]; intros o Ho; [ done | ]. cbn [fold_left]. apply IH. destruct o, a; cbn in *; try done. apply clamp_size_range. }
  unfold parseArgs. specialize (Hfold args runtime_options_new ltac:(done)). destruct (fold_left _ _ _) as [ i p c s t r v4 v6 ]. by destruct (negb v4 && negb v6).
Qed.

(** Whatever the options, the packet size is between 48 and 60000 octets.  Every such
    size fits the packet of ICMPv6; for ICMP the checksum reads outside the packet exactly
    for the sizes above 59980. *)
Theorem packet_size_limits args pid sq : let size := ping_packet_size (parseArgs args) in
  48 <= size <= 60000 /\
  (exists p', nextPacket size (initPacket6 pid) sq = Ok p') /\
  (nextPacket size (initPacket pid) sq = Throw outside_packet <-> 59980 < size).
Proof.
  intros size. pose proof (parseArgs_size args) as Hsize. fold size in Hsize. split; [ done | ]. split.
  - destruct (next_packet_run size (initPacket6 pid) sq) as [ Hp _ ]; [ | unfold PING_PKT_S; lia | by eexists ].
    cbn [initPacket6 msg]. rewrite message_length by done. unfold msg6_size, PING_PKT_S. lia.
  - assert (Hlen : zlen (msg (initPacket pid)) = 59972) by (cbn [initPacket msg]; by rewrite message_length). destruct (Z.leb_spec size 59980) as [ Hle | Hgt ].
    + destruct (next_packet_run size (initPacket pid) sq) as [ Hp _ ]; [ lia | unfold PING_PKT_S; lia | ]. rewrite Hp. split; [ done | lia ].
    + split; [ done | ]. intros _. unfold nextPacket, checksum. rewrite sum_words_outside; [ done | ]. rewrite packet_length. cbn [msg]. change (msg (initPacket pid)) with (message msg_size) in *. lia.
Qed.

(** ** The loop sends what was asked for *)

Section Sending.
Context `{Wire} (kd : kind) (rfuel : nat) (o : runtime_options).

(** Nothing stops the loop: requests are sent, and waiting for a reply ends. *)
Record answering (msize : Z) : Prop := mkAnswering {
  ans_size : 8 <= ping_packet_size o <= 8 + msize;
  ans_max : ping_packet_size o <= PING_PKT_S;
  ans_run : forall k, stop_requested k = false;
  ans_send : forall k, ok (send_to k) = true;
  ans_reply : forall p k, exists r, receive_reply rfuel (answers kd p) k 0 = Ok r;
}.

Lemma stats_turn v good s : 0 <= total_reply s <= total_request s -> total_request s + 1 < 2 ^ 64 ->
  let s' := if good : bool then success v s else fail s in
  total_request s' = total_request s + 1 /\ total_reply s' = total_reply s + (if good then 1 else 0) /\ 0 <= total_reply s' <= total_request s'.
Proof. intros Hr Hb s'. subst s'. destruct good; cbn [success fail total_request total_reply]; rewrite ?u64_small by lia; lia. Qed.

Lemma ping_turn_run k mc pkt stats : answering (zlen (msg pkt)) -> exists pkt' v good,
  ping_turn kd rfuel (ping_packet_size o) k mc pkt stats = Ok (pkt', if good : bool then success v stats else fail stats) /\ msg pkt' = msg pkt.
Proof.
  intros []. destruct (next_packet_run (ping_packet_size o) pkt mc ans_size0 ans_max0) as [ Hrun _ ]. cbv zeta in Hrun. unfold ping_turn. rewrite Hrun. cbn [obind].
  rewrite ans_send0. cbn [negb]. match goal with |- context [receive_reply rfuel (answers kd ?q) k 0] => destruct (ans_reply0 q k) as [ [ [ e r ] j ] Hrec ] end.
  rewrite Hrec. cbn [obind]. eexists _, (elapsed_ k j), (ok e && counts kd r). by split.
Qed.

(** From [mc] on, the remaining requests are sent in order. *)
Lemma ping_loop_run n : forall k mc pkt stats sent, answering (zlen (msg pkt)) -> 0 <= mc -> mc + Z.of_nat n = ping_count o -> ping_count o <= 65535 ->
  0 <= total_reply stats <= total_request stats -> total_request stats + Z.of_nat n < 2 ^ 64 ->
  exists stats', ping_loop (S n) kd rfuel o k mc pkt stats sent = Ok (stats', sent ++ map (fun i => mc + Z.of_nat i) (seq 0 n)) /\
    total_request stats' = total_request stats + Z.of_nat n /\ 0 <= total_reply stats' <= total_request stats'.
Proof.
  induction n as [ | n IH ]; intros k mc pkt stats sent Ha H0 Hn Hc Hr Hb.
  - cbn [ping_loop]. destruct (Z.ltb_spec mc (ping_count o)); [ lia | ]. exists stats. rewrite app_nil_r. split; [ done | lia ].
  - destruct (ping_turn_run k mc pkt stats Ha) as (pkt' & v & good & Hrun & Hmsg). destruct (stats_turn v good stats Hr ltac:(lia)) as (Hreq & _ & Hrep).
    set (stats1 := if good then _ else _) in *.
    destruct (IH (S k) (mc + 1) pkt' stats1 (sent ++ [mc])) as (stats' & Hloop & Hreq' & Hrep'); [ by rewrite Hmsg | lia | lia | done | done | lia | ].
    exists stats'. cbn [ping_loop]. destruct (Z.ltb_spec mc (ping_count o)); [ | lia ]. rewrite (ans_run _ Ha). cbn [negb andb]. rewrite Hrun. cbn [obind].
    assert (Hu : u16 (mc + 1) = mc + 1) by (unfold u16, wrap; apply Z.mod_small; lia). rewrite Hu.
    split; [ | lia ]. cbn [ping_loop] in Hloop |- *. rewrite Hloop. do 2 f_equal. rewrite <- (assoc_L (++)). f_equal. cbn [seq map app]. f_equal; [ lia | ].
    rewrite <- seq_shift, map_map. apply map_ext. intros i. lia.
Qed.

(** The 16-bit counter never reaches a larger count. *)
Lemma ping_loop_endless fuel : forall k mc pkt stats sent, answering (zlen (msg pkt)) -> 0 <= mc < 65536 -> 65535 < ping_count o ->
  ping_loop fuel kd rfuel o k mc pkt stats sent = OutOfFuel.
Proof.
  induction fuel as [ | fuel IH ]; intros k mc pkt stats sent Ha Hm Hc; [ done | ]. cbn [ping_loop]. destruct (Z.ltb_spec mc (ping_count o)); [ | lia ].
  rewrite (ans_run _ Ha). cbn [negb andb]. destruct (ping_turn_run k mc pkt stats Ha) as (pkt' & v & good & Hrun & Hmsg). rewrite Hrun. cbn [obind].
  apply IH; [ by rewrite Hmsg | | done ]. unfold u16, wrap. apply Z.mod_pos_bound. lia.
Qed.

(** With requests that go out and replies, or failures, that come in: the loop sends
    exactly the requests asked for, numbered from zero, and counts each of them, if at most
    65535 are asked for; if more are asked for, as without the option, the 16-bit counter
    never gets there and the loop ends only by a signal. *)
Theorem ping_sends_count pkt : answering (zlen (msg pkt)) -> 0 <= ping_count o ->
  (ping_count o <= 65535 -> exists stats, 
     ping_loop (S (Z.to_nat (ping_count o))) kd rfuel o 0 0 pkt ping_stats_new [] = Ok (stats, map Z.of_nat (seq 0 (Z.to_nat (ping_count o)))) /\
     total_request stats = ping_count o /\ 0 <= total_reply stats <= total_request stats) /\
  (65535 < ping_count o -> forall fuel, ping_loop fuel kd rfuel o 0 0 pkt ping_stats_new [] = OutOfFuel).
Proof.
  intros Ha H0. split; intros Hc; [ | intros fuel; by apply ping_loop_endless ].
  destruct (ping_loop_run (Z.to_nat (ping_count o)) 0 0 pkt ping_stats_new []) as (stats & Hrun & Hreq & Hrep); [ done | done | lia | done | done | cbn [total_request ping_stats_new]; lia | ].
  exists stats. rewrite Hrun. cbn [app]. split; [ done | ]. split; [ rewrite Hreq; cbn [total_request ping_stats_new]; lia | done ].
Qed.
End Sending.

(** A first request that fails fixes the minimum at zero: it is set from the first request,
    not from the first reply. *)
Lemma minimum_after_failure vs : Forall (fun v => dltb v dzero = false) vs -> zlen vs < 2 ^ 63 ->
  min_ (fold_left (fun s v => success v s) vs (fail ping_stats_new)) = dzero.
Proof.
  assert (Hgen : forall vs s, Forall (fun v => dltb v dzero = false) vs -> 1 <= total_request s -> total_request s + zlen vs < 2 ^ 64 -> min_ s = dzero ->
                 min_ (fold_left (fun s v => success v s) vs s) = dzero).
  { clear. induction vs as [ | v vs IH ]; intros s Hf H1 Hb Hm; [ done | ]. apply Forall_cons in Hf as [ Hv Hf ]. rewrite zlen_cons in Hb. pose proof (zlen_nonneg vs). cbn [fold_left].
    apply IH; [ done | | | ]; cbn [success total_request min_]; rewrite ?u64_small by lia; try lia. rewrite Hm, Hv. destruct (Z.eqb_spec (total_request s) 0); [ lia | done ]. }
  intros Hf Hb. apply Hgen; [ done | by vm_compute | change (total_request (fail ping_stats_new)) with 1; lia | done ].
Qed.

(** ** A network that answers *)

Module DemoWire.
#[local] Instance echo : Wire := {|
  send_to _ := 0;
  receive_ k _ := (0, mkPacket 0 0 0 (htons 77) (htons (Z.of_nat k)) []);
  elapsed_ _ _ := ddiv (to_double 1) (to_double 4);
  stop_requested _ := false;
|}.
(** Any packet answers, so that waiting ends at once. *)
Definition any : kind := mkKind (fun _ _ => true) (fun r => code r =? 0).
Definition three : runtime_options := parseArgs [OptCount 3; OptSize 100].

Lemma next_packet_verifies_witness : exists p', nextPacket 64 (initPacket 77) 1 = Ok p' /\ ones_sum (take 64 (packet_octets p')) = 65535.
Proof.
  destruct (next_packet_verifies 64 (initPacket 77) 1) as (p' & Hrun & _ & Hc); [ cbn [initPacket msg]; rewrite message_length by done; by vm_compute | by vm_compute | ].
  exists p'. split; [ exact Hrun | exact Hc ].
Defined.

Lemma ping_sends_count_witness : exists stats, ping_loop 4 any 1 three 0 0 (initPacket 77) ping_stats_new [] = Ok (stats, [0; 1; 2]) /\ total_request stats = 3.
Proof.
  destruct (ping_sends_count any 1 three (initPacket 77)) as [ Hrun _ ].
  - cbn [initPacket msg]. rewrite message_length by done.
    split; [ by vm_compute | by vm_compute | reflexivity | reflexivity | intros p k; eexists; reflexivity ].
  - by vm_compute.
  - destruct Hrun as (stats & E & Hreq & _); [ by vm_compute | ]. exists stats. split; [ exact E | exact Hreq ].
Defined.
End DemoWire.
