(* ===== verification/EchoServer.v ===== *)
(** * EchoServer: the server of the service example

    Models src/src/examples/service/service_tcpserver.hpp: [Server], a subclass of
    [TCPServer] that sends a line back when its last octet has arrived.  It is an instance
    of the class [Protocol] of [TCPServer], so the work items of a connection are handled
    by [serve]: [TCPServer::run] with this [handShake], [readSocket] and [shutDown].

    A session is a number of work items of one connection, each on the segment that made
    the socket readable.  Its specification [echo] knows only the octets received. *)

From S2P Require Import Prelude.
From S2P Require Import SystemError.
From S2P Require Import Bytes.
From S2P Require Import Socket.
From S2P Require Import DataCrypt.
From S2P Require Import TCPServer.

Local Open Scope Z_scope.

(** ** Sending on the socket of a connection *)

(** [Socket::send], with the socket as it is when an exception leaves the call. *)
Definition conn_send_body (cp : str) : X Conn (str + SystemError) :=
  match cp with
  | [] => xret (inr (ec_value ecOK))
  | _ => fun c =>
      match sys_send cp false (sock c) with
      | (inl rc, k') => (Ok (inl (drop (Z.to_nat rc) cp)), mkConn k' (read_buffer c))
      | (inr errno, k') =>
          (if (errno =? ecEAGAIN) || (errno =? ecECONNRESET) then Ok (inr errno)
           else Throw (SystemException (lit "Socket::send failed") errno), mkConn k' (read_buffer c))
      end
  end.

(** Every round but the last two uses up an entry of the script of the kernel. *)
Definition send_fuel (buf : str) (k : Socket) : nat := length buf + length (outbox k) + 2.
Definition conn_send (buf : str) : X Conn SystemError := fun c => xloop (send_fuel buf (sock c)) conn_send_body buf c.

(** It is the [send] of [Socket], answer and exception. *)
Lemma conn_send_is_send fuel : forall buf c,
  match send fuel buf false (sock c) with
  | Ok (e, k) => xloop fuel conn_send_body buf c = (Ok e, mkConn k (read_buffer c))
  | Throw x => fst (xloop fuel conn_send_body buf c) = Throw x
  | OutOfFuel => fst (xloop fuel conn_send_body buf c) = OutOfFuel
  end.
Proof.
  induction fuel as [ | f IH ]; intros buf c; [ done | ]. unfold send in *. cbn [loop xloop]. unfold bind at 1, xbind at 1 2 3.
  destruct buf as [ | x buf ]; [ by destruct c | ]. cbn [conn_send_body].
  destruct (sys_send (x :: buf) false (sock c)) as [ [ rc | errno ] k' ].
  - unfold Continue, ret. cbv beta iota. exact (IH (drop (Z.to_nat rc) (x :: buf)) (mkConn k' (read_buffer c))).
  - unfold bind, send_error. by destruct ((errno =? ecEAGAIN) || (errno =? ecECONNRESET)).
Qed.

(** It returns or throws. *)
Lemma send_loop_total fuel : forall cp c, (length (outbox (sock c)) + 2 <= fuel)%nat \/ (cp = [] /\ (1 <= fuel)%nat) ->
  fst (xloop fuel conn_send_body cp c) <> OutOfFuel.
Proof.
  induction fuel as [ | f IH ]; intros cp c Hf; [ lia | ]. cbn [xloop]. unfold xbind. destruct cp as [ | x cp ]; [ done | ].
  destruct Hf as [ Hf | [ ? _ ] ]; [ | done ]. cbn [conn_send_body]. unfold sys_send. destruct (outbox (sock c)) as [ | [ n | e ] t ] eqn:Ho; cbn [length] in Hf.
  - apply IH. right. split; [ | lia ]. apply drop_ge. unfold zlen. lia.
  - apply IH. left. cbn [sock outbox set_out]. lia.
  - by destruct ((e =? ecEAGAIN) || (e =? ecECONNRESET)).
Qed.

Lemma conn_send_total buf c : fst (conn_send buf c) <> OutOfFuel.
Proof. apply send_loop_total. left. unfold send_fuel. lia. Qed.

(** ** The protocol *)

(** The read buffer of [work.data], by reference: nothing changes it before its last use. *)
Definition getReadBuffer : X Conn Bytes := fun c => (Ok (read_buffer c), c).
Definition xlift {A} (o : outcome A) : X Conn A := fun c => (o, c).

Definition Server_handShake : X Conn (bool * Z * Z) := xret (true, 0, 0).

(** [sent] is the caller's variable, which the function does not assign. *)
Definition Server_readSocket : X Conn (SystemError * Z) :=
  let^ buf := getReadBuffer in
  if 0 <? getSize buf then
    let^ last := xlift (getOctet (getSize buf - 1) buf) in
    if octet last =? 10 then
      let^ data := xlift (octets_of buf) in
      let^ error := conn_send data in
      let^ _ := clearBuffer in
      xret (error, 0)
    else
      let^ first := xlift (getOctet 0 buf) in
      if (octet first =? 255) || (octet first =? 4) then xret (ec_value ecECONNABORTED, 0)
      else xret (ec_value ecEAGAIN, 0)
  else xret (ec_value ecEAGAIN, 0).

Definition Server_shutDown : X Conn unit := xret tt.

Definition Server : Protocol := {| handShake := Server_handShake; readSocket := Server_readSocket; shutDown := Server_shutDown |}.

(** [n] work items of one connection, each with its socket readable. *)
Fixpoint session `{Allocator} (fuel n : nat) : X Conn (list (SockState * traffic)) :=
  match n with
  | O => xret []
  | S m =>
      let^ r := @serve _ Server fuel Read in
      let^ rs := session fuel m in
      xret (r :: rs)
  end.

(** The handlers end, on every connection, and read nothing from the peer. *)
Lemma Server_well_behaved : @well_behaved Server.
Proof.
  split_and!; intros c; [ done | | done | done ]. cbn [readSocket Server]. unfold Server_readSocket, getReadBuffer, xlift, xbind at 1.
  case_bool; [ | done ]. unfold getOctet, octets_of, xbind at 1. destruct (cells (read_buffer c) !! _) as [ [ x | ] | ]; [ | done | done ].
  case_bool.
  - unfold xbind at 1. destruct (determinate _) as [ d | ]; [ | done ]. unfold xbind. pose proof (conn_send_total d c) as Ht.
    by destruct (conn_send d c) as [ [ e | e | ] c' ].
  - unfold xbind. destruct (cells (read_buffer c) !! _) as [ [ y | ] | ]; [ by case_bool | done | done ].
Qed.

(** ** What it promises *)

Definition ends_line (s : str) : bool := match last s with Some c => octet c =? 10 | None => false end.
(** Begins with the octet of a telnet command (255) or an end of transmission (4). *)
Definition aborts (s : str) : bool := match s with c :: _ => (octet c =? 255) || (octet c =? 4) | [] => false end.

(** The octets kept, those sent back, and a further segment. *)
Definition echo (st : str * str) (s : str) : str * str :=
  let (kept, out) := st in if ends_line (kept ++ s) then ([], out ++ kept ++ s) else (kept ++ s, out).

(** No unfinished line of the session begins with an aborting octet. *)
Fixpoint peaceful (kept : str) (segs : list str) : bool :=
  match segs with
  | [] => true
  | s :: rest => (ends_line (kept ++ s) || negb (aborts (kept ++ s))) && peaceful (fst (echo (kept, []) s)) rest
  end.

(** ** Lemmas on the read buffer *)

Lemma getOctet_last b l c : rep b l -> last l = Some c -> getOctet (getSize b - 1) b = Ok c.
Proof.
  intros Hr Hl. rewrite last_lookup in Hl. pose proof (lookup_lt_Some _ _ _ Hl). unfold getSize. rewrite (rep_size b l Hr).
  replace (zlen l - 1) with (Z.of_nat (pred (length l))) by (unfold zlen; lia). by eapply getOctet_rep.
Qed.

(** The branches of [readSocket] on a buffer that holds [l]. *)
Lemma readSocket_line k b l : rep b l -> ends_line l = true ->
  Server_readSocket (mkConn k b) = (let^ error := conn_send l in let^ _ := clearBuffer in xret (error, 0)) (mkConn k b).
Proof.
  intros Hr He. unfold ends_line in He. destruct (last l) as [ c | ] eqn:Hl; [ | done ]. unfold Server_readSocket.
  erewrite xbind_ok by reflexivity. cbn [read_buffer]. assert (0 < getSize b).
  { unfold getSize. rewrite (rep_size b l Hr). destruct l; [ done | rewrite zlen_cons; pose proof (zlen_nonneg l); lia ]. }
  destruct (Z.ltb_spec 0 (getSize b)); [ | lia ].
  erewrite xbind_ok by (unfold xlift; rewrite (getOctet_last b l c Hr Hl); reflexivity). rewrite He.
  erewrite xbind_ok; [ | unfold xlift; rewrite (octets_of_rep b l Hr); reflexivity ]. done.
Qed.

Lemma readSocket_partial k b l : rep b l -> ends_line l = false ->
  Server_readSocket (mkConn k b) = (Ok (if aborts l then ec_value ecECONNABORTED else ec_value ecEAGAIN, 0), mkConn k b).
Proof.
  intros Hr He. unfold Server_readSocket. erewrite xbind_ok by reflexivity. cbn [read_buffer]. unfold getSize at 1. rewrite (rep_size b l Hr).
  destruct l as [ | x l ]; [ done | ]. pose proof (zlen_nonneg l). rewrite zlen_cons. destruct (Z.ltb_spec 0 (zlen l + 1)); [ | lia ].
  destruct (last (x :: l)) as [ c | ] eqn:Hl; [ | by rewrite last_cons in Hl; destruct (last l) ].
  erewrite xbind_ok by (unfold xlift; rewrite (getOctet_last b _ c Hr Hl); reflexivity). unfold ends_line in He. rewrite Hl in He. rewrite He.
  erewrite xbind_ok by (unfold xlift; rewrite (getOctet_rep b _ 0 x Hr eq_refl : getOctet 0 b = Ok x); reflexivity). cbn [aborts].
  by destruct ((octet x =? 255) || (octet x =? 4)).
Qed.

(** ** The specification *)

Lemma ends_line_app s t : t <> [] -> ends_line (s ++ t) = ends_line t.
Proof. intros Ht. unfold ends_line. rewrite last_app. by destruct (last t) eqn:E; [ | apply last_None in E ]. Qed.

Lemma echo_out kept out s : echo (kept, out) s = (fst (echo (kept, []) s), out ++ snd (echo (kept, []) s)).
Proof. unfold echo. destruct (ends_line (kept ++ s)); cbn; [ done | by rewrite app_nil_r ]. Qed.

Lemma echoes_out segs : forall kept out, fold_left echo segs (kept, out) = (fst (fold_left echo segs (kept, [])), out ++ snd (fold_left echo segs (kept, []))).
Proof.
  induction segs as [ | s segs IH ]; intros kept out; cbn [fold_left]; [ by rewrite app_nil_r | ].
  rewrite (echo_out kept out), (echo_out kept []), IH, (IH _ ([] ++ _)). cbn [fst snd app]. by rewrite app_assoc.
Qed.

(** Nothing is lost, invented or reordered: what was sent back and what is kept are the
    octets received. *)
Lemma echo_conserves kept s : snd (echo (kept, []) s) ++ fst (echo (kept, []) s) = kept ++ s.
Proof. unfold echo. destruct (ends_line (kept ++ s)); cbn; [ by rewrite app_nil_r | done ]. Qed.

Lemma echoes_conserve segs : forall kept, snd (fold_left echo segs (kept, [])) ++ fst (fold_left echo segs (kept, [])) = kept ++ concat segs.
Proof.
  induction segs as [ | s segs IH ]; intros kept; cbn [fold_left concat]; [ by rewrite app_nil_r | ].
  rewrite echo_out, echoes_out. cbn [fst snd app]. by rewrite <- app_assoc, IH, app_assoc, echo_conserves, app_assoc.
Qed.

Lemma echoes_line segs s kept : ends_line s = true -> fold_left echo (segs ++ [s]) (kept, []) = ([], kept ++ concat (segs ++ [s])).
Proof.
  intros Hs. rewrite fold_left_app. pose proof (echoes_conserve segs kept) as E. destruct (fold_left echo segs (kept, [])) as [ k o ]. cbn in *.
  rewrite ends_line_app, Hs by (by intros ->). f_equal. rewrite (app_assoc o), E, concat_app. cbn. by rewrite app_nil_r, app_assoc.
Qed.

(** ** Sessions *)

Section Session.
Context `{Allocator} (memory : forall n, alloc_ok n = true) (fuel : nat).
Implicit Types (c : Conn) (kept s : str).

(** A connection with [kept] in its read buffer and a kernel that takes what it is sent. *)
Definition holds c kept (segs : list str) : Prop :=
  rep (read_buffer c) kept /\ inbox (sock c) = map RecvData segs /\ Forall progress (outbox (sock c)).

(** Segments that [readBuffer] takes whole: none fills its last block of 4096 octets. *)
Definition ragged (segs : list str) : Prop := Forall (fun s => (length s mod 4096 <> 0)%nat) segs.

Lemma send_line c (l : str) : Forall progress (outbox (sock c)) ->
  exists k, conn_send l c = (Ok (ec_value ecOK), mkConn k (read_buffer c)) /\ wire_bytes k = wire_bytes (sock c) ++ l /\
    inbox k = inbox (sock c) /\ Forall progress (outbox k).
Proof.
  intros Hp. assert (Hf : (length l < send_fuel l (sock c))%nat) by (unfold send_fuel; lia).
  destruct (wp_nothrow _ _ _ (send_all _ l false (sock c) Hp Hf)) as (e & k & E & -> & Hw & Hp' & Hi & _).
  pose proof (conn_send_is_send (send_fuel l (sock c)) l c) as S. rewrite E in S. by exists k.
Qed.

Lemma echo_item c kept s segs : holds c kept (s :: segs) -> (length s mod 4096 <> 0)%nat ->
  zlen kept + zlen s < size_limit -> (length s < fuel)%nat -> ends_line (kept ++ s) || negb (aborts (kept ++ s)) = true ->
  exists c', @serve _ Server fuel Read c = (Ok (Read, (zlen s, 0)), c') /\ holds c' (fst (echo (kept, []) s)) segs /\
    wire_bytes (sock c') = wire_bytes (sock c) ++ snd (echo (kept, []) s).
Proof using memory.
  intros (Hr & Hi & Hp) Hs Hl Hf Hq. destruct (readBuffer_delivers fuel c kept s (map RecvData segs) memory Hr Hi Hs Hl ltac:(lia)) as (b & Hb & E).
  destruct (ends_line (kept ++ s)) eqn:He.
  - destruct (send_line (mkConn (set_inbox (map RecvData segs) (sock c)) b) (kept ++ s) Hp) as (k & Es & Hw & Hki & Hkp).
    exists (mkConn k (free b)). split.
    + apply (@serve_Read_ok _ Server fuel c _ _ _ (ec_value ecOK) 0 _ E). cbn [readSocket Server].
      rewrite (readSocket_line _ b _ Hb He). erewrite xbind_ok by exact Es. reflexivity.
    + unfold echo. rewrite He. cbn [fst snd]. split; [ | exact Hw ]. split_and!; [ apply rep_new | exact Hki | exact Hkp ].
  - cbn [orb] in Hq. exists (mkConn (set_inbox (map RecvData segs) (sock c)) b). split.
    + apply (@serve_Read_ok _ Server fuel c _ _ _ (ec_value ecEAGAIN) 0 _ E). cbn [readSocket Server].
      apply negb_true_iff in Hq. by rewrite (readSocket_partial _ b _ Hb He), Hq.
    + unfold echo. rewrite He. cbn [fst snd]. rewrite app_nil_r. done.
Qed.

Lemma session_echoes segs : forall c kept, holds c kept segs -> ragged segs -> zlen kept + zlen (concat segs) < size_limit ->
  (length (concat segs) < fuel)%nat -> peaceful kept segs = true ->
  exists c', session fuel (length segs) c = (Ok (map (fun s => (Read, (zlen s, 0))) segs), c') /\
    holds c' (fst (fold_left echo segs (kept, []))) [] /\ wire_bytes (sock c') = wire_bytes (sock c) ++ snd (fold_left echo segs (kept, [])).
Proof using memory.
  induction segs as [ | s segs IH ]; intros c kept Hc Hs Hl Hf Hq; cbn [fold_left fst snd length session map].
  { exists c. rewrite app_nil_r. done. }
  apply Forall_cons in Hs as [ Hs Hss ]. cbn [concat peaceful] in *. rewrite zlen_app in Hl. rewrite length_app in Hf. apply andb_true_iff in Hq as [ Hq Hqs ].
  pose proof (zlen_nonneg (concat segs)). destruct (echo_item c kept s segs Hc Hs ltac:(lia) ltac:(lia) Hq) as (c1 & E1 & Hc1 & Hw1).
  pose proof (f_equal length (echo_conserves kept s)) as Hlen. rewrite !length_app in Hlen.
  destruct (IH c1 _ Hc1 Hss ltac:(unfold zlen in *; lia) ltac:(lia) Hqs) as (c2 & E2 & Hc2 & Hw2).
  exists c2. erewrite xbind_ok by exact E1. erewrite xbind_ok by exact E2. rewrite (echo_out kept [] s), echoes_out. cbn [fst snd app].
  split_and!; [ done | exact Hc2 | by rewrite Hw2, Hw1, app_assoc ].
Qed.
End Session.

(** An exception of [readSocket]: no flag is reported as done, no traffic is counted. *)
Lemma serve_Read_throws `{Allocator} `{Protocol} fuel c e n c1 x c2 :
  readBuffer fuel c = (Ok (e, n), c1) -> readSocket c1 = (Throw x, c2) -> serve fuel Read c = (Ok (None_, (0, 0)), c2).
Proof.
  intros E1 E2. assert (serve_read fuel None_ c = (Ok (None_, (0, 0)), c2)) as Er.
  { unfold serve_read, xbind at 1, xtry. erewrite xbind_ok by exact E1. cbv beta iota. unfold xbind at 1. by rewrite E2. }
  unfold serve. change (state_and Read New) with false. change (state_and Read Read) with true. change (state_and Read Shut) with false.
  erewrite xbind_ok by reflexivity. erewrite xbind_ok; [ | unfold stage; cbn [fst]; erewrite xbind_ok by exact Er; reflexivity ]. done.
Qed.

(** ** Theorems *)

(** C24 The echo server over the work items of a connection, for segments of the client's
    octets none of which fills its last block of 4096, no unfinished line of which begins
    with the octet 255 or 4, and a kernel that takes at least one octet per send, and with
    allocations that succeed: every item is completed and leaves the connection open; what
    was sent back and what is kept follow the specification [echo], and are together
    exactly the octets received, in order; after a segment that ends a line everything
    received has been sent back. *)
Theorem echo_session `{Allocator} fuel segs c kept :
  (forall n, alloc_ok n = true) -> holds c kept segs -> ragged segs -> zlen kept + zlen (concat segs) < size_limit ->
  (length (concat segs) < fuel)%nat -> peaceful kept segs = true ->
  exists c', session fuel (length segs) c = (Ok (map (fun s => (Read, (zlen s, 0))) segs), c') /\
    (let (kept', out) := fold_left echo segs (kept, []) in
     rep (read_buffer c') kept' /\ wire_bytes (sock c') = wire_bytes (sock c) ++ out /\ out ++ kept' = kept ++ concat segs) /\
    (forall before s, segs = before ++ [s] -> ends_line s = true ->
       rep (read_buffer c') [] /\ wire_bytes (sock c') = wire_bytes (sock c) ++ kept ++ concat segs).
Proof.
  intros Hm Hc Hs Hl Hf Hq. destruct (session_echoes Hm fuel segs c kept Hc Hs Hl Hf Hq) as (c' & E & (Hr & _ & _) & Hw).
  exists c'. split; [ done | ]. pose proof (echoes_conserve segs kept) as Hcons. split.
  - by destruct (fold_left echo segs (kept, [])) as [ k o ].
  - intros before s -> Hs'. rewrite (echoes_line before s kept Hs') in Hr, Hw. done.
Qed.

Section Failures.
Context `{Allocator} (memory : forall n, alloc_ok n = true) (fuel : nat) (c : Conn) (kept s : str).
Context (Hr : rep (read_buffer c) kept) (Hi : inbox (sock c) = [RecvData s]) (Hs : (length s mod 4096 <> 0)%nat).
Context (Hl : zlen kept + zlen s < size_limit) (Hf : (length s < fuel)%nat).

(** The handling of an item whose [readSocket] answers, or throws, on the filled buffer. *)
Lemma item_answers a after :
  (forall b, rep b (kept ++ s) -> Server_readSocket (mkConn (set_inbox [] (sock c)) b) = (Ok (a, 0), after b)) ->
  exists b, rep b (kept ++ s) /\ @serve _ Server fuel Read c = (Ok (read_stage (Some (ec_value ecOK, a)) None_, (zlen s, 0)), after b).
Proof using memory Hr Hi Hs Hl Hf.
  intros Hrs. destruct (readBuffer_delivers fuel c kept s [] memory Hr Hi Hs Hl ltac:(lia)) as (b & Hb & E).
  exists b. split; [ done | ]. apply (@serve_Read_ok _ Server fuel c _ _ _ a 0 _ E). by apply Hrs.
Qed.

(** An unfinished line that begins with 255 or 4: the connection is marked for closing. *)
Theorem echo_aborts : ends_line (kept ++ s) = false -> aborts (kept ++ s) = true ->
  exists b, rep b (kept ++ s) /\ @serve _ Server fuel Read c = (Ok (state_or Read Shut, (zlen s, 0)), mkConn (set_inbox [] (sock c)) b).
Proof using memory Hr Hi Hs Hl Hf.
  intros He Ha. apply (item_answers (ec_value ecECONNABORTED) (fun b => mkConn (set_inbox [] (sock c)) b)). intros b Hb.
  by rewrite (readSocket_partial _ b _ Hb He), Ha.
Qed.

(** One round of [send] that the kernel takes [n] octets of, and one it fails. *)
Lemma send_interrupted (l : str) n errno t b : l <> [] -> outbox (sock c) = SendAccept (Z.of_nat n) :: SendError errno :: t -> (n < length l)%nat ->
  conn_send l (mkConn (set_inbox [] (sock c)) b) =
    (if (errno =? ecEAGAIN) || (errno =? ecECONNRESET) then Ok errno else Throw (SystemException (lit "Socket::send failed") errno),
     mkConn (set_out t (wire (sock c) ++ [(take n l, false)]) (set_inbox [] (sock c))) b).
Proof using Type.
  clear Hr Hi Hs Hl Hf. intros Hne Ho Hn. unfold conn_send, send_fuel. cbn [sock outbox set_inbox]. rewrite Ho. replace (length l + length (SendAccept (Z.of_nat n) :: SendError errno :: t) + 2)%nat with (S (S (length l + length t + 2))) by (cbn [length]; lia).
  destruct l as [ | x l ]; [ done | ]. cbn [xloop].
  unfold xbind at 1. cbn [conn_send_body sock]. unfold sys_send at 1. cbn [outbox set_inbox]. rewrite Ho, Nat2Z.id.
  assert (Z.to_nat (zlen (take n (x :: l))) = n) as -> by (unfold zlen; rewrite length_take; lia).
  unfold xbind at 1. destruct (drop n (x :: l)) as [ | y r ] eqn:Ed; [ apply (f_equal length) in Ed; rewrite length_drop in Ed; cbn [length] in *; lia | ].
  cbn [conn_send_body sock set_out outbox]. unfold sys_send at 1. cbn [outbox set_out wire set_inbox read_buffer].
  by destruct ((errno =? ecEAGAIN) || (errno =? ecECONNRESET)).
Qed.

(** A kernel that takes only part of a line and then would block: the connection stays
    open, the item is completed, and the read buffer is cleared: the rest of the line is
    neither sent nor kept. *)
Theorem echo_loses_unsent n t : ends_line (kept ++ s) = true -> (n < length (kept ++ s))%nat ->
  outbox (sock c) = SendAccept (Z.of_nat n) :: SendError (ec_value ecEAGAIN) :: t ->
  exists c', @serve _ Server fuel Read c = (Ok (Read, (zlen s, 0)), c') /\ rep (read_buffer c') [] /\
    wire_bytes (sock c') = wire_bytes (sock c) ++ take n (kept ++ s) /\ inbox (sock c') = [].
Proof using memory Hr Hi Hs Hl Hf.
  intros He Hn Ho. assert (Hne : kept ++ s <> []) by (intros E; rewrite E in Hn; cbn in Hn; lia).
  set (k := set_out t (wire (sock c) ++ [(take n (kept ++ s), false)]) (set_inbox [] (sock c))).
  destruct (item_answers (ec_value ecEAGAIN) (fun _ => mkConn k (free (read_buffer c)))) as (b & Hb & E).
  { intros b Hb. rewrite (readSocket_line _ b _ Hb He). rewrite length_app in Hn.
    erewrite xbind_ok by (rewrite (send_interrupted _ n (ec_value ecEAGAIN) t b Hne Ho) by (rewrite ?length_app; lia); reflexivity). reflexivity. }
  eexists. split; [ exact E | ]. split_and!; [ apply rep_new | | done ]. unfold wire_bytes, k. cbn [sock wire set_out].
  rewrite map_app, concat_app. cbn. by rewrite app_nil_r.
Qed.

(** A kernel that takes part of a line and then fails for another reason: the exception
    leaves the flag and the read buffer as they are, so that the next item sends the line
    from its beginning. *)
Theorem echo_failure_keeps_line n (errno : Z) t : ends_line (kept ++ s) = true -> (n < length (kept ++ s))%nat ->
  errno <> ecEAGAIN -> errno <> ecECONNRESET -> outbox (sock c) = SendAccept (Z.of_nat n) :: SendError errno :: t ->
  exists c', @serve _ Server fuel Read c = (Ok (None_, (0, 0)), c') /\ rep (read_buffer c') (kept ++ s) /\
    wire_bytes (sock c') = wire_bytes (sock c) ++ take n (kept ++ s).
Proof using memory Hr Hi Hs Hl Hf.
  intros He Hn H1 H2 Ho. assert (Hne : kept ++ s <> []) by (intros E; rewrite E in Hn; cbn in Hn; lia).
  destruct (readBuffer_delivers fuel c kept s [] memory Hr Hi Hs Hl ltac:(lia)) as (b & Hb & E).
  rewrite length_app in Hn. pose proof (send_interrupted (kept ++ s) n errno t b Hne Ho ltac:(rewrite ?length_app; lia)) as Es.
  apply Z.eqb_neq in H1, H2. rewrite H1, H2 in Es. cbn [orb] in Es. eexists. split.
  - apply (@serve_Read_throws _ Server fuel c _ _ _ (SystemException (lit "Socket::send failed") errno) _ E).
    cbn [readSocket Server]. rewrite (readSocket_line _ b _ Hb He). unfold xbind at 1. rewrite Es. reflexivity.
  - cbn [read_buffer sock]. split; [ exact Hb | ]. unfold wire_bytes. cbn [wire set_out]. rewrite map_app, concat_app. cbn. by rewrite app_nil_r.
Qed.
End Failures.

Module DemoEcho.
Definition line (s : string) : str := lit s ++ [chr 10].
Definition demo_segs : list str := [lit "he"; line "llo"; line "you"; lit "there"].

Lemma echo_session_witness : exists c',
  @session always_alloc 40 4 (demo_conn (map RecvData demo_segs)) = (Ok [(Read, (2, 0)); (Read, (4, 0)); (Read, (4, 0)); (Read, (5, 0))], c') /\
  rep (read_buffer c') (lit "there") /\ wire_bytes (sock c') = line "hello" ++ line "you".
Proof.
  destruct (@echo_session always_alloc 40 demo_segs (demo_conn (map RecvData demo_segs)) []) as (c' & E & Hc & _).
  - done.
  - split_and!; [ apply rep_new | done | constructor ].
  - repeat constructor; vm_compute; done.
  - vm_compute. done.
  - vm_compute. lia.
  - reflexivity.
  - exists c'. split; [ exact E | ]. destruct Hc as (Hr & Hw & _). exact (conj Hr Hw).
Defined.

Definition demo_slow (errno : Z) : Conn := mkConn (mkSocket 3 (inl true) (inl 8192) [RecvData (line "hello")] [SendAccept 2; SendError errno] []) Bytes_new.

Lemma echo_loses_unsent_witness : exists c', @serve always_alloc Server 40 Read (demo_slow (ec_value ecEAGAIN)) = (Ok (Read, (6, 0)), c') /\
  rep (read_buffer c') [] /\ wire_bytes (sock c') = lit "he" /\ inbox (sock c') = [].
Proof.
  apply (@echo_loses_unsent always_alloc ltac:(done) 40 (demo_slow (ec_value ecEAGAIN)) [] (line "hello") rep_new eq_refl ltac:(vm_compute; done) ltac:(vm_compute; done)
           ltac:(vm_compute; lia) 2 []); [ reflexivity | vm_compute; lia | reflexivity ].
Defined.

Lemma echo_failure_keeps_line_witness : exists c', @serve always_alloc Server 40 Read (demo_slow (ec_value ecEPIPE)) = (Ok (None_, (0, 0)), c') /\
  rep (read_buffer c') (line "hello") /\ wire_bytes (sock c') = lit "he".
Proof.
  apply (@echo_failure_keeps_line always_alloc ltac:(done) 40 (demo_slow (ec_value ecEPIPE)) [] (line "hello") rep_new eq_refl ltac:(vm_compute; done) ltac:(vm_compute; done)
           ltac:(vm_compute; lia) 2 (ec_value ecEPIPE) []); [ reflexivity | vm_compute; lia | done | done | reflexivity ].
Defined.

Lemma echo_aborts_witness : exists b, rep b [chr 4] /\
  @serve always_alloc Server 40 Read (demo_conn [RecvData [chr 4]]) = (Ok (state_or Read Shut, (1, 0)), mkConn (test_socket []) b).
Proof.
  apply (@echo_aborts always_alloc ltac:(done) 40 (demo_conn [RecvData [chr 4]]) [] [chr 4] rep_new eq_refl ltac:(vm_compute; done) ltac:(vm_compute; done)
           ltac:(vm_compute; lia)); reflexivity.
Defined.
End DemoEcho.
