(* ===== verification/CryptStr.v ===== *)
(** * CryptStr: the cryptstr program

    Models src/src/examples/cryptstr/cryptstr.cpp: the options and where the key comes
    from, [encrypt] and [decrypt] between standard input and output, and [main] with its
    exit code, on top of [DataCrypt].

    The program is given as what it changes: its options, standard output and standard
    error.  Outside it are the environment variables, the files, what [getopt] delivers
    (an option character and its argument), and the text of an exception. *)

From S2P Require Import Prelude.
From S2P Require Import SystemError.
From S2P Require Import Bytes.
From S2P Require Import HTTPMessage.
From S2P Require Import Util.
From S2P Require Import DataCrypt.

Local Open Scope Z_scope.

Record Options : Type := mkOptions { cipher : Cipher; do_encrypt : bool; key_type : str; key_value : str }.
Definition Options_new : Options := mkOptions Default true [] [].

Record Process : Type := mkProcess { options : Options; cout : str; cerr : str }.
Definition Process_new : Process := mkProcess Options_new [] [].

Definition set_options (o : Options) (p : Process) : Process := mkProcess o (cout p) (cerr p).
Definition set_cipher (c : Cipher) (p : Process) : Process := let o := options p in set_options (mkOptions c (do_encrypt o) (key_type o) (key_value o)) p.
Definition set_encrypt (b : bool) (p : Process) : Process := let o := options p in set_options (mkOptions (cipher o) b (key_type o) (key_value o)) p.
Definition set_key (t v : str) (p : Process) : Process := let o := options p in set_options (mkOptions (cipher o) (do_encrypt o) t v) p.
Definition say (s : str) (p : Process) : Process := mkProcess (options p) (cout p ++ s) (cerr p).
Definition complain (s : str) (p : Process) : Process := mkProcess (options p) (cout p) (cerr p ++ s).
Definition endl (s : str) : str := s ++ newline.

Definition EXIT_SUCCESS : Z := 0.
Definition EXIT_FAILURE : Z := 1.

Class Host := {
  getenv : str -> option str;
  file : str -> option str;      (** the content, if it can be opened *)
  explain : exn -> str;          (** [e.what()] *)
}.

Definition help_lines : list string := [
  "usage: ";
  "cryptstr -e [-c cipher] -k keysource";
  "cryptstr -d -k keysource";
  "  -c";
  "    specify the cipher to use (only for -e)";
  "  -d";
  "    decrypt (all newlines in the input will be ignored)";
  "  -e";
  "    encrypt";
  "  -k";
  "    key source, either file:PATH, env:ENV_VAR or val:VALUE";
  "";
  "    Reading from file is the more secure option. Encryption requires the file to be";
  "    readable only to the user.";
  "";
  "    The key may, but does not have to be a string. If -k file: is used, the data is read as octets up";
  "    until the key size or EOF.";
  "";
  "cryptstr reads from std input and writes to std coutput. The input may be any octet stream, but the coutput";
  "will always be a zero-terminated string.";
  "";
  "Apart from the key, the encrypted string contains all information required to decrypt it, so that";
  "the encrypted string is not bound to any implementation - with the key the data will always be recoverable.";
  "";
  "The key size depends on the cipher used (octet, 8 bits, or 'byte')";
  "  EVP_aes_128_gcm 16 octets";
  "  EVP_aes_192_gcm 24 octets";
  "  EVP_aes_256_gcm 32 octets (default)";
  "";
  "If the size of the -k specified key is less than the above key size, the key is repeated";
  "until all the octets are filled."]%string.

Definition printHelp (p : Process) : Process := say (concat (map (fun l => endl (lit l)) help_lines)) p.
Definition printErrorHelp (msg : str) (p : Process) : Process := printHelp (complain (endl (lit "cannot run, please " ++ msg)) p).

(** [ifs >> value]: the next word; without one the stream fails and [value] stays. *)
Fixpoint next_word (s : str) : str := match s with c :: r => if isspace c then [] else c :: next_word r | [] => [] end.
Definition extract_word (content value : str) : str := match skip_space content with [] => value | r => next_word r end.

Section Program.
Context `{Host}.

(** [inr code] is a call of [exit]. *)
Definition getKey (p : Process) : (bool + Z) * Process :=
  let o := options p in
  let finish (p' : Process) : (bool + Z) * Process := (inl (negb (str_eqb (key_value (options p')) [])), p') in
  if str_eqb (key_type o) (lit "env") then
    match getenv (key_value o) with
    | Some v => finish (set_key (key_type o) v p)
    | None => (inr EXIT_FAILURE, complain (endl (lit "unable to read environment variable '" ++ key_value o ++ lit "'")) p)
    end
  else if str_eqb (key_type o) (lit "file") then
    match file (key_value o) with
    | Some content => finish (set_key (key_type o) (extract_word content (key_value o)) p)
    | None => (inr EXIT_FAILURE, printErrorHelp (lit "make sure file '" ++ key_value o ++ lit "' can be read") p)
    end
  else finish p.

(** [case 'k'] *)
Definition parse_key (optarg : str) (p : Process) : (bool + Z) * Process :=
  let bad : (bool + Z) * Process := (inr EXIT_FAILURE, printErrorHelp (lit "specify a valid keysource") p) in
  match split optarg ":"%char with
  | [t; v] =>
      if (str_eqb t (lit "file") || str_eqb t (lit "env") || str_eqb t (lit "val")) && (0 <? zlen v)
      then getKey (set_key t v p) else bad
  | _ => bad
  end.

(** The loop over [getopt], which answers with one of the options or a question mark. *)
Fixpoint parseArgs (args : list (ascii * str)) (p : Process) : (bool + Z) * Process :=
  match args with
  | [] =>
      if zlen (key_value (options p)) =? 0 then (inl false, printErrorHelp (lit "specify a keysource") p) else getKey p
  | (opt, optarg) :: rest =>
      if opt =c "c"%char then
        let p' := set_cipher (string2Cipher optarg) p in
        match string2Cipher optarg with Invalid => (inr EXIT_FAILURE, printHelp p') | _ => parseArgs rest p' end
      else if opt =c "e"%char then parseArgs rest (set_encrypt true p)
      else if opt =c "d"%char then parseArgs rest (set_encrypt false p)
      else if opt =c "h"%char then (inr EXIT_SUCCESS, printHelp p)
      else if opt =c "k"%char then parse_key optarg p
      else (inr EXIT_FAILURE, printHelp p)
  end.

Context `{Allocator} `{OpenSSL} `{GCM}.

(** [input] is what the loop over [in.get] collects: all of standard input. *)
Definition encrypt (input : str) : X Process bool := fun p =>
  match (let! oa := completed (of_string input) in DataCrypt.encrypt (cipher (options p)) (key_value (options p)) oa) with
  | Ok text => (Ok true, say (endl text) p)
  | Throw e => (Throw e, p)
  | OutOfFuel => (OutOfFuel, p)
  end.

Definition decrypt (input : str) : X Process bool := fun p =>
  match (let! (rc, oa) := DataCrypt.decrypt (key_value (options p)) input Bytes_new in
         if rc =? 0 then let! s := asString oa in Ok (inl s) else Ok (inr rc)) with
  | Ok (inl s) => (Ok true, say s p)
  | Ok (inr rc) => (Ok false, complain (endl (lit (if rc =? 1 then "not a valid crypt string" else "decryption failure"))) p)
  | Throw e => (Throw e, p)
  | OutOfFuel => (OutOfFuel, p)
  end.

(** [main]: the exit code; [init] is what [dodo::initLibrary] does.  The assignment of
    the result of [encrypt] or [decrypt] to [rc] is overwritten. *)
Definition main (init : outcome unit) (args : list (ascii * str)) (input : str) : outcome Z * Process :=
  let run : X Process Z := fun p =>
    match init with
    | Ok _ =>
        match parseArgs args p with
        | (inr code, p') => (Ok code, p')
        | (inl false, p') => (Ok 0, p')
        | (inl true, p') => (let^ _ := if do_encrypt (options p') then encrypt input else decrypt input in xret 0) p'
        end
    | Throw e => (Throw e, p)
    | OutOfFuel => (OutOfFuel, p)
    end in
  match run Process_new with
  | (Throw (UndefinedBehaviour w), p) => (Throw (UndefinedBehaviour w), p)
  | (Throw e, p) => (Ok 1, complain (endl (explain e)) p)
  | r => r
  end.
End Program.

(** ** The key source *)

Section Keys.
Context `{Host}.

Definition key_source (k : str) : Prop := k = lit "file" \/ k = lit "env" \/ k = lit "val".

Lemma parse_key_source k v p : key_source k -> free_of ":"%char v = true -> v <> [] -> parse_key (k ++ ":"%char :: v) p = getKey (set_key k v p).
Proof.
  intros Hk Hv Hne. unfold parse_key. rewrite split_pair by (done || by destruct Hk as [ -> | [ -> | -> ] ]).
  assert ((0 <? zlen v) = true) as -> by (apply Z.ltb_lt; destruct v; [ done | rewrite zlen_cons; pose proof (zlen_nonneg v); lia ]).
  by destruct Hk as [ -> | [ -> | -> ] ].
Qed.

Lemma nonempty_eqb (s : str) : s <> [] -> negb (str_eqb s []) = true.
Proof. by destruct s. Qed.

(** A key given on the command line. *)
Lemma getKey_val v p : v <> [] -> getKey (set_key (lit "val") v p) = (inl true, set_key (lit "val") v p).
Proof. intros Hv. unfold getKey. cbn [options set_key set_options key_type key_value]. by rewrite (nonempty_eqb v Hv). Qed.

(** ** Theorems on the command line *)

(** What follows the key source on the command line has no effect: in
    [cryptstr -k source -d] the option is not seen, and the program encrypts. *)
Theorem options_after_key_ignored before optarg rest p : parseArgs (before ++ ("k"%char, optarg) :: rest) p = parseArgs (before ++ [("k"%char, optarg)]) p.
Proof.
  revert p. induction before as [ | [ o a ] before IH ]; intros p; [ done | ]. cbn [app parseArgs].
  destruct (string2Cipher a); repeat (case_bool; try done).
Qed.

(** The key that a command line gives: the value itself, the value of the environment
    variable or the first word of the file; an unset variable and a file that cannot be
    opened end the program with a failure.  An empty variable and no key source at all
    make [parseArgs] return false.  A file without a word leaves its own path as the
    key. *)
Theorem key_of_source k v p : key_source k -> free_of ":"%char v = true -> v <> [] ->
  let r := parseArgs [("k"%char, k ++ ":"%char :: v)] p in
  (k = lit "val" -> fst r = inl true /\ key_value (options (snd r)) = v) /\
  (k = lit "env" -> match getenv v with
                    | Some [] => fst r = inl false
                    | Some w => fst r = inl true /\ key_value (options (snd r)) = w
                    | None => fst r = inr EXIT_FAILURE
                    end) /\
  (k = lit "file" -> match file v with
                     | Some content => fst r = inl true /\
                         key_value (options (snd r)) = (if forallb isspace content then v else next_word (skip_space content))
                     | None => fst r = inr EXIT_FAILURE
                     end) /\
  fst (parseArgs [] Process_new) = inl false.
Proof.
  intros Hk Hv Hne r. assert (Er : r = getKey (set_key k v p)) by (unfold r; cbn [parseArgs]; by rewrite <- (parse_key_source k v p Hk Hv Hne)).
  rewrite Er. clear Er r. split_and!; [ | | | done ]; intros ->.
  - by rewrite (getKey_val v p Hne).
  - unfold getKey. cbn [options set_key set_options key_type key_value]. change (str_eqb (lit "env") (lit "env")) with true. cbv iota.
    by destruct (getenv v) as [ [ | c w ] | ].
  - unfold getKey. cbn [options set_key set_options key_type key_value]. change (str_eqb (lit "file") (lit "env")) with false.
    change (str_eqb (lit "file") (lit "file")) with true. cbv iota. destruct (file v) as [ content | ]; [ | done ]. cbn [fst snd options set_key set_options key_value].
    unfold extract_word. assert (Hs : if forallb isspace content then skip_space content = [] else exists c w, skip_space content = c :: w /\ isspace c = false).
    { induction content as [ | c content IH ]; cbn; [ done | ]. destruct (isspace c) eqn:Hc; cbn; [ exact IH | by exists c, content ]. }
    destruct (forallb isspace content).
    + rewrite Hs. by rewrite nonempty_eqb.
    + destruct Hs as (c & w & -> & Hc). cbn [next_word]. by rewrite Hc.
Qed.
End Keys.

(** ** Encrypting and decrypting *)

Section Pipeline.
Context `{Host} `{Allocator} `{OpenSSL} `{GCM} (memory : forall n, alloc_ok n = true).
Context (key : str) (Hkey : key <> []) (Hcolon : free_of ":"%char key = true).

Definition key_arg : ascii * str := ("k"%char, lit "val" ++ ":"%char :: key).
Definition args_e (c : Cipher) : list (ascii * str) := [("c"%char, cipher2String c); ("e"%char, []); key_arg].
Definition args_d : list (ascii * str) := [("d"%char, []); key_arg].

Definition started (c : Cipher) (e : bool) : Process := mkProcess (mkOptions c e (lit "val") key) [] [].

Lemma parse_args_e c : c <> Invalid -> parseArgs (args_e c) Process_new = (inl true, started c true).
Proof using Hkey Hcolon.
  intros Hc. unfold args_e, key_arg. cbn [parseArgs]. change ("c"%char =c "c"%char) with true. change ("e"%char =c "c"%char) with false.
  change ("e"%char =c "e"%char) with true. change ("k"%char =c "c"%char) with false. change ("k"%char =c "e"%char) with false.
  change ("k"%char =c "d"%char) with false. change ("k"%char =c "h"%char) with false. change ("k"%char =c "k"%char) with true. cbv iota.
  rewrite string2Cipher_print by done.
  assert (E : forall p, parse_key (lit "val" ++ ":"%char :: key) p = (inl true, set_key (lit "val") key p)).
  { intros p. rewrite parse_key_source by (done || by right; right). by apply getKey_val. }
  by destruct c; rewrite ?E.
Qed.

Lemma parse_args_d : parseArgs args_d Process_new = (inl true, started Default false).
Proof using Hkey Hcolon.
  unfold args_d, key_arg. cbn [parseArgs]. change ("d"%char =c "c"%char) with false. change ("d"%char =c "e"%char) with false. change ("d"%char =c "d"%char) with true.
  change ("k"%char =c "c"%char) with false. change ("k"%char =c "e"%char) with false.
  change ("k"%char =c "d"%char) with false. change ("k"%char =c "h"%char) with false. change ("k"%char =c "k"%char) with true. cbv iota.
  rewrite parse_key_source by (done || by right; right). by apply getKey_val.
Qed.

Lemma main_encrypts c plain text : c <> Invalid -> (let! oa := completed (of_string plain) in DataCrypt.encrypt c key oa) = Ok text ->
  main (Ok tt) (args_e c) plain = (Ok 0, say (endl text) (started c true)).
Proof using Hkey Hcolon.
  intros Hc E. unfold main. rewrite (parse_args_e c Hc). cbn [started options do_encrypt]. unfold encrypt, xbind. cbn [started options cipher key_value]. by rewrite E.
Qed.

(** A decryption that fails, because the input is no crypt string or because the key is
    wrong, is reported on standard error, writes nothing to standard output and ends
    the program with exit code 0, as success does. *)
Theorem failed_decryption_exits_zero input rc oa : DataCrypt.decrypt key input Bytes_new = Ok (rc, oa) -> rc <> 0 ->
  exists p, main (Ok tt) args_d input = (Ok 0, p) /\ cout p = [] /\
    cerr p = endl (if rc =? 1 then lit "not a valid crypt string" else lit "decryption failure").
Proof using Hkey Hcolon.
  intros E Hrc. apply Z.eqb_neq in Hrc. eexists. split.
  - unfold main. rewrite parse_args_d. cbn [started options do_encrypt]. unfold decrypt, xbind. cbn [started options key_value]. rewrite E. cbn [obind]. by rewrite Hrc.
  - split; [ done | ]. cbn [complain cerr started app]. by destruct (rc =? 1).
Qed.

(** The string of some octets: a zero at the end is dropped, one in the middle is an
    exception. *)
Fixpoint string_of (l : str) : option str :=
  match l with
  | [] => Some []
  | c :: r => if octet c =? 0 then match r with [] => Some [] | _ => None end else cons c <$> string_of r
  end.

Definition zero_inside : exn := DodoException (lit "Bytes contain an intermediate zero - string convesrion failed").

Lemma asString_of b l : rep b l -> asString b = match string_of l with Some s => Ok s | None => Throw zero_inside end.
Proof using Type.
  intros Hr. unfold asString. rewrite (rep_take _ _ Hr). pose proof (wf_cells b (rep_wf _ _ Hr)).
  destruct (Z.leb_spec (size_ b) (zlen (cells b))); [ | lia ]. clear. induction l as [ | c l IH ]; [ done | ].
  cbn [map asString_aux string_of]. destruct (octet c =? 0); cbn [negb]; [ by destruct l | ]. rewrite IH. by destruct (string_of l).
Qed.

Lemma opening_throws c k iv ct tag e : opening c k iv ct tag = Throw e -> exists m, e = DodoException m.
Proof using Type.
  unfold opening. case_bool; [ intros [= <-]; by eexists | ]. destruct (DecryptUpdate _ _ _) as [ rc out ].
  case_bool; [ intros [= <-]; by eexists | ]. by destruct (DecryptFinal _ _).
Qed.

(** What [cryptstr -d] does with the answer of the library to the opening: the exit code
    and what is written. *)
Definition decrypted (r : outcome (Z * str)) : outcome Z * Process :=
  let o := mkOptions Default false (lit "val") key in
  match r with
  | Ok (rc, l) =>
      if rc =? 0 then
        match string_of l with
        | Some s => (Ok 0, mkProcess o s [])
        | None => (Ok 1, mkProcess o [] (endl (explain zero_inside)))
        end
      else (Ok 0, mkProcess o [] (endl (lit "decryption failure")))
  | Throw e => (Ok 1, mkProcess o [] (endl (explain e)))
  | OutOfFuel => (OutOfFuel, Process_new)
  end.

Lemma main_decrypt_outcome input r :
  match r with
  | Ok (rc, l) => rc = 0 \/ rc = 2 -> exists oa, DataCrypt.decrypt key input Bytes_new = Ok (rc, oa) /\ rep oa l
  | Throw e => (exists m, e = DodoException m) /\ DataCrypt.decrypt key input Bytes_new = Throw e
  | OutOfFuel => False
  end -> (forall rc l, r = Ok (rc, l) -> rc = 0 \/ rc = 2) -> main (Ok tt) args_d input = decrypted r.
Proof using Hkey Hcolon.
  intros Hr Hrc. unfold main. rewrite parse_args_d. cbn [started options do_encrypt]. unfold decrypt, xbind. cbn [started options key_value].
  destruct r as [ [ rc l ] | e | ]; [ | | done ].
  - destruct (Hr (Hrc rc l eq_refl)) as (oa & -> & Hoa). cbn [obind decrypted]. destruct (Hrc rc l eq_refl) as [ -> | -> ]; [ | done ].
    change (0 =? 0) with true. cbv iota. rewrite (asString_of oa l Hoa). by destruct (string_of l).
  - destruct Hr as [ [ m -> ] -> ]. done.
Qed.

Context (c : Cipher) (plain iv : str) (Hc : c <> Invalid) (Hne : plain <> []) (Hsz : zlen plain < 2 ^ 31).
Context (Hiv : RAND_bytes 16 = Some iv) (Hivl : zlen iv = 16).
Context (Hb64 : forall d, zlen d <= zlen plain + 16 -> base64_ok d).

(** C32 [cryptstr -c cipher -e -k val:key | cryptstr -d -k val:key]: for every cipher, key
    without a colon and non-empty input that the library sealed, the first program prints
    one line, reports nothing and exits with 0.  The second, given that line, has the
    library open exactly what was sealed and does with its answer: if it accepts the tag,
    the octets it gives are printed and the exit code is 0, without a zero octet at their
    end; with a zero octet inside nothing is printed and the exit code is 1.  If it does
    not accept the tag, that is reported and the exit code is 0 all the same; if it
    refuses, the exception is reported and the exit code is 1. *)
Theorem cryptstr_pipeline k ct tag :
  paddedKey c key = Ok k -> sealed c k iv plain ct tag -> answers_fit c k iv ct tag ->
  exists text, main (Ok tt) (args_e c) plain = (Ok 0, mkProcess (mkOptions c true (lit "val") key) (endl text) []) /\
    main (Ok tt) args_d (endl text) = decrypted (opening c k iv ct tag).
Proof using All.
  intros Hk Hseal Hfit. destruct (of_string_rep plain ltac:(unfold size_limit; lia) (memory _)) as (src & Es & Hsrc).
  destruct (encrypted_opens memory c key src plain Bytes_new [] iv k ct tag) as (text & Ee & Hd); try done.
  exists text. split.
  - apply main_encrypts; [ done | ]. rewrite Es. exact Ee.
  - specialize (Hd newline eq_refl). apply main_decrypt_outcome.
    + destruct (opening c k iv ct tag) as [ [ r l ] | e | ] eqn:Eo; [ intros _; exact Hd | | exact Hd ].
      split; [ by eapply opening_throws | exact Hd ].
    + unfold opening. case_bool; [ done | ]. destruct (DecryptUpdate _ _ _) as [ rc out ]. case_bool; [ done | ].
      destruct (DecryptFinal _ _) as [ rc2 fin ]. intros r l [= <- _]. destruct (rc2 =? 1); [ by left | by right ].
Qed.
End Pipeline.

Module DemoCryptStr.
#[local] Instance demo_host : Host := {| getenv v := if str_eqb v (lit "KEY") then Some (lit "secret") else None;
  file f := if str_eqb f (lit "blank.key") then Some [] else if str_eqb f (lit "my.key") then Some (lit " secret word") else None; explain _ := lit "error" |}.
#[local] Existing Instances always_alloc toy_ssl toy_gcm.

Lemma cryptstr_pipeline_witness :
  exists text, main (Ok tt) (args_e (lit "secret") Default) (lit "hello") = (Ok 0, mkProcess (mkOptions Default true (lit "val") (lit "secret")) (endl text) []) /\
    main (Ok tt) (args_d (lit "secret")) (endl text) = (Ok 0, mkProcess (mkOptions Default false (lit "val") (lit "secret")) (lit "hello") []).
Proof.
  apply (@cryptstr_pipeline demo_host always_alloc toy_ssl toy_gcm (fun _ => eq_refl) (lit "secret") ltac:(done) eq_refl Default (lit "hello") (replicate 16 "r"%char))
    with (k := demo_key) (ct := lit "hello") (tag := replicate 16 "T"%char);
    [ done | done | reflexivity | reflexivity | reflexivity | intros d Hd; apply toy_base64_ok; exact Hd | by vm_compute | split_and!; reflexivity | split_and!; by vm_compute ].
Defined.

Lemma failed_decryption_exits_zero_witness : exists p, main (Ok tt) (args_d (lit "secret")) (lit "nonsense") = (Ok 0, p) /\ cout p = [] /\
  cerr p = endl (lit "not a valid crypt string").
Proof. apply (failed_decryption_exits_zero (lit "secret") ltac:(done) eq_refl (lit "nonsense") 1 Bytes_new); [ reflexivity | done ]. Defined.

Lemma key_of_source_witness :
  key_value (options (snd (parseArgs [("k"%char, lit "file:blank.key")] Process_new))) = lit "blank.key".
Proof.
  destruct (key_of_source (lit "file") (lit "blank.key") Process_new) as (_ & _ & Hf & _); [ by left | reflexivity | done | ].
  exact (proj2 (Hf eq_refl)).
Defined.
End DemoCryptStr.
