(* ===== verification/Guarded.v ===== *)
(** * Guarded: components that threads share

    Composes [Threads] with the components whose calls are guarded by a [Mutexer] for
    their whole duration: [Logger::log] of src/src/lib/common/logger.cpp and the calls of
    src/src/include/common/cache.hpp.

    A thread is a list of calls, and a call is a critical section of several statements.
    Whatever the interleaving of the statements, the outcome is that of the calls one at
    a time, in an order that keeps the order of every thread; what [Logger] and [Cache]
    prove of sequences of calls holds of threads that call them. *)

From S2P Require Import Prelude.
From S2P Require Import Calendar.
From S2P Require Import Cache.
From S2P Require Import Logger.
From S2P Require Import Threads.
From stdpp Require Import relations.

Local Open Scope Z_scope.

(** ** Calls and their order *)

Section Calls.
Context {Op : Type}.

(** [order] takes the calls of the threads one by one, each thread's in its order. *)
Inductive merged : list (list Op) -> list (nat * Op) -> Prop :=
| merged_done ops : Forall (fun q => q = []) ops -> merged ops []
| merged_call ops t o rest order : ops !! t = Some (o :: rest) -> merged (<[t := rest]> ops) order -> merged ops ((t, o) :: order).

Definition calls_of (t : nat) (order : list (nat * Op)) : list Op := map snd (List.filter (fun p => bool_decide (fst p = t)) order).

Lemma merged_calls_of ops order : merged ops order -> forall t q, ops !! t = Some q -> calls_of t order = q.
Proof.
  induction 1 as [ ops Hd | ops t o rest order Ht _ IH ]; intros u q Hq.
  - rewrite Forall_forall in Hd. symmetry. apply Hd. by eapply list_elem_of_lookup_2.
  - unfold calls_of in *. cbn [List.filter fst]. pose proof (lookup_lt_Some _ _ _ Ht). destruct (decide (t = u)) as [ -> | Hne ].
    + rewrite bool_decide_true by done. cbn [map snd]. rewrite Ht in Hq. injection Hq as <-. f_equal. apply IH. by apply list_lookup_insert_eq.
    + rewrite bool_decide_false by done. apply IH. by rewrite list_lookup_insert_ne.
Qed.

Lemma merged_from ops order : merged ops order -> forall p, In p order -> exists q, ops !! fst p = Some q /\ In (snd p) q.
Proof.
  intros Hm [ t o ] Hin. cbn. assert (Ho : In o (calls_of t order)).
  { unfold calls_of. apply in_map_iff. exists (t, o). split; [ done | ]. apply filter_In. split; [ done | by apply bool_decide_eq_true ]. }
  destruct (ops !! t) as [ q | ] eqn:Hq; [ exists q; split; [ done | ]; by rewrite <- (merged_calls_of ops order Hm t q Hq) | ].
  exfalso. clear Ho. induction Hm as [ | ops u o' rest order Hu _ IH ]; [ done | ]. destruct Hin as [ [= -> ->] | Hin ]; [ by rewrite Hu in Hq | ].
  apply IH; [ done | ]. apply lookup_ge_None. rewrite length_insert. by apply lookup_ge_None.
Qed.

(** ** Threads that run them *)

Context {S : Type} (meaning : nat -> Op -> S -> S) (body : nat -> Op -> @section S).
Context (body_ok : forall t o s, run_section (body t o) s = meaning t o s).

Definition programs (ops : list (list Op)) : list (list (@section S)) := imap (fun t => map (body t)) ops.
Definition run_order (order : list (nat * Op)) (s : S) : S := fold_left (fun s p => meaning (fst p) (snd p) s) order s.
Definition finished (sys : @System S) : Prop := Forall (fun w => w = mkWorker None []) (workers sys).

Lemma programs_insert ops t rest : programs (<[t := rest]> ops) = <[t := map (body t) rest]> (programs ops).
Proof.
  unfold programs. apply list_eq. intros i. rewrite list_lookup_imap. destruct (decide (i = t)) as [ -> | Hne ].
  - destruct (ops !! t) as [ q | ] eqn:Hq.
    + pose proof (lookup_lt_Some _ _ _ Hq). rewrite !list_lookup_insert_eq; [ done | by rewrite length_imap | done ].
    + apply lookup_ge_None in Hq. rewrite !list_insert_ge by (by rewrite ?length_imap). by rewrite list_lookup_imap, (proj2 (lookup_ge_None _ _) Hq).
  - by rewrite !list_lookup_insert_ne, list_lookup_imap by done.
Qed.

Lemma atomic_run_merged a b : rtc atomic_step a b -> forall s ops, a = start_system s (programs ops) -> finished b ->
  exists order, merged ops order /\ shared b = run_order order s.
Proof using body_ok.
  induction 1 as [ a | a a1 b (t & sec & rest & Hw & Ha1) _ IH ]; intros s ops -> Hf.
  - exists []. split; [ | done ]. constructor. apply Forall_forall. intros q Hq. apply list_elem_of_lookup in Hq as [ t Hq ].
    unfold finished in Hf. rewrite Forall_lookup in Hf. specialize (Hf t (mkWorker None (map (body t) q))). cbn in Hf.
    rewrite list_lookup_fmap in Hf. unfold programs in Hf. rewrite list_lookup_imap, Hq in Hf. specialize (Hf eq_refl). injection Hf as Hf. by destruct q.
  - cbn in Hw. rewrite list_lookup_fmap in Hw. unfold programs in Hw at 1. rewrite list_lookup_imap in Hw. destruct (ops !! t) as [ q | ] eqn:Hq; [ | done ].
    cbn in Hw. destruct q as [ | o q ]; [ done | ]. injection Hw as <- <-.
    destruct (IH (meaning t o s) (<[t := q]> ops)) as (order & Hm & Hs); [ | done | ].
    + rewrite Ha1, programs_insert. unfold start_system. cbn. f_equal; [ apply body_ok | ]. symmetry. apply list_fmap_insert.
    + exists ((t, o) :: order). split; [ by econstructor | exact Hs ].
Qed.

(** Threads that make guarded calls, interleaved at their statements: an execution that
    cannot go on has made all calls, and has left the state that the calls leave made one
    at a time in some order, in which every thread's calls are in the thread's order. *)
Lemma guarded_calls_linearize s ops sys : rtc step (start_system s (programs ops)) sys -> (forall sys', ~ step sys sys') ->
  finished sys /\ exists order, merged ops order /\ shared sys = run_order order s /\ (forall t q, ops !! t = Some q -> calls_of t order = q).
Proof using body_ok.
  intros Hr Hstuck. destruct (steps_refine _ _ Hr _ (start_refines s (programs ops))) as (a & Ha & Href).
  assert (Hfin : finished sys).
  { apply Forall_lookup. intros t [ i td ] Hw. destruct (decide (i = None /\ td = [])) as [ [ -> -> ] | Hn ]; [ done | ]. exfalso.
    destruct (some_step sys a t _ Href Hw) as (sys' & Hs); [ | by apply (Hstuck sys') ]. cbn.
    destruct i, td; try tauto; by (left || right). }
  split; [ done | ]. destruct (atomic_run_merged _ _ Ha s ops eq_refl) as (order & Hm & Hs).
  - destruct Href as [ _ Hm ]. destruct (mutex_ (mutex sys)) as [ o | ] eqn:Ho.
    + destruct Hm as (sec & more & rest & Hw & _). unfold finished in Hfin. rewrite Forall_lookup in Hfin. by specialize (Hfin _ _ Hw).
    + destruct Hm as (_ & _ & Hws). unfold finished. by rewrite Hws.
  - exists order. split_and!; [ done | | by apply merged_calls_of ]. rewrite <- Hs. destruct Href as [ _ Hm' ].
    destruct (mutex_ (mutex sys)) as [ o | ]; [ | by destruct Hm' as (_ & -> & _) ].
    destruct Hm' as (sec & more & rest & Hw & _). unfold finished in Hfin. rewrite Forall_lookup in Hfin. by specialize (Hfin _ _ Hw).
Qed.
End Calls.

(** ** Logging from several threads *)

Section LogThreads.
Context `{env : LogEnv} (tid : nat -> Z) (p : FileParams) (name app_name : str).

(** The environment as thread [t] sees it: [gettid] answers the thread's own id. *)
Definition on (t : nat) : LogEnv := {|
  clock := clock; gethostname := gethostname; gettid := tid t; stat_directory := stat_directory; stat_writable := stat_writable;
  can_open := can_open; can_rename := can_rename; can_unlink := can_unlink; regex_match := regex_match |}.

(** The logger and its world are shared; [entry] is a variable of each thread. *)
Definition LogState : Type := (Logger * World) * gmap nat str.

(** A statement of thread [t] that assigns [entry], and one that does not. *)
Definition assigns (t : nat) (m : X (Logger * World) str) : @statement LogState := fun '(s, entry) =>
  match m s with (Ok e, s') => ((s', <[t := e]> entry), false) | (_, s') => ((s', entry), true) end.
Definition uses (t : nat) (m : str -> X (Logger * World) unit) : @statement LogState := fun '(s, entry) =>
  match m (default [] (entry !! t)) s with (Ok _, s') => ((s', entry), false) | (_, s') => ((s', entry), true) end.

(** The body of [log]: [std::string entry], and the three conditional statements. *)
Definition log_console (t : nat) (level : LogLevel) (message : str) : X (Logger * World) str :=
  let^ cl := level_of Console in
  if level_le level cl then
    let^ e := @formatMessage (on t) (Ok app_name) level message in
    let^ _ := put_world (fun w => mkWorld (files w) (console w ++ [e]) (syslogged w) (ticks w)) in
    xret e
  else xret [].
Definition log_to_file (t : nat) (level : LogLevel) (message entry : str) : X (Logger * World) unit :=
  let^ lg := get_logger in
  if negb (Z.lor (destinations_ lg) File =? 0) then
    let^ fl := level_of File in
    if level_le level fl then @log_file (on t) (Ok app_name) level message entry else xret tt
  else xret tt.
Definition log_to_syslog (t : nat) (level : LogLevel) (message : str) : X (Logger * World) unit :=
  let^ lg := get_logger in
  if negb (Z.lor (destinations_ lg) Syslog =? 0) then
    let^ sl := level_of Syslog in
    if level_le level sl && level_le level Info then @log_syslog (on t) (Ok app_name) level message else xret tt
  else xret tt.

Definition log_body (t : nat) (m : LogLevel * str) : @section LogState :=
  [ assigns t (xret []); assigns t (log_console t (fst m) (snd m)); uses t (log_to_file t (fst m) (snd m)); uses t (fun _ => log_to_syslog t (fst m) (snd m)) ].

(** What a call leaves of the shared state; the variables are not looked at any more. *)
Definition after_call (t : nat) (m : LogLevel * str) (s : LogState) : LogState := run_section (log_body t m) s.

Lemma run_assigns t m rest s entry : run_section (assigns t m :: rest) (s, entry) =
  match m s with (Ok e, s') => run_section rest (s', <[t := e]> entry) | (_, s') => (s', entry) end.
Proof. cbn. by destruct (m s) as [ [ e | x | ] s' ]. Qed.
Lemma run_uses t m rest s entry : run_section (uses t m :: rest) (s, entry) =
  match m (default [] (entry !! t)) s with (Ok _, s') => run_section rest (s', entry) | (_, s') => (s', entry) end.
Proof. cbn. by destruct (m (default [] (entry !! t)) s) as [ [ e | x | ] s' ]. Qed.

(** The section is [log] of the sequential model. *)
Lemma log_body_runs t m s entry : fst (run_section (log_body t m) (s, entry)) = snd (@log (on t) (Ok app_name) (fst m) (snd m) s).
Proof.
  destruct m as [ level message ], s as [ lg w ]. cbn [fst snd]. unfold log_body, log. cbn [fst snd]. rewrite run_assigns. cbv beta iota delta [xret].
  rewrite run_assigns. unfold log_console. rewrite !(xbind_ok _ _ _ _ _ (level_of_run Console lg w)). set (c := if level_le level _ then _ else _).
  set (lg0 := set_level Console _ lg). unfold xbind at 1. destruct (c (lg0, w)) as [ [ e | x | ] [ lg1 w1 ] ]; [ | done | done ].
  rewrite run_uses, lookup_insert_eq. cbn [default from_option]. unfold log_to_file. do 2 erewrite xbind_ok by reflexivity. rewrite !joined_flags by done. cbn [negb].
  set (f := (let^ fl := level_of File in _)). unfold xbind at 1. destruct (f (lg1, w1)) as [ [ [] | x | ] [ lg2 w2 ] ]; [ | done | done ].
  rewrite run_uses. unfold log_to_syslog. erewrite xbind_ok by reflexivity. rewrite joined_flags by done. cbn [negb].
  set (g := (let^ sl := level_of Syslog in _)). by destruct (g (lg2, w2)) as [ [ [] | x | ] [ lg3 w3 ] ].
Qed.

(** ** What the destinations get *)

Context (Hp : placed p name) (Htime : forall n, valid_time (clock n)).

Lemma placed_on t : @placed (on t) p name.
Proof using Hp. destruct Hp. by split. Qed.

(** The entry of a message of thread [t], with the thread's id and some reading of the clock. *)
Definition entry_by (lg : Logger) (q : nat * (LogLevel * str)) (e : str) : Prop :=
  exists n, e = @entry_text (on (fst q)) app_name lg (clock n) (fst (snd q)) (snd (snd q)).
Definition line_by (f : Z) (q : nat * (LogLevel * str)) : Z * str := @syslog_line (on (fst q)) app_name f (snd q).
Definition wanted (d : Logger -> LogLevel * str -> bool) (lg : Logger) (order : list (nat * (LogLevel * str))) : list (nat * (LogLevel * str)) :=
  List.filter (fun q => d lg (snd q)) order.

Definition deliverable (f : Z) (lg : Logger) (q : nat * (LogLevel * str)) : Prop :=
  (to_syslog lg (snd q) = true -> facility lg = Some f) /\ forall n, fits p (@entry_text (on (fst q)) app_name lg (clock n) (fst (snd q)) (snd (snd q))).

Lemma wanted_same a b order : same_logger a b -> wanted to_console b order = wanted to_console a order /\
  wanted to_file b order = wanted to_file a order /\ wanted to_syslog b order = wanted to_syslog a order.
Proof using Type.
  intros Hs. unfold wanted. split_and!; apply List.filter_ext; intros q; unfold to_console, to_file, to_syslog; by rewrite (proj1 Hs).
Qed.

Lemma entries_by_same a b qs es : same_logger a b -> Forall2 (entry_by b) qs es -> Forall2 (entry_by a) qs es.
Proof using Type. intros Hs Hf. eapply Forall2_impl; [ exact Hf | ]. intros q e [ n -> ]. exists n. by apply same_entry. Qed.

Lemma deliverable_same f a b q : same_logger a b -> deliverable f a q -> deliverable f b q.
Proof using Type.
  intros Hs [ Hf Hfit ]. split.
  - unfold to_syslog. rewrite (proj1 Hs), (proj2 (proj2 Hs)). exact Hf.
  - intros n. rewrite (same_entry app_name a b) by done. apply Hfit.
Qed.

Lemma order_delivered f order : forall lg w entry content, tracked p name lg w content -> Forall (deliverable f lg) order ->
  exists lg' w' entry' shown written, run_order after_call order ((lg, w), entry) = ((lg', w'), entry') /\
    Forall2 (entry_by lg) (wanted to_console lg order) shown /\ console w' = console w ++ shown /\
    syslogged w' = syslogged w ++ map (line_by f) (wanted to_syslog lg order) /\
    Forall2 (entry_by lg) (wanted to_file lg order) written /\ tracked p name lg' w' (fold_left (file_append p) written content).
Proof using Hp Htime.
  induction order as [ | [ t [ level message ] ] order IH ]; intros lg w entry content Ht Hd.
  { exists lg, w, entry, [], []. rewrite !app_nil_r. by split_and!. }
  apply Forall_cons in Hd as [ [ Hf Hfit ] Hd ]. cbn [fst snd] in Hf, Hfit.
  destruct (@log_step (on t) p name app_name (placed_on t) Htime f level message lg w content Ht Hf Hfit) as (lg1 & w1 & n & Hrun & Hs & Hc & Hy & Ht1).
  pose proof (log_body_runs t (level, message) (lg, w) entry) as Hb. cbn [fst snd] in Hb. rewrite Hrun in Hb.
  destruct (IH lg1 w1 (snd (after_call t (level, message) (lg, w, entry))) _ Ht1) as (lg2 & w2 & entry2 & shown & written & Hrun2 & Hsh & Hc2 & Hy2 & Hw & Ht2).
  { eapply Forall_impl; [ exact Hd | ]. intros q. by apply deliverable_same. }
  destruct (wanted_same lg lg1 order Hs) as (E1 & E2 & E3). rewrite E1 in Hsh. rewrite E2 in Hw. rewrite E3 in Hy2. apply (entries_by_same lg lg1) in Hsh, Hw; [ | done | done ].
  set (e := @entry_text (on t) app_name lg (clock n) level message) in *. set (q := (t, (level, message))).
  exists lg2, w2, entry2, ((if to_console lg (level, message) then [e] else []) ++ shown), ((if to_file lg (level, message) then [e] else []) ++ written).
  assert (He : entry_by lg q e) by (by exists n). unfold wanted in *. cbn [List.filter fst snd q]. rewrite Hc2, Hy2, Hc, Hy, <- !(assoc_L (++)). split_and!; [ | | done | | | ].
  - rewrite <- Hrun2. unfold run_order. cbn [fold_left fst snd q]. f_equal. change (run_section (log_body t (level, message)) (lg, w, entry)) with (after_call t (level, message) (lg, w, entry)) in Hb.
    destruct (after_call t (level, message) (lg, w, entry)) as [ s en ]. cbn [fst snd] in Hb |- *. by rewrite Hb.
  - destruct (to_console lg (level, message)); [ by constructor | done ].
  - by destruct (to_syslog lg (level, message)).
  - destruct (to_file lg (level, message)); [ by constructor | done ].
  - by destruct (to_file lg (level, message)).
Qed.

(** C31 Threads that log concurrently, their calls interleaved at the statements of [log], to
    a logger whose log file is open on a path of the shape of [placed] and whose facility
    is set if one of the messages is for the system log, as every fatal message is: an
    execution that cannot go on has made all calls, and there is one order of the messages,
    which keeps the order of every thread, in which each destination got exactly the
    messages of its level or more severe, each whole and with the id of its thread; the log
    file holds what arrived since it was last over its limit, and its recorded size is
    exact. *)
Theorem concurrent_logging f msgs lg w content sys : tracked p name lg w content ->
  (forall t ms m, msgs !! t = Some ms -> In m ms -> deliverable f lg (t, m)) ->
  rtc step (start_system ((lg, w), ∅) (programs log_body msgs)) sys -> (forall sys', ~ step sys sys') ->
  finished sys /\ exists order lg' w' shown written, merged msgs order /\ (forall t ms, msgs !! t = Some ms -> calls_of t order = ms) /\
    fst (shared sys) = (lg', w') /\
    Forall2 (entry_by lg) (wanted to_console lg order) shown /\ console w' = console w ++ shown /\
    syslogged w' = syslogged w ++ map (line_by f) (wanted to_syslog lg order) /\
    Forall2 (entry_by lg) (wanted to_file lg order) written /\ tracked p name lg' w' (fold_left (file_append p) written content).
Proof using Hp Htime.
  intros Ht Hd Hr Hstuck. destruct (guarded_calls_linearize after_call log_body (fun _ _ _ => eq_refl) _ msgs sys Hr Hstuck) as (Hfin & order & Hm & Hs & Ho).
  split; [ done | ]. destruct (order_delivered f order lg w ∅ content Ht) as (lg' & w' & entry' & shown & written & Hrun & H1 & H2 & H3 & H4 & H5).
  - apply Forall_forall. intros [ t m ] Hq. apply list_elem_of_In in Hq. destruct (merged_from msgs order Hm (t, m) Hq) as (ms & Hms & Hin). by apply (Hd t ms m).
  - exists order, lg', w', shown, written. split_and!; [ exact Hm | exact Ho | exact (f_equal fst (eq_trans Hs Hrun)) | exact H1 | exact H2 | exact H3 | exact H4 | exact H5 ].
Qed.
End LogThreads.

(** ** A cache that threads share *)

Section CacheThreads.
Context {Key Value : Type} `{Countable Key} (load : Key -> Value -> bool * Value) (now : nat -> Z).
Abbreviation Cache := (@Cache Key Value _ _).

(** The calls of a thread; [get] takes the value its out parameter holds. *)
Inductive request : Type := Get (key : Key) (v0 : Value) | Erase (key : Key) | Clear.

(** The cache, the readings of the clock so far, and of each thread whether [find] found
    the key. *)
Definition CacheState : Type := (Cache * nat) * gmap nat bool.
Definition put_cache (s : Cache) (st : CacheState) : CacheState := ((s, snd (fst st)), snd st).
Definition found (t : nat) (st : CacheState) : bool := default false (snd st !! t).

(** [find] and the counters.  A call has three readings of the clock to take. *)
Definition get_find (t : nat) (key : Key) : @statement CacheState := fun '((s, n), i) =>
  match cache_ s !! key with
  | Some _ => (((set_counters (u64 (hits_ s + 1)) (load_ s) (expired_ s) s, n + 3)%nat, <[t := true]> i), false)
  | None => (((set_counters (hits_ s) (u64 (load_ s + 1)) (expired_ s) s, n + 3)%nat, <[t := false]> i), false)
  end.
(** An expired entry is loaded again; [return false] if that fails. *)
Definition get_refresh (t : nat) (key : Key) : @statement CacheState := fun st =>
  let '((s, n), _) := st in
  if found t st then
    match cache_ s !! key with
    | Some e =>
        if expired_at (now (n - 3)) e s then
          let (r, v) := load key (value e) in
          if r then (put_cache (set_counters (hits_ s) (load_ s) (u64 (expired_ s + 1))
                       (set_maps (<[key := mkCacheEntry (now (n - 2)) (hit_time e) v]> (cache_ s)) (lrumap_ s) s)) st, false)
          else (put_cache (set_maps (<[key := mkCacheEntry (load_time e) (hit_time e) v]> (cache_ s)) (lrumap_ s) s) st, true)
        else (st, false)
    | None => (st, false)
    end
  else (st, false).
(** The hit: the time of the entry, its place in the LRU list, and [return true]. *)
Definition get_touch (t : nat) (key : Key) : @statement CacheState := fun st =>
  let '((s, n), _) := st in
  if found t st then
    match cache_ s !! key with
    | Some e =>
        let e2 := mkCacheEntry (load_time e) (now (n - 1)) (value e) in
        (put_cache (updateLRU key e2 (hit_time e) (set_maps (<[key := e2]> (cache_ s)) (lrumap_ s) s)) st, true)
    | None => (st, false)
    end
  else (st, false).
(** The miss: load, [return false] if that fails, insert; then evict. *)
Definition get_insert (key : Key) (v0 : Value) : @statement CacheState := fun st =>
  let '((s, n), _) := st in
  let (r, v) := load key v0 in
  if r then let e := mkCacheEntry (now (n - 2)) (now (n - 1)) v in
            (put_cache (addLRU key e (set_maps (<[key := e]> (cache_ s)) (lrumap_ s) s)) st, false)
  else (st, true).
Definition get_evict : @statement CacheState := fun st =>
  let '((s, _), _) := st in
  if max_size_ s <? Z.of_nat (size (cache_ s)) then
    match removeLRU s with Ok s' => (put_cache s' st, false) | _ => (st, true) end
  else (st, false).

(** [erase]: first the LRU list, then the map; [clear]: first the map. *)
Definition erase_lru (key : Key) : @statement CacheState := fun st =>
  let s := fst (fst st) in
  match cache_ s !! key with
  | Some e => (put_cache (set_maps (cache_ s) (default (lrumap_ s) (lru_erase (hit_time e) key (lrumap_ s))) s) st, false)
  | None => (st, true)
  end.
Definition erase_map (key : Key) : @statement CacheState := fun st =>
  let s := fst (fst st) in (put_cache (set_maps (delete key (cache_ s)) (lrumap_ s) s) st, false).
Definition clear_map : @statement CacheState := fun st => let s := fst (fst st) in (put_cache (set_maps ∅ (lrumap_ s) s) st, false).
Definition clear_lru : @statement CacheState := fun st => let s := fst (fst st) in (put_cache (set_maps (cache_ s) [] s) st, false).

Definition request_body (t : nat) (r : request) : @section CacheState :=
  match r with
  | Get key v0 => [get_find t key; get_refresh t key; get_touch t key; get_insert key v0; get_evict]
  | Erase key => [erase_lru key; erase_map key]
  | Clear => [clear_map; clear_lru]
  end.

(** The same call in the sequential model, with the readings it takes, and how many these are. *)
Definition timed (n : nat) (r : request) : @call Key Value :=
  match r with Get key v0 => CallGet key v0 (now n) (now (n + 1)) (now (n + 2)) | Erase key => CallErase key | Clear => CallClear end.
Definition readings (r : request) : nat := match r with Get _ _ => 3 | _ => 0 end.
Fixpoint timed_calls (n : nat) (order : list (nat * request)) : list (@call Key Value) :=
  match order with [] => [] | q :: rest => timed n (snd q) :: timed_calls (n + readings (snd q)) rest end.

Lemma readings_at n : (n + 3 - 3 = n /\ n + 3 - 2 = n + 1 /\ n + 3 - 1 = n + 2)%nat.
Proof. lia. Qed.

(** The sections are the calls of the sequential model. *)
Lemma get_found_runs t key v0 s n i e s' : cache_ s !! key = Some e -> Cache.step load (timed n (Get key v0)) s = Ok s' ->
  fst (run_section (request_body t (Get key v0)) ((s, n), i)) = (s', n + 3)%nat.
Proof.
  intros He Hs. cbn [Cache.step timed request_body run_section] in *. unfold get in Hs. rewrite He in Hs. unfold get_find at 1. rewrite He.
  unfold get_refresh at 1, found. cbn [snd]. rewrite lookup_insert_eq. cbn [default from_option id cache_ set_counters]. rewrite He.
  destruct (readings_at n) as (E3 & E2 & E1). rewrite E3, E2. change (expired_at (now n) e (set_counters (u64 (hits_ s + 1)) (load_ s) (expired_ s) s)) with (expired_at (now n) e s).
  destruct (expired_at (now n) e s).
  - destruct (load key (value e)) as [ [] v ]; cbn [obind] in Hs; injection Hs as <-; [ | done ].
    cbv beta iota zeta. unfold get_touch at 1, found, put_cache. cbn [fst snd]. rewrite lookup_insert_eq. cbn [default from_option id cache_ set_counters set_maps]. rewrite lookup_insert_eq, E1.
    unfold updateLRU. cbn [lrumap_ set_maps set_counters cache_ hit_time load_time value]. by destruct (lru_erase _ _ _); rewrite insert_insert_eq.
  - cbn [obind] in Hs. injection Hs as <-. cbv beta iota zeta. unfold get_touch at 1, found, put_cache. cbn [fst snd]. rewrite lookup_insert_eq. cbn [default from_option id cache_ set_counters]. by rewrite He, E1.
Qed.

Lemma get_missing_runs t key v0 s n i s' : cache_ s !! key = None -> Cache.step load (timed n (Get key v0)) s = Ok s' ->
  fst (run_section (request_body t (Get key v0)) ((s, n), i)) = (s', n + 3)%nat.
Proof.
  intros He Hs. cbn [Cache.step timed request_body run_section] in *. unfold get in Hs. rewrite He in Hs. unfold get_find at 1. rewrite He.
  unfold get_refresh at 1, found. cbn [snd]. rewrite lookup_insert_eq. cbn [default from_option id].
  cbv beta iota zeta. unfold get_touch at 1, found. cbn [snd]. rewrite lookup_insert_eq. cbn [default from_option id].
  destruct (readings_at n) as (E3 & E2 & E1). cbv beta iota zeta. unfold get_insert at 1. rewrite E2, E1. destruct (load key v0) as [ [] v ]; [ | by injection Hs as <- ].
  cbv beta iota zeta. unfold get_evict, put_cache. cbn [fst snd] in *. set (s2 := addLRU key _ _) in *. destruct (max_size_ s2 <? Z.of_nat (size (cache_ s2))); [ | by injection Hs as <- ].
  destruct (removeLRU s2) as [ s3 | | ]; [ | done | done ]. by injection Hs as <-.
Qed.

Lemma request_runs t r s n i s' : Cache.step load (timed n r) s = Ok s' -> fst (run_section (request_body t r) ((s, n), i)) = (s', n + readings r)%nat.
Proof.
  destruct r as [ key v0 | key | ]; cbn [readings].
  - destruct (cache_ s !! key) as [ e | ] eqn:He; [ by eapply get_found_runs | by apply get_missing_runs ].
  - rewrite Nat.add_0_r. intros [= <-]. cbn. unfold erase_lru, erase. cbn [fst]. destruct (cache_ s !! key) as [ e | ]; [ | done ]. cbn.
    by destruct (lru_erase (hit_time e) key (lrumap_ s)).
  - rewrite Nat.add_0_r. by intros [= <-].
Qed.

Definition after_request (t : nat) (r : request) (st : CacheState) : CacheState := run_section (request_body t r) st.

Lemma requests_run order : forall s n i s', calls load (timed_calls n order) s = Ok s' -> fst (fst (run_order after_request order ((s, n), i))) = s'.
Proof.
  induction order as [ | [ t r ] order IH ]; intros s n i s'; cbn; [ by intros [= ->] | ]. destruct (Cache.step load (timed n r) s) as [ s1 | | ] eqn:E; [ | done | done ].
  cbn [obind]. intros Hc. unfold run_order. cbn [fold_left fst snd]. pose proof (request_runs t r s n i s1 E) as Hr.
  change (run_section (request_body t r) (s, n, i)) with (after_request t r (s, n, i)) in Hr. destruct (after_request t r (s, n, i)) as [ sn i' ]. cbn [fst] in Hr. subst sn.
  by apply IH.
Qed.

Lemma clock_from_mono (cs : list (@call Key Value)) : forall a b, a <= b -> clock_from b cs -> clock_from a cs.
Proof using Type. clear load. induction cs as [ | [ k v t1 t2 t3 | k | ] cs IH ]; intros a b Hab; cbn [clock_from]; [ done | lia || intuition lia | by apply IH | by apply IH ]. Qed.

Context (Hnow : forall n, now n <= now (S n)).

Lemma now_step n k : now n <= now (n + k)%nat.
Proof using Hnow. induction k as [ | k IH ]; [ by rewrite Nat.add_0_r | ]. rewrite Nat.add_succ_r. etrans; [ exact IH | apply Hnow ]. Qed.

Lemma timed_clock order : forall n, clock_from (now n) (timed_calls n order).
Proof using Hnow.
  induction order as [ | [ t r ] order IH ]; intros n; cbn [timed_calls]; [ exact I | ]. specialize (IH (n + readings r)%nat).
  destruct r; cbn [snd timed clock_from readings] in *; rewrite ?Nat.add_0_r in IH |- *; [ | done | done ].
  pose proof (now_step n 1) as H1. pose proof (now_step (n + 1) 1) as H2. pose proof (now_step (n + 2) 1) as H3.
  replace (n + 1 + 1)%nat with (n + 2)%nat in H2 by lia. replace (n + 2 + 1)%nat with (n + 3)%nat in H3 by lia.
  split_and!; [ done | done | done | ]. by eapply clock_from_mono.
Qed.

(** C36 Threads that share a cache and call [get], [erase] and [clear], interleaved at the
    statements of these: an execution that cannot go on has made all calls, and has left
    the cache that the calls leave one at a time, in an order that keeps the order of every
    thread.  It is well formed, with each key in the LRU list exactly once under its last
    use, and holds no more entries than its maximum. *)
Theorem concurrent_cache max_size life_time reqs sys : 0 <= max_size -> 0 <= now 0 ->
  rtc step (start_system ((Cache_new max_size life_time, 0%nat), ∅) (programs request_body reqs)) sys -> (forall sys', ~ step sys sys') ->
  finished sys /\ exists order, merged reqs order /\ (forall t q, reqs !! t = Some q -> calls_of t order = q) /\
    let s := fst (fst (shared sys)) in
    calls load (timed_calls 0 order) (Cache_new max_size life_time) = Ok s /\ cache_inv s /\ Z.of_nat (size (cache_ s)) <= max_size.
Proof using Hnow.
  intros Hmax H0 Hr Hstuck. destruct (guarded_calls_linearize after_request request_body (fun _ _ _ => eq_refl) _ reqs sys Hr Hstuck) as (Hfin & order & Hm & Hs & Ho).
  split; [ done | ]. exists order. split; [ done | ]. split; [ done | ]. cbv zeta.
  destruct (calls_bounded load (timed_calls 0 order) (Cache_new max_size life_time) 0) as (s' & Hc & Hinv & _ & Hl); [ done | apply cache_inv_new | constructor | done | | ].
  { eapply clock_from_mono; [ exact H0 | ]. apply timed_clock. }
  assert (E : fst (fst (shared sys)) = s') by (rewrite <- (requests_run order _ 0%nat ∅ s' Hc); exact (f_equal (fun st => fst (fst st)) Hs)).
  rewrite E. split_and!; [ done | done | ]. rewrite (inv_size s' Hinv). unfold Cache.order in Hl. by rewrite length_map in Hl.
Qed.
End CacheThreads.

(** ** Concrete executions *)

Section Schedules.
Context {S : Type}.

Fixpoint scheduled (sched : list nat) (sys : @System S) : option (@System S) :=
  match sched with
  | [] => Some sys
  | t :: rest => match worker_step t sys with Ok (Some sys') => scheduled rest sys' | _ => None end
  end.

Lemma scheduled_steps sched : forall sys sys', scheduled sched sys = Some sys' -> rtc step sys sys'.
Proof.
  induction sched as [ | t sched IH ]; intros sys sys'; cbn; [ by intros [= ->] | ]. destruct (worker_step t sys) as [ [ sys1 | ] | | ] eqn:Ht; try done.
  intros Hr. eapply rtc_l; [ by exists t | by apply IH ].
Qed.

Lemma finished_stuck (sys : @System S) : finished sys -> forall sys', ~ step sys sys'.
Proof.
  intros Hf sys' [ t Ht ]. unfold worker_step in Ht. destruct (workers sys !! t) as [ w | ] eqn:Hw; [ | done ].
  unfold finished in Hf. rewrite Forall_lookup in Hf. by rewrite (Hf _ _ Hw) in Ht.
Qed.
End Schedules.

Module DemoGuarded.
Import DemoLogger.
Definition tids (t : nat) : Z := 100 + Z.of_nat t.
Definition demo_msgs : list (list (LogLevel * str)) := [[(Error, lit "e"); (Debug, lit "d")]; [(Info, lit "i")]].
Definition demo_state : LogState := ((demo_logger (Some 8), demo_world), ∅).
Definition demo_body : nat -> LogLevel * str -> @section LogState := log_body tids (lit "app").
Definition demo_start : @System LogState := start_system demo_state (programs demo_body demo_msgs).
Definition demo_schedule : list nat := replicate 6 0%nat ++ replicate 6 1%nat ++ replicate 6 0%nat.
Definition demo_end : @System LogState := default demo_start (scheduled demo_schedule demo_start).

Lemma demo_end_run : scheduled demo_schedule demo_start = Some demo_end.
Proof. vm_compute. reflexivity. Qed.
Lemma demo_end_finished : finished demo_end.
Proof. unfold finished. vm_compute. repeat constructor. Qed.

Lemma demo_deliverable m : In m [(Error, lit "e"); (Debug, lit "d"); (Info, lit "i")] -> forall t, (t < 2)%nat -> deliverable tids demo_params (lit "app") 8 (demo_logger (Some 8)) (t, m).
Proof.
  intros Hm t Ht. split; [ done | ]. intros n. destruct t as [ | [ | t ] ]; [ | | lia ]; destruct Hm as [ <- | [ <- | [ <- | [] ] ] ]; vm_compute; reflexivity.
Qed.

Lemma concurrent_logging_witness : exists order, merged demo_msgs order /\ calls_of 0 order = [(Error, lit "e"); (Debug, lit "d")].
Proof.
  destruct (concurrent_logging tids demo_params demo_name (lit "app") demo_placed demo_valid 8 demo_msgs (demo_logger (Some 8)) demo_world (lit "abc") demo_end)
    as (_ & order & _ & _ & _ & _ & Hm & Ho & _).
  - exact (demo_tracked (Some 8)).
  - intros [ | [ | t ] ] ms m Hms Hin; [ | | done ]; injection Hms as <-; apply demo_deliverable; cbn [In] in *; [ tauto | lia | tauto | lia ].
  - exact (scheduled_steps demo_schedule _ _ demo_end_run).
  - exact (finished_stuck _ demo_end_finished).
  - exists order. split; [ exact Hm | by apply Ho ].
Defined.

Definition demo_reqs : list (list (@request Z Z)) := [[Get 1 0; Get 2 0]; [Erase 1; Get 3 0]].
Definition ticking (n : nat) : Z := Z.of_nat n.
Definition cache_start : @System (@CacheState Z Z _ _) := start_system ((Cache_new 2 0, 0%nat), ∅) (programs (request_body demo_load ticking) demo_reqs).
Definition cache_schedule : list nat := replicate 7 0%nat ++ replicate 4 1%nat ++ replicate 7 0%nat ++ replicate 7 1%nat.
Definition cache_end : @System (@CacheState Z Z _ _) := default cache_start (scheduled cache_schedule cache_start).

Lemma cache_end_run : scheduled cache_schedule cache_start = Some cache_end.
Proof. vm_compute. reflexivity. Qed.
Lemma cache_end_finished : finished cache_end.
Proof. unfold finished. vm_compute. repeat constructor. Qed.

Lemma concurrent_cache_witness : exists order, merged demo_reqs order /\ Z.of_nat (size (cache_ (fst (fst (shared cache_end))))) <= 2.
Proof.
  destruct (concurrent_cache demo_load ticking ltac:(intros n; unfold ticking; lia) 2 0 demo_reqs cache_end) as (_ & order & Hm & _ & _ & _ & Hsize).
  - lia.
  - done.
  - exact (scheduled_steps cache_schedule _ _ cache_end_run).
  - exact (finished_stuck _ cache_end_finished).
  - exists order. split; [ exact Hm | exact Hsize ].
Defined.
End DemoGuarded.
