(* ===== verification/Statistics.v ===== *)
(** * Statistics: what the listener reports of itself

    Models [TCPListener::logStats] of src/src/lib/network/tcplistener.cpp with the text of
    its messages: the rates in double precision ([Double]), the resource usage of the
    listener's and the servers' threads ([Threads]), inserted in a [Puts].

    [TCPSystem] has the effect of the same function on the listener, with times in
    seconds; [logStats_agrees] relates the two. *)

From Stdlib Require Import QArith.
From S2P Require Import Prelude.
From S2P Require Import TCPServer.
From S2P Require Import TCPListener.
From S2P Require Import TCPSystem.
From S2P Require Import Calendar.
From S2P Require Import Double.
From S2P Require Import Puts.
From S2P Require Import Logger.
From S2P Require Import Threads.

Local Open Scope Z_scope.

(** What [logStats] reads and writes of the listener; times with their microseconds. *)
Record Reporter : Type := mkReporter {
  r_params : Params;
  r_last : Stats;
  r_prev : Stats;
  r_refused : Z;                       (** [event_maxconnections_reached_] *)
  r_now : timeval;
  r_stat_time : timeval;
  r_prev_stat_time : timeval;
  r_thread : Life;
}.

(** A server as the report sees it. *)
Record Serving : Type := mkServing { sv_thread : Thread; sv_busy : bool; sv_state : ServerState }.

Definition state_number (st : ServerState) : Z :=
  match st with
  | ssWait => 0 | ssAwoken => 1 | ssHandshake => 2 | ssHandshakeDone => 3 | ssReadSocket => 4
  | ssReadSocketDone => 5 | ssShutdown => 6 | ssShutdownDone => 7 | ssReleaseWork => 8 | ssReleaseWorkDone => 9
  end.

Section Report.
Context `{ThreadEnv} (nan : str).

(** [Puts() << ..] *)
Definition puts (l : list (Puts -> Puts)) : str := puts_string (fold_left (fun p f => f p) l Puts_new).
Definition c (s : string) : Puts -> Puts := put_cstring (lit s).
Abbreviation d := (put_double nan).

Definition due (r : Reporter) : bool := stat_trc_interval_s (r_params r) + tv_sec (r_stat_time r) <? tv_sec (r_now r).

(** [(double)( last_stats_.x - prev_stats_.x ) / getSecondDiff( prev_stat_time_, stat_time_ )] *)
Definition rate (r : Reporter) (count : Stats -> Z) : double :=
  ddiv (to_double (s64 (count (r_last r) - count (r_prev r)))) (getSecondDiff (r_prev_stat_time r) (r_stat_time r)).

Definition warning_line (r : Reporter) : str :=
  puts [c "TCPListener maxconnections="; put_unsigned_long (maxconnections (r_params r)); c " limited "; put_unsigned_long (r_refused r); c " times since last stats"].

Definition listener_line (clients servers queued : Z) (x : (Stats -> Z) -> double) : str :=
  puts [c "TCPListener #clients="; put_unsigned_long clients; c " #servers="; put_unsigned_long servers; c " #queued="; put_unsigned_long_long queued;
        c " recv="; d (ddiv (x received) (to_double 1024)); c "KiB/s sent="; d (ddiv (x sent) (to_double 1024));
        c "KIB/s conn="; d (x connections); c "/s req="; d (x requests); c "/s throttle="; d (x throttles); c "/s"].

(** The rates of a thread, which both of the other messages have. *)
Definition thread_rates (t : Thread) : list (Puts -> Puts) :=
  [d (getLastUserCPU t); c " scpu="; d (getLastSysCPU t); c " minflt="; d (getLastMinFltRate t); c "/s"; c " majflt="; d (getLastMajFltRate t); c "/s";
   c " bi="; d (getLastBlkInRate t); c "/s"; c " bo="; d (getLastBlkOutRate t); c "/s"; c " yield="; d (getLastVCtx t); c "/s"; c " ctxsw="; d (getLastICtx t); c "/s"].

Definition usage_line (t : Thread) : str :=
  puts (put_setprecision 2 :: c "TCPListener ucpu=" :: thread_rates t ++ [c " maxrss="; put_long (getMaxRSS t)]).

Definition server_line (sv : Serving) : str :=
  puts (put_setprecision 2 :: c "TCPServer id " :: put_int (tid_ (sv_thread sv)) :: c (if sv_busy sv then " busy-" else " idle-") ::
        put_int (state_number (sv_state sv)) :: c " ucpu=" :: thread_rates (sv_thread sv)).

Definition logStats (clients queued : Z) (servers : list Serving) (tod : timeval) (r : Reporter) : Reporter * list (LogLevel * str) :=
  if due r then
    let self := snapRUsage (r_thread r) in
    (mkReporter (r_params r) (r_last r) (r_last r) 0 (r_now r) tod (r_stat_time r) self,
     (if r_refused r =? 0 then [] else [(Warning, warning_line r)]) ++
     (Statistics, listener_line clients (zlen servers) queued (rate r)) ::
     (Statistics, usage_line (object self)) ::
     map (fun sv => (Statistics, server_line sv)) servers)
  else (r, []).

(** ** The state in the system of threads *)

Definition agrees (r : Reporter) (l : Listener) : Prop :=
  r_params r = params_ l /\ r_last r = last_stats_ l /\ r_prev r = prev_stats_ l /\ r_refused r = event_maxconnections_reached_ l /\
  tv_sec (r_now r) = now_ l /\ tv_sec (r_stat_time r) = stat_time_ l /\ tv_sec (r_prev_stat_time r) = prev_stat_time_ l.

Lemma logStats_agrees clients queued servers tod r l : agrees r l -> agrees (fst (logStats clients queued servers tod r)) (TCPSystem.logStats (tv_sec tod) l).
Proof.
  intros (E1 & E2 & E3 & E4 & E5 & E6 & E7). unfold logStats, TCPSystem.logStats, due. rewrite <- E1, <- E5, <- E6. destruct (_ <? _); by split_and!.
Qed.

(** ** What the rates are rates of *)

(** The counters and the clock some time later. *)
Definition later (last : Stats) (refused : Z) (now : timeval) (self : Life) (r : Reporter) : Reporter :=
  mkReporter (r_params r) last (r_prev r) refused now (r_stat_time r) (r_prev_stat_time r) self.

(** C35 A report and the next one: the second is due only more than the interval after the
    first, and what it gives as rates is what was counted since the first report, divided
    by the time between the first report and the one before it.  Neither the time of the
    second report nor the time since the first has any influence. *)
Theorem rates_of_previous_interval clients queued servers clients' queued' servers' tod1 tod2 last refused now self r0 :
  due r0 = true -> let r1 := fst (logStats clients queued servers tod1 r0) in let r2 := later last refused now self r1 in
  due r2 = true ->
  tv_sec tod1 + stat_trc_interval_s (r_params r0) < tv_sec now /\
  In (Statistics, listener_line clients' (zlen servers') queued'
        (fun count => ddiv (to_double (s64 (count last - count (r_last r0)))) (getSecondDiff (r_stat_time r0) tod1)))
     (snd (logStats clients' queued' servers' tod2 r2)).
Proof.
  intros Hd r1 r2 Hd2. assert (E : r1 = mkReporter (r_params r0) (r_last r0) (r_last r0) 0 (r_now r0) tod1 (r_stat_time r0) (snapRUsage (r_thread r0))).
  { unfold r1, logStats. by rewrite Hd. }
  split.
  - unfold due, r2 in Hd2. rewrite E in Hd2. cbn in Hd2. apply Z.ltb_lt in Hd2. lia.
  - unfold logStats. rewrite Hd2. cbn [snd]. apply in_or_app. right. left. unfold r2. rewrite E. reflexivity.
Qed.

(** Every report is one line for the listener, one for its resources and one for each
    server, preceded by a warning exactly if connections were refused since the last. *)
Theorem report_lines clients queued servers tod r : due r = true ->
  let (r', msgs) := logStats clients queued servers tod r in
  zlen msgs = 2 + zlen servers + (if r_refused r =? 0 then 0 else 1) /\ r_refused r' = 0 /\
  (In (Warning, warning_line r) msgs <-> r_refused r <> 0) /\
  (forall m, In m msgs -> fst m = Statistics \/ m = (Warning, warning_line r)).
Proof.
  intros Hd. unfold logStats. rewrite Hd. set (tail := _ :: _ :: map _ servers).
  assert (Ht : forall m, In m tail -> fst m = Statistics).
  { intros m [ <- | [ <- | Hm ] ]; [ done | done | ]. apply in_map_iff in Hm as (sv & <- & _). done. }
  assert (Hl : zlen tail = 2 + zlen servers) by (unfold tail, zlen; cbn [length]; rewrite length_map; lia).
  split_and!.
  - rewrite zlen_app, Hl. destruct (r_refused r =? 0); [ change (zlen []) with 0 | change (zlen [(Warning, warning_line r)]) with 1 ]; lia.
  - done.
  - rewrite in_app_iff. destruct (Z.eqb_spec (r_refused r) 0) as [ E | E ]; [ | split; [ done | by left; left ] ].
    split; [ intros [ [] | Hm ]; by specialize (Ht _ Hm) | done ].
  - intros m Hm. apply in_app_or in Hm as [ Hm | Hm ]; [ | left; by apply Ht ]. destruct (r_refused r =? 0); [ done | ]. destruct Hm as [ <- | [] ]. by right.
Qed.
End Report.

(** ** The first report *)

Module DemoStatistics.
Import DemoThread.
#[local] Existing Instance demo_env.

(** A listener that started at second 1000, as [run] sets its times, and has accepted two
    connections a second until its first report is due. *)
Definition first_reporter : Reporter :=
  mkReporter (mkParams 2 4 3 128 16384 32768 (300 # 1) 16 200 4000 40 300 0 0 true) (mkStats 602 0 0 0 0) Stats_new 0
    (mkTimeval 1301 0) (mkTimeval 1000 0) (mkTimeval 999 0) (Thread_new 0).

(** .. is said to have had 602 a second. *)
Example first_report_overstates : nth_error (map snd (snd (logStats (lit "nan") 1 0 [] (mkTimeval 1301 0) first_reporter))) 0 =
  Some (lit "TCPListener #clients=1 #servers=0 #queued=0 recv=0.000KiB/s sent=0.000KIB/s conn=602.000/s req=0.000/s throttle=0.000/s").
Proof. vm_compute. reflexivity. Qed.

Lemma rates_of_previous_interval_witness :
  In (Statistics, listener_line (lit "nan") 1 0 0 (fun count => ddiv (to_double (s64 (count (mkStats 702 0 0 0 0) - count (r_last first_reporter))))
                                                             (getSecondDiff (mkTimeval 1000 0) (mkTimeval 1301 0))))
     (snd (logStats (lit "nan") 1 0 [] (mkTimeval 1602 0)
        (later (mkStats 702 0 0 0 0) 0 (mkTimeval 1602 0) (Thread_new 0) (fst (logStats (lit "nan") 1 0 [] (mkTimeval 1301 0) first_reporter))))).
Proof.
  apply (rates_of_previous_interval (lit "nan") 1 0 [] 1 0 [] (mkTimeval 1301 0) (mkTimeval 1602 0) (mkStats 702 0 0 0 0) 0 (mkTimeval 1602 0) (Thread_new 0) first_reporter);
    reflexivity.
Defined.

Lemma report_lines_witness : zlen (snd (logStats (lit "nan") 1 0 [] (mkTimeval 1301 0) first_reporter)) = 2.
Proof. apply (report_lines (lit "nan") 1 0 [] (mkTimeval 1301 0) first_reporter). reflexivity. Defined.
End DemoStatistics.
